(* ===== verification/_CoqProject ===== *)
-Q . S2P
Prelude.v
GoStrings.v
GoText.v
GoNet.v
Identity.v
Config.v
Endpoints.v
Election.v
Cycle.v
Render.v
Apply.v
Host.v
DataPlane.v
Fault.v
Readiness.v
Reload.v
Runner.v
NodePass.v
Group.v
TunnelAddresses.v
Discovery.v
Members.v
Kube.v
XrdGen.v
Forwards.v
LinkConfig.v
Status.v
Records.v
LinkID.v
Effects.v
ProviderCRDs.v
Warnings.v
Deletion.v
LinkObjects.v
Responder.v
Watches.v
Setup.v
Ensure.v
Workloads.v
Secrets.v
Composite.v
XGateway.v
FleetPass.v
Controller.v
Processes.v
Store.v
ApiTypes.v
