(* ===== verification/Prelude.v ===== *)
(** * wireguard-gateway-operator: a verification library

    The program exposes Kubernetes Services through gateways in Google Cloud. An
    _operator_ (internal/controller, internal/gcpmembers, internal/gcpdiscovery)
    turns a Gateway object into cloud members, tunnel addresses and a runtime config
    for a _link_ (internal/link, cmd/gateway-link). The link runs as replicas on the
    cluster's nodes; the one holding a Lease programs WireGuard interfaces, policy
    routing and an nftables ruleset, one slot per member, and publishes its state as
    annotations on the Lease. The operator reads them back into the Gateway's status.

    ** Files, and the code they model (paths under src/internal)

    - [Prelude]: results, machine integers, durations, canonical sorting, tactics.
    - [GoStrings], [GoText], [GoNet]: what the program uses of Go's strings, strconv,
      path, net and netip: decimal and hexadecimal text, trimming, splitting, joining
      paths, IPv4/IPv6 parsing, CIDRs.
    - [Identity]: link/identity.go, the node-global names of a (link id, slot) pair.
    - [Config]: link/config.go, the runtime config and [validate].
    - [Endpoints]: link/endpoints.go, the endpoint watcher as state and steps, endpoint
      selection, the election's inputs.
    - [Election]: the decisions and gate loops of link/election.go.
    - [Cycle]: the concurrent part of link/election.go, leadership cycles as a
      transition system over the critical sections of the code.
    - [Render]: link/render.go and its templates, as lines of text.
    - [Apply]: link/apply.go, command plans and their execution over an abstract world.
    - [Host]: execCommand, linkNames and wgShowHandshakes, the runner under the plans.
    - [DataPlane]: link/dataplane.go and teardown.go, the record of held slots.
    - [Fault]: link/fault.go, fault messages and Lease annotation writes with retries.
    - [Readiness]: link/readiness.go and leaselock.go, the readiness answers.
    - [Reload]: link/reconcile.go and newLeaderReconcile of link/link.go.
    - [Runner]: Run of link/link.go and the loop of runElection, over many [Cycle]s.
    - [NodePass]: the apply closure of Run, [Apply] inside [DataPlane], from [Runner]'s start.
    - [Group]: the goroutines Run starts and waits for.
    - [TunnelAddresses]: controller/gcp_zones.go and slotAddress of gcpmembers.
    - [Discovery]: gcpdiscovery/client.go, one discovery pass.
    - [Members]: gcpmembers/reconcile.go, the membership pass over the Deps interface,
      with [RecordStore] stating what it relies on from an implementation.
    - [Kube]: Kubernetes objects as metadata and a JSON tree.
    - [Forwards]: controller/forwards.go and the accessors of controller/link.go.
    - [LinkConfig]: the runtime config controller/link.go writes for the link.
    - [Status]: linkStatusOf, readyPrecedence and the dirty tracker.
    - [Records]: gcpmembers/records.go, the Secret encoding of member records and the
      Deps implementation on the API server.
    - [LinkID]: ensureLinkID of controller/link.go as a protocol between Gateways.
    - [Effects]: handlers as computations whose every API call may fail.
    - [Warnings]: the suppressed warning events.
    - [Deletion]: reconcileDelete and the release of the finalizer.
    - [LinkObjects], [Responder]: the objects of a link and of a health responder.
    - [Watches]: the map functions of the controller's watches.
    - [Setup]: SetupWithManager's table of watches, the cache's selection, and what an
      event of the API server does through them.
    - [Ensure]: the hash gate, server-side apply, ensureLink, ensureGatewayResponder.
    - [Workloads]: a type of the objects those two apply.
    - [Secrets]: the WireGuard key Secrets.
    - [Composite]: the composite of controller/xgateway.go, the structs of
      crossplane/gcp/xgatewaygcp.gen.go it is filled into and the schema they come from.
    - [XGateway]: controller/xgateway.go, dns.go and the roster of members.go.
    - [FleetPass]: controller/members.go and gcp_credentials.go.
    - [Controller]: Reconcile of controller/gateway_controller.go, composing the above,
      its deletion branch on the same objects.
    - [Processes]: the start-up of cmd/gateway-operator and cmd/gateway-link with
      internal/config, internal/logger and internal/wg.
    - [Store], [ApiTypes]: pkg/api/v1alpha1, the API's structs in a shared store of
      pointers, slices and maps, and their generated deep copies.
    - [XrdGen], [ProviderCRDs]: the build tools tools/xrdgen and tools/providercrds.

    ** How code is modelled

    A Go function that returns (value, error) is a [result]; an error is a constructor
    per return, or its text where the code matches on text. Mutable objects are
    records passed along; a map is a [gmap], a set of names a [gset], and ranging over
    a map is iteration in an arbitrary order that the theorems show is irrelevant. Where
    sharing is the point, in [ApiTypes], values are references into a store.
    int, int32, uint32 and uint64 arithmetic wraps explicitly ([wrap64], [u32], ...)
    wherever the code computes; times and durations are nanoseconds. Processes, files,
    the Kubernetes API, the Compute API, JSON and SHA-256 are parameters: functions on
    an abstract world, with what the code relies on stated as hypotheses or as the laws
    of a class: [RecordStore] for a record store, [ApiServer] for reads and writes of
    Secrets (reads answer from a cached view beside the stored one, which may lag), [ServerSideApply] for an apply's effect on the live object, [KeepsText]
    and [KeepsLeaf] for what an apply preserves, [SetsCondition] for status conditions,
    [EventLib] for controller-runtime's predicates and handlers, [KernelFiles] (a
    link's sysctls keep what was written) and [Iproute] for the link's host, [SlotObjects] and [CreatesNamed] for what ip(8)
    deletes and creates, [ErrGroup] for the error group, [ApiCopies] for the deep copies
    of the structs the API embeds.
    The hash gate is proved for hashes that tell apart the objects it compares. A pass
    of the operator is a computation that stops at its first error with what it wrote so
    far; every call takes its outcome from an oracle, and a failed write may or may not
    have taken effect. Concurrency appears where the code has it: the watcher
    and the leadership cycle are step relations, and their invariants are proved by
    induction over reachable states. A nil dereference is [None], and the theorems
    show the reachable states never produce one. Strings are bytes; [ToLower] is
    Go's on ASCII text, which is what Kubernetes and Compute names are.

    ** What the theorems show

    - Isolation on the node: no two slots of any Gateways share an interface, mark or
      routing table ([Identity]); one slot's failure never decides another's outcome
      ([Apply]); every slot with objects on the node stays on record until its teardown
      succeeded, for any apply that programs only what it reports ([DataPlane]), which the
      program's own does, from the start of the process on ([NodePass]); every slot's names and numbers fit the kernel's bounds
      ([Identity]); the link's own runner gives its plans what they rely on ([Host]).
    - Configuration: [validate] accepts exactly the configs the data plane can
      program; rendering is total, deterministic, and complete per slot and forward.
    - Election: at most one less-fit node among the live enters per view, the entry and hand-off
      loops act only after their conditions held for the configured time, and a cycle
      is torn down on purpose or on evidence ([Election]); a leadership cycle never
      applies and fences at the same time, releases the Lease only after fencing unless
      a bounded wait ran out (and then fences after it), and its end terminates
      ([Cycle]).
    - Endpoints: selection is the least candidate in any store order, a snapshot
      partitions the forwards, no change signal is lost ([Endpoints]); a reload never
      drops a programmed forward because a watch is unsynced, within the grace it has to
      sync, and repeats until it succeeds everywhere ([Reload]).
    - Reporting: a reconcile without error published the fault it computed, unless the
      Lease is another replica's ([Reload]); fault writes never touch that one ([Fault]);
      the operator's pass makes the published fault the Gateway's Ready reason, after
      the spec's own faults ([Controller]); readiness is characterised.
    - Fleet: slots have distinct usable tunnel addresses below the capacity; no two
      members are given one slot, even by failed passes, while the cached reads show the
      stored records ([stale_read_shares_slot] is what happens when they do not); a slot is released only
      after its cloud resources are confirmed gone; absence is debounced; the program's
      own store refines the one the pass is proved against, and records survive their
      encoding ([Records]); a failed discovery changes no record ([FleetPass]).
    - Operator: no two Local Gateways hold one link id ([LinkID]); the config written
      is accepted by the link exactly when its address and peers are usable ([LinkConfig]); a link's objects settle at what was built
      along any run of edits the watches report, failures and restarts, and an edit of
      an applied object leads back to its Gateway ([Ensure]); those objects are typed
      and refer only to each other ([Workloads]); the two ends of a tunnel hold matching
      keys unless the bundle is lost or a read is stale ([Secrets]); a fleet survives
      outages of its view over whole passes ([XGateway], [Controller]); the finalizer
      outlives everything it guards, and its release removes exactly the link's workload,
      Lease and binding ([Deletion], [Controller]); nothing is provisioned for a Gateway
      without a valid forward, and Ready is shown only with all it stands for
      ([Controller]).
    - Process: [runElection] never returns with a data plane no fence ran for, and a
      shutdown always ends ([Runner]); Run waits for every goroutine and is never left
      half alive ([Group]); the operator's manager runs only with its watches
      registered ([Processes]).
    - Types: an object handed out as a deep copy shares nothing with the original
      ([ApiTypes]); what the operator writes into its composite fits the composite's
      schema, and what fits is always read back ([XGateway]).
    - Tools: the CRD tool writes nothing before it found everything, writes VERSION
      last, and leaves at worst the beginning of a file whose write failed
      ([ProviderCRDs]); the type generator passes on exactly the definition's
      schemas and leaves no temporary file ([XrdGen]).

    ** Fuel

    [digits] prints in [digit_fuel n] steps, one more than the number's binary length.
    [ipv6_groups] runs once per group of the text. [collect] is given three steps more
    than the addresses it may return: each step returns one or skips one of the two
    taken addresses. [publish] recurses on the attempts its retry policy allows. Every
    other recursion is structural.

    ** Limits

    Cached reads are whatever an oracle shows; a theorem that needs them to have caught
    up with the server says so, and a lemma shows what a stale read does: in [Members]
    ([caught_up]; [stale_read_shares_slot]), in [Secrets] ([secrets_shown];
    [stale_read_splits_keys]), in [Controller] ([fleet_read]; [stale_read_shrinks_fleet]).
    The runs of [Ensure] read the API server's current objects, as the label-scoped cache
    shows them. An edit the watches do not report, of
    a link workload's owner references alone, is outside those runs:
    [owner_edit_unrepaired] shows what it does. A pass takes its link id as the outcome of
    [LinkID]'s protocol. The late [endCycle] calls of a finished cycle are dropped when
    the next one starts; [finished_inert] shows they can no longer touch anything.

    ** Not modelled

    client-go's elector and informers, the HTTP servers and fsnotify are libraries whose
    events the step relations and oracles stand for. [Group] runs the goroutines of [Run]
    as the states of their loops; what a reload pass and the forward watch do to the
    endpoint watcher they share is in [Reload] and [Endpoints], not in those steps. The
    mocks and the test harness, which is no part of the running system, are left out, and
    so are the schemas in the API types' markers. *)

From stdpp Require Export base decidable list gmap strings sorting fin_maps.
From Stdlib Require Export ZArith Lia Ascii.
From Corelib Require Export ssreflect_rw.

#[global] Open Scope Z_scope.

(** ** Results: Go's (value, error) pairs

    A Go function returning [(T, error)] is a [result E T]: exactly one of the
    two components is meaningful at every return of the modelled code. *)
Inductive result (E A : Type) : Type :=
| Ok (a : A)
| Err (e : E).
Arguments Ok {E A} a.
Arguments Err {E A} e.

Definition res_bind {E A B} (m : result E A) (k : A -> result E B) : result E B :=
  match m with Ok a => k a | Err e => Err e end.

Declare Scope go_scope.
Delimit Scope go_scope with go.
Notation "x <-! m ;; k" := (res_bind m (fun x => k))
  (at level 100, m at next level, right associativity, only parsing) : go_scope.
Notation "'guard' b 'else' e ;; k" := (if b then k else Err e)
  (at level 100, b at next level, e at next level, right associativity, only parsing) : go_scope.
#[global] Open Scope go_scope.

Definition is_ok {E A} (m : result E A) : bool :=
  match m with Ok _ => true | Err _ => false end.

Lemma res_bind_ok {E A B} (m : result E A) (k : A -> result E B) b :
  res_bind m k = Ok b <-> exists a, m = Ok a /\ k a = Ok b.
Proof. destruct m; naive_solver. Qed.

Lemma guard_ok {E A} (b : bool) (e : E) (k : result E A) a :
  (if b then k else Err e) = Ok a <-> b = true /\ k = Ok a.
Proof. destruct b; naive_solver. Qed.

(** ** Development tactics *)

(** Case on every [match]/[if] scrutinee of the goal, keeping the equations. *)
Ltac split_matches := repeat (case_match; simplify_eq/=).

(** Peel a successful [result] computation in hypothesis [H]. *)
Ltac inv_ok H :=
  repeat first
    [ apply res_bind_ok in H; let a := fresh "a" in let Ha := fresh "Ha" in
      destruct H as (a & Ha & H)
    | apply guard_ok in H; let Hg := fresh "Hg" in destruct H as [Hg H] ];
  simplify_eq/=.

(** Turn boolean tests in the context into propositions. *)
Ltac bool_prop :=
  repeat match goal with
  | H : (_ && _)%bool = true |- _ => apply andb_true_iff in H; destruct H
  | H : (_ || _)%bool = true |- _ => apply orb_true_iff in H
  | H : negb _ = true |- _ => apply negb_true_iff in H
  | H : negb _ = false |- _ => apply negb_false_iff in H
  | H : (_ && _)%bool = false |- _ => apply andb_false_iff in H
  | H : (_ || _)%bool = false |- _ => apply orb_false_iff in H; destruct H
  | H : bool_decide _ = true |- _ => apply bool_decide_eq_true in H
  | H : bool_decide _ = false |- _ => apply bool_decide_eq_false in H
  | H : (_ <=? _) = true |- _ => apply Z.leb_le in H
  | H : (_ <=? _) = false |- _ => apply Z.leb_gt in H
  | H : (_ <? _) = true |- _ => apply Z.ltb_lt in H
  | H : (_ <? _) = false |- _ => apply Z.ltb_ge in H
  | H : (_ =? _) = true |- _ => apply Z.eqb_eq in H
  | H : (_ =? _) = false |- _ => apply Z.eqb_neq in H
  end.

Create HintDb gw discriminated.
Create Rewrite HintDb gw.

(** ** Machine integers: Go's [int]/[int64], [int32] and [uint32] *)
Definition wrap64 (z : Z) : Z := (z + 2 ^ 63) mod 2 ^ 64 - 2 ^ 63.
Definition wrap32 (z : Z) : Z := (z + 2 ^ 31) mod 2 ^ 32 - 2 ^ 31.
Definition u32 (z : Z) : Z := z mod 2 ^ 32.
Definition u64 (z : Z) : Z := z mod 2 ^ 64.

Definition int64_ok (z : Z) : Prop := - 2 ^ 63 <= z < 2 ^ 63.
Definition int32_ok (z : Z) : Prop := - 2 ^ 31 <= z < 2 ^ 31.

Lemma wrap64_id z : int64_ok z -> wrap64 z = z.
Proof. unfold wrap64, int64_ok. intros. rewrite Z.mod_small; lia. Qed.

Lemma wrap32_id z : int32_ok z -> wrap32 z = z.
Proof. unfold wrap32, int32_ok. intros. rewrite Z.mod_small; lia. Qed.

Lemma wrap64_range z : int64_ok (wrap64 z).
Proof.
  unfold wrap64, int64_ok.
  pose proof (Z.mod_pos_bound (z + 2 ^ 63) (2 ^ 64) ltac:(lia)). lia.
Qed.

(** ** Time

    A [time.Time] is an instant in nanoseconds; [None] is Go's zero time, the
    value [IsZero] recognises. [time_sub] is [Time.Sub], which saturates at the
    bounds of [time.Duration]. *)
Definition second : Z := 1000000000.
Definition millisecond : Z := 1000000.

Definition time_sub (t u : Z) : Z :=
  Z.max (- 2 ^ 63) (Z.min (2 ^ 63 - 1) (t - u)).

Lemma time_sub_ge t u d :
  - 2 ^ 63 < d < 2 ^ 63 -> (d <=? time_sub t u) = (d <=? t - u).
Proof.
  intros. unfold time_sub. apply eq_true_iff_eq. rewrite !Z.leb_le. lia.
Qed.

Lemma time_sub_lt t u d :
  - 2 ^ 63 < d < 2 ^ 63 -> (time_sub t u <? d) = (t - u <? d).
Proof.
  intros. unfold time_sub. apply eq_true_iff_eq. rewrite !Z.ltb_lt. lia.
Qed.

(** ** Lists *)
Lemma NoDup_map_inj {A B} (f : A -> B) l :
  (forall x y, x ∈ l -> y ∈ l -> f x = f y -> x = y) -> NoDup l -> NoDup (f <$> l).
Proof.
  intros Hinj Hnd. induction Hnd as [|x l Hx Hnd IH]; [constructor|].
  rewrite fmap_cons. constructor.
  - intros (y & Hxy & Hy)%list_elem_of_fmap.
    apply Hx. rewrite (Hinj x y); set_solver.
  - apply IH. set_solver.
Qed.

(** A sorting routine for the total, antisymmetric orders Go's [slices.Sort]
    is used with. The result does not depend on the order of the input, which
    is how the code makes map iteration deterministic. *)
Section Sorting.
Context {A : Type} (R : relation A) `{!RelDecision R}.
Context `{!Transitive R, !Total R, !AntiSymm (=) R}.

Lemma merge_sort_canonical l1 l2 :
  l1 ≡ₚ l2 -> merge_sort R l1 = merge_sort R l2.
Proof using All.
  intros Hp. eapply (Sorted_unique R); try apply Sorted_merge_sort; try done.
  by rewrite !merge_sort_Permutation.
Qed.
End Sorting.

Lemma elem_of_merge_sort {A} (R : relation A) `{!RelDecision R} x l : x ∈ merge_sort R l <-> x ∈ l.
Proof. by rewrite merge_sort_Permutation. Qed.

(** Removing duplicates through a Go map: [map[K]struct{}] followed by a sorted
    walk of its keys. *)
Definition sorted_strings (s : gset string) : list string :=
  merge_sort String.le (elements s).

Lemma elem_of_sorted_strings x s : x ∈ sorted_strings s <-> x ∈ s.
Proof. unfold sorted_strings. rewrite elem_of_merge_sort by apply _. apply elem_of_elements. Qed.

Lemma NoDup_sorted_strings s : NoDup (sorted_strings s).
Proof. unfold sorted_strings. rewrite merge_sort_Permutation. apply NoDup_elements. Qed.

Lemma Sorted_sorted_strings s : StronglySorted String.le (sorted_strings s).
Proof. apply StronglySorted_merge_sort; apply _. Qed.

Definition sorted_ints (s : gset Z) : list Z := merge_sort Z.le (elements s).

Lemma elem_of_sorted_ints x s : x ∈ sorted_ints s <-> x ∈ s.
Proof. unfold sorted_ints. rewrite elem_of_merge_sort by apply _. apply elem_of_elements. Qed.

Lemma NoDup_sorted_ints s : NoDup (sorted_ints s).
Proof. unfold sorted_ints. rewrite merge_sort_Permutation. apply NoDup_elements. Qed.

#[export] Hint Resolve NoDup_sorted_strings Sorted_sorted_strings NoDup_sorted_ints : gw.
#[export] Hint Rewrite elem_of_sorted_strings elem_of_sorted_ints : gw.

(** Go's zero-valued map read [m[k]]. *)
Definition map_get {V} (d : V) (m : gmap string V) (k : string) : V := default d (m !! k).
