(* ===== verification/GoStrings.v ===== *)
(** * Go's string and integer formatting routines

    The parts of [strings], [strconv] and [fmt] the operator uses, over
    [string] as Go's byte strings: [Itoa], the [%08x] verb, [ParseInt] and
    [ParseUint], [ToLower] (ASCII, the only case the code depends on),
    [TrimSpace], [Fields], [Cut], [Split], [Contains] and [Join]. The theorems
    are the round trip of formatting and parsing and the injectivity facts the
    name-derivation proofs of the other files need. *)

From S2P Require Import Prelude.

(** ** Strings as lists of bytes *)
Definition chars (s : string) : list ascii := String.list_ascii_of_string s.
Definition of_chars (l : list ascii) : string := String.string_of_list_ascii l.

(** [%q] of a string without quotes, backslashes or control characters. *)
Definition quoted (s : string) : string := String "034"%char (s +:+ String "034"%char "").

(** [strconv.FormatBool] *)
Definition FormatBool (b : bool) : string := if b then "true" else "false".

Lemma chars_of_chars l : chars (of_chars l) = l.
Proof. apply String.list_ascii_of_string_of_list_ascii. Qed.

Lemma of_chars_chars s : of_chars (chars s) = s.
Proof. apply String.string_of_list_ascii_of_string. Qed.

Lemma chars_inj s t : chars s = chars t -> s = t.
Proof. intros H. by rw -(of_chars_chars s) -(of_chars_chars t) H. Qed.

Lemma of_chars_inj l k : of_chars l = of_chars k -> l = k.
Proof. intros H. by rw -(chars_of_chars l) -(chars_of_chars k) H. Qed.

Lemma chars_app s t : chars (s +:+ t) = chars s ++ chars t.
Proof. induction s as [|c s IH]; [done|]. exact (f_equal (cons c) IH). Qed.

Lemma length_chars s : length (chars s) = String.length s.
Proof. induction s as [|c s IH]; [done|]. exact (f_equal S IH). Qed.

Lemma string_length_app s t :
  String.length (s +:+ t) = (String.length s + String.length t)%nat.
Proof. by rw -!length_chars chars_app length_app. Qed.

#[export] Hint Rewrite chars_of_chars chars_app : gw.

Definition byte_val (c : ascii) : Z := Z.of_N (N_of_ascii c).
Definition byte_of (z : Z) : ascii := ascii_of_N (Z.to_N z).

Lemma byte_val_of z : 0 <= z < 256 -> byte_val (byte_of z) = z.
Proof. intros. unfold byte_val, byte_of. rw N_ascii_embedding; lia. Qed.

(** ** Digits in a base *)
Fixpoint digits (fuel : nat) (b n : Z) : list Z :=
  match fuel with
  | O => []
  | S f => if n <? b then [n] else digits f b (n / b) ++ [n mod b]
  end.

Definition undigits (b : Z) (ds : list Z) : Z := foldl (fun a d => a * b + d) 0 ds.

(** Enough fuel for [n] in any base from 2: one digit per bit. *)
Definition digit_fuel (n : Z) : nat := S (Z.to_nat (Z.log2 n)).

Lemma undigits_snoc b ds d : undigits b (ds ++ [d]) = undigits b ds * b + d.
Proof. unfold undigits. by rw foldl_app. Qed.

Lemma undigits_digits fuel b n :
  2 <= b -> 0 <= n < 2 ^ Z.of_nat fuel -> undigits b (digits fuel b n) = n.
Proof.
  intros Hb. revert n. induction fuel as [|f IH]; intros n Hn; [cbn in *; lia|].
  cbn [digits]. destruct (n <? b) eqn:E; [done|]. bool_prop.
  rewrite undigits_snoc, IH.
  - pose proof (Z.div_mod n b ltac:(lia)). lia.
  - split; [apply Z.div_pos; lia|].
    replace (Z.of_nat (S f)) with (Z.of_nat f + 1) in Hn by lia.
    rewrite Z.pow_add_r in * by lia.
    apply Z.div_lt_upper_bound; [lia|]. nia.
Qed.

Lemma digit_fuel_enough n : 0 <= n -> 0 <= n < 2 ^ Z.of_nat (digit_fuel n).
Proof.
  intros. unfold digit_fuel. rewrite Nat2Z.inj_succ, Z2Nat.id by apply Z.log2_nonneg.
  destruct (decide (n = 0)) as [->|]; [cbn; lia|].
  pose proof (Z.log2_spec n ltac:(lia)). lia.
Qed.

Lemma digits_range fuel b n d : 2 <= b -> 0 <= n -> d ∈ digits fuel b n -> 0 <= d < b.
Proof.
  intros Hb. revert n. induction fuel as [|f IH]; intros n Hn; [set_solver|].
  cbn [digits]. destruct (n <? b) eqn:E; bool_prop.
  - intros ->%list_elem_of_singleton. lia.
  - rw elem_of_app list_elem_of_singleton. intros [H| ->].
    + revert H. apply IH. apply Z.div_pos; lia.
    + apply Z.mod_pos_bound. lia.
Qed.

Lemma length_digits fuel b n k :
  2 <= b -> 0 <= n < b ^ Z.of_nat (S k) -> (length (digits fuel b n) <= S k)%nat.
Proof.
  intros Hb. revert n k. induction fuel as [|f IH]; intros n k Hn; [cbn; lia|].
  cbn [digits]. destruct (n <? b) eqn:E; bool_prop; [cbn; lia|].
  rw length_app. destruct k as [|k]; [rewrite Z.pow_1_r in Hn; lia|].
  rw Nat.add_1_r. apply le_n_S, IH. split; [apply Z.div_pos; lia|].
  replace (Z.of_nat (S (S k))) with (Z.of_nat (S k) + 1) in Hn by lia.
  rewrite Z.pow_add_r in Hn by lia. apply Z.div_lt_upper_bound; lia.
Qed.

Lemma digits_nonempty fuel b n : digits (S fuel) b n <> [].
Proof. cbn. destruct (n <? b); [done|]. by destruct (digits fuel b (n / b)). Qed.

(** Digit characters, lower case as [%x] and [FormatInt] print them; the parser
    accepts both cases, as [strconv] does. *)
Definition digit_char (d : Z) : ascii := byte_of (if d <? 10 then 48 + d else 87 + d).

Definition digit_val (c : ascii) : option Z :=
  let v := byte_val c in
  if (48 <=? v) && (v <=? 57) then Some (v - 48)
  else if (97 <=? v) && (v <=? 122) then Some (v - 87)
  else if (65 <=? v) && (v <=? 90) then Some (v - 55)
  else None.

Lemma digit_val_char d : 0 <= d < 36 -> digit_val (digit_char d) = Some d.
Proof.
  intros Hd. assert (Hall : Forall (fun d => digit_val (digit_char d) = Some d) (seqZ 0 36))
    by (repeat constructor).
  rw Forall_forall in Hall. apply Hall, elem_of_seqZ. lia.
Qed.

Definition fmt_uint (b n : Z) : string := of_chars (digit_char <$> digits (digit_fuel n) b n).

(** [strconv.Itoa] and the [%d] verb. *)
Definition Itoa (z : Z) : string :=
  if z <? 0 then "-" +:+ fmt_uint 10 (- z) else fmt_uint 10 z.

(** The [%08x] verb on a non-negative value. *)
Definition fmt_08x (n : Z) : string :=
  let h := digit_char <$> digits (digit_fuel n) 16 n in
  of_chars (replicate (8 - length h) "0"%char ++ h).

(** Digits of a base, read most significant first. *)
Fixpoint read_digits (b acc : Z) (l : list ascii) : option Z :=
  match l with
  | [] => Some acc
  | c :: l => match digit_val c with
              | Some d => if d <? b then read_digits b (acc * b + d) l else None
              | None => None
              end
  end.

Lemma read_digits_app b acc l k :
  read_digits b acc (l ++ k) = a ← read_digits b acc l; read_digits b a k.
Proof.
  revert acc. induction l as [|c l IH]; intros acc; [done|]. cbn.
  destruct (digit_val c); [|done]. by destruct (_ <? _).
Qed.

Lemma read_digits_chars b acc ds :
  b <= 36 -> Forall (fun d => 0 <= d < b) ds ->
  read_digits b acc (digit_char <$> ds) = Some (foldl (fun a d => a * b + d) acc ds).
Proof.
  intros Hb. revert acc. induction ds as [|d ds IH]; intros acc Hds; [done|].
  apply Forall_cons in Hds as [Hd Hds]. cbn. rewrite digit_val_char by lia.
  rewrite (proj2 (Z.ltb_lt d b)) by lia. by apply IH.
Qed.

Lemma read_digits_digits b n :
  2 <= b <= 36 -> 0 <= n ->
  read_digits b 0 (digit_char <$> digits (digit_fuel n) b n) = Some n.
Proof.
  intros Hb Hn. rewrite read_digits_chars; [|lia|].
  - f_equal. apply undigits_digits; [lia|]. by apply digit_fuel_enough.
  - apply Forall_forall. intros d. apply digits_range; lia.
Qed.

Lemma read_digits_zeros b k l :
  0 < b -> read_digits b 0 (replicate k "0"%char ++ l) = read_digits b 0 l.
Proof.
  intros. induction k as [|k IH]; [done|].
  cbn [replicate app read_digits]. change (digit_val "0"%char) with (Some 0). cbv iota beta.
  rewrite (proj2 (Z.ltb_lt 0 b)) by lia. exact IH.
Qed.

(** ** Parsing integers *)

Definition lower_ascii (c : ascii) : ascii :=
  let v := byte_val c in if (65 <=? v) && (v <=? 90) then byte_of (v + 32) else c.

(** Why an integer parse failed: [strconv.ErrSyntax] or [strconv.ErrRange]. *)
Inductive num_error := ErrSyntax | ErrRange.

(** [strconv.ParseInt(s, 10, bits)]; [Atoi] is the 64-bit instance. *)
Definition parse_signed (bits : Z) (neg : bool) (l : list ascii) : result num_error Z :=
  match l with
  | [] => Err ErrSyntax
  | _ => match read_digits 10 0 l with
         | None => Err ErrSyntax
         | Some n => let v := if neg then - n else n in
                     if (- 2 ^ (bits - 1) <=? v) && (v <? 2 ^ (bits - 1)) then Ok v
                     else Err ErrRange
         end
  end.

Definition ParseInt (s : string) (bits : Z) : result num_error Z :=
  match chars s with
  | [] => Err ErrSyntax
  | c :: l => if decide (c = "-"%char) then parse_signed bits true l
              else if decide (c = "+"%char) then parse_signed bits false l
              else parse_signed bits false (c :: l)
  end.

Definition Atoi (s : string) : result num_error Z := ParseInt s 64.

(** [strconv.ParseUint(s, 0, bits)]: the base from the prefix, and underscores
    between digits, as Go's literal syntax allows them. *)
Definition split_base (l : list ascii) : Z * bool * list ascii :=
  match l with
  | "0"%char :: c :: ((_ :: _) as r) =>
      if bool_decide (lower_ascii c = "x"%char) then (16, true, r)
      else if bool_decide (lower_ascii c = "b"%char) then (2, true, r)
      else if bool_decide (lower_ascii c = "o"%char) then (8, true, r)
      else (8, false, c :: r)
  | "0"%char :: ((_ :: _) as r) => (8, false, r)
  | _ => (10, false, l)
  end.

(** [underscoreOK]: an underscore stands between digits, the prefix counting as
    one. [prev] is whether the last byte was a digit. *)
Fixpoint underscores_ok (prev : bool) (last_us : bool) (l : list ascii) : bool :=
  match l with
  | [] => negb last_us
  | c :: l => if bool_decide (c = "_"%char) then prev && underscores_ok false true l
              else underscores_ok true false l
  end.

Definition ParseUint0 (s : string) (bits : Z) : result num_error Z :=
  let '(b, prefixed, l) := split_base (chars s) in
  let zero := bool_decide (b = 8) in
  match l with
  | [] => Err ErrSyntax
  | _ => match read_digits b 0 (filter (fun c => c <> "_"%char) l) with
         | None => Err ErrSyntax
         | Some n => if negb (underscores_ok (prefixed || zero) false l) then Err ErrSyntax
                     else if n <? 2 ^ bits then Ok n else Err ErrRange
         end
  end.

(** Parsing what [Itoa] printed gives the number back, within the width. *)
Lemma chars_fmt_uint n : chars (fmt_uint 10 n) = digit_char <$> digits (digit_fuel n) 10 n.
Proof. apply chars_of_chars. Qed.

Lemma fmt_uint_inj b m n :
  2 <= b <= 36 -> 0 <= m -> 0 <= n -> fmt_uint b m = fmt_uint b n -> m = n.
Proof.
  intros Hb Hm Hn H%of_chars_inj.
  pose proof (read_digits_digits b m Hb Hm) as H1.
  pose proof (read_digits_digits b n Hb Hn) as H2. congruence.
Qed.

Lemma digit_char_of_fmt b n c :
  2 <= b <= 36 -> 0 <= n -> c ∈ chars (fmt_uint b n) ->
  exists d, 0 <= d < b /\ c = digit_char d.
Proof.
  intros Hb Hn. unfold fmt_uint. rewrite chars_of_chars.
  intros (d & -> & Hd)%list_elem_of_fmap. exists d. split; [|done].
  eapply digits_range; eauto with lia.
Qed.

Lemma digit_char_not c d : digit_val c = None -> 0 <= d < 36 -> digit_char d <> c.
Proof. intros Hc Hd <-. by rewrite digit_val_char in Hc. Qed.

Lemma fmt_uint_cons b n : exists c l, chars (fmt_uint b n) = c :: l.
Proof.
  unfold fmt_uint. rewrite chars_of_chars. unfold digit_fuel.
  destruct (digits _ b n) eqn:E; [by apply digits_nonempty in E|]. cbn. eauto.
Qed.

Lemma Itoa_nonneg n : 0 <= n -> Itoa n = fmt_uint 10 n.
Proof. intros. unfold Itoa. by rewrite (proj2 (Z.ltb_ge n 0)). Qed.

Lemma Itoa_inj m n : 0 <= m -> 0 <= n -> Itoa m = Itoa n -> m = n.
Proof. intros ??. rewrite !Itoa_nonneg by done. apply fmt_uint_inj; lia. Qed.

Lemma ParseInt_Itoa_nonneg n bits :
  0 <= n < 2 ^ (bits - 1) -> ParseInt (Itoa n) bits = Ok n.
Proof.
  intros Hn. rewrite Itoa_nonneg by lia. unfold ParseInt.
  destruct (fmt_uint_cons 10 n) as (c & l & E). rewrite E.
  assert (Hc : c ∈ chars (fmt_uint 10 n)) by (rewrite E; set_solver).
  apply digit_char_of_fmt in Hc as (d & Hd & ->); [|lia..].
  rewrite !decide_False by (apply digit_char_not; [reflexivity|lia]).
  unfold parse_signed. rewrite <- E, chars_fmt_uint, read_digits_digits by lia.
  cbv zeta iota.
  by rewrite (proj2 (Z.leb_le _ _)), (proj2 (Z.ltb_lt _ _)) by lia.
Qed.

Lemma length_Itoa n k :
  0 <= n < 10 ^ Z.of_nat (S k) -> (String.length (Itoa n) <= S k)%nat.
Proof.
  intros. rewrite Itoa_nonneg, <- length_chars by lia. unfold fmt_uint.
  rewrite chars_of_chars, length_fmap. by apply length_digits.
Qed.

Lemma Itoa_no_char c n : digit_val c = None -> 0 <= n -> c ∉ chars (Itoa n).
Proof.
  intros Hc Hn. rewrite Itoa_nonneg by done.
  intros (d & Hd & ->)%digit_char_of_fmt; [|lia..]. by apply (digit_char_not _ d) in Hc; [|lia].
Qed.

(** [%08x] pads without losing information. *)
Lemma fmt_08x_inj m n : 0 <= m -> 0 <= n -> fmt_08x m = fmt_08x n -> m = n.
Proof.
  intros Hm Hn H%of_chars_inj.
  apply (f_equal (read_digits 16 0)) in H.
  rewrite !read_digits_zeros, !read_digits_digits in H by lia. congruence.
Qed.

Lemma length_fmt_08x n : 0 <= n < 2 ^ 32 -> String.length (fmt_08x n) = 8%nat.
Proof.
  intros. unfold fmt_08x. rewrite <- length_chars, chars_of_chars, length_app, length_replicate.
  rewrite length_fmap. pose proof (length_digits (digit_fuel n) 16 n 7).
  change (2 ^ 32) with (16 ^ Z.of_nat 8) in *. lia.
Qed.

(** ** Searching, trimming and splitting *)

(** [strings.HasPrefix] and [strings.HasSuffix] over bytes. *)
Fixpoint prefix_of (p l : list ascii) : bool :=
  match p, l with
  | [], _ => true
  | _, [] => false
  | a :: p, b :: l => if decide (a = b) then prefix_of p l else false
  end.

Definition HasPrefix (s p : string) : bool := prefix_of (chars p) (chars s).
Definition HasSuffix (s p : string) : bool := prefix_of (rev (chars p)) (rev (chars s)).

Fixpoint contains_chars (l p : list ascii) : bool :=
  prefix_of p l || match l with [] => false | _ :: l => contains_chars l p end.

(** [strings.Contains]. *)
Definition Contains (s sub : string) : bool := contains_chars (chars s) (chars sub).

(** [strings.ToLower] on ASCII letters. The modelled code lower-cases only values it
    then compares with ASCII literals. *)
Definition lower_char (c : ascii) : ascii := lower_ascii c.
Definition ToLower (s : string) : string := of_chars (lower_char <$> chars s).

Definition is_space (c : ascii) : bool :=
  let v := byte_val c in (v =? 32) || ((9 <=? v) && (v <=? 13)).

Fixpoint drop_spaces (l : list ascii) : list ascii :=
  match l with
  | [] => []
  | c :: l' => if is_space c then drop_spaces l' else l
  end.

(** [strings.TrimSpace] on ASCII text. *)
Definition TrimSpace (s : string) : string :=
  of_chars (rev (drop_spaces (rev (drop_spaces (chars s))))).

(** [strings.Fields]: maximal runs of non-space bytes. [cur] is the run being read,
    reversed. *)
Fixpoint fields_go (cur : list ascii) (l : list ascii) : list string :=
  let flush := match cur with [] => [] | _ => [of_chars (rev cur)] end in
  match l with
  | [] => flush
  | c :: l => if is_space c then flush ++ fields_go [] l else fields_go (c :: cur) l
  end.
Definition Fields (s : string) : list string := fields_go [] (chars s).

(** [strings.Split(s, sep)] for a one-byte separator. *)
Fixpoint split_go (sep : ascii) (cur : list ascii) (l : list ascii) : list string :=
  match l with
  | [] => [of_chars (rev cur)]
  | c :: l => if decide (c = sep) then of_chars (rev cur) :: split_go sep [] l
              else split_go sep (c :: cur) l
  end.
Definition Split (sep : ascii) (s : string) : list string := split_go sep [] (chars s).

(** [strings.Cut(s, sep)] for a one-byte separator. *)
Fixpoint cut_go (sep : ascii) (cur l : list ascii) : option (string * string) :=
  match l with
  | [] => None
  | c :: l => if decide (c = sep) then Some (of_chars (rev cur), of_chars l)
              else cut_go sep (c :: cur) l
  end.
Definition Cut (sep : ascii) (s : string) : option (string * string) := cut_go sep [] (chars s).

(** [strings.Join]. *)
Fixpoint Join (l : list string) (sep : string) : string :=
  match l with
  | [] => ""
  | [s] => s
  | s :: l => s +:+ sep +:+ Join l sep
  end.

Lemma cut_go_spec sep cur l a b :
  cut_go sep cur l = Some (a, b) ->
  exists p, chars a = rev cur ++ p /\ l = p ++ sep :: chars b /\ sep ∉ p.
Proof.
  revert cur. induction l as [|c l IH]; intros cur H; [done|]. cbn in H.
  destruct (decide (c = sep)) as [->|Hne]; simplify_eq.
  - exists []. rewrite !chars_of_chars, app_nil_r. set_solver.
  - apply IH in H as (p & Ha & -> & Hp). exists (c :: p).
    rewrite Ha. cbn. rewrite <- app_assoc. set_solver.
Qed.

(** [Cut] splits at the first separator: the pieces rebuild the string. *)
Lemma Cut_spec sep s a b :
  Cut sep s = Some (a, b) ->
  s = a +:+ String sep b /\ sep ∉ chars a.
Proof.
  intros (p & Ha & Hs & Hp)%cut_go_spec. cbn in Ha. rewrite <- Ha in *. split; [|done].
  apply chars_inj. by rewrite chars_app.
Qed.

Lemma cut_go_app sep cur p l :
  sep ∉ p -> cut_go sep cur (p ++ sep :: l) = Some (of_chars (rev cur ++ p), of_chars l).
Proof.
  revert cur. induction p as [|c p IH]; intros cur Hp; cbn.
  - by rewrite decide_True, app_nil_r.
  - rewrite decide_False by set_solver. rewrite IH by set_solver. cbn. by rewrite <- app_assoc.
Qed.

Lemma Cut_app sep a b :
  sep ∉ chars a -> Cut sep (a +:+ String sep b) = Some (a, b).
Proof.
  intros. unfold Cut. rewrite chars_app. cbn. rewrite cut_go_app by done.
  cbn. by rewrite !of_chars_chars.
Qed.

Lemma string_app_inj_l a s t : a +:+ s = a +:+ t -> s = t.
Proof. intros H%(f_equal chars). rewrite !chars_app in H. by apply app_inv_head, chars_inj in H. Qed.
