(* ===== verification/GoText.v ===== *)
(** * More of Go's strings and path/filepath: what the build tools use

    Cutting affixes and sets of characters, line pieces with their terminators, and
    lexical path cleaning. [SplitAfter_concat], [TrimPrefix_app] and [cut_last_spec] say
    that pieces rebuild the text they were cut from. *)

From S2P Require Import Prelude GoStrings.

(** [strings.TrimPrefix]. *)
Definition TrimPrefix (s p : string) : string :=
  if HasPrefix s p then of_chars (drop (String.length p) (chars s)) else s.

(** [strings.TrimLeft] and [strings.Trim] with a cutset of bytes. *)
Fixpoint drop_while (p : ascii -> bool) (l : list ascii) : list ascii :=
  match l with
  | [] => []
  | c :: l' => if p c then drop_while p l' else l
  end.
Definition in_set (cutset : string) (c : ascii) : bool := bool_decide (c ∈ chars cutset).
Definition TrimLeft (s cutset : string) : string := of_chars (drop_while (in_set cutset) (chars s)).
Definition Trim (s cutset : string) : string :=
  of_chars (rev (drop_while (in_set cutset) (rev (drop_while (in_set cutset) (chars s))))).

(** The pieces around the last occurrence of a one-byte separator, [strings.LastIndex]
    with the two slices the code takes. *)
Definition cut_last (sep : ascii) (s : string) : option (string * string) :=
  match cut_go sep [] (rev (chars s)) with
  | Some (b, a) => Some (of_chars (rev (chars a)), of_chars (rev (chars b)))
  | None => None
  end.

(** [strings.SplitAfterSeq] for a one-byte separator: each piece keeps its separator. *)
Fixpoint split_after_go (sep : ascii) (cur l : list ascii) : list string :=
  match l with
  | [] => [of_chars (rev cur)]
  | c :: l => if decide (c = sep) then of_chars (rev (c :: cur)) :: split_after_go sep [] l
              else split_after_go sep (c :: cur) l
  end.
Definition SplitAfter (sep : ascii) (s : string) : list string := split_after_go sep [] (chars s).

Fixpoint concat_text (l : list string) : string :=
  match l with
  | [] => ""
  | s :: l => s +:+ concat_text l
  end.

(** ** path/filepath, on slash-separated paths *)
Definition slash : ascii := "/"%char.

Definition clean_step (rooted : bool) (stack : list string) (seg : string) : list string :=
  if bool_decide (seg = "") || bool_decide (seg = ".") then stack
  else if bool_decide (seg = "..") then
    match stack with
    | top :: rest => if bool_decide (top = "..") then seg :: stack else rest
    | [] => if rooted then [] else [seg]
    end
  else seg :: stack.

Definition clean_segs (rooted : bool) (segs : list string) : list string := rev (foldl (clean_step rooted) [] segs).

Definition Clean (path : string) : string :=
  if bool_decide (path = "") then "."
  else
    let rooted := HasPrefix path "/" in
    let out := Join (clean_segs rooted (Split slash path)) "/" in
    if rooted then "/" +:+ out else if bool_decide (out = "") then "." else out.

Definition path_Join (dir name : string) : string :=
  if bool_decide (dir = "") then if bool_decide (name = "") then "" else Clean name
  else Clean (dir +:+ "/" +:+ name).

(** ** Lemmas *)
Lemma concat_text_app l k : concat_text (l ++ k) = concat_text l +:+ concat_text k.
Proof.
  induction l as [|s l IH]; [done|]. cbn. rewrite IH. apply chars_inj. by rewrite !chars_app, app_assoc.
Qed.

Lemma chars_concat_text l : chars (concat_text l) = concat (chars <$> l).
Proof. induction l as [|s l IH]; [done|]. cbn. by rewrite chars_app, IH. Qed.

Lemma split_after_go_concat sep cur l : concat_text (split_after_go sep cur l) = of_chars (rev cur ++ l).
Proof.
  revert cur. induction l as [|c l IH]; intros cur; cbn [split_after_go].
  - cbn. apply chars_inj. rewrite chars_app, !chars_of_chars. done.
  - destruct (decide (c = sep)); cbn [concat_text]; rewrite IH; apply chars_inj; rewrite ?chars_app, !chars_of_chars; cbn; by rewrite <- ?app_assoc.
Qed.

(** The pieces rebuild the text. *)
Lemma SplitAfter_concat sep s : concat_text (SplitAfter sep s) = s.
Proof. unfold SplitAfter. rewrite split_after_go_concat. cbn. apply of_chars_chars. Qed.

Lemma split_after_go_app sep cur p l :
  sep ∉ p -> split_after_go sep cur (p ++ sep :: l) = of_chars (rev cur ++ p ++ [sep]) :: split_after_go sep [] l.
Proof.
  revert cur. induction p as [|c p IH]; intros cur Hp; cbn.
  - by rewrite decide_True.
  - rewrite decide_False by set_solver. rewrite IH by set_solver. cbn. by rewrite <- app_assoc.
Qed.

(** A terminated line is split off. *)
Lemma SplitAfter_line sep p t :
  sep ∉ chars p -> SplitAfter sep (p +:+ String sep t) = (p +:+ String sep "") :: SplitAfter sep t.
Proof.
  intros Hp. unfold SplitAfter. rewrite chars_app. cbn. rewrite split_after_go_app by done. f_equal.
  apply chars_inj. cbn. by rewrite chars_of_chars, chars_app.
Qed.

Lemma prefix_of_app p l : prefix_of p (p ++ l) = true.
Proof. induction p as [|a p IH]; [done|]. cbn. by rewrite decide_True. Qed.

Lemma prefix_of_inv p l : prefix_of p l = true -> exists k, l = p ++ k.
Proof.
  revert l. induction p as [|a p IH]; intros l; [by exists l|]. destruct l as [|b l]; [done|]. cbn.
  destruct (decide (a = b)) as [->|]; [|done]. intros [k ->]%IH. by exists k.
Qed.

Lemma HasPrefix_app p s : HasPrefix (p +:+ s) p = true.
Proof. unfold HasPrefix. rewrite chars_app. apply prefix_of_app. Qed.

Lemma HasPrefix_inv s p : HasPrefix s p = true -> exists t, s = p +:+ t.
Proof.
  intros [k Hk]%prefix_of_inv. exists (of_chars k). apply chars_inj. by rewrite chars_app, chars_of_chars.
Qed.

Lemma TrimPrefix_app p s : TrimPrefix (p +:+ s) p = s.
Proof.
  unfold TrimPrefix. rewrite HasPrefix_app. apply chars_inj. rewrite chars_of_chars, chars_app, <- length_chars.
  by rewrite drop_app_length.
Qed.

Lemma cut_last_spec sep s a b :
  cut_last sep s = Some (a, b) -> s = a +:+ String sep b /\ sep ∉ chars b.
Proof.
  unfold cut_last. destruct (cut_go _ _ _) as [[x y]|] eqn:E; [|done]. intros [= <- <-].
  apply cut_go_spec in E as (p & Hx & Hs & Hp). cbn in Hx. apply (f_equal (@rev ascii)) in Hs.
  rewrite rev_involutive, rev_app_distr in Hs. cbn in Hs. rewrite <- app_assoc in Hs. split.
  - apply chars_inj. rewrite chars_app. cbn. by rewrite !chars_of_chars, Hs, Hx.
  - rewrite chars_of_chars, Hx. rewrite list_elem_of_In, <- in_rev, <- list_elem_of_In. done.
Qed.

Lemma cut_last_app sep a b : sep ∉ chars b -> cut_last sep (a +:+ String sep b) = Some (a, b).
Proof.
  intros Hb. unfold cut_last. rewrite chars_app, rev_app_distr. cbn. rewrite <- app_assoc. cbn.
  rewrite cut_go_app by (by rewrite list_elem_of_In, <- in_rev, <- list_elem_of_In). cbn.
  by rewrite !chars_of_chars, !rev_involutive, !of_chars_chars.
Qed.

(** ** Joining a file name to a directory *)
Lemma split_go_app sep cur l r : split_go sep cur (l ++ sep :: r) = split_go sep cur l ++ split_go sep [] r.
Proof.
  revert cur. induction l as [|c l IH]; intros cur; cbn; [by rewrite decide_True|].
  destruct (decide (c = sep)); [by rewrite IH|apply IH].
Qed.

Lemma split_go_none sep cur l : sep ∉ l -> split_go sep cur l = [of_chars (rev cur ++ l)].
Proof.
  revert cur. induction l as [|c l IH]; intros cur Hl; cbn; [by rewrite app_nil_r|].
  rewrite decide_False by set_solver. rewrite IH by set_solver. cbn. by rewrite <- app_assoc.
Qed.

Lemma Join_snoc l f sep : Join (l ++ [f]) sep = (match l with [] => "" | _ => Join l sep +:+ sep end) +:+ f.
Proof.
  induction l as [|s l IH]; [done|]. change ((s :: l) ++ [f]) with (s :: (l ++ [f])).
  destruct l as [|t l]; [cbn; apply chars_inj; by rewrite !chars_app, app_assoc|].
  change (Join (s :: (t :: l) ++ [f]) sep) with (s +:+ sep +:+ Join ((t :: l) ++ [f]) sep). rewrite IH.
  change (Join (s :: t :: l) sep) with (s +:+ sep +:+ Join (t :: l) sep).
  apply chars_inj. rewrite !chars_app. by rewrite <- !app_assoc.
Qed.

(** A name that is a single, ordinary path element. *)
Definition file_name (f : string) : Prop := slash ∉ chars f /\ f <> "" /\ f <> "." /\ f <> "..".

(** A directory is a fixed prefix of the paths of its files. *)
Lemma path_Join_prefix dir : exists pre, forall f, file_name f -> path_Join dir f = pre +:+ f.
Proof.
  assert (Hclean : forall rooted l f, file_name f -> clean_segs rooted (l ++ [f]) = clean_segs rooted l ++ [f]).
  { intros rooted l f (_ & H1 & H2 & H3). unfold clean_segs. rewrite foldl_app. cbn [foldl]. unfold clean_step at 1.
    by rewrite !bool_decide_false. }
  assert (Hsplit : forall f, file_name f -> Split slash f = [f]).
  { intros f [Hf _]. unfold Split. rewrite split_go_none by done. cbn. by rewrite of_chars_chars. }
  unfold path_Join. destruct (bool_decide_reflect (dir = "")) as [->|Hdir].
  - exists "". intros f Hf. pose proof Hf as (Hs & Hne & _). rewrite bool_decide_false by done. unfold Clean.
    rewrite bool_decide_false by done. rewrite Hsplit by done.
    assert (HasPrefix f "/" = false) as ->.
    { destruct (HasPrefix f "/") eqn:E; [|done]. apply HasPrefix_inv in E as [t ->]. destruct Hs. left. }
    pose proof (Hclean false [] f Hf) as Hc. cbn [app] in Hc. rewrite Hc. cbn. by rewrite bool_decide_false.
  - set (rooted := HasPrefix dir "/"). set (segs := clean_segs rooted (Split slash dir)).
    exists ((if rooted then "/" else "") +:+ match segs with [] => "" | _ => Join segs "/" +:+ "/" end). intros f Hf.
    unfold Clean. rewrite bool_decide_false by (by destruct dir).
    assert (HasPrefix (dir +:+ "/" +:+ f) "/" = rooted) as ->.
    { subst rooted. destruct dir as [|c dir]; [done|]. unfold HasPrefix. reflexivity. }
    assert (Split slash (dir +:+ "/" +:+ f) = Split slash dir ++ [f]) as ->.
    { rewrite <- (Hsplit f Hf). unfold Split. rewrite chars_app. apply split_go_app. }
    rewrite Hclean by done. fold segs. rewrite Join_snoc. destruct rooted.
    + apply chars_inj. rewrite !chars_app. by rewrite <- app_assoc.
    + rewrite bool_decide_false; [done|]. destruct Hf as (_ & Hne & _). intros H%(f_equal String.length).
      rewrite string_length_app in H. destruct f; [done|]. cbn in H. lia.
Qed.
