(* ===== verification/GoNet.v ===== *)
(** * Go's IP address parsing

    [netip.ParseAddr], [net.ParseIP], [net.ParseCIDR], [IP.To4], [IPNet.Contains]
    and [IP.String] for IPv4, as the operator and the link use them. An address
    is a [Z] of its width; a [net.IP] returned by [net.ParseIP] is the 16-byte
    form, where an IPv4 address is its v4-mapped image. *)

From S2P Require Import Prelude GoStrings GoText.

(** ** Addresses *)
Inductive Addr :=
| V4 (v : Z)
| V6 (v : Z) (zone : string).

#[global] Instance Addr_eq_dec : EqDecision Addr.
Proof. solve_decision. Defined.

Definition Is4 (a : Addr) : bool := match a with V4 _ => true | V6 _ _ => false end.
Definition IsUnspecified (a : Addr) : bool :=
  match a with V4 v => v =? 0 | V6 v zone => (v =? 0) && bool_decide (zone = "") end.

(** The 16-byte form of an IPv4 address, [::ffff:a.b.c.d]. *)
Definition mapped (v : Z) : Z := Z.shiftl 65535 32 + v.

(** [IP.To4] of a 16-byte address. *)
Definition To4 (ip : Z) : option Z :=
  if Z.shiftr ip 32 =? 65535 then Some (ip mod 2 ^ 32) else None.

(** One IPv4 field: a decimal of at most 255 without a leading zero. *)
Definition parse_octet (s : string) : option Z :=
  match chars s with
  | [] => None
  | c :: l =>
      if bool_decide (c = "0"%char) && negb (bool_decide (l = [])) then None
      else match read_digits 10 0 (c :: l) with
           | Some n => if n <=? 255 then Some n else None
           | None => None
           end
  end.

Definition octets_val (a b c d : Z) : Z := ((a * 256 + b) * 256 + c) * 256 + d.

Definition parse_ipv4 (s : string) : option Z :=
  match Split "."%char s with
  | [a; b; c; d] =>
      a ← parse_octet a; b ← parse_octet b; c ← parse_octet c; d ← parse_octet d;
      Some (octets_val a b c d)
  | _ => None
  end.

(** The hex group at the head of [l]: its digits and the rest. *)
Fixpoint hex_run (l : list ascii) : list ascii * list ascii :=
  match l with
  | [] => ([], [])
  | c :: l' => match digit_val c with
               | Some d => if d <? 16 then let '(g, r) := hex_run l' in (c :: g, r) else ([], l)
               | None => ([], l)
               end
  end.

Definition ipv4_bytes (v : Z) : list Z :=
  [v / 2 ^ 24 mod 256; v / 2 ^ 16 mod 256; v / 2 ^ 8 mod 256; v mod 256].

(** The loop over colon-separated groups. [ip] holds the bytes written so far,
    [ell] the position of the ellipsis. Eight groups fill the sixteen bytes, so
    eight units of fuel run the loop to its end. *)
Fixpoint ipv6_groups (fuel : nat) (s : list ascii) (ip : list Z) (ell : option nat)
  : option (list Z * option nat) :=
  match fuel with
  | O => if bool_decide (s = []) then Some (ip, ell) else None
  | S fuel =>
      let '(g, r) := hex_run s in
      if (length g =? 0)%nat || (4 <? length g)%nat then None
      else acc ← read_digits 16 0 g;
      match r with
      | [] => Some (ip ++ [acc / 256; acc mod 256], ell)
      | "."%char :: _ =>
          if (bool_decide (ell = None) && negb (length ip =? 12)%nat)
             || (16 <? length ip + 4)%nat then None
          else v ← parse_ipv4 (of_chars s); Some (ip ++ ipv4_bytes v, ell)
      | ":"%char :: [] => None
      | ":"%char :: ":"%char :: r' =>
          if bool_decide (ell = None) then
            let ip := ip ++ [acc / 256; acc mod 256] in
            match r' with
            | [] => Some (ip, Some (length ip))
            | _ => ipv6_groups fuel r' ip (Some (length ip))
            end
          else None
      | ":"%char :: r' => ipv6_groups fuel r' (ip ++ [acc / 256; acc mod 256]) ell
      | _ => None
      end
  end.

Definition ipv6_expand (r : list Z * option nat) : option Z :=
  let '(ip, ell) := r in
  match ell with
  | None => if (length ip =? 16)%nat then Some (undigits 256 ip) else None
  | Some e => if (length ip <? 16)%nat
              then Some (undigits 256 (take e ip ++ replicate (16 - length ip) 0 ++ drop e ip))
              else None
  end.

Definition parse_ipv6_body (s : list ascii) : option Z :=
  match s with
  | ":"%char :: ":"%char :: [] => Some 0
  | ":"%char :: ":"%char :: r => x ← ipv6_groups 8 r [] (Some 0%nat); ipv6_expand x
  | _ => x ← ipv6_groups 8 s [] None; ipv6_expand x
  end.

Definition parse_ipv6 (s : string) : option Addr :=
  match Cut "%"%char s with
  | Some (body, zone) =>
      if bool_decide (zone = "") then None
      else v ← parse_ipv6_body (chars body); Some (V6 v zone)
  | None => v ← parse_ipv6_body (chars s); Some (V6 v "")
  end.

(** The first of ['.'], [':'] and ['%'] decides the family. *)
Fixpoint parse_addr_scan (s : string) (l : list ascii) : option Addr :=
  match l with
  | [] => None
  | c :: l => if decide (c = "."%char) then V4 <$> parse_ipv4 s
              else if decide (c = ":"%char) then parse_ipv6 s
              else if decide (c = "%"%char) then None
              else parse_addr_scan s l
  end.

(** [netip.ParseAddr] *)
Definition ParseAddr (s : string) : option Addr := parse_addr_scan s (chars s).

(** [net.ParseIP]: the 16-byte address, a zone refused. *)
Definition ParseIP (s : string) : option Z :=
  match ParseAddr s with
  | Some (V4 v) => Some (mapped v)
  | Some (V6 v zone) => if bool_decide (zone = "") then Some v else None
  | None => None
  end.

(** ** Networks *)

(** A [net.IPNet] as [net.ParseCIDR] builds it: the masked address at its own
    width ([ipn_bits], 32 or 128) and the prefix length. *)
Record IPNet := mkIPNet { ipn_ip : Z; ipn_ones : Z; ipn_bits : Z }.

Definition mask_low (bits ones v : Z) : Z := Z.shiftl (Z.shiftr v (bits - ones)) (bits - ones).

(** The prefix length of [net.ParseCIDR]: decimal digits only, at most the width. *)
Definition parse_prefix (s : string) (bits : Z) : option Z :=
  match chars s with
  | [] => None
  | l => match read_digits 10 0 l with
         | Some n => if n <=? bits then Some n else None
         | None => None
         end
  end.

Definition ParseCIDR (s : string) : option IPNet :=
  match Cut "/"%char s with
  | None => None
  | Some (a, m) =>
      match ParseAddr a with
      | Some (V4 v) => n ← parse_prefix m 32; Some (mkIPNet (mask_low 32 n v) n 32)
      | Some (V6 v zone) =>
          if bool_decide (zone = "")
          then n ← parse_prefix m 128; Some (mkIPNet (mask_low 128 n v) n 128)
          else None
      | None => None
      end
  end.

(** [ipnet.IP.To4()]: a 32-bit network is its own 4-byte address. *)
Definition net_to4 (n : IPNet) : option Z :=
  if ipn_bits n =? 32 then Some (ipn_ip n) else To4 (ipn_ip n).

(** [ipnet.Contains(ip4)] for a 4-byte address: a network whose address has no
    4-byte form has another width and contains none. *)
Definition net_contains4 (n : IPNet) (ip4 : Z) : bool :=
  match net_to4 n with
  | None => false
  | Some base =>
      let ones := if ipn_bits n =? 32 then ipn_ones n else Z.max 0 (ipn_ones n - 96) in
      mask_low 32 ones ip4 =? mask_low 32 ones base
  end.

(** [IP.String] of an IPv4 address. *)
Definition ipv4_string (v : Z) : string :=
  Itoa (v / 2 ^ 24 mod 256) +:+ "." +:+ Itoa (v / 2 ^ 16 mod 256) +:+ "." +:+
  Itoa (v / 2 ^ 8 mod 256) +:+ "." +:+ Itoa (v mod 256).

(** ** Printing and parsing IPv4 *)
Lemma Split_app sep a b :
  sep ∉ chars a -> Split sep (a +:+ String sep b) = a :: Split sep b.
Proof.
  intros. unfold Split. rewrite chars_app. cbn. rewrite split_go_app, split_go_none by done.
  cbn. by rewrite of_chars_chars.
Qed.

Lemma Split_none sep a : sep ∉ chars a -> Split sep a = [a].
Proof. intros. unfold Split. rewrite split_go_none by done. cbn. by rewrite of_chars_chars. Qed.

Lemma parse_octet_Itoa n : 0 <= n <= 255 -> parse_octet (Itoa n) = Some n.
Proof.
  intros Hn.
  assert (Hall : Forall (fun n => parse_octet (Itoa n) = Some n) (seqZ 0 256)).
  { apply (bool_decide_unpack _). vm_compute. exact I. }
  rewrite Forall_forall in Hall. apply Hall, elem_of_seqZ. lia.
Qed.

Lemma octets_val_eq v :
  0 <= v < 2 ^ 32 ->
  octets_val (v / 2 ^ 24 mod 256) (v / 2 ^ 16 mod 256) (v / 2 ^ 8 mod 256) (v mod 256) = v.
Proof.
  intros. unfold octets_val.
  change (2 ^ 24) with (2 ^ 16 * 256). change (2 ^ 16) with (2 ^ 8 * 256).
  rewrite <- !Z.div_div by lia. change (2 ^ 8) with 256.
  assert (v / 256 / 256 / 256 < 256) by (repeat apply Z.div_lt_upper_bound; lia).
  assert (0 <= v / 256 / 256 / 256) by (repeat apply Z.div_pos; lia).
  rewrite (Z.mod_small (v / 256 / 256 / 256)) by lia.
  pose proof (Z.div_mod v 256 ltac:(lia)). pose proof (Z.div_mod (v / 256) 256 ltac:(lia)).
  pose proof (Z.div_mod (v / 256 / 256) 256 ltac:(lia)). lia.
Qed.

Lemma octet_range v : 0 <= v mod 256 <= 255.
Proof. pose proof (Z.mod_pos_bound v 256). lia. Qed.

(** Printing an IPv4 address and parsing it back is the identity. *)
Lemma parse_ipv4_string v : 0 <= v < 2 ^ 32 -> parse_ipv4 (ipv4_string v) = Some v.
Proof.
  intros Hv. unfold parse_ipv4, ipv4_string.
  assert (Hdot : forall x, "."%char ∉ chars (Itoa (x mod 256))).
  { intros x. apply Itoa_no_char; [reflexivity|]. pose proof (octet_range x). lia. }
  assert (Hs : forall x, "." +:+ x = String "."%char x) by reflexivity.
  rewrite !Hs, !Split_app, Split_none by apply Hdot.
  rewrite !parse_octet_Itoa by apply octet_range. cbn [mbind option_bind].
  by rewrite octets_val_eq.
Qed.

Lemma parse_addr_scan_digits s p l :
  (forall c, c ∈ p -> digit_val c <> None) ->
  parse_addr_scan s (p ++ l) = parse_addr_scan s l.
Proof.
  induction p as [|c p IH]; intros Hp; [done|]. cbn.
  rewrite !decide_False by (intros ->; by apply (Hp _ (list_elem_of_here _ _))).
  apply IH. set_solver.
Qed.

Lemma Itoa_digits n c : 0 <= n -> c ∈ chars (Itoa n) -> digit_val c <> None.
Proof.
  intros Hn. rewrite Itoa_nonneg by done.
  intros (d & Hd & ->)%digit_char_of_fmt; [|lia..]. by rewrite digit_val_char by lia.
Qed.

Lemma ParseAddr_ipv4_string v : 0 <= v < 2 ^ 32 -> ParseAddr (ipv4_string v) = Some (V4 v).
Proof.
  intros Hv. unfold ParseAddr.
  assert (E : exists l, chars (ipv4_string v) = chars (Itoa (v / 2 ^ 24 mod 256)) ++ "."%char :: l).
  { unfold ipv4_string. rewrite chars_app. eexists. reflexivity. }
  destruct E as [l E]. rewrite E, parse_addr_scan_digits.
  - cbn. by rewrite parse_ipv4_string.
  - intros c. apply Itoa_digits. pose proof (octet_range (v / 2 ^ 24)). lia.
Qed.

Lemma ipv4_string_inj v w :
  0 <= v < 2 ^ 32 -> 0 <= w < 2 ^ 32 -> ipv4_string v = ipv4_string w -> v = w.
Proof.
  intros Hv Hw H. apply (f_equal parse_ipv4) in H.
  rewrite !parse_ipv4_string in H by done. congruence.
Qed.

Lemma To4_mapped v : 0 <= v < 2 ^ 32 -> To4 (mapped v) = Some v.
Proof.
  intros Hv. unfold To4, mapped. rewrite Z.shiftl_mul_pow2, Z.shiftr_div_pow2 by lia.
  rewrite Z.add_comm, Z.div_add, Z.div_small, Z.mod_add, Z.mod_small by lia. done.
Qed.
