(* ===== verification/Identity.v ===== *)
(** * Link identities: internal/link/identity.go

    A Gateway's link id and a slot determine every node-global name the link
    programs: the WireGuard interface, the firewall mark and the policy-routing
    table. The theorems show that two slots anywhere in the cluster never share
    one of them, that the names fit the kernel's limits, and that
    [InheritedSlots] finds exactly the slots whose interface is present. *)

From S2P Require Import Prelude GoStrings.

Definition MaxLinkID : Z := 250.
Definition healthPortBase : Z := 27000.
Definition markMaskBits : Z := 4294901760.
Definition markMask : string := "0xffff0000".
Definition routeTableBase : Z := 100000.
Definition slotCount : Z := 256.

Record GatewayIdentity := mkGatewayIdentity {
  gi_ID : Z;
  gi_HealthPort : Z;
  gi_NftTable : string
}.

#[global] Instance GatewayIdentity_eq_dec : EqDecision GatewayIdentity.
Proof. solve_decision. Defined.

Definition NewGatewayIdentity (id : Z) : GatewayIdentity :=
  mkGatewayIdentity id (wrap64 (healthPortBase + id)) ("gw" +:+ Itoa id).

Record SlotIdentity := mkSlotIdentity {
  Interface : string;
  Mark : string;
  MarkMask : string;
  RouteTable : Z
}.

#[global] Instance SlotIdentity_eq_dec : EqDecision SlotIdentity.
Proof. solve_decision. Defined.

(** [k := (slot << 8) | gatewayID] *)
Definition routing_key (gatewayID slot : Z) : Z :=
  Z.lor (wrap64 (Z.shiftl slot 8)) gatewayID.

Definition NewSlotIdentity (gatewayID slot : Z) : SlotIdentity :=
  let k := routing_key gatewayID slot in
  let iface := if negb (slot =? 0)
               then "wg-gw" +:+ Itoa gatewayID +:+ "-" +:+ Itoa slot
               else "wg-gw" +:+ Itoa gatewayID in
  mkSlotIdentity iface ("0x" +:+ fmt_08x (wrap64 (Z.shiftl k 16))) markMask
    (wrap64 (routeTableBase + k)).

(** [owned] is the map the loop over [slotCount] builds; a name reported twice is
    appended twice, as the code does. *)
Definition owned_slots (gatewayID : Z) : gmap string Z :=
  foldl (fun m slot => <[Interface (NewSlotIdentity gatewayID slot) := slot]> m)
    ∅ (seqZ 0 slotCount).

Definition InheritedSlots (names : list string) (gatewayID : Z) : list Z :=
  let owned := owned_slots gatewayID in
  merge_sort Z.le (omap (fun name => owned !! name) names).

(** ** The ranges the operator hands out *)
Definition gateway_id_ok (id : Z) : Prop := 1 <= id <= MaxLinkID.
Definition slot_ok (slot : Z) : Prop := 0 <= slot < slotCount.
#[global] Instance gateway_id_ok_dec id : Decision (gateway_id_ok id) := _.
#[global] Instance slot_ok_dec slot : Decision (slot_ok slot) := _.

Ltac unfold_ids := unfold gateway_id_ok, slot_ok, MaxLinkID, slotCount in *.

Lemma routing_key_eq id slot :
  gateway_id_ok id -> slot_ok slot -> routing_key id slot = slot * 256 + id.
Proof.
  unfold_ids. intros. unfold routing_key.
  assert (Hs : Z.shiftl slot 8 = slot * 256) by (rewrite Z.shiftl_mul_pow2; lia).
  rewrite wrap64_id by (rewrite Hs; unfold int64_ok; lia).
  rewrite <- Z.lxor_lor, <- Z.add_nocarry_lxor; [lia|..];
    apply Z.bits_inj'; intros n Hn; rewrite Z.land_spec, Z.bits_0;
    (destruct (decide (n < 8));
      [by rewrite Z.shiftl_spec_low
      | rewrite (Z.bits_above_log2 id n), andb_false_r; [done|lia|];
        apply Z.log2_lt_pow2; [lia|]; pose proof (Z.pow_le_mono_r 2 8 n); lia]).
Qed.

Lemma routing_key_inj id1 s1 id2 s2 :
  gateway_id_ok id1 -> slot_ok s1 -> gateway_id_ok id2 -> slot_ok s2 ->
  routing_key id1 s1 = routing_key id2 s2 -> id1 = id2 /\ s1 = s2.
Proof. intros ????. rewrite !routing_key_eq by done. unfold_ids. lia. Qed.

Lemma routing_key_range id slot :
  gateway_id_ok id -> slot_ok slot -> 0 < routing_key id slot < 2 ^ 16.
Proof. intros. rewrite routing_key_eq by done. unfold_ids. lia. Qed.

Definition mark_bits (id slot : Z) : Z := Z.shiftl (routing_key id slot) 16.

Lemma mark_bits_eq id slot :
  gateway_id_ok id -> slot_ok slot ->
  wrap64 (mark_bits id slot) = routing_key id slot * 2 ^ 16 /\
  0 <= routing_key id slot * 2 ^ 16 < 2 ^ 32.
Proof.
  intros Hi Hs. pose proof (routing_key_range _ _ Hi Hs). unfold mark_bits.
  rewrite Z.shiftl_mul_pow2 by lia. rewrite wrap64_id by (unfold int64_ok; lia). lia.
Qed.
#[export] Hint Resolve routing_key_range : gw.

Lemma Itoa_sep_inj c a b s t :
  digit_val c = None -> 0 <= a -> 0 <= b ->
  Itoa a +:+ String c s = Itoa b +:+ String c t -> a = b /\ s = t.
Proof.
  intros Hc Ha Hb H.
  pose proof (Cut_app c (Itoa a) s (Itoa_no_char _ _ Hc Ha)) as H1.
  rewrite H, Cut_app in H1 by (by apply Itoa_no_char).
  simplify_eq. split; [|done]. by apply Itoa_inj.
Qed.

Lemma Itoa_no_sep c a b s :
  digit_val c = None -> 0 <= a -> Itoa a <> Itoa b +:+ String c s.
Proof.
  intros Hc Ha H. apply (Itoa_no_char c a Hc Ha). rewrite H, chars_app. set_solver.
Qed.

(** [fmt.Sprintf("wg-gw%d-%d")] is an injective encoding of (id, slot), the bare
    form for slot 0 included. *)
Lemma interface_inj id1 s1 id2 s2 :
  0 <= id1 -> 0 <= s1 -> 0 <= id2 -> 0 <= s2 ->
  Interface (NewSlotIdentity id1 s1) = Interface (NewSlotIdentity id2 s2) ->
  id1 = id2 /\ s1 = s2.
Proof.
  intros ????. cbn [Interface NewSlotIdentity].
  destruct (Z.eqb_spec s1 0) as [->|], (Z.eqb_spec s2 0) as [->|]; cbn [negb];
    intros Heq%string_app_inj_l.
  - split; [by apply Itoa_inj|done].
  - by apply Itoa_no_sep in Heq.
  - symmetry in Heq. by apply Itoa_no_sep in Heq.
  - apply Itoa_sep_inj in Heq as [-> Heq]; [|done..]. split; [done|]. by apply Itoa_inj.
Qed.

Lemma owned_slots_lookup_gen id slots (m : gmap string Z) name :
  foldl (fun m slot => <[Interface (NewSlotIdentity id slot) := slot]> m) m slots !! name
    = match last (filter (fun s => name = Interface (NewSlotIdentity id s)) slots) with
      | Some slot => Some slot
      | None => m !! name
      end.
Proof.
  revert m. induction slots as [|s slots IH]; intros m; [done|]. cbn [foldl]. rewrite IH.
  rewrite filter_cons. case_decide as Hn.
  - rewrite last_cons. destruct (last (filter _ _)); [done|]. rewrite Hn. apply lookup_insert_eq.
  - destruct (last (filter _ _)); [done|]. by rewrite lookup_insert_ne by congruence.
Qed.

Lemma owned_slots_lookup id name slot :
  0 <= id -> owned_slots id !! name = Some slot <->
  slot_ok slot /\ name = Interface (NewSlotIdentity id slot).
Proof.
  intros Hid. unfold owned_slots. rewrite owned_slots_lookup_gen, lookup_empty. split.
  - destruct (last _) as [s|] eqn:E; [|done]. intros ?; simplify_eq.
    apply last_Some_elem_of, list_elem_of_filter in E as [? ?%elem_of_seqZ]. split; [|done].
    unfold_ids. lia.
  - intros [Hs ->]. destruct (last _) as [s|] eqn:E.
    + apply last_Some_elem_of, list_elem_of_filter in E as [E Hin%elem_of_seqZ].
      unfold_ids. apply interface_inj in E as [_ ->]; [done|lia..].
    + exfalso. apply last_None in E. apply (not_elem_of_nil (A := Z) slot). rewrite <- E.
      apply list_elem_of_filter. split; [done|]. apply elem_of_seqZ. unfold_ids. lia.
Qed.

(** Each of a slot's three names determines the pair. *)
Lemma slot_identity_inj id1 s1 id2 s2 :
  gateway_id_ok id1 -> slot_ok s1 -> gateway_id_ok id2 -> slot_ok s2 ->
  (Interface (NewSlotIdentity id1 s1) = Interface (NewSlotIdentity id2 s2) \/
   Mark (NewSlotIdentity id1 s1) = Mark (NewSlotIdentity id2 s2) \/
   RouteTable (NewSlotIdentity id1 s1) = RouteTable (NewSlotIdentity id2 s2)) ->
  id1 = id2 /\ s1 = s2.
Proof.
  intros Hi1 Hs1 Hi2 Hs2 [H|[H|H]].
  - apply interface_inj in H; unfold_ids; lia.
  - apply string_app_inj_l in H.
    destruct (mark_bits_eq _ _ Hi1 Hs1) as [E1 R1], (mark_bits_eq _ _ Hi2 Hs2) as [E2 R2].
    unfold mark_bits in *. rewrite E1, E2 in H.
    apply fmt_08x_inj in H; [|lia..]. apply routing_key_inj; try done. lia.
  - cbn in H. pose proof (routing_key_range _ _ Hi1 Hs1).
    pose proof (routing_key_range _ _ Hi2 Hs2).
    unfold routeTableBase in H. rewrite !wrap64_id in H by (unfold int64_ok; lia).
    apply routing_key_inj; try done. lia.
Qed.

(** ** Properties *)

(** C1: across every Gateway and slot of the cluster, no two distinct (id, slot)
    pairs share an interface name, a firewall mark or a routing table: each of the
    three determines the pair. *)
Theorem slot_identity_unique id1 s1 id2 s2 :
  gateway_id_ok id1 -> slot_ok s1 -> gateway_id_ok id2 -> slot_ok s2 ->
  (Interface (NewSlotIdentity id1 s1) = Interface (NewSlotIdentity id2 s2) \/
   Mark (NewSlotIdentity id1 s1) = Mark (NewSlotIdentity id2 s2) \/
   RouteTable (NewSlotIdentity id1 s1) = RouteTable (NewSlotIdentity id2 s2)) ->
  id1 = id2 /\ s1 = s2.
Proof. exact (slot_identity_inj id1 s1 id2 s2). Qed.

Lemma slot_identity_unique_witness :
  RouteTable (NewSlotIdentity 3 7) = 101795 /\ 3 = 3 /\ 7 = 7.
Proof.
  split; [vm_compute; reflexivity|].
  apply (slot_identity_unique 3 7 3 7); try (by vm_compute). left. reflexivity.
Defined.

(** C22: Every slot's names fit the kernel: the interface name is at most 15
    bytes, the mark prints as ten characters naming a 32-bit value that lies
    inside the mask (so the low 16 bits kube-proxy uses are clear) and is not
    zero, and the routing table is a 32-bit number clear of the reserved tables. *)
Theorem slot_identity_bounds id slot :
  gateway_id_ok id -> slot_ok slot ->
  let s := NewSlotIdentity id slot in
  (String.length (Interface s) <= 15)%nat /\
  (exists v, Mark s = "0x" +:+ fmt_08x v /\ String.length (Mark s) = 10%nat /\
             0 < v < 2 ^ 32 /\ Z.land v markMaskBits = v /\ v mod 2 ^ 16 = 0) /\
  255 < RouteTable s < 2 ^ 32.
Proof.
  intros Hi Hs. pose proof (routing_key_range _ _ Hi Hs) as Hk.
  destruct (mark_bits_eq _ _ Hi Hs) as [Hm Hr]. unfold mark_bits in Hm. cbn zeta. split; [|split].
  - unfold_ids. cbn [Interface NewSlotIdentity].
    pose proof (length_Itoa id 2 ltac:(lia)). pose proof (length_Itoa slot 2 ltac:(lia)).
    destruct (negb _); rewrite !string_length_app; cbn [String.length]; lia.
  - exists (routing_key id slot * 2 ^ 16). cbn [Mark NewSlotIdentity]. rewrite Hm.
    repeat split; try lia.
    + rewrite string_length_app, length_fmt_08x by lia. done.
    + change markMaskBits with (Z.shiftl (Z.ones 16) 16).
      rewrite <- (Z.shiftl_mul_pow2 _ 16), <- Z.shiftl_land by lia.
      rewrite Z.land_ones, Z.mod_small by lia. done.
    + apply Z.mod_mul. lia.
  - cbn. unfold routeTableBase. rewrite wrap64_id by (unfold int64_ok; lia). lia.
Qed.

Lemma slot_identity_bounds_witness :
  (String.length (Interface (NewSlotIdentity 250 255)) <= 15)%nat.
Proof. apply (slot_identity_bounds 250 255); by vm_compute. Defined.

(** [InheritedSlots] discovers exactly the Gateway's slots whose interface is
    among the node's links, whether or not the current config lists them, and
    returns them in ascending order. *)
Theorem InheritedSlots_spec names id :
  0 <= id ->
  StronglySorted Z.le (InheritedSlots names id) /\
  forall slot, slot ∈ InheritedSlots names id <->
    slot_ok slot /\ Interface (NewSlotIdentity id slot) ∈ names.
Proof.
  intros Hid. split; [apply StronglySorted_merge_sort; apply _|]. intros slot.
  unfold InheritedSlots. rewrite elem_of_merge_sort by apply _. rewrite list_elem_of_omap.
  setoid_rewrite owned_slots_lookup; [|done]. naive_solver.
Qed.

Lemma InheritedSlots_spec_witness :
  InheritedSlots ["eth0"; "wg-gw5-9"; "wg-gw5"; "wg-gw6-1"] 5 = [0; 9] /\
  StronglySorted Z.le (InheritedSlots ["eth0"; "wg-gw5-9"; "wg-gw5"; "wg-gw6-1"] 5).
Proof. split; [vm_compute; reflexivity|]. apply (InheritedSlots_spec _ 5). lia. Defined.
