(* ===== verification/Config.v ===== *)
(** * The link's runtime configuration: internal/link/config.go

    [RuntimeConfig] is the JSON document the operator writes and the link loads.
    [validate] is translated check by check, in order, each early return its own
    constructor of [config_error]. The theorems show what an accepted config
    guarantees the data plane (slots in range and unique, forwards unique per
    port and protocol, the mode's required fields present), that these
    guarantees are also sufficient, and that validation is idempotent. *)

From S2P Require Import Prelude GoStrings GoNet Identity.

Definition TrafficPolicyCluster : string := "Cluster".
Definition TrafficPolicyLocal : string := "Local".

Record Peer := mkPeer {
  Slot : Z;
  PublicKey : string;
  Endpoint : string;
  AllowedIPs : list string;
  PersistentKeepalive : Z
}.

Record WireGuard := mkWireGuard {
  Address : string;
  ListenPort : Z;
  MTU : Z;
  Peers : list Peer
}.

Record Forward := mkForward {
  Name : string;
  PublicPort : Z;
  Protocol : string;
  Service : string;
  TargetPort : Z;
  Namespace : string;
  ServiceName : string;
  ServicePortName : string
}.

Record RuntimeConfig := mkRuntimeConfig {
  TrafficPolicy : string;
  rc_Identity : option GatewayIdentity;
  HealthPort : Z;
  PodSelector : gmap string string;
  Responders : gmap string string;
  ResponderPort : Z;
  ResponderTarget : string;
  PublicAddress : string;
  rc_WireGuard : WireGuard;
  Forwards : list Forward
}.

#[global] Instance Peer_eq_dec : EqDecision Peer.
Proof. solve_decision. Defined.
#[global] Instance WireGuard_eq_dec : EqDecision WireGuard.
Proof. solve_decision. Defined.
#[global] Instance Forward_eq_dec : EqDecision Forward.
Proof. solve_decision. Defined.
#[global] Instance RuntimeConfig_eq_dec : EqDecision RuntimeConfig.
Proof. solve_decision. Defined.

Definition isLocal (rc : RuntimeConfig) : bool :=
  match rc_Identity rc with Some _ => true | None => false end.

(** One constructor per error return of [validate] and [LoadRuntimeConfig]. *)
Inductive config_error :=
| ErrRead
| ErrUnmarshal
| ErrAddressRequired
| ErrUnknownPolicy (policy : string)
| ErrNoIdentity
| ErrIdentityLocalOnly (policy : string)
| ErrNoPodSelector
| ErrHealthPort (got want : Z)
| ErrResponderPortResponders
| ErrResponderPortTarget (target : string)
| ErrPublicAddressParse (addr : string)
| ErrPublicAddressFamily (addr : string)
| ErrPublicAddressUnspecified (addr : string)
| ErrPeerKey (slot : Z)
| ErrPeerSlot (slot : Z)
| ErrPeerDuplicate (slot : Z)
| ErrForwardProtocol (name proto : string)
| ErrForwardPort (name : string) (port : Z)
| ErrForwardService (name : string)
| ErrForwardTargetPort (name : string) (port : Z)
| ErrForwardNamespace (name : string)
| ErrForwardServiceName (name : string)
| ErrForwardCollision (name prev proto : string) (port : Z).

Definition port_ok (p : Z) : bool := (1 <=? p) && (p <=? 65535).

(** The peer loop, with [seenSlots]. *)
Fixpoint validate_peers (seen : gset Z) (ps : list Peer) : result config_error unit :=
  match ps with
  | [] => Ok tt
  | p :: ps =>
      guard negb (bool_decide (PublicKey p = "")) else ErrPeerKey (Slot p) ;;
      guard negb ((Slot p <? 0) || (255 <? Slot p)) else ErrPeerSlot (Slot p) ;;
      guard negb (bool_decide (Slot p ∈ seen)) else ErrPeerDuplicate (Slot p) ;;
      validate_peers ({[Slot p]} ∪ seen) ps
  end.

Definition with_Protocol (f : Forward) (proto : string) : Forward :=
  mkForward (Name f) (PublicPort f) proto (Service f) (TargetPort f) (Namespace f)
    (ServiceName f) (ServicePortName f).

(** The mode's required fields of one forward. *)
Definition validate_backend (local : bool) (f : Forward) : result config_error unit :=
  if negb local then
    guard negb (bool_decide (Service f = "")) else ErrForwardService (Name f) ;;
    guard port_ok (TargetPort f) else ErrForwardTargetPort (Name f) (TargetPort f) ;; Ok tt
  else
    guard negb (bool_decide (Namespace f = "")) else ErrForwardNamespace (Name f) ;;
    guard negb (bool_decide (ServiceName f = "")) else ErrForwardServiceName (Name f) ;; Ok tt.

(** The forward loop: lower-cases each protocol in place; [seen] maps a (port,
    protocol) key to the name of the forward that took it. *)
Fixpoint validate_forwards (local : bool) (seen : gmap (Z * string) string)
    (fs : list Forward) : result config_error (list Forward) :=
  match fs with
  | [] => Ok []
  | f0 :: fs =>
      let f := with_Protocol f0 (ToLower (Protocol f0)) in
      guard bool_decide (Protocol f = "tcp") || bool_decide (Protocol f = "udp")
        else ErrForwardProtocol (Name f) (Protocol f) ;;
      guard port_ok (PublicPort f) else ErrForwardPort (Name f) (PublicPort f) ;;
      _ <-! validate_backend local f ;;
      match seen !! (PublicPort f, Protocol f) with
      | Some prev => Err (ErrForwardCollision (Name f) prev (Protocol f) (PublicPort f))
      | None =>
          rest <-! validate_forwards local (<[(PublicPort f, Protocol f) := Name f]> seen) fs ;;
          Ok (f :: rest)
      end
  end.

Definition validate_public_address (addr : string) : result config_error unit :=
  if bool_decide (addr = "") then Ok tt
  else match ParseAddr addr with
       | None => Err (ErrPublicAddressParse addr)
       | Some a =>
           guard Is4 a else ErrPublicAddressFamily addr ;;
           guard negb (IsUnspecified a) else ErrPublicAddressUnspecified addr ;; Ok tt
       end.

Definition with_Forwards (rc : RuntimeConfig) (fs : list Forward) : RuntimeConfig :=
  mkRuntimeConfig (TrafficPolicy rc) (rc_Identity rc) (HealthPort rc) (PodSelector rc)
    (Responders rc) (ResponderPort rc) (ResponderTarget rc) (PublicAddress rc)
    (rc_WireGuard rc) fs.

(** The checks on the config's own fields, in order. *)
Definition validate_shape (rc : RuntimeConfig) : result config_error unit :=
  let policy := TrafficPolicy rc in
  guard negb (bool_decide (Address (rc_WireGuard rc) = "")) else ErrAddressRequired ;;
  guard bool_decide (policy = "") || bool_decide (policy = TrafficPolicyCluster)
        || bool_decide (policy = TrafficPolicyLocal) else ErrUnknownPolicy policy ;;
  guard negb (bool_decide (policy = TrafficPolicyLocal) && negb (isLocal rc)) else ErrNoIdentity ;;
  guard negb (isLocal rc && negb (bool_decide (policy = TrafficPolicyLocal)))
        else ErrIdentityLocalOnly policy ;;
  guard negb (isLocal rc && bool_decide (PodSelector rc = ∅)) else ErrNoPodSelector ;;
  _ <-! match rc_Identity rc with
        | Some id => guard HealthPort rc =? gi_HealthPort id
                       else ErrHealthPort (HealthPort rc) (gi_HealthPort id) ;; Ok tt
        | None => Ok tt
        end ;;
  guard negb ((ResponderPort rc =? 0) && negb (bool_decide (Responders rc = ∅)))
        else ErrResponderPortResponders ;;
  guard negb ((ResponderPort rc =? 0) && negb (bool_decide (ResponderTarget rc = "")))
        else ErrResponderPortTarget (ResponderTarget rc) ;;
  validate_public_address (PublicAddress rc).

(** [validate] returns the config it leaves behind, its protocols lower-cased. *)
Definition validate (rc : RuntimeConfig) : result config_error RuntimeConfig :=
  _ <-! validate_shape rc ;;
  _ <-! validate_peers ∅ (Peers (rc_WireGuard rc)) ;;
  fs <-! validate_forwards (isLocal rc) ∅ (Forwards rc) ;;
  Ok (with_Forwards rc fs).

(** [LoadRuntimeConfig], over the file's contents ([None] when the read fails) and
    the JSON decoder. *)
Definition LoadRuntimeConfig (unmarshal : string -> option RuntimeConfig)
    (contents : option string) : result config_error RuntimeConfig :=
  match contents with
  | None => Err ErrRead
  | Some data => match unmarshal data with
                 | None => Err ErrUnmarshal
                 | Some rc => validate rc
                 end
  end.

(** ** What an accepted config guarantees *)
Definition forward_key (f : Forward) : Z * string := (PublicPort f, Protocol f).

Definition peer_ok (p : Peer) : Prop := PublicKey p <> "" /\ slot_ok (Slot p).

Definition forward_ok (local : bool) (f : Forward) : Prop :=
  (Protocol f = "tcp" \/ Protocol f = "udp") /\ 1 <= PublicPort f <= 65535 /\
  (if local then Namespace f <> "" /\ ServiceName f <> ""
   else Service f <> "" /\ 1 <= TargetPort f <= 65535).

Definition public_address_ok (addr : string) : Prop :=
  addr = "" \/ exists v, v <> 0 /\ ParseAddr addr = Some (V4 v).

Definition shape_ok (rc : RuntimeConfig) : Prop :=
  Address (rc_WireGuard rc) <> "" /\
  match rc_Identity rc with
  | Some id => TrafficPolicy rc = TrafficPolicyLocal /\ PodSelector rc <> ∅ /\
               HealthPort rc = gi_HealthPort id
  | None => TrafficPolicy rc = "" \/ TrafficPolicy rc = TrafficPolicyCluster
  end /\
  (Responders rc <> ∅ \/ ResponderTarget rc <> "" -> ResponderPort rc <> 0) /\
  public_address_ok (PublicAddress rc).

(** The reference definition of a config the data plane can program. *)
Definition config_ok (rc : RuntimeConfig) : Prop :=
  shape_ok rc /\
  Forall peer_ok (Peers (rc_WireGuard rc)) /\ NoDup (Slot <$> Peers (rc_WireGuard rc)) /\
  Forall (forward_ok (isLocal rc)) (Forwards rc) /\ NoDup (forward_key <$> Forwards rc).

Definition lower_forward (f : Forward) : Forward := with_Protocol f (ToLower (Protocol f)).
Definition lowered (rc : RuntimeConfig) : RuntimeConfig :=
  with_Forwards rc (lower_forward <$> Forwards rc).

Lemma port_ok_spec p : port_ok p = true <-> 1 <= p <= 65535.
Proof. unfold port_ok. rewrite andb_true_iff, !Z.leb_le. done. Qed.

Lemma validate_public_address_spec addr :
  validate_public_address addr = Ok tt <-> public_address_ok addr.
Proof.
  unfold validate_public_address, public_address_ok.
  destruct (bool_decide (addr = "")) eqn:E; bool_prop; [naive_solver|].
  destruct (ParseAddr addr) as [[v|v z]|]; [|naive_solver..].
  cbn. destruct (Z.eqb_spec v 0); naive_solver.
Qed.

Lemma validate_peers_spec seen ps :
  validate_peers seen ps = Ok tt <->
  Forall peer_ok ps /\ NoDup (Slot <$> ps) /\ (forall p, p ∈ ps -> Slot p ∉ seen).
Proof.
  revert seen. induction ps as [|p ps IH]; intros seen; cbn [validate_peers].
  { split; [|done]. intros _. repeat split; [constructor..|set_solver]. }
  rewrite !guard_ok, IH, fmap_cons, Forall_cons, NoDup_cons. unfold peer_ok at 2.
  rewrite !negb_true_iff, !bool_decide_eq_false, orb_false_iff, !Z.ltb_ge. unfold_ids.
  split.
  - intros (? & ? & ? & ? & ? & Hs). repeat split; try done; try lia.
    + intros (q & Hq & Hin)%list_elem_of_fmap. apply (Hs q); set_solver.
    + intros q [->|Hq]%elem_of_cons; [done|]. specialize (Hs q Hq). set_solver.
  - intros ([[? ?] ?] & [Hni ?] & Hs). repeat split; try done; try lia.
    + apply Hs. set_solver.
    + intros q Hq [Heq%elem_of_singleton|]%elem_of_union.
      * apply Hni. rewrite <- Heq. by apply list_elem_of_fmap_2.
      * apply (Hs q); set_solver.
Qed.

Lemma validate_backend_spec local f :
  validate_backend local f = Ok tt <->
  (if local then Namespace f <> "" /\ ServiceName f <> ""
   else Service f <> "" /\ 1 <= TargetPort f <= 65535).
Proof.
  unfold validate_backend. destruct local; cbn [negb]; rewrite !guard_ok.
  - rewrite !negb_true_iff, !bool_decide_eq_false. naive_solver.
  - rewrite negb_true_iff, bool_decide_eq_false, port_ok_spec. naive_solver.
Qed.

Lemma validate_forwards_spec local seen fs out :
  validate_forwards local seen fs = Ok out <->
  out = lower_forward <$> fs /\ Forall (forward_ok local) out /\
  NoDup (forward_key <$> out) /\ (forall f, f ∈ out -> seen !! forward_key f = None).
Proof.
  revert seen out. induction fs as [|f fs IH]; intros seen out; cbn [validate_forwards].
  { split; [|naive_solver].
    intros ?; simplify_eq. repeat split; [constructor..|set_solver]. }
  fold (lower_forward f). set (g := lower_forward f).
  rewrite !guard_ok, orb_true_iff, !bool_decide_eq_true, port_ok_spec, res_bind_ok. split.
  - intros (Hp & Hport & [] & Hb & H).
    apply validate_backend_spec in Hb.
    destruct (seen !! _) eqn:Hseen; [done|]. inv_ok H.
    apply IH in Ha as (-> & Hall & Hnd & Hs). split; [done|]. split; [|split].
    + constructor; [split_and!; tauto|done].
    + apply NoDup_cons. split; [|done].
      intros (q & Hq & Hin)%list_elem_of_fmap. apply (Hs q), lookup_insert_None in Hin as [_ Hne].
      apply Hne, Hq.
    + intros q [->|Hq]%elem_of_cons; [done|].
      apply Hs, lookup_insert_None in Hq as [? _]. done.
  - intros (-> & Hall & Hnd & Hs). cbn [fmap list_fmap] in *. fold g in Hall, Hnd, Hs.
    apply Forall_cons in Hall as [(Hp & Hport & Hb) Hall].
    apply NoDup_cons in Hnd as [Hni Hnd].
    split; [done|]. split; [done|]. exists tt. split; [by apply validate_backend_spec|].
    unfold forward_key in Hs at 1. rewrite (Hs g) by set_solver.
    apply res_bind_ok. exists (lower_forward <$> fs). split; [|done].
    apply IH. repeat split; try done. intros q Hq.
    apply lookup_insert_None. split; [apply Hs; set_solver|].
    intros Heq. apply Hni. fold (forward_key g) in Heq. rewrite Heq.
    by apply list_elem_of_fmap_2.
Qed.

Lemma validate_shape_spec rc : validate_shape rc = Ok tt <-> shape_ok rc.
Proof.
  unfold validate_shape, shape_ok, isLocal. rewrite <- validate_public_address_spec.
  assert (TrafficPolicyLocal <> "" /\ TrafficPolicyLocal <> TrafficPolicyCluster) as [? ?] by done.
  rewrite !guard_ok, res_bind_ok, !negb_true_iff, !orb_true_iff, !andb_false_iff.
  rewrite !negb_false_iff, !bool_decide_eq_true, !bool_decide_eq_false.
  setoid_rewrite guard_ok. setoid_rewrite guard_ok.
  setoid_rewrite negb_true_iff. setoid_rewrite andb_false_iff. setoid_rewrite negb_false_iff.
  setoid_rewrite bool_decide_eq_true. setoid_rewrite Z.eqb_neq.
  destruct (rc_Identity rc) as [id|].
  - setoid_rewrite guard_ok. setoid_rewrite Z.eqb_eq. split.
    + intros (? & Hpol & _ & [?|?] & [?|?] & [] & [? _] & Hr & Ht & Ha); try done.
      split_and!; try done; intros [?|?] ?; [destruct Hr|destruct Ht]; done.
    + intros (? & (? & ? & ?) & Hr & Ha). split_and!; try tauto.
      exists tt. split_and!; try done; apply or_comm, dec_stable; tauto.
  - split.
    + intros (? & Hpol & [?|?] & _ & _ & [] & _ & Hr & Ht & Ha); [|done].
      split_and!; tauto.
    + intros (? & Hpol & Hr & Ha). split_and!; try tauto; [by destruct Hpol as [-> | ->]; left|].
      exists tt. split_and!; try done; apply or_comm, dec_stable; tauto.
Qed.

Lemma shape_ok_with_Forwards rc fs : shape_ok (with_Forwards rc fs) <-> shape_ok rc.
Proof. done. Qed.

Lemma isLocal_with_Forwards rc fs : isLocal (with_Forwards rc fs) = isLocal rc.
Proof. done. Qed.

Lemma validate_iff rc rc' : validate rc = Ok rc' <-> rc' = lowered rc /\ config_ok rc'.
Proof.
  unfold validate, config_ok, lowered. split.
  - intros H. inv_ok H. destruct a, a0.
    apply validate_shape_spec in Ha. apply validate_peers_spec in Ha0 as (? & ? & _).
    apply validate_forwards_spec in Ha1 as (-> & ? & ? & _). split; [done|].
    rewrite isLocal_with_Forwards. done.
  - intros (-> & Hs & Hp & Hnp & Hf & Hnf).
    rewrite (proj2 (validate_shape_spec rc)) by done. cbn [res_bind].
    rewrite (proj2 (validate_peers_spec ∅ _)) by (split_and!; set_solver).
    cbn [res_bind]. rewrite (proj2 (validate_forwards_spec (isLocal rc) ∅ (Forwards rc) (lower_forward <$> Forwards rc))); [done|].
    split_and!; [done..|]. intros. apply lookup_empty.
Qed.

Lemma lower_char_idem c : lower_char (lower_char c) = lower_char c.
Proof. destruct c as [[] [] [] [] [] [] [] []]; vm_compute; reflexivity. Qed.

Lemma ToLower_idem s : ToLower (ToLower s) = ToLower s.
Proof.
  unfold ToLower. rewrite chars_of_chars, <- list_fmap_compose. f_equal.
  apply list_fmap_ext. intros. apply lower_char_idem.
Qed.

Lemma lowered_idem rc : lowered (lowered rc) = lowered rc.
Proof.
  unfold lowered, with_Forwards. cbn. f_equal. rewrite <- list_fmap_compose.
  apply list_fmap_ext. intros i f _. unfold compose, lower_forward. cbn -[ToLower].
  by rewrite ToLower_idem.
Qed.

(** ** Properties *)

Definition sample_peer (slot : Z) : Peer :=
  mkPeer slot "pubkey" "203.0.113.7:51820" ["0.0.0.0/0"] 25.
Definition sample_forward (port : Z) (proto : string) : Forward :=
  mkForward "web" port proto "" 0 "apps" "web" "http".
Definition sample_local (fs : list Forward) (ps : list Peer) : RuntimeConfig :=
  mkRuntimeConfig "Local" (Some (NewGatewayIdentity 5)) 27005 {["app" := "link"]} ∅ 0 "" "203.0.113.9"
    (mkWireGuard "10.99.0.2/32" 0 1380 ps) fs.

(** C6: [validate] accepts exactly the configs the data plane can program: it
    succeeds with [rc'] iff [rc'] is the input with every forward protocol
    lower-cased and [rc'] satisfies the reference definition (mode and identity
    agree, slots in range and pairwise distinct, forwards well-formed for the mode
    and pairwise distinct per public port and protocol). *)
Theorem validate_characterised rc rc' :
  validate rc = Ok rc' <-> rc' = lowered rc /\ config_ok rc'.
Proof. apply validate_iff. Qed.

(** loading a config that was accepted once accepts it again and changes
    nothing: validation is idempotent, so the digest of a reloaded config is
    stable. *)
Theorem validate_idempotent rc rc' : validate rc = Ok rc' -> validate rc' = Ok rc'.
Proof.
  rewrite !validate_iff. intros [-> Hok]. split; [by rewrite lowered_idem|done].
Qed.

Lemma validate_idempotent_witness :
  validate (sample_local [sample_forward 80 "TCP"; sample_forward 80 "UDP"] [sample_peer 0; sample_peer 9])
    = Ok (sample_local [sample_forward 80 "tcp"; sample_forward 80 "udp"] [sample_peer 0; sample_peer 9]) /\
  validate (sample_local [sample_forward 80 "tcp"; sample_forward 80 "udp"] [sample_peer 0; sample_peer 9])
    = Ok (sample_local [sample_forward 80 "tcp"; sample_forward 80 "udp"] [sample_peer 0; sample_peer 9]).
Proof.
  split; [vm_compute; reflexivity|].
  eapply (validate_idempotent
    (sample_local [sample_forward 80 "TCP"; sample_forward 80 "UDP"] [sample_peer 0; sample_peer 9])).
  vm_compute. reflexivity.
Defined.
