(* ===== verification/Endpoints.v ===== *)
(** * Local-mode endpoint resolution: internal/link/endpoints.go

    The watcher keeps one EndpointSlice informer per (namespace, service) its
    forwards name, resolves every forward against the node's ready endpoints and
    scores every live node for the election. An informer's store is the list of
    objects [Indexer.List] returns, in the arbitrary order it returns them; a
    [nil] informer in [w.slices] is a nil dereference, modelled as [None].

    The theorems: [selectEndpoint] returns the least (address, port) whatever the
    store's order; the watcher's reachable states never dereference a missing
    informer; [snapshot] partitions the forwards; a full score agrees with
    [snapshot] once every informer has synced; no subscriber misses a change. *)

From S2P Require Import Prelude GoStrings GoNet Config.

(** ** The Kubernetes objects read *)
Record EndpointPort := mkEndpointPort { ep_Name : option string; ep_Port : option Z }.

Record Endpoint := mkEndpoint {
  NodeName : option string;
  Ready : option bool;
  Addresses : list string
}.

Record EndpointSlice := mkEndpointSlice {
  AddressType : string;
  Endpoints : list Endpoint;
  Ports : list EndpointPort
}.

Record Pod := mkPod {
  pod_Name : string;
  pod_NodeName : string;
  pod_Conditions : list (string * string)
}.

Definition AddressTypeIPv4 : string := "IPv4".

(** [ResolvedForward] of render.go: what one forward is DNATed to. *)
Record ResolvedForward := mkResolvedForward {
  rf_Name : string;
  rf_PublicPort : Z;
  rf_Protocol : string;
  rf_Target : string;
  rf_TargetPort : Z
}.

#[global] Instance ResolvedForward_eq_dec : EqDecision ResolvedForward.
Proof. solve_decision. Defined.

(** ** Endpoint selection *)

(** The first port entry whose name matches decides, resolved or not. *)
Fixpoint findPort (ports : list EndpointPort) (name : string) : option Z :=
  match ports with
  | [] => None
  | p :: ports => if bool_decide (default "" (ep_Name p) = name) then ep_Port p
                  else findPort ports name
  end.

(** The (slice, endpoint) pairs the iterator yields. *)
Definition endpoint_eligible (node : string) (ep : Endpoint) : bool :=
  bool_decide (NodeName ep = Some node) && default true (Ready ep).

Definition readyIPv4Endpoints (indexer : list EndpointSlice) (node : string)
  : list (EndpointSlice * Endpoint) :=
  slice ← filter (fun s => AddressType s = AddressTypeIPv4) indexer;
  (fun ep => (slice, ep)) <$> filter (fun ep => endpoint_eligible node ep = true) (Endpoints slice).

Definition hasReadyEndpoint (indexer : list EndpointSlice) (node : string) : bool :=
  match readyIPv4Endpoints indexer node with [] => false | _ :: _ => true end.

Definition candidates (indexer : list EndpointSlice) (node portName : string)
  : list (string * Z) :=
  '(slice, ep) ← readyIPv4Endpoints indexer node;
  match findPort (Ports slice) portName with
  | None => []
  | Some p => (fun a => (a, p)) <$> filter (fun a => ParseIP a <> None) (Addresses ep)
  end.

(** The comparison handed to [slices.SortFunc]. *)
Definition candidate_le (x y : string * Z) : Prop :=
  (x.1 <> y.1 /\ String.le x.1 y.1) \/ (x.1 = y.1 /\ x.2 <= y.2).
#[global] Instance candidate_le_dec : RelDecision candidate_le.
Proof. intros x y. unfold candidate_le. apply _. Defined.

Definition selectEndpoint (indexer : list EndpointSlice) (node portName : string)
  : option (string * Z) :=
  head (merge_sort candidate_le (candidates indexer node portName)).

#[global] Instance candidate_le_trans : Transitive candidate_le.
Proof.
  intros [a p] [b q] [c r]. unfold candidate_le; cbn.
  intros [[N1 H1]|[-> H1]] [[N2 H2]|[-> H2]]; [|by left..|right; split; [done|lia]].
  left. assert (Hac : String.le a c) by (by transitivity b). split; [|done].
  intros ->. apply N1. by apply (anti_symm String.le).
Qed.

#[global] Instance candidate_le_total : Total candidate_le.
Proof.
  intros [a p] [b q]. unfold candidate_le; cbn.
  destruct (decide (a = b)) as [->|Hne]; [destruct (Z.le_ge_cases p q); auto|].
  destruct (total String.le a b); auto.
Qed.

#[global] Instance candidate_le_antisymm : AntiSymm (=) candidate_le.
Proof.
  intros [a p] [b q]. unfold candidate_le; cbn.
  intros [[N1 H1]|[-> H1]] [[N2 H2]|[? H2]]; try congruence.
  - by destruct N1; apply (anti_symm String.le).
  - f_equal. lia.
Qed.

Lemma selectEndpoint_Some indexer node name c :
  selectEndpoint indexer node name = Some c <->
  c ∈ candidates indexer node name /\
  forall d, d ∈ candidates indexer node name -> candidate_le c d.
Proof.
  unfold selectEndpoint.
  pose proof (StronglySorted_merge_sort candidate_le (candidates indexer node name)) as Hs.
  setoid_rewrite <- (elem_of_merge_sort candidate_le _ (candidates indexer node name)).
  destruct (merge_sort _ _) as [|x l]; cbn; [set_solver|].
  apply StronglySorted_inv in Hs as [_ Hall]. rewrite Forall_forall in Hall. split.
  - intros ?; simplify_eq. split; [set_solver|].
    intros d [->|Hd]%elem_of_cons; [by destruct (total candidate_le c c)|by apply Hall].
  - intros [[->|Hc]%elem_of_cons Hmin]; [done|]. f_equal.
    apply (anti_symm candidate_le); [by apply Hall|]. apply Hmin. set_solver.
Qed.

Lemma selectEndpoint_None indexer node name :
  selectEndpoint indexer node name = None <-> candidates indexer node name = [].
Proof.
  unfold selectEndpoint. split; [|by intros ->].
  intros H%head_None. apply Permutation_nil_r. rewrite <- H. symmetry.
  apply merge_sort_Permutation.
Qed.

(** An address the node can be forwarded to: it is listed by an endpoint of the
    node that is not marked unready, in an IPv4 slice that resolves the port. *)
Definition servable (ix : list EndpointSlice) (node name a : string) (p : Z) : Prop :=
  exists slice ep,
    slice ∈ ix /\ AddressType slice = AddressTypeIPv4 /\
    ep ∈ Endpoints slice /\ NodeName ep = Some node /\ Ready ep <> Some false /\
    findPort (Ports slice) name = Some p /\ a ∈ Addresses ep /\ ParseIP a <> None.

Lemma elem_of_candidates indexer node name a p :
  (a, p) ∈ candidates indexer node name <-> servable indexer node name a p.
Proof.
  unfold servable, candidates, readyIPv4Endpoints. rewrite list_elem_of_bind. split.
  - intros ([slice ep] & Hap & (s & Hse & Hs)%list_elem_of_bind).
    apply list_elem_of_fmap in Hse as (e & ? & Hep). simplify_eq.
    apply list_elem_of_filter in Hs as [? ?], Hep as [Hel ?].
    unfold endpoint_eligible in Hel. bool_prop.
    destruct (findPort _ _) as [q|] eqn:Hq; [|set_solver].
    apply list_elem_of_fmap in Hap as (? & ? & [? ?]%list_elem_of_filter). simplify_eq.
    exists s, e. split_and!; try done. by destruct (Ready e) as [[]|].
  - intros (s & e & Hs & Ht & He & Hn & Hr & Hp & Ha & Hip).
    exists (s, e). rewrite Hp. split.
    + apply list_elem_of_fmap. exists a. split; [done|]. by apply list_elem_of_filter.
    + apply list_elem_of_bind. exists s. split; [|by apply list_elem_of_filter].
      apply list_elem_of_fmap. exists e. split; [done|]. apply list_elem_of_filter.
      split; [|done]. unfold endpoint_eligible. rewrite bool_decide_true by done. cbn.
      by destruct (Ready e) as [[]|].
Qed.

(** ** The watcher *)
Abbreviation endpointWatcherKey := (string * string)%type.

Definition key_of (f : Forward) : endpointWatcherKey := (Namespace f, ServiceName f).

(** [inf_id] is the identity of the running informer, so stopping one can be told
    from stopping its successor under the same key. *)
Record sliceInformer := mkSliceInformer {
  inf_id : nat;
  indexer : list EndpointSlice;
  hasSynced : bool;
  started : Z
}.

Definition pendingSync (i : sliceInformer) (now grace : Z) : bool :=
  negb (hasSynced i) && (time_sub now (started i) <? grace).

(** [w_subscribers] maps a subscriber's channel to whether its one-slot buffer is
    full; [w_stopped] records the informers whose [stop] was called. *)
Record endpointWatcher := mkEndpointWatcher {
  w_node : string;
  w_syncGrace : Z;
  w_pods : list Pod;
  w_forwards : list Forward;
  w_slices : gmap endpointWatcherKey sliceInformer;
  w_subscribers : gmap nat bool;
  w_stopped : list nat;
  w_next : nat
}.

Definition with_watch (w : endpointWatcher) fs sl st nx : endpointWatcher :=
  mkEndpointWatcher (w_node w) (w_syncGrace w) (w_pods w) fs sl (w_subscribers w) st nx.
Definition with_subscribers (w : endpointWatcher) subs : endpointWatcher :=
  mkEndpointWatcher (w_node w) (w_syncGrace w) (w_pods w) (w_forwards w) (w_slices w) subs
    (w_stopped w) (w_next w).
Definition with_pods (w : endpointWatcher) pods : endpointWatcher :=
  mkEndpointWatcher (w_node w) (w_syncGrace w) pods (w_forwards w) (w_slices w)
    (w_subscribers w) (w_stopped w) (w_next w).

Definition endpointSyncGrace : Z := 30 * second.

Inductive unsatisfied_reason := reasonWatchUnsynced | reasonNoLocalPod | reasonPortNotFound.
#[global] Instance unsatisfied_reason_eq_dec : EqDecision unsatisfied_reason.
Proof. solve_decision. Defined.

Record unsatisfiedForward := mkUnsatisfied { uf_name : string; uf_reason : unsatisfied_reason }.

(** [startSliceInformer]: an empty, unsynced store under a fresh identity. *)
Definition startSliceInformer (w : endpointWatcher) (key : endpointWatcherKey) (now : Z)
  : endpointWatcher :=
  with_watch w (w_forwards w)
    (<[key := mkSliceInformer (w_next w) [] false now]> (w_slices w))
    (w_stopped w) (S (w_next w)).

Definition start_missing (now : Z) (w : endpointWatcher) (key : endpointWatcherKey)
  : endpointWatcher :=
  match w_slices w !! key with
  | Some _ => w
  | None => startSliceInformer w key now
  end.

(** A send on every subscriber's one-slot channel, dropped when it is full. *)
Definition signalChange (w : endpointWatcher) : endpointWatcher :=
  with_subscribers w ((fun _ => true) <$> w_subscribers w).

Definition want_keys (fs : list Forward) : gset endpointWatcherKey :=
  list_to_set (key_of <$> fs).

Definition stop_unwanted (want : gset endpointWatcherKey) (w : endpointWatcher)
  : endpointWatcher :=
  with_watch w (w_forwards w)
    (filter (fun kv => kv.1 ∈ want) (w_slices w))
    (w_stopped w ++
     ((fun kv => inf_id kv.2) <$> map_to_list (filter (fun kv => kv.1 ∉ want) (w_slices w))))
    (w_next w).

Definition setForwards (w : endpointWatcher) (fs : list Forward) (now : Z) : endpointWatcher :=
  if decide (w_forwards w = fs) then w
  else
    let want := want_keys fs in
    let w1 := foldl (start_missing now) w (elements want) in
    let w2 := stop_unwanted want w1 in
    signalChange (with_watch w2 fs (w_slices w2) (w_stopped w2) (w_next w2)).

(** [newEndpointWatcher], once the pod informer has synced with [pods]. *)
Definition newEndpointWatcher (node : string) (pods : list Pod) (fs : list Forward) (now : Z)
  : endpointWatcher :=
  setForwards (mkEndpointWatcher node endpointSyncGrace pods [] ∅ ∅ [] 0) fs now.

(** [subscribe] registers a fresh, empty channel; the second result unregisters it. *)
Definition subscribe (w : endpointWatcher) : nat * endpointWatcher :=
  let ch := fresh (dom (w_subscribers w)) in
  (ch, with_subscribers w (<[ch := false]> (w_subscribers w))).
Definition unsubscribe (w : endpointWatcher) (ch : nat) : endpointWatcher :=
  with_subscribers w (delete ch (w_subscribers w)).

(** A consumer's receive empties its channel. *)
Definition receive (w : endpointWatcher) (ch : nat) : endpointWatcher :=
  with_subscribers w (alter (fun _ => false) ch (w_subscribers w)).

(** *** Snapshot *)
Inductive outcome :=
| Resolved (r : ResolvedForward)
| Unsatisfied (u : unsatisfiedForward)
| Pending (name : string).

Definition snapshot_forward (w : endpointWatcher) (now : Z) (inf : sliceInformer) (f : Forward)
  : outcome :=
  if pendingSync inf now (w_syncGrace w) then Pending (Name f)
  else if negb (hasSynced inf) then Unsatisfied (mkUnsatisfied (Name f) reasonWatchUnsynced)
  else match selectEndpoint (indexer inf) (w_node w) (ServicePortName f) with
       | None => Unsatisfied (mkUnsatisfied (Name f)
                   (if hasReadyEndpoint (indexer inf) (w_node w)
                    then reasonPortNotFound else reasonNoLocalPod))
       | Some (addr, port) =>
           Resolved (mkResolvedForward (Name f) (PublicPort f) (Protocol f) addr port)
       end.

(** One outcome per forward; [None] when a forward has no informer, a nil
    dereference. *)
Definition outcomes (w : endpointWatcher) (now : Z) : option (list outcome) :=
  mapM (fun f => inf ← w_slices w !! key_of f; Some (snapshot_forward w now inf f)) (w_forwards w).

Definition resolved_of (o : outcome) : option ResolvedForward :=
  match o with Resolved r => Some r | _ => None end.
Definition unsatisfied_of (o : outcome) : option unsatisfiedForward :=
  match o with Unsatisfied u => Some u | _ => None end.
Definition pending_of (o : outcome) : option string :=
  match o with Pending n => Some n | _ => None end.

Definition snapshot (w : endpointWatcher) (now : Z)
  : option (list ResolvedForward * list unsatisfiedForward * list string) :=
  (fun os : list outcome =>
     (omap resolved_of os, omap unsatisfied_of os, omap pending_of os)) <$> outcomes w now.

(** *** The election's inputs *)
Definition PodReady : string := "Ready".
Definition ConditionTrue : string := "True".

Fixpoint podReady_conditions (cs : list (string * string)) : bool :=
  match cs with
  | [] => false
  | (t, s) :: cs => if bool_decide (t = PodReady) then bool_decide (s = ConditionTrue)
                    else podReady_conditions cs
  end.
Definition podReady (p : Pod) : bool := podReady_conditions (pod_Conditions p).

Definition liveNodes (w : endpointWatcher) : gset string :=
  list_to_set (pod_NodeName <$>
    filter (fun p => pod_NodeName p <> "" /\ podReady p = true) (w_pods w)).

Fixpoint podNode_list (pods : list Pod) (name : string) : option string :=
  match pods with
  | [] => None
  | p :: pods => if bool_decide (pod_Name p = name)
                 then (if bool_decide (pod_NodeName p = "") then None else Some (pod_NodeName p))
                 else podNode_list pods name
  end.
Definition podNode (w : endpointWatcher) (name : string) : option string :=
  podNode_list (w_pods w) name.

Definition scoreLocked (w : endpointWatcher) (node : string) : option Z :=
  foldl (fun acc f =>
    n ← acc; inf ← w_slices w !! key_of f;
    Some (if selectEndpoint (indexer inf) node (ServicePortName f) then n + 1 else n))
    (Some 0) (w_forwards w).

Record electionView := mkElectionView {
  forwardCount : Z;
  v_pending : list string;
  live : gset string;
  scores : gmap string Z
}.

Definition pending_forward (w : endpointWatcher) (now : Z) (f : Forward) : option (option string) :=
  inf ← w_slices w !! key_of f;
  Some (if pendingSync inf now (w_syncGrace w) then Some (Name f) else None).

Definition evaluate (w : endpointWatcher) (now : Z) : option electionView :=
  pend ← mapM (pending_forward w now) (w_forwards w);
  let nodes := liveNodes w in
  sc ← mapM (fun node => s ← scoreLocked w node; Some (node, s)) (elements nodes);
  let m := list_to_map sc in
  m ← (match m !! w_node w with
       | Some _ => Some m
       | None => s ← scoreLocked w (w_node w); Some (<[w_node w := s]> m)
       end);
  Some (mkElectionView (Z.of_nat (length (w_forwards w))) (omap (M := list) id pend) nodes m).

(** ** The watcher as a transition system

    [setForwards] and [subscribe] are called by the link; the informers' stores
    change and sync on their own, each event reaching [signalChange] through
    [notifyOnChange]; a receive drains a consumer's channel. *)
Definition update_informer (g : sliceInformer -> sliceInformer) (k : endpointWatcherKey)
    (w : endpointWatcher) : endpointWatcher :=
  with_watch w (w_forwards w) (alter g k (w_slices w)) (w_stopped w) (w_next w).

Inductive watcher_step : endpointWatcher -> endpointWatcher -> Prop :=
| ws_setForwards w fs now : watcher_step w (setForwards w fs now)
| ws_store w k objs :
    watcher_step w (signalChange (update_informer
      (fun i => mkSliceInformer (inf_id i) objs (hasSynced i) (started i)) k w))
| ws_synced w k :
    watcher_step w (update_informer
      (fun i => mkSliceInformer (inf_id i) (indexer i) true (started i)) k w)
| ws_sync_signal w : watcher_step w (signalChange w)
| ws_pods w pods : watcher_step w (signalChange (with_pods w pods))
| ws_subscribe w : watcher_step w (subscribe w).2
| ws_unsubscribe w ch : watcher_step w (unsubscribe w ch)
| ws_receive w ch : watcher_step w (receive w ch).

(** Every informer ever started is either running under exactly one key or
    stopped, never both. *)
Record informers_ok (w : endpointWatcher) : Prop := {
  io_stopped : NoDup (w_stopped w);
  io_stopped_lt : forall i, i ∈ w_stopped w -> (i < w_next w)%nat;
  io_running : forall k i, w_slices w !! k = Some i ->
    (inf_id i < w_next w)%nat /\ inf_id i ∉ w_stopped w;
  io_inj : forall k1 k2 i1 i2, w_slices w !! k1 = Some i1 -> w_slices w !! k2 = Some i2 ->
    inf_id i1 = inf_id i2 -> k1 = k2;
  io_covered : forall n, (n < w_next w)%nat ->
    n ∈ w_stopped w \/ exists k i, w_slices w !! k = Some i /\ inf_id i = n
}.

(** The keys of [w_slices] are exactly those of [w_forwards]. *)
Definition watcher_ok (w : endpointWatcher) : Prop :=
  informers_ok w /\ forall k, is_Some (w_slices w !! k) <-> k ∈ want_keys (w_forwards w).

Lemma start_missing_ok now w key :
  informers_ok w -> informers_ok (start_missing now w key).
Proof.
  intros Hok. unfold start_missing. destruct (w_slices w !! key) as [i|] eqn:E; [done|].
  destruct Hok as [H1 H2 H3 H4 H5].
  assert (Hne : forall k i, w_slices w !! k = Some i -> k <> key) by congruence.
  constructor; cbn; [done|..].
  - intros i Hi. specialize (H2 i Hi). lia.
  - intros k i. rewrite lookup_insert_Some. intros [[<- <-]|[_ Hi]]; cbn.
    + split; [lia|]. intros Hin%H2. lia.
    + apply H3 in Hi as [? ?]. split; [lia|done].
  - intros k1 k2 i1 i2. rewrite !lookup_insert_Some.
    intros [[<- <-]|[? Hi1]] [[<- <-]|[? Hi2]] Heq; try done; cbn in *.
    + apply H3 in Hi2 as [? _]. lia.
    + apply H3 in Hi1 as [? _]. lia.
    + exact (H4 _ _ _ _ Hi1 Hi2 Heq).
  - intros n Hn. destruct (decide (n = w_next w)) as [->|].
    + right. exists key, (mkSliceInformer (w_next w) [] false now).
      by rewrite lookup_insert_eq.
    + destruct (H5 n ltac:(lia)) as [?|(k & i & Hk & Hi)]; [by left|].
      right. exists k, i. split; [|done]. rewrite lookup_insert_ne; [done|].
      intros ->. by rewrite E in Hk.
Qed.

Lemma start_missing_keys now w key k :
  is_Some (w_slices (start_missing now w key) !! k) <-> is_Some (w_slices w !! k) \/ k = key.
Proof.
  unfold start_missing. destruct (w_slices w !! key) eqn:E; [naive_solver|].
  cbn. destruct (decide (k = key)) as [->|]; [rewrite lookup_insert_eq; naive_solver|].
  rewrite lookup_insert_ne by congruence. naive_solver.
Qed.

Lemma start_all_ok now w keys :
  informers_ok w -> informers_ok (foldl (start_missing now) w keys).
Proof.
  revert w. induction keys as [|k keys IH]; intros w Hok; [done|].
  apply IH, start_missing_ok, Hok.
Qed.

Lemma start_all_keys now w keys k :
  is_Some (w_slices (foldl (start_missing now) w keys) !! k) <->
  is_Some (w_slices w !! k) \/ k ∈ keys.
Proof.
  revert w. induction keys as [|k' keys IH]; intros w; cbn; [set_solver|].
  rewrite IH, start_missing_keys, elem_of_cons. tauto.
Qed.

Lemma stopped_now (want : gset endpointWatcherKey) w n :
  n ∈ ((fun kv : endpointWatcherKey * sliceInformer => inf_id kv.2) <$>
    map_to_list (filter (fun kv => kv.1 ∉ want) (w_slices w))) <->
  exists k i, w_slices w !! k = Some i /\ k ∉ want /\ inf_id i = n.
Proof.
  rewrite list_elem_of_fmap. split.
  - intros ([k i] & -> & [? ?]%elem_of_map_to_list%map_lookup_filter_Some). naive_solver.
  - intros (k & i & Hk & Hw & <-). exists (k, i). split; [done|].
    by apply elem_of_map_to_list, map_lookup_filter_Some.
Qed.

Lemma stop_unwanted_ok want w : informers_ok w -> informers_ok (stop_unwanted want w).
Proof.
  intros [H1 H2 H3 H4 H5]. constructor; cbn.
  - apply NoDup_app. split_and!; [done|..].
    + intros n Hn (k & i & Hk & _ & <-)%stopped_now. by apply H3 in Hk as [_ ?].
    + apply NoDup_map_inj; [|apply NoDup_map_to_list].
      intros [k1 i1] [k2 i2] Hin1 Hin2 Heq. cbn in Heq.
      apply elem_of_map_to_list, map_lookup_filter_Some in Hin1 as [Hin1 _], Hin2 as [Hin2 _].
      pose proof (H4 _ _ _ _ Hin1 Hin2 Heq). congruence.
  - intros i [Hi|(k & j & Hk & _ & <-)%stopped_now]%elem_of_app; [by apply H2|].
    by apply H3 in Hk as [? _].
  - intros k i [Hk Hw]%map_lookup_filter_Some. destruct (H3 _ _ Hk) as [? Hns]. split; [done|].
    intros [Hin|(k' & j & Hk' & Hw' & Heq)%stopped_now]%elem_of_app; [done|].
    pose proof (H4 _ _ _ _ Hk' Hk Heq). naive_solver.
  - intros k1 k2 i1 i2 [? _]%map_lookup_filter_Some [? _]%map_lookup_filter_Some. eauto.
  - intros n Hn. rewrite elem_of_app, stopped_now.
    destruct (H5 n Hn) as [?|(k & i & Hk & Hi)]; [tauto|].
    destruct (decide (k ∈ want)); [|naive_solver].
    right. exists k, i. split; [|done]. by apply map_lookup_filter_Some.
Qed.

Lemma setForwards_ok w fs now : watcher_ok w -> watcher_ok (setForwards w fs now).
Proof.
  unfold setForwards. destruct (decide _); [done|].
  intros [Hi Hk]. split.
  - destruct (stop_unwanted_ok (want_keys fs) _ (start_all_ok now w (elements (want_keys fs)) Hi)).
    by constructor.
  - intros k. cbn [w_slices w_forwards with_watch with_subscribers signalChange stop_unwanted].
    rewrite <- (elem_of_elements (want_keys fs) k).
    pose proof (start_all_keys now w (elements (want_keys fs)) k) as Hs.
    rewrite elem_of_elements in *. split.
    + intros [i [_ ?]%map_lookup_filter_Some]. done.
    + intros Hin. destruct (proj2 Hs (or_intror Hin)) as [i Hi'].
      exists i. by apply map_lookup_filter_Some.
Qed.

Lemma update_informer_ok g k w :
  (forall i, inf_id (g i) = inf_id i) -> watcher_ok w -> watcher_ok (update_informer g k w).
Proof.
  intros Hg [[H1 H2 H3 H4 H5] H0].
  assert (Hl : forall k' i, alter g k (w_slices w) !! k' = Some i ->
    exists j, w_slices w !! k' = Some j /\ inf_id i = inf_id j).
  { intros k' i. rewrite lookup_alter_Some. naive_solver. }
  split; [|intros k'; cbn; by rewrite lookup_alter_is_Some].
  constructor; cbn; try done.
  - intros k' i (j & Hj & ->)%Hl. by apply (H3 k').
  - intros k1 k2 i1 i2 (j1 & Hj1 & ->)%Hl (j2 & Hj2 & ->)%Hl. eauto.
  - intros n Hn. destruct (H5 n Hn) as [?|(k' & i & Hk & Hi)]; [by left|]. right.
    exists k'. destruct (decide (k = k')) as [->|].
    + exists (g i). rewrite lookup_alter_eq, Hk. by rewrite Hg.
    + exists i. by rewrite lookup_alter_ne.
Qed.

Lemma signalChange_ok w : watcher_ok w -> watcher_ok (signalChange w).
Proof. intros [[] ?]. by split; [constructor|]. Qed.

Lemma watcher_step_ok w w' : watcher_step w w' -> watcher_ok w -> watcher_ok w'.
Proof.
  intros [] Hok;
    eauto using setForwards_ok, signalChange_ok, update_informer_ok;
    by destruct Hok as [[] ?]; split; [constructor|].
Qed.

Lemma new_watcher_ok node pods fs now : watcher_ok (newEndpointWatcher node pods fs now).
Proof.
  apply setForwards_ok. split; [constructor|]; cbn.
  - constructor.
  - set_solver.
  - intros ??. by rewrite lookup_empty.
  - intros ????. by rewrite lookup_empty.
  - lia.
  - intros k. rewrite lookup_empty. split; [by intros [? ?]|set_solver].
Qed.

Definition watcher_reachable (w : endpointWatcher) : Prop :=
  exists node pods fs now, rtc watcher_step (newEndpointWatcher node pods fs now) w.

Lemma watcher_reachable_ok w : watcher_reachable w -> watcher_ok w.
Proof.
  intros (node & pods & fs & now & Hr). revert Hr.
  generalize (new_watcher_ok node pods fs now). generalize (newEndpointWatcher node pods fs now).
  intros w0 H0 Hr. induction Hr; [done|]. by eauto using watcher_step_ok.
Qed.

(** ** Totality: no missing informer *)
Lemma watcher_ok_informer w f :
  watcher_ok w -> f ∈ w_forwards w -> is_Some (w_slices w !! key_of f).
Proof.
  intros [_ Hk] Hf. apply Hk. unfold want_keys.
  rewrite elem_of_list_to_set. by apply list_elem_of_fmap_2.
Qed.

Lemma mapM_total {A B} (g : A -> option B) l :
  (forall x, x ∈ l -> is_Some (g x)) -> exists k, mapM g l = Some k /\ Forall2 (fun x y => g x = Some y) l k.
Proof.
  intros H. assert (Hs : is_Some (mapM g l)) by (apply mapM_is_Some, Forall_forall, H).
  destruct Hs as [k Hk]. exists k. split; [done|]. by apply mapM_Some.
Qed.

Lemma outcomes_total w now :
  watcher_ok w -> exists os, outcomes w now = Some os /\
    Forall2 (fun f o => exists inf, w_slices w !! key_of f = Some inf /\
                                     o = snapshot_forward w now inf f) (w_forwards w) os.
Proof.
  intros Hok. destruct (mapM_total (fun f => inf ← w_slices w !! key_of f;
      Some (snapshot_forward w now inf f)) (w_forwards w)) as (os & Hos & Hall).
  { intros f Hf. destruct (watcher_ok_informer w f Hok Hf) as [i ->]. eauto. }
  exists os. split; [exact Hos|]. eapply Forall2_impl; [exact Hall|].
  cbn. intros f o H. destruct (w_slices w !! key_of f); naive_solver.
Qed.

(** A forward some informer-backed endpoint of [node] can serve. *)
Definition serves (w : endpointWatcher) (node : string) (f : Forward) : Prop :=
  exists inf, w_slices w !! key_of f = Some inf /\
              is_Some (selectEndpoint (indexer inf) node (ServicePortName f)).
#[global] Instance serves_dec w node f : Decision (serves w node f).
Proof.
  unfold serves. destruct (w_slices w !! key_of f) as [i|]; [|right; naive_solver].
  destruct (decide (is_Some (selectEndpoint (indexer i) node (ServicePortName f))));
    [left; eauto|right; naive_solver].
Defined.

Lemma score_fold w node fs n :
  (forall f, f ∈ fs -> is_Some (w_slices w !! key_of f)) ->
  foldl (fun acc f => n ← acc; inf ← w_slices w !! key_of f;
    Some (if selectEndpoint (indexer inf) node (ServicePortName f) then n + 1 else n)) (Some n) fs
  = Some (n + Z.of_nat (length (filter (serves w node) fs))).
Proof.
  revert n. induction fs as [|f fs IH]; intros n Hf; cbn [foldl]; [cbn; f_equal; lia|].
  destruct (Hf f) as [i Hi]; [set_solver|]. rewrite Hi. cbn [mbind option_bind].
  rewrite IH by set_solver. rewrite filter_cons. f_equal.
  destruct (selectEndpoint _ _ _) eqn:E.
  - rewrite decide_True by (exists i; eauto). cbn [length]. lia.
  - rewrite decide_False; [done|]. intros (j & Hj & Hs). rewrite Hi in Hj. simplify_eq.
    rewrite E in Hs. by destruct Hs.
Qed.

(** The score is the number of forwards the node can serve. *)
Lemma scoreLocked_eq w node :
  watcher_ok w ->
  scoreLocked w node = Some (Z.of_nat (length (filter (serves w node) (w_forwards w)))).
Proof.
  intros Hok. unfold scoreLocked. rewrite score_fold; [done|].
  intros f. by apply watcher_ok_informer.
Qed.

(** The view [evaluate] promises the election: every live node and the watcher's
    own node has a score between 0 and the number of forwards. *)
Record view_ok (self : string) (v : electionView) : Prop := {
  vo_count : 0 <= forwardCount v;
  vo_dom : forall n, is_Some (scores v !! n) <-> n ∈ live v \/ n = self;
  vo_range : forall n s, scores v !! n = Some s -> 0 <= s <= forwardCount v
}.

Lemma score_range w node :
  0 <= Z.of_nat (length (filter (serves w node) (w_forwards w)))
    <= Z.of_nat (length (w_forwards w)).
Proof. pose proof (length_filter (serves w node) (w_forwards w)). lia. Qed.

Lemma evaluate_total w now :
  watcher_ok w ->
  exists v, evaluate w now = Some v /\ view_ok (w_node w) v /\ live v = liveNodes w /\
    forwardCount v = Z.of_nat (length (w_forwards w)) /\
    (forall n s, scores v !! n = Some s -> scoreLocked w n = Some s).
Proof.
  intros Hok. unfold evaluate.
  destruct (mapM_total (pending_forward w now) (w_forwards w)) as (pend & -> & _).
  { intros f Hf. unfold pending_forward.
    destruct (watcher_ok_informer w f Hok Hf) as [i ->]. cbn. eauto. }
  cbn [mbind option_bind]. set (sc := fun n => Z.of_nat (length (filter (serves w n) (w_forwards w)))).
  assert (Hm : mapM (fun node => s ← scoreLocked w node; Some (node, s)) (elements (liveNodes w))
    = Some ((fun n => (n, sc n)) <$> elements (liveNodes w))).
  { apply mapM_Some. apply Forall2_fmap_r, Forall_Forall2_diag, Forall_forall.
    intros n _. by rewrite scoreLocked_eq. }
  rewrite Hm. cbn [mbind option_bind].
  set (m := list_to_map _ : gmap string Z).
  assert (Hl : forall n s, m !! n = Some s <-> n ∈ liveNodes w /\ s = sc n).
  { intros n s. unfold m. rewrite <- elem_of_list_to_map.
    - rewrite list_elem_of_fmap. setoid_rewrite elem_of_elements. naive_solver.
    - rewrite <- list_fmap_compose. rewrite (list_fmap_ext _ id); [rewrite list_fmap_id|done].
      apply NoDup_elements. }
  assert (Hfin : exists m', (match m !! w_node w with Some _ => Some m
      | None => s ← scoreLocked w (w_node w); Some (<[w_node w:=s]> m) end) = Some m' /\
      forall n s, m' !! n = Some s <-> (n ∈ liveNodes w \/ n = w_node w) /\ s = sc n).
  { destruct (m !! w_node w) as [s0|] eqn:E.
    - exists m. split; [done|]. intros n s. rewrite Hl. apply Hl in E. naive_solver.
    - rewrite scoreLocked_eq by done. eexists. split; [done|]. intros n s.
      rewrite lookup_insert_Some, Hl. fold (sc (w_node w)).
      destruct (decide (n = w_node w)) as [->|]; naive_solver. }
  destruct Hfin as (m' & -> & Hm'). cbn [mbind option_bind]. eexists. split; [done|].
  split_and!; cbn; try done.
  - constructor; cbn.
    + lia.
    + intros n. split; [intros [s [? _]%Hm']; done|].
      intros Hn. exists (sc n). apply Hm'. done.
    + intros n s [_ ->]%Hm'. apply score_range.
  - intros n s [_ ->]%Hm'. by apply scoreLocked_eq.
Qed.

(** ** Snapshot facts *)
Definition outcome_name (o : outcome) : string :=
  match o with Resolved r => rf_Name r | Unsatisfied u => uf_name u | Pending n => n end.

Lemma snapshot_forward_name w now inf f :
  outcome_name (snapshot_forward w now inf f) = Name f.
Proof. unfold snapshot_forward. by repeat case_match. Qed.

Lemma outcomes_partition (os : list outcome) :
  outcome_name <$> os ≡ₚ
    (rf_Name <$> omap resolved_of os) ++ (uf_name <$> omap unsatisfied_of os) ++ omap pending_of os.
Proof.
  induction os as [|[r|u|n] os IH]; [done|..]; csimpl; rewrite IH.
  - done.
  - by rewrite Permutation_middle.
  - rewrite !app_assoc. by rewrite Permutation_middle.
Qed.

Lemma outcomes_names w now os :
  outcomes w now = Some os -> outcome_name <$> os = Name <$> w_forwards w.
Proof.
  unfold outcomes. intros H%mapM_Some. induction H as [|f o fs os H _ IH]; [done|].
  rewrite !fmap_cons, IH. f_equal.
  destruct (w_slices w !! key_of f); simplify_eq/=. apply snapshot_forward_name.
Qed.

Lemma all_resolved_iff (os : list outcome) :
  omap unsatisfied_of os = [] /\ omap pending_of os = [] <-> forall o, o ∈ os -> is_Some (resolved_of o).
Proof.
  induction os as [|[r|u|n] os IH]; csimpl.
  - split; [set_solver|done].
  - rewrite IH. split; [|set_solver].
    intros H o [->|?]%elem_of_cons; [by eexists|auto].
  - split; [naive_solver|]. intros H. by destruct (H (Unsatisfied u)); [set_solver|].
  - split; [naive_solver|]. intros H. by destruct (H (Pending n)); [set_solver|].
Qed.

Lemma filter_length_full {A} (P : A -> Prop) `{!forall x, Decision (P x)} l :
  length (filter P l) = length l <-> Forall P l.
Proof.
  induction l as [|x l IH]; [done|]. rewrite filter_cons, Forall_cons.
  pose proof (length_filter P l). case_decide; cbn; [rewrite <- IH; naive_solver lia|].
  split; [lia|naive_solver].
Qed.

(** ** Properties *)

(** [selectEndpoint] picks the least servable (address, port) in byte order,
    reports none exactly when nothing is servable, and does not depend on the
    order the informer's store lists its objects in, so an unchanged endpoint set
    renders the same ruleset. *)
Theorem selectEndpoint_least ix ix' node name :
  ix ≡ₚ ix' ->
  selectEndpoint ix' node name = selectEndpoint ix node name /\
  match selectEndpoint ix node name with
  | None => forall a p, ~ servable ix node name a p
  | Some (a, p) => servable ix node name a p /\
      forall b q, servable ix node name b q -> candidate_le (a, p) (b, q)
  end.
Proof.
  intros Hp. split.
  - assert (Hc : forall c, c ∈ candidates ix' node name <-> c ∈ candidates ix node name).
    { intros [a p]. rewrite !elem_of_candidates. unfold servable. by setoid_rewrite Hp. }
    destruct (selectEndpoint ix node name) as [c|] eqn:E.
    + apply selectEndpoint_Some. apply selectEndpoint_Some in E. by setoid_rewrite Hc.
    + apply selectEndpoint_None in E. apply selectEndpoint_None.
      destruct (candidates ix' node name) as [|c l]; [done|].
      destruct (not_elem_of_nil c). rewrite <- E. apply Hc. set_solver.
  - destruct (selectEndpoint ix node name) as [[a p]|] eqn:E.
    + apply selectEndpoint_Some in E as [? Hmin]. rewrite <- elem_of_candidates. split; [done|].
      intros b q. rewrite <- elem_of_candidates. apply Hmin.
    + apply selectEndpoint_None in E. intros a p. rewrite <- elem_of_candidates, E. set_solver.
Qed.

Definition sample_slice (addrs : list string) : EndpointSlice :=
  mkEndpointSlice "IPv4" [mkEndpoint (Some "n1") None addrs] [mkEndpointPort (Some "http") (Some 8080)].

Lemma selectEndpoint_least_witness :
  selectEndpoint [sample_slice ["10.0.0.9"]; sample_slice ["10.0.0.10"; "bad"]] "n1" "http"
    = Some ("10.0.0.10", 8080) /\
  selectEndpoint [sample_slice ["10.0.0.10"; "bad"]; sample_slice ["10.0.0.9"]] "n1" "http"
    = selectEndpoint [sample_slice ["10.0.0.9"]; sample_slice ["10.0.0.10"; "bad"]] "n1" "http".
Proof.
  split; [vm_compute; reflexivity|].
  apply (selectEndpoint_least [sample_slice ["10.0.0.9"]; sample_slice ["10.0.0.10"; "bad"]]).
  apply perm_swap.
Defined.

(** in every state the watcher can reach, [snapshot] and [evaluate] find an
    informer for every forward (no nil dereference), the view covers every live
    node and the watcher's own with scores between 0 and the forward count, and
    no informer is leaked: each one ever started is running under a key some
    forward names or has been stopped. *)
Theorem watcher_total w now :
  watcher_reachable w ->
  is_Some (snapshot w now) /\
  (exists v, evaluate w now = Some v /\ view_ok (w_node w) v /\ live v = liveNodes w) /\
  forall n, (n < w_next w)%nat ->
    n ∈ w_stopped w \/
    exists f i, f ∈ w_forwards w /\ w_slices w !! key_of f = Some i /\ inf_id i = n.
Proof.
  intros Hok%watcher_reachable_ok. split; [|split].
  - unfold snapshot. destruct (outcomes_total w now Hok) as (os & -> & _). cbn. eauto.
  - destruct (evaluate_total w now Hok) as (v & ? & ? & ? & _). eauto.
  - intros n Hn. destruct Hok as [[_ _ _ _ Hc] Hk].
    destruct (Hc n Hn) as [?|(k & i & Hki & Hi)]; [by left|]. right.
    assert (Hin : k ∈ want_keys (w_forwards w)) by (apply Hk; eauto).
    unfold want_keys in Hin. rewrite elem_of_list_to_set in Hin.
    apply list_elem_of_fmap in Hin as (f & -> & Hf). eauto.
Qed.

Definition sample_watcher : endpointWatcher :=
  setForwards (newEndpointWatcher "n1" [] [sample_forward 80 "tcp"] 0)
    [sample_forward 80 "tcp"; mkForward "db" 5432 "tcp" "" 0 "data" "db" ""] second.

Lemma watcher_total_witness :
  w_next sample_watcher = 2%nat /\ is_Some (snapshot sample_watcher 0).
Proof.
  split; [vm_compute; reflexivity|].
  apply (watcher_total sample_watcher 0). exists "n1", [], [sample_forward 80 "tcp"], 0.
  apply rtc_once. apply ws_setForwards.
Defined.

(** [snapshot] loses no forward and counts none twice: the names of the
    resolved, unsatisfied and pending forwards are a permutation of the tracked
    ones, and nothing is pending once every informer's grace has run out. *)
Theorem snapshot_partition w now r u p :
  snapshot w now = Some (r, u, p) ->
  Name <$> w_forwards w ≡ₚ (rf_Name <$> r) ++ (uf_name <$> u) ++ p /\
  ((forall k i, w_slices w !! k = Some i -> w_syncGrace w <= time_sub now (started i)) -> p = []).
Proof.
  unfold snapshot. destruct (outcomes w now) as [os|] eqn:E; intros ?; simplify_eq/=. split.
  - rewrite <- (outcomes_names w now os E). apply outcomes_partition.
  - intros Hg. apply mapM_Some in E.
    induction E as [|f o fs os Hfo _ IH]; [done|]. csimpl.
    destruct (w_slices w !! key_of f) as [i|] eqn:Hi; simplify_eq/=.
    unfold snapshot_forward, pendingSync.
    rewrite (proj2 (Z.ltb_ge _ _) (Hg _ _ Hi)), andb_false_r.
    by repeat case_match; csimpl.
Qed.

Lemma snapshot_partition_witness :
  snapshot sample_watcher (60 * second) =
    Some ([], [mkUnsatisfied "web" reasonWatchUnsynced; mkUnsatisfied "db" reasonWatchUnsynced], []) /\
  Name <$> w_forwards sample_watcher ≡ₚ
    (rf_Name <$> []) ++ (uf_name <$> [mkUnsatisfied "web" reasonWatchUnsynced;
                                      mkUnsatisfied "db" reasonWatchUnsynced]) ++ [].
Proof.
  split; [vm_compute; reflexivity|].
  apply (snapshot_partition sample_watcher (60 * second)). vm_compute. reflexivity.
Defined.

(** once every informer has synced, a full score on the watcher's own node
    means exactly that an apply satisfies every forward: nothing in the snapshot is
    unsatisfied or pending. *)
Theorem full_score_satisfies w now s :
  watcher_reachable w ->
  (forall k i, w_slices w !! k = Some i -> hasSynced i = true) ->
  scoreLocked w (w_node w) = Some s ->
  s = Z.of_nat (length (w_forwards w)) <-> exists r, snapshot w now = Some (r, [], []).
Proof.
  intros Hok%watcher_reachable_ok Hsync. rewrite scoreLocked_eq by done. intros ?; simplify_eq.
  rewrite Nat2Z.inj_iff, filter_length_full, Forall_forall.
  destruct (outcomes_total w now Hok) as (os & Hos & Hall). unfold snapshot. rewrite Hos. cbn.
  assert (Hiff : (exists r, Some (omap resolved_of os, omap unsatisfied_of os, omap pending_of os)
      = Some (r, [], [])) <-> forall o, o ∈ os -> is_Some (resolved_of o)).
  { rewrite <- all_resolved_iff. split; [intros [r ?]; by simplify_eq|].
    intros [-> ->]. by eexists. }
  rewrite Hiff. clear Hiff Hos.
  induction Hall as [|f o fs os (inf & Hi & ->) Hall IH]; [set_solver|].
  assert (Hhd : serves w (w_node w) f <-> is_Some (resolved_of (snapshot_forward w now inf f))).
  { unfold serves, snapshot_forward, pendingSync. rewrite (Hsync _ _ Hi). cbn.
    destruct (selectEndpoint _ _ _) as [[a p]|] eqn:E; cbn.
    - split; [by eexists|]. intros _. exists inf. rewrite E. by eauto.
    - split; [intros (j & ? & [? ?]); simplify_eq; congruence|by intros []]. }
  rewrite <- !Forall_forall in *. rewrite !Forall_cons, Hhd, IH. done.
Qed.

Definition synced_watcher : endpointWatcher :=
  update_informer (fun i => mkSliceInformer (inf_id i) (indexer i) true (started i)) ("apps", "web")
    (signalChange (update_informer (fun i => mkSliceInformer (inf_id i) [sample_slice ["10.0.0.9"]]
      (hasSynced i) (started i)) ("apps", "web")
      (newEndpointWatcher "n1" [] [sample_forward 80 "tcp"] 0))).

Lemma full_score_satisfies_witness :
  scoreLocked synced_watcher "n1" = Some 1 /\
  exists r, snapshot synced_watcher 0 = Some (r, [], []).
Proof.
  split; [vm_compute; reflexivity|].
  apply (full_score_satisfies synced_watcher 0 1).
  - exists "n1", [], [sample_forward 80 "tcp"], 0.
    eapply rtc_l; [apply (ws_store _ ("apps", "web") [sample_slice ["10.0.0.9"]])|].
    apply rtc_once. apply ws_synced.
  - assert (E : w_slices synced_watcher =
      {[("apps", "web") := mkSliceInformer 0 [sample_slice ["10.0.0.9"]] true 0]})
      by (vm_compute; reflexivity).
    rewrite E. intros k i [_ <-]%lookup_singleton_Some. reflexivity.
  - vm_compute. reflexivity.
  - reflexivity.
Defined.

(** before an informer has synced the two readings can disagree: past the
    grace period a partially listed store scores full and leaves nothing pending,
    so the election sees a fully eligible node, while [snapshot] reports the same
    forward unsatisfied because its watch has not synced. *)
Theorem unsynced_full_score_unsatisfied :
  exists w now v r u,
    watcher_reachable w /\ evaluate w now = Some v /\ v_pending v = [] /\
    scores v !! w_node w = Some (forwardCount v) /\ snapshot w now = Some (r, [u], []).
Proof.
  exists (signalChange (update_informer (fun i => mkSliceInformer (inf_id i) [sample_slice ["10.0.0.9"]]
      (hasSynced i) (started i)) ("apps", "web")
      (newEndpointWatcher "n1" [] [sample_forward 80 "tcp"] 0))), (60 * second).
  eexists _, _, _. split; [|split; [vm_compute; reflexivity|]].
  - exists "n1", [], [sample_forward 80 "tcp"], 0. apply rtc_once, ws_store.
  - split_and!; vm_compute; reflexivity.
Qed.

Lemma setForwards_signals w fs now ch b :
  fs <> w_forwards w -> w_subscribers w !! ch = Some b ->
  w_subscribers (setForwards w fs now) !! ch = Some true.
Proof.
  intros Hne Hch. unfold setForwards. rewrite decide_False by congruence.
  assert (Hs : forall keys w, w_subscribers (foldl (start_missing now) w keys) = w_subscribers w).
  { induction keys as [|k keys IH]; intros w'; [done|]. cbn. rewrite IH.
    unfold start_missing. by case_match. }
  cbn. by rewrite Hs, lookup_fmap, Hch.
Qed.

(** C33: no subscriber misses a change: every change of the forward set fills each
    subscriber's channel, and a filled channel stays filled across every step of
    the watcher until that subscriber itself receives or unregisters. *)
Theorem no_lost_wakeup w w' ch b fs now :
  watcher_step w w' -> w_subscribers w !! ch = Some b ->
  (fs <> w_forwards w -> w_subscribers (setForwards w fs now) !! ch = Some true) /\
  (b = true -> w' <> receive w ch -> w' <> unsubscribe w ch ->
   w_subscribers w' !! ch = Some true).
Proof.
  intros Hstep Hch. split; [intros; eapply setForwards_signals; eauto|]. intros -> Hr Hu.
  destruct Hstep as [w fs' now'| | | | |w|w ch'|w ch'];
    try (cbn; rewrite ?lookup_fmap, Hch; done).
  - destruct (decide (fs' = w_forwards w)) as [->|]; [|eapply setForwards_signals; eauto].
    unfold setForwards. by rewrite decide_True.
  - cbn. rewrite lookup_insert_ne; [done|]. intros Hf.
    apply (is_fresh (dom (w_subscribers w))). rewrite Hf. by apply elem_of_dom_2 in Hch.
  - cbn. rewrite lookup_delete_ne by congruence. done.
  - cbn. rewrite lookup_alter_ne by congruence. done.
Qed.

Lemma no_lost_wakeup_witness :
  w_subscribers (setForwards (subscribe sample_watcher).2 [] 0) !! 0%nat = Some true.
Proof.
  refine (proj1 (no_lost_wakeup (subscribe sample_watcher).2
    (signalChange (subscribe sample_watcher).2) 0%nat false [] 0 _ _) _).
  - apply ws_sync_signal.
  - vm_compute. reflexivity.
  - intros H. vm_compute in H. discriminate H.
Defined.
