(* ===== verification/Election.v ===== *)
(** * The election's decisions and gate loops: internal/link/election.go

    Which replica may contend for the Lease, when a less-fit leader hands off and
    whether an ended leadership cycle tears its data plane down. The decisions
    are functions of one [electionView]; the entry and handoff loops are folds
    over the ticks they process. Iteration over Go's [v.live] map is modelled as
    iteration over the elements of a set; the theorems show the result does not
    depend on the order. *)

From S2P Require Import Prelude GoStrings Config Endpoints.

(** ** Timing *)
Definition leaseDuration : Z := 15 * second.
Definition renewDeadline : Z := 10 * second.
Definition retryPeriod : Z := 2 * second.
Definition handoffHold : Z := 2 * leaseDuration.
Definition fenceTimeout : Z := 10 * second.
Definition ShutdownBudget : Z := fenceTimeout + renewDeadline.

(** ** Decisions on one view *)
Definition score (v : electionView) (n : string) : Z := map_get 0 (scores v) n.

(** [v.live[node] && v.scores[node] == v.forwardCount] *)
Definition fully_eligible (v : electionView) (node : string) : bool :=
  bool_decide (node ∈ live v) && (score v node =? forwardCount v).

Definition hasFullyEligiblePeer (node : string) (v : electionView) : bool :=
  existsb (fun peer => negb (bool_decide (peer = node)) && (score v peer =? forwardCount v))
    (elements (live v)).

Definition string_ltb (a b : string) : bool := bool_decide (String.le a b /\ a <> b).

(** One iteration of the best-node loop. *)
Definition better_node (v : electionView) (node : string) (best : string * Z) (peer : string)
  : string * Z :=
  if bool_decide (peer = node) then best
  else
    let s := score v peer in
    let '(bestNode, bestScore) := best in
    if (bestScore <? s) || ((s =? bestScore) && string_ltb peer bestNode) then (peer, s) else best.

Definition best_node (v : electionView) (node : string) (peers : list string) : string * Z :=
  foldl (better_node v node) (node, score v node) peers.

Definition entryDecision (node : string) (v : electionView)
    (noEligiblePeerSince noHolderSince : option Z) (now hold : Z) : bool :=
  if fully_eligible v node then true
  else if hasFullyEligiblePeer node v then false
  else
    let bestNode := (best_node v node (elements (live v))).1 in
    match noEligiblePeerSince, noHolderSince with
    | Some p, Some h =>
        if negb (bool_decide (bestNode = node)) then false
        else
          let since := if p <? h then h else p in
          hold <=? time_sub now since
    | _, _ => false
    end.

Definition entryStillEligible (node : string) (v : electionView) (otherHolder : bool)
    (now hold : Z) : bool :=
  if fully_eligible v node then true
  else if otherHolder then false
  else
    let elapsed := now - hold in
    entryDecision node v (Some elapsed) (Some elapsed) now hold.

Definition handoffDecision (node : string) (v : electionView) (eligiblePeerSince : option Z)
    (now hold : Z) : bool :=
  if fully_eligible v node then false
  else if score v node =? 0 then
    existsb (fun peer => negb (bool_decide (peer = node)) && (0 <? score v peer))
      (elements (live v))
  else if negb (hasFullyEligiblePeer node v) then false
  else match eligiblePeerSince with
       | None => false
       | Some t => hold <=? time_sub now t
       end.

Definition teardownDecision (steppedDown sigterm forced readOK : bool) (holder self : string)
    (term acquiredTerm : Z) (acquiredTermKnown : bool) : bool :=
  if steppedDown || sigterm || forced then true
  else readOK && acquiredTermKnown && negb (bool_decide (holder = self)) && (acquiredTerm <? term).

Definition holderIsAnother (self holder : string) : bool :=
  negb (bool_decide (holder = "")) && negb (bool_decide (holder = self)).

(** ** The Lease as read *)
Record Lease := mkLease {
  HolderIdentity : option string;
  RenewTime : option Z;
  LeaseDurationSeconds : option Z;
  LeaseTransitions : option Z
}.

(** A read of the Lease: the object, its absence, or another error. *)
Inductive lease_read := LeaseFound (l : Lease) | LeaseNotFound | LeaseReadError.

Definition leaseHeld (l : Lease) (now : Z) : bool :=
  match HolderIdentity l with
  | None | Some "" => false
  | Some _ => match RenewTime l with
              | None => false
              | Some r => let duration := default 0 (LeaseDurationSeconds l) * second in
                          now <? r + duration
              end
  end.

Definition leaseAvailable (r : lease_read) (now : Z) : bool :=
  match r with
  | LeaseNotFound => true
  | LeaseReadError => false
  | LeaseFound l => negb (leaseHeld l now)
  end.

Definition readLeaseHolderTermOnce (r : lease_read) : option (string * Z) :=
  match r with
  | LeaseFound l => Some (default "" (HolderIdentity l), default 0 (LeaseTransitions l))
  | _ => None
  end.

Definition readLeaseTransitions (r : lease_read) : Z * bool :=
  match readLeaseHolderTermOnce r with
  | None => (0, false)
  | Some (_, term) => (term, true)
  end.

Definition maxAttempts : nat := 3.

(** [reads attempt] is what the read of that attempt returns and [cancelled attempt]
    whether the context ends during the delay before it. *)
Fixpoint read_attempts (fuel attempt : nat) (reads : nat -> lease_read) (cancelled : nat -> bool)
  : string * Z * bool :=
  match fuel with
  | O => ("", 0, false)
  | S fuel =>
      if negb (attempt =? 0)%nat && cancelled attempt then ("", 0, false)
      else match readLeaseHolderTermOnce (reads attempt) with
           | None => read_attempts fuel (S attempt) reads cancelled
           | Some (h, t) => (h, t, true)
           end
  end.
Definition readLeaseHolderTerm := read_attempts maxAttempts 0.

(** Evidence that another replica took over: in Local mode only a holder the pod
    informer places on another node counts. [w] is [None] in Cluster mode. *)
Definition observeHolder (self node : string) (w : option endpointWatcher) (holder : string) : bool :=
  if negb (holderIsAnother self holder) then false
  else match w with
       | None => true
       | Some w => match podNode w holder with
                   | None => false
                   | Some n => negb (bool_decide (n = node))
                   end
       end.

(** ** The loops, tick by tick *)

(** What one pass of a loop reads: the view, the clock at the decision and at the
    two points the entry loop stamps, and whether the Lease read as available. *)
Record tick := mkTick {
  tk_view : electionView;
  tk_now : Z;
  tk_peer_now : Z;
  tk_lease : bool;
  tk_holder_now : Z
}.

Definition decisionDeferred (pending : list string) : bool :=
  match pending with [] => false | _ :: _ => true end.
Definition tick_deferred (t : tick) : bool := decisionDeferred (v_pending (tk_view t)).

(** The clocks [(noEligiblePeerSince, noHolderSince)]. *)
Abbreviation clocks := (option Z * option Z)%type.

(** One iteration of [waitForEntryEligible]: [None] when the gate opens. *)
Definition entry_tick (node : string) (hold : Z) (c : clocks) (t : tick) : option clocks :=
  let v := tk_view t in
  if tick_deferred t then Some c
  else if entryDecision node v c.1 c.2 (tk_now t) hold then None
  else if hasFullyEligiblePeer node v then Some (None, None)
  else
    let peer := match c.1 with None => Some (tk_peer_now t) | s => s end in
    let holder := if negb (tk_lease t) then None
                  else match c.2 with None => Some (tk_holder_now t) | s => s end in
    Some (peer, holder).

Fixpoint entry_run (node : string) (hold : Z) (c : clocks) (ts : list tick) : option clocks :=
  match ts with
  | [] => Some c
  | t :: ts => c' ← entry_tick node hold c t; entry_run node hold c' ts
  end.

Definition waitForEntryEligible (node : string) (hold : Z) (ts : list tick) : option clocks :=
  entry_run node hold (None, None) ts.

(** One iteration of [monitorHandoff]: [None] when it ends the cycle. *)
Definition handoff_tick (node : string) (hold : Z) (since : option Z) (t : tick)
  : option (option Z) :=
  let v := tk_view t in
  if tick_deferred t then Some since
  else if handoffDecision node v since (tk_now t) hold then None
  else if hasFullyEligiblePeer node v
       then Some (match since with None => Some (tk_peer_now t) | s => s end)
       else Some None.

Fixpoint handoff_run (node : string) (hold : Z) (since : option Z) (ts : list tick)
  : option (option Z) :=
  match ts with
  | [] => Some since
  | t :: ts => s ← handoff_tick node hold since t; handoff_run node hold s ts
  end.

Definition monitorHandoff (node : string) (hold : Z) (ts : list tick) : option (option Z) :=
  handoff_run node hold None ts.

(** One iteration of [watchEntryEligibility]: whether the candidate leaves. *)
Definition lapse_tick (node : string) (hold : Z) (otherHolder : bool) (t : tick) : bool :=
  if tick_deferred t then false
  else negb (entryStillEligible node (tk_view t) otherHolder (tk_now t) hold).

(** What [watchEntryEligibility] waits for: a tick or a change, with what it reads of the
    holder then, the end of the elector's context, or the acquisition. *)
Inductive entry_event := EntryTick (t : tick) (otherHolder : bool) | EntryDone | EntryAcquired.

(** [Some true]: it called [endCycle] and returned; [Some false]: it returned; [None]: it is
    still watching. *)
Fixpoint watchEntryEligibility (node : string) (hold : Z) (evs : list entry_event) : option bool :=
  match evs with
  | [] => None
  | EntryDone :: _ | EntryAcquired :: _ => Some false
  | EntryTick t otherHolder :: evs =>
      if lapse_tick node hold otherHolder t then Some true else watchEntryEligibility node hold evs
  end.

(** The durations one cycle runs under. *)
Record electionTiming := mkElectionTiming { et_retry : Z; et_hold : Z; et_lease : Z; et_renew : Z; et_fence : Z }.
Definition defaultElectionTiming : electionTiming :=
  mkElectionTiming retryPeriod handoffHold leaseDuration renewDeadline fenceTimeout.

(** ** Fitness: a strict total order on nodes *)
Definition fitter (v : electionView) (a b : string) : Prop :=
  score v b < score v a \/ (score v a = score v b /\ String.le a b /\ a <> b).

Lemma string_ltb_spec a b : string_ltb a b = true <-> String.le a b /\ a <> b.
Proof. apply bool_decide_eq_true. Qed.

Lemma fitter_trans v a b c : fitter v a b -> fitter v b c -> fitter v a c.
Proof.
  unfold fitter. intros [H1|(E1 & L1 & N1)] [H2|(E2 & L2 & N2)]; [left; lia..|].
  right. split; [lia|]. split; [by transitivity b|]. intros ->.
  apply N1. by apply (anti_symm String.le).
Qed.

Lemma fitter_asym v a b : fitter v a b -> fitter v b a -> False.
Proof.
  unfold fitter. intros [H1|(E1 & L1 & N1)] [H2|(E2 & L2 & N2)]; try lia.
  apply N1. by apply (anti_symm String.le).
Qed.

Lemma fitter_total v a b : a <> b -> fitter v a b \/ fitter v b a.
Proof.
  intros Hne. unfold fitter. destruct (Z.lt_total (score v a) (score v b)) as [?|[?|?]]; auto.
  destruct (total String.le a b); auto 10.
Qed.

Lemma better_node_spec v node b peer :
  exists b', better_node v node (b, score v b) peer = (b', score v b') /\
    (b' = b \/ (b' = peer /\ peer <> node)) /\
    (b' = b \/ fitter v b' b) /\ (peer = node \/ b' = peer \/ fitter v b' peer).
Proof.
  unfold better_node. case_bool_decide as Hn; [exists b; auto|].
  destruct (_ || _) eqn:E.
  - exists peer. split_and!; auto. right. unfold fitter.
    bool_prop. destruct E as [E|E]; bool_prop; [auto|].
    apply string_ltb_spec in H0. right. split; [lia|done].
  - exists b. split_and!; auto. right. bool_prop.
    destruct (decide (b = peer)) as [->|Hne]; [auto|]. right.
    destruct (fitter_total v b peer Hne) as [|[?|(? & ? & ?)]]; [done|lia|].
    exfalso. destruct H0 as [H0|H0]; bool_prop; [done|].
    assert (string_ltb peer b = true) by (by apply string_ltb_spec). congruence.
Qed.

Lemma best_node_fold v node peers b :
  exists b', foldl (better_node v node) (b, score v b) peers = (b', score v b') /\
    (b' = b \/ (b' ∈ peers /\ b' <> node)) /\ (b' = b \/ fitter v b' b) /\
    forall p, p ∈ peers -> p = node \/ b' = p \/ fitter v b' p.
Proof.
  revert b. induction peers as [|p peers IH]; intros b; cbn [foldl].
  { exists b. split_and!; auto. set_solver. }
  destruct (better_node_spec v node b p) as (b1 & -> & Hb1 & Hf1 & Hp1).
  destruct (IH b1) as (b2 & -> & Hb2 & Hf2 & Hp2). exists b2. split_and!; [done|..].
  - destruct Hb2 as [->|[? ?]]; [|set_solver]. destruct Hb1 as [->|[-> ?]]; set_solver.
  - destruct Hf2 as [->|Hf2]; [done|]. destruct Hf1 as [->|Hf1]; [auto|].
    right. exact (fitter_trans _ _ _ _ Hf2 Hf1).
  - intros q [->|Hq]%elem_of_cons; [|auto]. destruct Hp1 as [?|[->|Hp1]]; [auto|tauto|].
    destruct Hf2 as [->|Hf2]; [auto|]. right; right. exact (fitter_trans _ _ _ _ Hf2 Hp1).
Qed.

(** The best node is the candidate itself exactly when it is fitter than every
    other live node, so map iteration order is irrelevant. *)
Lemma best_node_self v node :
  (best_node v node (elements (live v))).1 = node <->
  forall p, p ∈ live v -> p <> node -> fitter v node p.
Proof.
  unfold best_node.
  destruct (best_node_fold v node (elements (live v)) node) as (b & -> & Hb & Hf & Hp). cbn.
  setoid_rewrite elem_of_elements in Hb. setoid_rewrite elem_of_elements in Hp. split.
  - intros -> p Hl Hne. destruct (Hp p Hl) as [?|[?|?]]; congruence || done.
  - intros Hall. destruct Hb as [?|[Hin Hne]]; [done|]. destruct Hf as [?|Hf]; [done|].
    exfalso. eapply fitter_asym; eauto.
Qed.

Lemma fully_eligible_spec v n :
  fully_eligible v n = true <-> n ∈ live v /\ score v n = forwardCount v.
Proof. unfold fully_eligible. by rewrite andb_true_iff, bool_decide_eq_true, Z.eqb_eq. Qed.

Lemma hasFullyEligiblePeer_spec node v :
  hasFullyEligiblePeer node v = true <->
  exists p, p ∈ live v /\ p <> node /\ score v p = forwardCount v.
Proof.
  unfold hasFullyEligiblePeer. rewrite existsb_exists. setoid_rewrite <- list_elem_of_In.
  setoid_rewrite elem_of_elements. setoid_rewrite andb_true_iff.
  setoid_rewrite negb_true_iff. setoid_rewrite bool_decide_eq_false.
  setoid_rewrite Z.eqb_eq. naive_solver.
Qed.

Lemma entryDecision_spec node v p h now hold :
  - 2 ^ 63 < hold < 2 ^ 63 ->
  entryDecision node v p h now hold = true <->
  fully_eligible v node = true \/
  (hasFullyEligiblePeer node v = false /\
   (forall q, q ∈ live v -> q <> node -> fitter v node q) /\
   exists tp th, p = Some tp /\ h = Some th /\ tp + hold <= now /\ th + hold <= now).
Proof.
  intros Hh. unfold entryDecision. rewrite <- best_node_self.
  destruct (fully_eligible v node); [naive_solver|].
  destruct (hasFullyEligiblePeer node v); [naive_solver|].
  destruct p as [tp|], h as [th|]; try naive_solver.
  case_bool_decide; cbn [negb]; [|naive_solver].
  rewrite time_sub_ge by done. rewrite Z.leb_le.
  destruct (tp <? th) eqn:E; bool_prop; 
    (split; [intros; right; split_and!; eauto 10 with lia
            |intros [?|(_ & _ & ? & ? & ? & ? & ? & ?)]; simplify_eq; lia]).
Qed.

Definition hold_ok (hold : Z) : Prop := 0 <= hold < 2 ^ 63.

(** ** Progress *)
Lemma fittest_exists v (l : list string) :
  l <> [] -> exists b, b ∈ l /\ forall q, q ∈ l -> q <> b -> fitter v b q.
Proof.
  induction l as [|x l IH]; intros Hl; [done|].
  destruct (decide (l = [])) as [->|Hne]; [exists x; set_solver|].
  destruct (IH Hne) as (b & Hb & Hall).
  destruct (decide (x = b)) as [->|Hx]; [exists b; set_solver|].
  destruct (fitter_total v x b Hx) as [Hf|Hf].
  - exists x. split; [set_solver|]. intros q [->|Hq]%elem_of_cons Hqx; [done|].
    destruct (decide (q = b)) as [->|]; [done|]. eapply fitter_trans; [exact Hf|]. auto.
  - exists b. split; [set_solver|]. intros q [->|Hq]%elem_of_cons Hqb; auto.
Qed.

Lemma entry_admits_fittest v n t hold :
  hold_ok hold -> n ∈ live v -> (forall q, q ∈ live v -> q <> n -> fitter v n q) ->
  (forall q, q ∈ live v -> score v q <= forwardCount v) ->
  entryDecision n v (Some t) (Some t) (t + hold) hold = true.
Proof.
  intros Hh Hn Hf Hmax. apply entryDecision_spec; [unfold hold_ok in Hh; lia|].
  destruct (fully_eligible v n) eqn:E; [by left|]. right. split_and!; [|done|].
  - destruct (hasFullyEligiblePeer n v) eqn:P; [|done].
    apply hasFullyEligiblePeer_spec in P as (p & Hp & Hne & Hs). exfalso.
    assert (score v n = forwardCount v).
    { destruct (Hf p Hp Hne) as [?|[? _]]; [specialize (Hmax n Hn)|]; lia. }
    assert (fully_eligible v n = true) by (by apply fully_eligible_spec). congruence.
  - exists t, t. split_and!; [done..|lia|lia].
Qed.

Lemma view_ok_score self v n : view_ok self v -> 0 <= score v n <= forwardCount v.
Proof.
  intros [Hc Hd Hr]. unfold score, map_get.
  destruct (scores v !! n) as [s|] eqn:E; [by apply Hr in E|]. cbn. lia.
Qed.

(** ** Properties of the decisions *)
Definition sample_view (s1 s2 : Z) : electionView :=
  mkElectionView 3 [] {["a"; "b"]} {["a" := s1; "b" := s2]}.

Lemma sample_view_ok s1 s2 : 0 <= s1 <= 3 -> 0 <= s2 <= 3 -> view_ok "a" (sample_view s1 s2).
Proof.
  intros H1 H2. constructor; unfold sample_view, live, scores, forwardCount.
  - lia.
  - intros n. rewrite lookup_insert_is_Some, lookup_singleton_is_Some. set_solver.
  - intros n s. rewrite lookup_insert_Some.
    intros [[_ <-]|[_ [_ <-]%lookup_singleton_Some]]; lia.
Qed.

(** C3: of the nodes a view shows as live, at most one that is not fully eligible is
    admitted on that view: when two live nodes both pass the entry gate on it and
    neither can serve every forward, they are the same node; and no fully eligible node
    is live then. (A replica the view does not list yet compares itself with the live
    ones only.) *)
Theorem entry_unique_less_fit v n1 n2 p1 h1 t1 p2 h2 t2 hold :
  hold_ok hold -> n1 ∈ live v -> n2 ∈ live v ->
  fully_eligible v n1 = false -> fully_eligible v n2 = false ->
  entryDecision n1 v p1 h1 t1 hold = true -> entryDecision n2 v p2 h2 t2 hold = true ->
  n1 = n2 /\ forall q, q ∈ live v -> fully_eligible v q = false.
Proof.
  intros Hh L1 L2 F1 F2 E1 E2.
  apply entryDecision_spec in E1 as [?|(P1 & B1 & _)]; [congruence| |unfold hold_ok in Hh; lia].
  apply entryDecision_spec in E2 as [?|(P2 & B2 & _)]; [congruence| |unfold hold_ok in Hh; lia].
  split.
  - destruct (decide (n1 = n2)) as [|Hne]; [done|]. exfalso.
    eapply fitter_asym; [apply (B1 n2)|apply (B2 n1)]; auto.
  - intros q Hq. destruct (fully_eligible v q) eqn:E; [|done].
    apply fully_eligible_spec in E as [_ E].
    destruct (decide (q = n1)) as [->|Hne].
    + by rewrite (proj2 (fully_eligible_spec v n1)) in F1.
    + assert (hasFullyEligiblePeer n1 v = true) by (apply hasFullyEligiblePeer_spec; eauto).
      congruence.
Qed.

Lemma entry_unique_less_fit_witness :
  entryDecision "a" (sample_view 2 2) (Some 0) (Some 5) (100 * second) handoffHold = true /\
  "a" = "a".
Proof.
  split; [vm_compute; reflexivity|].
  apply (entry_unique_less_fit (sample_view 2 2) "a" "a" (Some 0) (Some 5) (100 * second)
    (Some 0) (Some 5) (100 * second) handoffHold);
    try (vm_compute; reflexivity); try (split; vm_compute; congruence); set_solver.
Defined.

(** C34: the gate cannot lock everybody out: whenever some link pod is live, some
    live node is admitted once it has seen the Lease free and no fully eligible
    peer for the hold. *)
Theorem entry_progress self v t hold :
  hold_ok hold -> view_ok self v -> live v <> ∅ ->
  exists n, n ∈ live v /\ entryDecision n v (Some t) (Some t) (t + hold) hold = true.
Proof.
  intros Hh Hv Hl. destruct (fittest_exists v (elements (live v))) as (b & Hb & Hall).
  { intros ?%elements_empty_inv. apply Hl. by apply leibniz_equiv. }
  setoid_rewrite elem_of_elements in Hb. setoid_rewrite elem_of_elements in Hall.
  exists b. split; [done|]. apply entry_admits_fittest; [done..|].
  intros q _. by apply (view_ok_score self).
Qed.

Lemma entry_progress_witness :
  exists n, n ∈ live (sample_view 1 2) /\
    entryDecision n (sample_view 1 2) (Some 0) (Some 0) (0 + handoffHold) handoffHold = true.
Proof.
  apply (entry_progress "a").
  - split; vm_compute; congruence.
  - apply sample_view_ok; lia.
  - intros H. apply (f_equal (fun X => bool_decide ("a" ∈ X))) in H. vm_compute in H. discriminate H.
Defined.

(** a hand-off is never undone by the same replica and never leaves the Lease
    without a taker: on the view that made the leader release, that node is refused
    by the entry gate whatever its clocks say, a fully eligible node is never the
    one releasing, and some other live node is admitted after the hold. *)
Theorem handoff_yields self node v since now hold :
  hold_ok hold -> view_ok self v -> handoffDecision node v since now hold = true ->
  fully_eligible v node = false /\
  (forall p h now', entryDecision node v p h now' hold = false) /\
  exists n t, n <> node /\ n ∈ live v /\
    entryDecision n v (Some t) (Some t) (t + hold) hold = true.
Proof.
  intros Hh Hv. unfold handoffDecision. destruct (fully_eligible v node) eqn:F; [done|].
  intros H. split; [done|].
  assert (Hpeer : (exists p, p ∈ live v /\ p <> node /\ score v node < score v p) \/
                  hasFullyEligiblePeer node v = true).
  { destruct (score v node =? 0) eqn:S0; bool_prop.
    - apply existsb_exists in H as (p & Hp%list_elem_of_In%elem_of_elements & Hb). bool_prop.
      left. exists p. split_and!; [done..|lia].
    - right. by destruct (hasFullyEligiblePeer node v). }
  clear H. split.
  - intros p h now'. apply not_true_iff_false. intros E.
    apply entryDecision_spec in E as [?|(P & B & _)]; [congruence| |unfold hold_ok in Hh; lia].
    destruct Hpeer as [(q & Hq & Hne & Hs)|?]; [|congruence].
    destruct (B q Hq Hne) as [?|[? _]]; lia.
  - destruct (fittest_exists v (elements (live v))) as (b & Hb & Hall).
    { intros E%elements_empty_inv%leibniz_equiv. destruct Hpeer as [(q & Hq & _)|P]; [set_solver|].
      apply hasFullyEligiblePeer_spec in P as (q & Hq & _). set_solver. }
    setoid_rewrite elem_of_elements in Hb. setoid_rewrite elem_of_elements in Hall.
    exists b, 0. split_and!; [|done|].
    + intros ->. destruct Hpeer as [(q & Hq & Hne & Hs)|P].
      * destruct (Hall q Hq Hne) as [?|[? _]]; lia.
      * apply hasFullyEligiblePeer_spec in P as (q & Hq & Hne & Hs).
        pose proof (view_ok_score self v node Hv).
        assert (fully_eligible v node = true); [|congruence].
        apply fully_eligible_spec. split; [done|]. destruct (Hall q Hq Hne) as [?|[? _]]; lia.
    + apply entry_admits_fittest; [done..|]. intros q _. by apply (view_ok_score self).
Qed.

Lemma handoff_yields_witness :
  handoffDecision "a" (sample_view 1 3) (Some 0) (60 * second) handoffHold = true /\
  entryDecision "a" (sample_view 1 3) (Some 0) (Some 0) (900 * second) handoffHold = false.
Proof.
  split; [vm_compute; reflexivity|].
  refine (proj1 (proj2 (handoff_yields "a" "a" (sample_view 1 3) (Some 0) (60 * second)
    handoffHold _ _ _)) _ _ _).
  - split; vm_compute; congruence.
  - apply sample_view_ok; lia.
  - vm_compute. reflexivity.
Defined.

(** a candidate past the entry gate stays in the acquire poll exactly while
    the view alone would still let it in: with no other holder observed,
    [entryStillEligible] holds iff some setting of the gate's clocks admits it. *)
Theorem entryStillEligible_spec node v now hold :
  hold_ok hold ->
  (entryStillEligible node v false now hold = true <->
     exists p h, entryDecision node v p h now hold = true) /\
  (entryStillEligible node v true now hold = true <-> fully_eligible v node = true).
Proof.
  intros Hh. unfold entryStillEligible.
  destruct (fully_eligible v node) eqn:F.
  - split; [|done]. split; [|done]. intros _. exists None, None. unfold entryDecision. by rewrite F.
  - split; [|done]. split; [eauto|]. intros (p & h & E).
    apply entryDecision_spec in E as [?|(P & B & _)]; [congruence| |unfold hold_ok in Hh; lia].
    apply entryDecision_spec; [unfold hold_ok in Hh; lia|]. right. split_and!; [done..|].
    exists (now - hold), (now - hold). split_and!; [done..|lia|lia].
Qed.

Lemma entryStillEligible_spec_witness :
  entryStillEligible "a" (sample_view 2 1) false 0 handoffHold = true <->
  exists p h, entryDecision "a" (sample_view 2 1) p h 0 handoffHold = true.
Proof. apply (entryStillEligible_spec "a" (sample_view 2 1) 0 handoffHold). split; vm_compute; congruence. Defined.

(** A candidate is made to leave exactly when, still contending, it reads a settled view
    under which it could not have entered. *)
Lemma watchEntryEligibility_spec node hold evs :
  watchEntryEligibility node hold evs = Some true <->
  exists pre t other post, evs = pre ++ EntryTick t other :: post /\ tick_deferred t = false /\
    entryStillEligible node (tk_view t) other (tk_now t) hold = false /\
    Forall (fun e => match e with
                     | EntryTick u o => tick_deferred u = true \/ entryStillEligible node (tk_view u) o (tk_now u) hold = true
                     | _ => False
                     end) pre.
Proof.
  assert (Hl : forall o t, lapse_tick node hold o t = true <->
    tick_deferred t = false /\ entryStillEligible node (tk_view t) o (tk_now t) hold = false).
  { intros o t. unfold lapse_tick. destruct (tick_deferred t); [by split; [|intros []]|]. rewrite negb_true_iff. tauto. }
  split.
  - induction evs as [|[t o| |] evs IH]; cbn [watchEntryEligibility]; try done.
    destruct (lapse_tick node hold o t) eqn:E.
    + intros _. apply Hl in E as [? ?]. exists [], t, o, evs. by split_and!.
    + intros H. destruct (IH H) as (pre & u & o' & post & -> & ? & ? & Hp). exists (EntryTick t o :: pre), u, o', post.
      split_and!; [done..|]. constructor; [|done]. unfold lapse_tick in E. destruct (tick_deferred t); [by left|right].
      by apply negb_false_iff.
  - intros (pre & t & o & post & -> & Hd & He & Hp). induction Hp as [|e pre He' _ IH]; cbn [app watchEntryEligibility].
    + by rewrite (proj2 (Hl o t)).
    + destruct e as [u o'| |]; try done. destruct (lapse_tick node hold o' u) eqn:E; [|done].
      apply Hl in E as [? ?]. destruct He'; congruence.
Qed.

(** The durations client-go's elector accepts: each leaves room for the next, the retries
    with their jitter of a fifth; and a fence ends well before a lapsed Lease is taken over
    by a less-fit node. *)
Lemma default_timing_accepted :
  et_renew defaultElectionTiming < et_lease defaultElectionTiming /\
  6 * et_retry defaultElectionTiming < 5 * et_renew defaultElectionTiming /\
  et_fence defaultElectionTiming < et_lease defaultElectionTiming < et_hold defaultElectionTiming /\
  ShutdownBudget = et_fence defaultElectionTiming + et_renew defaultElectionTiming.
Proof. vm_compute. repeat split. Qed.

(** ** The gate loops *)
Lemma entry_run_snoc node hold c ts t :
  entry_run node hold c (ts ++ [t]) = c' ← entry_run node hold c ts; entry_tick node hold c' t.
Proof.
  revert c. induction ts as [|u ts IH]; intros c; cbn.
  - by destruct (entry_tick node hold c t).
  - destruct (entry_tick node hold c u); cbn; [apply IH|done].
Qed.

Lemma handoff_run_snoc node hold s ts t :
  handoff_run node hold s (ts ++ [t]) = s' ← handoff_run node hold s ts; handoff_tick node hold s' t.
Proof.
  revert s. induction ts as [|u ts IH]; intros s; cbn.
  - by destruct (handoff_tick node hold s t).
  - destruct (handoff_tick node hold s u); cbn; [apply IH|done].
Qed.

(** [ts] ends in an unbroken run of ticks satisfying [P] (deferred ticks aside) that
    a non-deferred tick stamped at [since] began. *)
Definition unbroken (P : tick -> Prop) (stamp : tick -> Z) (ts : list tick) (since : Z) : Prop :=
  exists pre t0 post, ts = pre ++ t0 :: post /\ tick_deferred t0 = false /\ stamp t0 = since /\
    Forall (fun u => tick_deferred u = true \/ P u) (t0 :: post).

Lemma unbroken_snoc P stamp ts t since :
  unbroken P stamp ts since -> (tick_deferred t = true \/ P t) ->
  unbroken P stamp (ts ++ [t]) since.
Proof.
  intros (pre & t0 & post & -> & Hd & Hs & Hall) Ht. exists pre, t0, (post ++ [t]).
  split_and!; [by rewrite <- app_assoc|done|done|].
  rewrite app_comm_cons. apply Forall_app. split; [done|]. by constructor.
Qed.

Lemma unbroken_start P stamp ts t :
  tick_deferred t = false -> P t -> unbroken P stamp (ts ++ [t]) (stamp t).
Proof.
  intros Hd Ht. exists ts, t, []. split_and!; [done..|]. constructor; [by right|constructor].
Qed.

Definition lease_free_unopposed (node : string) (t : tick) : Prop :=
  hasFullyEligiblePeer node (tk_view t) = false /\ tk_lease t = true.

Lemma entry_clock node hold ts p th :
  waitForEntryEligible node hold ts = Some (p, Some th) ->
  unbroken (lease_free_unopposed node) tk_holder_now ts th.
Proof.
  unfold waitForEntryEligible.
  revert p th. induction ts as [|t ts IH] using rev_ind; intros p th; [done|].
  rewrite entry_run_snoc. destruct (entry_run _ _ _ _) as [[p' h']|]; [|done]. cbn [mbind option_bind].
  unfold entry_tick. destruct (tick_deferred t) eqn:D.
  { intros ?; simplify_eq. apply unbroken_snoc; [by eapply IH|by left]. }
  destruct (entryDecision _ _ _ _ _ _); [done|].
  destruct (hasFullyEligiblePeer _ _) eqn:P; [done|].
  destruct (tk_lease t) eqn:L; [|done]. cbn. intros H.
  assert (Hu : lease_free_unopposed node t) by done.
  destruct h' as [h'|]; simplify_eq.
  - apply unbroken_snoc; [eapply IH; done|by right].
  - by apply unbroken_start.
Qed.

Definition full_peer (node : string) (t : tick) : Prop :=
  hasFullyEligiblePeer node (tk_view t) = true.

Lemma handoff_clock node hold ts s :
  monitorHandoff node hold ts = Some (Some s) -> unbroken (full_peer node) tk_peer_now ts s.
Proof.
  unfold monitorHandoff.
  revert s. induction ts as [|t ts IH] using rev_ind; intros s; [done|].
  rewrite handoff_run_snoc. destruct (handoff_run _ _ _ _) as [s'|]; [|done].
  cbn [mbind option_bind]. unfold handoff_tick. destruct (tick_deferred t) eqn:D.
  { intros ?; simplify_eq. apply unbroken_snoc; [by eapply IH|by left]. }
  destruct (handoffDecision _ _ _ _ _); [done|].
  destruct (hasFullyEligiblePeer _ _) eqn:P; [|done].
  destruct s' as [s'|]; intros ?; simplify_eq.
  - apply unbroken_snoc; [by apply IH|by right].
  - by apply unbroken_start.
Qed.

(** [waitForEntryEligible] opens to a replica that cannot serve every forward
    only after an unbroken observation: from some earlier tick on, every tick that
    was not deferred saw the Lease available and no fully eligible peer, that tick
    stamped its clock at least the hold before the gate opened, and the replica is
    fitter than every other live node. *)
Theorem entry_loop_hold node hold ts c t :
  hold_ok hold ->
  waitForEntryEligible node hold ts = Some c -> entry_tick node hold c t = None ->
  fully_eligible (tk_view t) node = false ->
  exists since, unbroken (lease_free_unopposed node) tk_holder_now ts since /\
    since + hold <= tk_now t /\
    forall q, q ∈ live (tk_view t) -> q <> node -> fitter (tk_view t) node q.
Proof.
  intros Hh Hr Ht F. unfold entry_tick in Ht. destruct (tick_deferred t); [done|].
  destruct (entryDecision _ _ _ _ _ _) eqn:E; [|by destruct (hasFullyEligiblePeer _ _)].
  apply entryDecision_spec in E as [?|(P & B & tp & th & H1 & H2 & _ & Hle)];
    [congruence| |unfold hold_ok in Hh; lia].
  destruct c as [p h]. cbn in *. subst. exists th. split; [|done]. eauto using entry_clock.
Qed.

Definition sample_tick (now : Z) (s1 s2 : Z) : tick :=
  mkTick (sample_view s1 s2) now now true now.

Lemma entry_loop_hold_witness :
  exists since, unbroken (lease_free_unopposed "a") tk_holder_now
      [sample_tick 0 2 2; sample_tick second 2 2] since /\
    since + handoffHold <= tk_now (sample_tick handoffHold 2 2) /\
    forall q, q ∈ live (tk_view (sample_tick handoffHold 2 2)) -> q <> "a" ->
      fitter (tk_view (sample_tick handoffHold 2 2)) "a" q.
Proof.
  apply (entry_loop_hold "a" handoffHold [sample_tick 0 2 2; sample_tick second 2 2]
    (Some 0, Some 0)).
  - split; vm_compute; congruence.
  - vm_compute. reflexivity.
  - vm_compute. reflexivity.
  - vm_compute. reflexivity.
Defined.

(** [monitorHandoff] ends a leadership only deliberately: the leader is not
    fully eligible, and either it serves nothing while a live peer serves something,
    or every tick (deferred ones aside) of an unbroken run that began at least the
    hold ago saw a fully eligible peer. *)
Theorem handoff_loop_hold node hold ts s t :
  hold_ok hold -> monitorHandoff node hold ts = Some s -> handoff_tick node hold s t = None ->
  fully_eligible (tk_view t) node = false /\
  ((score (tk_view t) node = 0 /\
    exists p, p ∈ live (tk_view t) /\ p <> node /\ 0 < score (tk_view t) p) \/
   (full_peer node t /\
    exists since, unbroken (full_peer node) tk_peer_now ts since /\ since + hold <= tk_now t)).
Proof.
  intros Hh Hr Ht. unfold handoff_tick in Ht. destruct (tick_deferred t); [done|].
  destruct (handoffDecision _ _ _ _ _) eqn:E; [|by destruct (hasFullyEligiblePeer _ _)].
  unfold handoffDecision in E. destruct (fully_eligible _ _); [done|]. split; [done|].
  destruct (score _ _ =? 0) eqn:S0; bool_prop.
  - left. split; [done|].
    apply existsb_exists in E as (p & Hp%list_elem_of_In%elem_of_elements & Hb). bool_prop. eauto.
  - right. unfold full_peer. destruct (hasFullyEligiblePeer _ _); [|done]. split; [done|].
    destruct s as [since|]; [|done]. exists since. split; [eauto using handoff_clock|].
    cbn in E. rewrite time_sub_ge in E by (unfold hold_ok in Hh; lia). bool_prop. lia.
Qed.

Lemma handoff_loop_hold_witness :
  fully_eligible (tk_view (sample_tick handoffHold 1 3)) "a" = false.
Proof.
  apply (handoff_loop_hold "a" handoffHold [sample_tick 0 1 3; sample_tick second 1 3] (Some 0)).
  - split; vm_compute; congruence.
  - vm_compute. reflexivity.
  - vm_compute. reflexivity.
Defined.

(** ** Fail-static teardown *)

(** The holder and term the lead callback ends up with, as it composes its reads. *)
Definition lead_teardown (stepped sigterm forced : bool) (acquire : lease_read)
    (reads : nat -> lease_read) (cancelled : nat -> bool) (self : string) : bool :=
  let '(acquiredTerm, known) := readLeaseTransitions acquire in
  let '(holder, term, readOK) :=
    if negb stepped && negb sigterm && negb forced
    then readLeaseHolderTerm reads cancelled else ("", 0, false) in
  teardownDecision stepped sigterm forced readOK holder self term acquiredTerm known.

Lemma read_attempts_ok fuel a reads cancelled h t :
  read_attempts fuel a reads cancelled = (h, t, true) ->
  exists k, (a <= k < a + fuel)%nat /\ readLeaseHolderTermOnce (reads k) = Some (h, t).
Proof.
  revert a. induction fuel as [|fuel IH]; intros a; cbn; [done|].
  destruct (_ && _); [done|].
  destruct (readLeaseHolderTermOnce (reads a)) as [[h' t']|] eqn:E.
  - intros ?; simplify_eq. exists a. split; [lia|done].
  - intros (k & ? & ?)%IH. exists k. split; [lia|done].
Qed.

(** C29: the data plane is fail-static: every deliberate end of a leadership tears it
    down, and one that ends without anyone asking for it is torn down only on evidence: a
    Lease read at acquisition, and one of the three reads at the end that shows a strictly
    later term and no longer names this replica as the holder (it names another one, or
    none: somebody took the Lease over in between). *)
Theorem teardown_evidence stepped sigterm forced acquire reads cancelled self :
  (stepped || sigterm || forced = true ->
     lead_teardown stepped sigterm forced acquire reads cancelled self = true) /\
  (lead_teardown stepped sigterm forced acquire reads cancelled self = true ->
   stepped || sigterm || forced = true \/
   exists k l0 l1, (k < 3)%nat /\ acquire = LeaseFound l0 /\ reads k = LeaseFound l1 /\
     default "" (HolderIdentity l1) <> self /\
     default 0 (LeaseTransitions l0) < default 0 (LeaseTransitions l1)).
Proof.
  unfold lead_teardown, readLeaseTransitions, teardownDecision at 1.
  destruct stepped, sigterm, forced; cbn [negb andb orb]; (split; [by destruct (readLeaseHolderTermOnce acquire) as [[]|]|]);
    try by left.
  intros H. right.
  destruct (readLeaseHolderTerm reads cancelled) as [[h t] ok] eqn:R.
  destruct (readLeaseHolderTermOnce acquire) as [[h0 t0]|] eqn:A.
  - unfold teardownDecision in H. cbn in H. bool_prop. subst ok.
    apply read_attempts_ok in R as (k & Hk & Hr).
    destruct acquire as [l0| |], (reads k) as [l1| |] eqn:E; try done. simplify_eq/=.
    exists k, l0, l1. unfold maxAttempts in Hk. split_and!; [lia|done..].
  - unfold teardownDecision in H. cbn in H. by destruct ok.
Qed.

Lemma teardown_evidence_witness :
  false || false || false = true \/
  exists k l0 l1, (k < 3)%nat /\
    LeaseFound (mkLease (Some "me") None None (Some 4)) = LeaseFound l0 /\
    (fun _ : nat => LeaseFound (mkLease (Some "other") None None (Some 5))) k = LeaseFound l1 /\
    default "" (HolderIdentity l1) <> "me" /\
    default 0 (LeaseTransitions l0) < default 0 (LeaseTransitions l1).
Proof.
  apply (teardown_evidence false false false _ _ (fun _ => false)). vm_compute. reflexivity.
Defined.

(** A Lease that was taken over and released since counts as well: it names nobody. *)
Example released_lease_tears_down :
  lead_teardown false false false (LeaseFound (mkLease (Some "me") None None (Some 4)))
    (fun _ => LeaseFound (mkLease None None None (Some 5))) (fun _ => false) "me" = true.
Proof. reflexivity. Qed.
