(* ===== verification/Cycle.v ===== *)
(** * Leadership cycles: the concurrent part of internal/link/election.go

    [acquisitionLock] records whether a cycle acquired the Lease and refuses new
    acquisition writes once the cycle is leaving. A leadership cycle is the lead
    callback of [runElection], any number of [endCycle] calls (shutdown, lapsed
    entry conditions, hand-off) and the observers that fence a kept data plane,
    all running concurrently and synchronised by [fenceMu], the cycle's flags and
    channels. They are modelled as a transition system whose steps are the
    critical sections and channel operations of the code.

    The theorems: after a successful [leave] no acquisition can land; no fence runs
    while the reload loop may be applying; a cycle tears its data plane down at
    most once; a voluntary release happens only after the data plane was torn
    down or handed to the kept-plane fence; and ending a cycle never deadlocks. *)

From S2P Require Import Prelude Config Endpoints Election.

(** ** acquisitionLock *)
Record acquisitionLock := mkAcquisitionLock {
  acquired : bool;
  leaving : bool;
  inFlight : nat
}.

Definition newAcquisitionLock : acquisitionLock := mkAcquisitionLock false false 0.

Inductive lock_error := errCycleLeaving.

(** [begin]: whether the write is admitted and whether it is counted in flight. *)
Definition begin (self holder : string) (l : acquisitionLock)
  : result lock_error (acquisitionLock * bool) :=
  if acquired l || negb (bool_decide (holder = self)) then Ok (l, false)
  else if leaving l then Err errCycleLeaving
  else Ok (mkAcquisitionLock (acquired l) (leaving l) (S (inFlight l)), true).

Definition observe (self holder : string) (err : bool) (l : acquisitionLock) : acquisitionLock :=
  if err || negb (bool_decide (holder = self)) then l
  else mkAcquisitionLock true (leaving l) (inFlight l).

Definition done_write (counted : bool) (l : acquisitionLock) : acquisitionLock :=
  if counted then mkAcquisitionLock (acquired l) (leaving l) (pred (inFlight l)) else l.

Definition start_leaving (l : acquisitionLock) : acquisitionLock :=
  mkAcquisitionLock (acquired l) true (inFlight l).

(** A write between [begin] and its deferred [done]; [w_returned] once [observe] ran. *)
Record write := mkWrite { w_holder : string; w_counted : bool; w_returned : bool }.

Record lockst := mkLockst { lk : acquisitionLock; lk_writes : list write }.

Section Lock.
Variable self : string.

(** [Create] and [Update] as three steps each ([begin], the inner write's return
    with [observe], the deferred [done]), and the first half of [leave]. *)
Inductive lock_step : lockst -> lockst -> Prop :=
| lst_begin l ws holder l' counted :
    begin self holder l = Ok (l', counted) ->
    lock_step (mkLockst l ws) (mkLockst l' (ws ++ [mkWrite holder counted false]))
| lst_return l ws1 ws2 holder counted err :
    lock_step (mkLockst l (ws1 ++ mkWrite holder counted false :: ws2))
      (mkLockst (observe self holder err l) (ws1 ++ mkWrite holder counted true :: ws2))
| lst_done l ws1 ws2 holder counted :
    lock_step (mkLockst l (ws1 ++ mkWrite holder counted true :: ws2))
      (mkLockst (done_write counted l) (ws1 ++ ws2))
| lst_leave l ws : lock_step (mkLockst l ws) (mkLockst (start_leaving l) ws).

Definition counted_writes (ws : list write) : nat := length (filter (fun w => w_counted w = true) ws).

(** The WaitGroup counts the counted writes, and while the Lease is not acquired a
    write naming this replica is a counted one. *)
Record lock_ok (s : lockst) : Prop := {
  lo_count : inFlight (lk s) = counted_writes (lk_writes s);
  lo_self : acquired (lk s) = false -> forall w, w ∈ lk_writes s -> w_holder w = self -> w_counted w = true
}.

(** No acquisition can land any more. *)
Definition lock_closed (s : lockst) : Prop :=
  acquired (lk s) = false /\ leaving (lk s) = true /\ inFlight (lk s) = 0%nat.

Lemma counted_writes_app ws1 ws2 :
  counted_writes (ws1 ++ ws2) = (counted_writes ws1 + counted_writes ws2)%nat.
Proof. unfold counted_writes. by rewrite filter_app, length_app. Qed.

Lemma counted_writes_cons w ws :
  counted_writes (w :: ws) = ((if w_counted w then 1 else 0) + counted_writes ws)%nat.
Proof.
  unfold counted_writes. rewrite filter_cons.
  destruct (w_counted w) eqn:E; [rewrite decide_True by done|rewrite decide_False by done]; done.
Qed.

Lemma lock_step_ok s s' : lock_step s s' -> lock_ok s -> lock_ok s'.
Proof.
  intros Hstep [Hc Hs]. destruct Hstep as [l ws holder l' counted Hb|l ws1 ws2 h c err|l ws1 ws2 h c|l ws];
    cbn [lk lk_writes] in *; constructor; cbn [lk lk_writes];
    rewrite ?counted_writes_app, ?counted_writes_cons in *; cbn [w_counted] in *.
  - change (counted_writes []) with 0%nat. unfold begin in Hb. split_matches; lia.
  - unfold begin in Hb. intros Ha w [Hw| ->%list_elem_of_singleton]%elem_of_app; cbn.
    + split_matches; auto.
    + intros ->. rewrite bool_decide_true in Hb by done.
      destruct (acquired l) eqn:E; cbn in Hb; [simplify_eq; congruence|].
      by destruct (leaving l); simplify_eq.
  - unfold observe. split_matches; lia.
  - unfold observe. intros Ha w Hw Hh. apply elem_of_app in Hw as [Hw|[->|Hw]%elem_of_cons].
    + apply Hs; [|set_solver|done]. split_matches; done.
    + cbn in *. apply (Hs ltac:(split_matches; done) (mkWrite h c false)); set_solver.
    + apply Hs; [|set_solver|done]. split_matches; done.
  - destruct c; cbn; lia.
  - intros Ha w Hw Hh. apply Hs; [by destruct c|set_solver|done].
  - done.
  - auto.
Qed.

Lemma counted_zero ws w : counted_writes ws = 0%nat -> w ∈ ws -> w_counted w = false.
Proof.
  intros H Hw. destruct (w_counted w) eqn:E; [|done].
  apply list_elem_of_split in Hw as (ws1 & ws2 & ->).
  rewrite counted_writes_app, counted_writes_cons, E in H. lia.
Qed.

Lemma lock_closed_stable s s' : lock_ok s -> lock_closed s -> lock_step s s' -> lock_closed s'.
Proof.
  intros [Hc Hs] (Ha & Hl & Hn) Hstep.
  destruct Hstep as [l ws holder l' counted Hb|l ws1 ws2 h c err|l ws1 ws2 h c|l ws]; cbn in *.
  - unfold begin in Hb. rewrite Ha, Hl in Hb. cbn in Hb. case_bool_decide; by simplify_eq/=.
  - unfold observe. destruct (err || _) eqn:E; [done|]. bool_prop. subst h.
    assert (Hw : mkWrite self c false ∈ ws1 ++ mkWrite self c false :: ws2) by set_solver.
    pose proof (Hs Ha _ Hw eq_refl) as H1. rewrite Hn in Hc.
    pose proof (counted_zero _ _ (eq_sym Hc) Hw). congruence.
  - unfold done_write. destruct c; cbn; by rewrite ?Hn.
  - done.
Qed.

Lemma lock_acquired_mono s s' :
  lock_step s s' -> acquired (lk s) = true -> acquired (lk s') = true.
Proof.
  intros [l ws holder l' counted Hb|l ws1 ws2 h c err|l ws1 ws2 h c|l ws]; cbn; intros H; try done.
  - unfold begin in Hb. split_matches; done.
  - unfold observe. by split_matches.
  - by destruct c.
Qed.

(** once a cycle has left the election with no acquisition write in flight and
    the Lease not acquired, no later write can acquire it: every state reachable
    from there is still not acquired, and a write naming this replica as holder is
    refused. *)
Theorem leave_is_final s s' :
  lock_ok s -> lock_closed s -> rtc lock_step s s' ->
  lock_closed s' /\ begin self self (lk s') = Err errCycleLeaving.
Proof.
  intros Hok Hcl Hr.
  assert (H : lock_ok s' /\ lock_closed s').
  { induction Hr; [done|]. apply IHHr; eauto using lock_step_ok, lock_closed_stable. }
  destruct H as [_ Hc]. split; [done|]. destruct Hc as (Ha & Hl & _).
  unfold begin. rewrite Ha, Hl. by rewrite bool_decide_true.
Qed.
End Lock.

Lemma leave_is_final_witness :
  lock_closed (mkLockst (mkAcquisitionLock false true 0) []) /\
  begin "me" "me" (mkAcquisitionLock false true 0) = Err errCycleLeaving.
Proof.
  apply (leave_is_final "me" (mkLockst (mkAcquisitionLock false true 0) [])).
  - constructor; [reflexivity|]. intros _ w Hw. set_solver.
  - split_and!; reflexivity.
  - apply rtc_refl.
Defined.

(** ** A leadership cycle *)

(** Where the lead callback is. [LRunning] spans from [cycle.lead] to the return of
    [watchAndReload]; [LForced] to [LRelease] is the branch of a reload loop that
    failed; [LDecide] is the teardown decision. *)
Inductive lead_pc :=
| LNone | LClaimed | LRunning | LStopped
| LForced | LForcedFencing | LRelease
| LDecide (forced : bool) | LFinal | LFencing | LClear | LDone.

(** Where a call of [endCycle] is. *)
Inductive end_pc :=
| EEnded | ELeaving | EWaitRegistered | EStop | EWaitReload | EFence | EFencing
| EWaitTeardown | ECancel | EReturned.

(** Who holds [fenceMu] for a running teardown. *)
Inductive fence_owner := ByLead | ByEnder (i : nat) | ByObserver.

#[global] Instance lead_pc_eq_dec : EqDecision lead_pc.
Proof. solve_decision. Defined.
#[global] Instance end_pc_eq_dec : EqDecision end_pc.
Proof. solve_decision. Defined.
#[global] Instance fence_owner_eq_dec : EqDecision fence_owner.
Proof. solve_decision. Defined.

(** [c_cancelled]: the elector's context was cancelled, which releases the Lease.
    [c_unfenced]: an apply may have programmed something since the last completed
    teardown. [c_fences] counts this cycle's own teardowns. [c_late]: one of
    [endCycle]'s two bounded waits ran out. *)
Record cyc := mkCyc {
  c_lock : lockst;
  c_lead : lead_pc;
  c_enders : gmap nat end_pc;
  c_pending : bool;
  c_fenced : bool;
  c_ended : bool;
  c_stop : bool;
  c_lost : bool;
  c_cancelled : bool;
  c_fencing : option fence_owner;
  c_unfenced : bool;
  c_fences : nat;
  c_late : bool
}.

Definition set_lock x s := mkCyc x (c_lead s) (c_enders s) (c_pending s) (c_fenced s) (c_ended s)
  (c_stop s) (c_lost s) (c_cancelled s) (c_fencing s) (c_unfenced s) (c_fences s) (c_late s).
Definition set_lead x s := mkCyc (c_lock s) x (c_enders s) (c_pending s) (c_fenced s) (c_ended s)
  (c_stop s) (c_lost s) (c_cancelled s) (c_fencing s) (c_unfenced s) (c_fences s) (c_late s).
Definition set_ender i x s := mkCyc (c_lock s) (c_lead s) (<[i := x]> (c_enders s)) (c_pending s)
  (c_fenced s) (c_ended s) (c_stop s) (c_lost s) (c_cancelled s) (c_fencing s) (c_unfenced s)
  (c_fences s) (c_late s).
Definition set_pending x s := mkCyc (c_lock s) (c_lead s) (c_enders s) x (c_fenced s) (c_ended s)
  (c_stop s) (c_lost s) (c_cancelled s) (c_fencing s) (c_unfenced s) (c_fences s) (c_late s).
Definition set_fenced s := mkCyc (c_lock s) (c_lead s) (c_enders s) (c_pending s) true (c_ended s)
  (c_stop s) (c_lost s) (c_cancelled s) (c_fencing s) (c_unfenced s) (c_fences s) (c_late s).
Definition set_ended s := mkCyc (c_lock s) (c_lead s) (c_enders s) (c_pending s) (c_fenced s) true
  (c_stop s) (c_lost s) (c_cancelled s) (c_fencing s) (c_unfenced s) (c_fences s) (c_late s).
Definition set_stop x s := mkCyc (c_lock s) (c_lead s) (c_enders s) (c_pending s) (c_fenced s)
  (c_ended s) x (c_lost s) (c_cancelled s) (c_fencing s) (c_unfenced s) (c_fences s) (c_late s).
Definition set_lost s := mkCyc (c_lock s) (c_lead s) (c_enders s) (c_pending s) (c_fenced s)
  (c_ended s) (c_stop s) true (c_cancelled s) (c_fencing s) (c_unfenced s) (c_fences s) (c_late s).
Definition set_cancelled s := mkCyc (c_lock s) (c_lead s) (c_enders s) (c_pending s) (c_fenced s)
  (c_ended s) (c_stop s) (c_lost s) true (c_fencing s) (c_unfenced s) (c_fences s) (c_late s).
Definition set_fencing x s := mkCyc (c_lock s) (c_lead s) (c_enders s) (c_pending s) (c_fenced s)
  (c_ended s) (c_stop s) (c_lost s) (c_cancelled s) x (c_unfenced s) (c_fences s) (c_late s).
Definition set_unfenced x s := mkCyc (c_lock s) (c_lead s) (c_enders s) (c_pending s) (c_fenced s)
  (c_ended s) (c_stop s) (c_lost s) (c_cancelled s) (c_fencing s) x (c_fences s) (c_late s).
Definition add_fence s := mkCyc (c_lock s) (c_lead s) (c_enders s) (c_pending s) (c_fenced s)
  (c_ended s) (c_stop s) (c_lost s) (c_cancelled s) (c_fencing s) (c_unfenced s) (S (c_fences s))
  (c_late s).
Definition set_late s := mkCyc (c_lock s) (c_lead s) (c_enders s) (c_pending s) (c_fenced s)
  (c_ended s) (c_stop s) (c_lost s) (c_cancelled s) (c_fencing s) (c_unfenced s) (c_fences s) true.

(** [cycle.registered] and [reloadDone] closed; [teardownDone] closed at [LDone]. *)
Definition registered (p : lead_pc) : bool :=
  match p with LNone | LClaimed => false | _ => true end.
Definition reload_done (p : lead_pc) : bool :=
  match p with LNone | LClaimed | LRunning => false | _ => true end.

Definition is_acquired (s : cyc) : bool := acquired (lk (c_lock s)).

(** [fenceCycle] entered by [who], continuing at [go] with the fence held or at
    [skip]. The mutex is free when it is entered. *)
Definition fenceCycle (who : fence_owner) (go skip : cyc -> cyc) (s : cyc) : cyc :=
  if c_fenced s || c_pending s then skip s
  else go (add_fence (set_fencing (Some who) (set_fenced s))).

(** [runFence] returns: the teardown was attempted in full and the mutex is freed. *)
Definition fence_returns (s : cyc) : cyc := set_unfenced false (set_fencing None s).

(** [claimPendingFence] *)
Definition claimPendingFence (s : cyc) : cyc := set_pending false s.

(** [lead]: registers the loop, which is stopped at once when the cycle ended. *)
Definition lead (s : cyc) : cyc :=
  set_stop (c_stop s || c_ended s) (set_lead LRunning s).

(** The decision's "keep" branch, under [fenceMu]. *)
Definition keep_plane (s : cyc) : cyc :=
  if c_fenced s then s else set_pending true (set_fenced s).

(** [fenceKept] *)
Definition fenceKept (s : cyc) : cyc :=
  if c_pending s then set_fencing (Some ByObserver) (set_pending false s) else s.

Section Cycle.
Variable self : string.

(** The steps of the lead callback, [OnStartedLeading]. *)
Inductive lead_act : cyc -> cyc -> Prop :=
| ca_claim s : c_lead s = LNone -> is_acquired s = true -> c_fencing s = None ->
    lead_act s (set_unfenced true (set_lead LClaimed (claimPendingFence s)))
| ca_register s : c_lead s = LClaimed -> lead_act s (lead s)
| ca_reload_stop s : c_lead s = LRunning -> c_stop s || c_lost s || c_cancelled s = true ->
    lead_act s (set_lead LStopped s)
| ca_reload_failed s : c_lead s = LStopped ->
    c_lost s || c_cancelled s || c_ended s = false -> lead_act s (set_lead LForced s)
| ca_reload_ok s (sibling : bool) : c_lead s = LStopped ->
    c_lost s || c_cancelled s || c_ended s = true -> lead_act s (set_lead (LDecide sibling) s)
| ca_forced_fence s : c_lead s = LForced -> c_fencing s = None ->
    lead_act s (fenceCycle ByLead (set_lead LForcedFencing) (set_lead LRelease) s)
| ca_forced_fence_done s : c_lead s = LForcedFencing -> c_fencing s = Some ByLead ->
    lead_act s (set_lead LRelease (fence_returns s))
| ca_release s : c_lead s = LRelease -> lead_act s (set_cancelled (set_lead (LDecide true) s))
| ca_tear_down s forced hand sigterm readOK holder term acquiredTerm known :
    c_lead s = LDecide forced ->
    teardownDecision (hand || c_ended s) sigterm forced readOK holder self term acquiredTerm known
      = true ->
    lead_act s (set_lead LFinal s)
| ca_keep s forced hand sigterm readOK holder term acquiredTerm known :
    c_lead s = LDecide forced -> c_fencing s = None ->
    teardownDecision (hand || c_ended s) sigterm forced readOK holder self term acquiredTerm known
      = false ->
    lead_act s (set_lead LDone (keep_plane s))
| ca_fence s : c_lead s = LFinal -> c_fencing s = None ->
    lead_act s (fenceCycle ByLead (set_lead LFencing) (set_lead LClear) s)
| ca_fence_done s : c_lead s = LFencing -> c_fencing s = Some ByLead ->
    lead_act s (set_lead LClear (fence_returns s))
| ca_clear s : c_lead s = LClear -> lead_act s (set_lead LDone s).

(** The steps of one call of [endCycle]. *)
Inductive end_act : cyc -> cyc -> Prop :=
| ca_end_leave s i : c_enders s !! i = Some EEnded ->
    end_act s (set_lock (mkLockst (start_leaving (lk (c_lock s))) (lk_writes (c_lock s)))
      (set_ender i ELeaving s))
| ca_end_left s i : c_enders s !! i = Some ELeaving -> inFlight (lk (c_lock s)) = 0%nat ->
    end_act s (set_ender i (if is_acquired s then EWaitRegistered else ECancel) s)
| ca_end_left_late s i : c_enders s !! i = Some ELeaving -> inFlight (lk (c_lock s)) <> 0%nat ->
    end_act s (set_late (set_ender i (if is_acquired s then EWaitRegistered else ECancel) s))
| ca_end_registered s i : c_enders s !! i = Some EWaitRegistered -> registered (c_lead s) = true ->
    end_act s (set_ender i EStop s)
| ca_end_unregistered s i : c_enders s !! i = Some EWaitRegistered ->
    registered (c_lead s) = false -> end_act s (set_late (set_ender i ECancel s))
| ca_end_stop s i : c_enders s !! i = Some EStop ->
    end_act s (set_stop true (set_ender i EWaitReload s))
| ca_end_reload s i : c_enders s !! i = Some EWaitReload -> reload_done (c_lead s) = true ->
    end_act s (set_ender i EFence s)
| ca_end_fence s i : c_enders s !! i = Some EFence -> c_fencing s = None ->
    end_act s (fenceCycle (ByEnder i) (set_ender i EFencing) (set_ender i EWaitTeardown) s)
| ca_end_fence_done s i : c_enders s !! i = Some EFencing -> c_fencing s = Some (ByEnder i) ->
    end_act s (set_ender i EWaitTeardown (fence_returns s))
| ca_end_teardown s i : c_enders s !! i = Some EWaitTeardown -> c_lead s = LDone ->
    end_act s (set_ender i ECancel s)
| ca_end_cancel s i : c_enders s !! i = Some ECancel ->
    end_act s (set_cancelled (set_ender i EReturned s)).

(** A kept-plane fence in progress returns. *)
Inductive observer_act : cyc -> cyc -> Prop :=
| ca_observer_done s : c_fencing s = Some ByObserver -> observer_act s (fence_returns s).

(** The steps of the modelled goroutines. *)
Inductive cyc_act (s s' : cyc) : Prop :=
| act_lead (_ : lead_act s s')
| act_end (_ : end_act s s')
| act_observer (_ : observer_act s s').

(** What happens to the cycle from outside: Lease writes, the loss of leadership, a
    reload loop that returns on its own, a new [endCycle] call, and evidence of
    another holder reaching a kept data plane. *)
Inductive cyc_env : cyc -> cyc -> Prop :=
| ce_lock s l : lock_step self (c_lock s) l -> cyc_env s (set_lock l s)
| ce_lost s : cyc_env s (set_lost s)
| ce_reload_returns s : c_lead s = LRunning -> cyc_env s (set_lead LStopped s)
| ce_end s i : c_enders s !! i = None -> cyc_env s (set_ended (set_ender i EEnded s))
| ce_observer s : c_fencing s = None -> cyc_env s (fenceKept s).

Definition cyc_step (s s' : cyc) : Prop := cyc_act s s' \/ cyc_env s s'.

(** A cycle starts with the process-wide pending flag as earlier cycles left it. *)
Definition cyc_init (pending : bool) : cyc :=
  mkCyc (mkLockst newAcquisitionLock []) LNone ∅ pending false false false false false None
    pending 0 false.

Definition cyc_reachable (s : cyc) : Prop := exists p, rtc cyc_step (cyc_init p) s.
End Cycle.

(** ** The invariant *)
Definition owns_fence (p : lead_pc) : bool :=
  match p with LForcedFencing | LFencing => true | _ => false end.
Definition past_fence (p : lead_pc) : bool :=
  match p with LForcedFencing | LRelease | LFencing | LClear | LDone => true | _ => false end.
Definition pending_cleared (p : lead_pc) : bool :=
  match p with LNone | LDone => false | _ => true end.

Definition settled (p : lead_pc) : bool :=
  match p with LRelease | LClear | LDone => true | _ => false end.

(** What each position of an [endCycle] call knows. *)
Definition end_knows (s : cyc) (p : end_pc) : Prop :=
  match p with
  | ELeaving => leaving (lk (c_lock s)) = true
  | EWaitReload => registered (c_lead s) = true /\ c_stop s = true
  | EStop => registered (c_lead s) = true
  | EFence | EFencing | EWaitTeardown => reload_done (c_lead s) = true
  | ECancel => c_late s = true \/ lock_closed (c_lock s) \/ c_lead s = LDone
  | _ => True
  end.

(** Who may still be tearing down once the cycle's own fence is behind it. *)
Definition fence_free (s : cyc) : Prop := c_fencing s = None \/ c_fencing s = Some ByObserver.

Section Invariant.
Variable self : string.

Record cyc_ok (s : cyc) : Prop := {
  k_lock : lock_ok self (c_lock s);
  k_acq : c_lead s <> LNone -> is_acquired s = true;
  k_run : registered (c_lead s) && reload_done (c_lead s) = false -> c_lead s <> LNone -> c_fencing s = None;
  k_fresh : reload_done (c_lead s) = false -> c_fenced s = false;
  k_pend : pending_cleared (c_lead s) = true -> c_pending s = false;
  k_past : past_fence (c_lead s) = true -> c_fenced s = true;
  k_unf : c_unfenced s = true ->
    c_pending s = true \/ c_fencing s <> None \/ (c_fenced s = false /\ c_lead s <> LNone);
  k_fences : (c_fences s <= if c_fenced s then 1 else 0)%nat;
  k_lead : c_fencing s = Some ByLead <-> owns_fence (c_lead s) = true;
  k_ender : forall i, c_fencing s = Some (ByEnder i) <-> c_enders s !! i = Some EFencing;
  k_end : forall i p, c_enders s !! i = Some p -> end_knows s p;
  k_done : settled (c_lead s) = true -> fence_free s;
  k_cancel : c_cancelled s = true ->
    c_late s = true \/ lock_closed (c_lock s) \/
    (c_fenced s = true /\ reload_done (c_lead s) = true /\ fence_free s)
}.
End Invariant.

Lemma cyc_init_ok self p : cyc_ok self (cyc_init p).
Proof.
  constructor; cbn; try done; try naive_solver.
  constructor; [done|]. intros _ w Hw. set_solver.
Qed.

Lemma start_leaving_ok self l :
  lock_ok self l -> lock_ok self (mkLockst (start_leaving (lk l)) (lk_writes l)).
Proof. intros [? ?]. by constructor. Qed.

Lemma start_leaving_closed l :
  lock_closed l -> lock_closed (mkLockst (start_leaving (lk l)) (lk_writes l)).
Proof. intros (? & ? & ?). by split_and!. Qed.

(** *** Preservation, one clause at a time *)

(** Case on a step, unfold its setters, and split the branches of its helpers. *)
Ltac case_step Hs :=
  destruct Hs as [[Hs|Hs|Hs]|Hs]; destruct Hs as [];
  unfold fenceCycle, fence_returns, claimPendingFence, lead, keep_plane, fenceKept, fence_free,
    is_acquired in *; cbn in *;
  repeat match goal with H : c_lead _ = _ |- _ => progress rewrite H in * end; cbn in *;
  repeat (case_match; cbn in *); bool_prop.

Ltac ender_lookup :=
  match goal with
  | H : <[_ := _]> _ !! _ = Some _ |- _ =>
      apply lookup_insert_Some in H as [[? ?]|[? ?]]; simplify_eq/=
  end.

Section Preservation.
Variable self : string.
Implicit Types s : cyc.

Lemma step_lock s s' :
  cyc_step self s s' -> lock_ok self (c_lock s) -> lock_ok self (c_lock s').
Proof. intros Hs H. case_step Hs; eauto using start_leaving_ok, lock_step_ok. Qed.

Lemma step_acq s s' :
  cyc_step self s s' -> (c_lead s <> LNone -> is_acquired s = true) ->
  c_lead s' <> LNone -> is_acquired s' = true.
Proof.
  intros Hs H. case_step Hs; intros; try done; try (by apply H); try (by apply H; congruence).
  eapply lock_acquired_mono; eauto.
Qed.

Lemma step_closed s s' :
  cyc_step self s s' -> lock_ok self (c_lock s) -> lock_closed (c_lock s) -> lock_closed (c_lock s').
Proof.
  intros Hs Hl H. case_step Hs; eauto using start_leaving_closed, lock_closed_stable.
Qed.

Lemma step_leaving s s' :
  cyc_step self s s' -> leaving (lk (c_lock s)) = true -> leaving (lk (c_lock s')) = true.
Proof.
  intros Hs H. case_step Hs; try done.
  match goal with Hl : lock_step _ _ _ |- _ => destruct Hl end; cbn in *; try done.
  - unfold begin in *. split_matches; done.
  - unfold observe. by case_match.
  - by destruct counted.
Qed.

Lemma step_fenced s s' :
  cyc_step self s s' -> c_fenced s = true -> c_fenced s' = true.
Proof. intros Hs H. case_step Hs; congruence. Qed.

Lemma step_reload_done s s' :
  cyc_step self s s' -> reload_done (c_lead s) = true -> reload_done (c_lead s') = true.
Proof. intros Hs H. case_step Hs; congruence. Qed.

Lemma step_registered s s' :
  cyc_step self s s' -> registered (c_lead s) = true -> registered (c_lead s') = true.
Proof. intros Hs H. case_step Hs; congruence. Qed.

Lemma step_flags s s' :
  cyc_step self s s' ->
  (c_stop s = true -> c_stop s' = true) /\ (c_late s = true -> c_late s' = true) /\
  (c_cancelled s = true -> c_cancelled s' = true) /\ (c_lead s = LDone -> c_lead s' = LDone).
Proof. intros Hs. case_step Hs; split_and!; intros Hf; try done; try congruence; by rewrite Hf. Qed.

Lemma step_run s s' :
  cyc_step self s s' -> cyc_ok self s ->
  registered (c_lead s') && reload_done (c_lead s') = false -> c_lead s' <> LNone ->
  c_fencing s' = None.
Proof.
  intros Hs [_ _ Hrun _ Hpend _ _ _ _ _ Hend _ _]. case_step Hs; intros; try done; auto.
  - apply Hend in H. cbn in H. by destruct (c_lead s).
  - destruct (c_lead s); try done; specialize (Hpend eq_refl); congruence.
Qed.

Lemma step_fresh s s' :
  cyc_step self s s' -> cyc_ok self s -> reload_done (c_lead s') = false -> c_fenced s' = false.
Proof.
  intros Hs [_ _ _ Hfr _ _ _ _ _ _ Hend _ _]. case_step Hs; intros; try done; auto.
  all: match goal with H : c_enders _ !! _ = Some _ |- _ => apply Hend in H; cbn in H; congruence end.
Qed.

Lemma step_pend s s' :
  cyc_step self s s' -> cyc_ok self s -> pending_cleared (c_lead s') = true -> c_pending s' = false.
Proof.
  intros Hs [_ _ _ _ Hp _ _ _ _ _ _ _ _]. case_step Hs; intros; try done; auto.
Qed.

Lemma step_past s s' :
  cyc_step self s s' -> cyc_ok self s -> past_fence (c_lead s') = true -> c_fenced s' = true.
Proof.
  intros Hs [_ _ _ _ Hp Hpast _ _ _ _ _ _ _]. case_step Hs; intros; try done; auto.
  all: match goal with H : _ \/ _ |- _ => destruct H end; [done|].
  all: specialize (Hp eq_refl); congruence.
Qed.

Lemma step_fences s s' :
  cyc_step self s s' -> cyc_ok self s ->
  (c_fences s' <= if c_fenced s' then 1 else 0)%nat.
Proof.
  intros Hs [_ _ _ _ _ _ _ Hf _ _ _ _ _]. case_step Hs; try done; try lia.
Qed.

Lemma step_own_lead s s' :
  cyc_step self s s' -> cyc_ok self s ->
  c_fencing s' = Some ByLead <-> owns_fence (c_lead s') = true.
Proof.
  intros Hs [_ _ _ _ _ _ _ _ Hl _ _ _ _]. case_step Hs; try done; try naive_solver congruence.
Qed.

Lemma step_own_ender s s' :
  cyc_step self s s' -> cyc_ok self s ->
  forall i, c_fencing s' = Some (ByEnder i) <-> c_enders s' !! i = Some EFencing.
Proof.
  intros Hs [_ _ _ _ _ _ _ _ _ He _ _ _] j. specialize (He j). revert He.
  case_step Hs; intros He; rewrite ?lookup_insert; repeat case_decide; subst; 
   try done; try naive_solver congruence.
Qed.

Lemma step_unf s s' :
  cyc_step self s s' -> cyc_ok self s -> c_unfenced s' = true ->
  c_pending s' = true \/ c_fencing s' <> None \/ (c_fenced s' = false /\ c_lead s' <> LNone).
Proof.
  intros Hs [_ _ _ Hfr _ _ Hu _ _ _ _ _ _]. case_step Hs; intros Hun; try done; auto.
  all: try (destruct (Hu Hun) as [?|[?|[? ?]]]; by auto).
  all: right; try (left; done); right; split; auto.
Qed.

Lemma step_end s s' :
  cyc_step self s s' -> cyc_ok self s -> forall i p, c_enders s' !! i = Some p -> end_knows s' p.
Proof.
  intros Hs Hok j p Hj.
  assert (Hkeep : forall q, end_knows s q -> end_knows s' q).
  { pose proof (step_flags _ _ Hs) as (Hst & Hla & _ & Hdn).
    intros []; cbn; eauto using step_registered, step_reload_done, step_leaving;
      naive_solver eauto using step_registered, step_closed, k_lock. }
  pose proof (k_end _ _ Hok) as Hend. revert Hj Hkeep.
  case_step Hs; intros Hj Hkeep; try solve [eauto];
    (apply lookup_insert_Some in Hj as [[-> <-]|[_ Hj]]; [|solve [eauto]]).
  all: cbn; auto; match goal with H : c_enders _ !! _ = Some _ |- _ => apply Hend in H; cbn in H end;
    try done.
  right; left. by split_and!.
Qed.

Lemma step_done s s' :
  cyc_step self s s' -> cyc_ok self s -> settled (c_lead s') = true -> fence_free s'.
Proof.
  intros Hs Hok. pose proof (k_done _ _ Hok) as Hd. pose proof (k_past _ _ Hok) as Hp.
  revert Hd Hp. case_step Hs; intros Hd Hp Hset; try done; auto.
  all: destruct (c_lead s); try done; specialize (Hp eq_refl); congruence.
Qed.

Lemma step_cancel s s' :
  cyc_step self s s' -> cyc_ok self s -> c_cancelled s' = true ->
  c_late s' = true \/ lock_closed (c_lock s') \/
  (c_fenced s' = true /\ reload_done (c_lead s') = true /\ fence_free s').
Proof.
  intros Hs Hok.
  assert (Hfree : c_fenced s = true -> fence_free s -> fence_free s').
  { intros Hf Hff. revert Hf Hff. case_step Hs; intros; try done; auto; congruence. }
  destruct (decide (c_cancelled s = true)) as [Hc|Hc].
  - intros _. pose proof (step_flags _ _ Hs) as (_ & Hla & _ & _).
    destruct (k_cancel _ _ Hok Hc) as [?|[?|(? & ? & ?)]].
    + auto.
    + right; left. eauto using step_closed, k_lock.
    + right; right. split_and!; eauto using step_fenced, step_reload_done.
  - pose proof (k_past _ _ Hok) as Hp. pose proof (k_done _ _ Hok) as Hd.
    pose proof (k_end _ _ Hok) as He. clear Hfree. revert Hc Hp Hd He.
    case_step Hs; intros Hc Hp Hd He Hc'; try done.
    + right; right. auto.
    + match goal with H : c_enders _ !! _ = Some _ |- _ => apply He in H; cbn in H end.
      destruct H as [?|[?|Hl]]; auto. rewrite Hl in *. right; right. auto.
Qed.

Lemma cyc_step_ok s s' : cyc_step self s s' -> cyc_ok self s -> cyc_ok self s'.
Proof.
  intros Hs Hok. constructor.
  - eauto using step_lock, k_lock.
  - eauto using step_acq, k_acq.
  - eauto using step_run.
  - eauto using step_fresh.
  - eauto using step_pend.
  - eauto using step_past.
  - eauto using step_unf.
  - eauto using step_fences.
  - eauto using step_own_lead.
  - eauto using step_own_ender.
  - eauto using step_end.
  - eauto using step_done.
  - eauto using step_cancel.
Qed.

Lemma cyc_reachable_ok s : cyc_reachable self s -> cyc_ok self s.
Proof.
  intros [p Hr]. assert (H0 := cyc_init_ok self p). revert H0 Hr. generalize (cyc_init p).
  intros s0 H0 Hr. induction Hr; [done|]. eauto using cyc_step_ok.
Qed.
End Preservation.

(** ** Termination of a cycle's end *)
Definition lead_rank (p : lead_pc) : nat :=
  match p with
  | LNone => 12 | LClaimed => 11 | LRunning => 10 | LStopped => 9 | LForced => 8
  | LForcedFencing => 7 | LRelease => 6 | LDecide _ => 5 | LFinal => 4 | LFencing => 3
  | LClear => 2 | LDone => 1
  end.
Definition end_rank (p : end_pc) : nat :=
  match p with
  | EEnded => 9 | ELeaving => 8 | EWaitRegistered => 7 | EStop => 6 | EWaitReload => 5
  | EFence => 4 | EFencing => 3 | EWaitTeardown => 2 | ECancel => 1 | EReturned => 0
  end.
Definition ends_measure (m : gmap nat end_pc) : nat :=
  sum_list ((fun kv => end_rank kv.2) <$> map_to_list m).

Lemma ends_measure_insert m i p q :
  m !! i = Some p -> (ends_measure (<[i := q]> m) + end_rank p = ends_measure m + end_rank q)%nat.
Proof.
  intros Hi. unfold ends_measure.
  assert (Hins : forall x, sum_list ((fun kv => end_rank kv.2) <$> map_to_list (<[i := x]> m)) =
    (end_rank x + sum_list ((fun kv => end_rank kv.2) <$> map_to_list (delete i m)))%nat).
  { intros x. rewrite <- insert_delete_eq, map_to_list_insert by apply lookup_delete_eq. done. }
  rewrite Hins. rewrite <- (insert_id m i p Hi) at 2. rewrite Hins. lia.
Qed.

(** Work left to the cycle's own goroutines. *)
Definition cyc_measure (s : cyc) : nat :=
  lead_rank (c_lead s) + ends_measure (c_enders s) +
  (if decide (c_fencing s = Some ByObserver) then 1 else 0).

Section Ending.
Variable self : string.

Lemma cyc_act_measure s s' : cyc_act self s s' -> (cyc_measure s' < cyc_measure s)%nat.
Proof.
  intros Hs. unfold cyc_measure. destruct Hs as [Hs|Hs|Hs]; destruct Hs as [];
    unfold fenceCycle, fence_returns, claimPendingFence, lead, keep_plane; cbn;
    repeat match goal with H : c_lead _ = _ |- _ => progress rewrite H in * end;
    repeat match goal with H : c_fencing _ = _ |- _ => progress rewrite H in * end; cbn;
    repeat (case_match; cbn in * ); simplify_eq;
    try match goal with H : c_enders _ !! ?i = Some ?p |- context [<[?i := ?q]> _] =>
      pose proof (ends_measure_insert _ i p q H); cbn in * end; try lia; congruence.
Qed.

Lemma fencing_progress s o :
  cyc_ok self s -> c_fencing s = Some o -> exists s', cyc_act self s s'.
Proof.
  intros Hok Hf. destruct o as [|i|].
  - pose proof (proj1 (k_lead _ _ Hok) Hf) as Hl.
    destruct (c_lead s) eqn:E; try done; eexists; [by apply act_lead, ca_forced_fence_done|by apply act_lead, ca_fence_done].
  - pose proof (proj1 (k_ender _ _ Hok i) Hf). eexists. by apply act_end, (ca_end_fence_done _ i).
  - eexists. by apply act_observer, ca_observer_done.
Qed.

(** A lead callback whose reload loop has returned can always go on. *)
Lemma lead_progress s :
  cyc_ok self s -> reload_done (c_lead s) = true -> c_lead s <> LDone -> exists s', cyc_act self s s'.
Proof.
  intros Hok Hr Hd. destruct (c_fencing s) as [o|] eqn:F; [eauto using fencing_progress|].
  destruct (c_lead s) eqn:E; try done.
  - destruct (c_lost s || c_cancelled s || c_ended s) eqn:B; eexists.
    + by apply act_lead, (ca_reload_ok _ _ false).
    + by apply act_lead, ca_reload_failed.
  - eexists. by apply act_lead, ca_forced_fence.
  - pose proof (k_lead _ _ Hok) as Hl. rewrite E, F in Hl. naive_solver.
  - eexists. by apply act_lead, ca_release.
  - eexists. apply act_lead, (ca_tear_down _ _ forced true true true "" 0 0 true E). done.
  - eexists. by apply act_lead, ca_fence.
  - pose proof (k_lead _ _ Hok) as Hl. rewrite E, F in Hl. naive_solver.
  - eexists. by apply act_lead, ca_clear.
Qed.

Lemma end_progress s i p :
  cyc_ok self s -> c_enders s !! i = Some p -> p <> EReturned -> exists s', cyc_act self s s'.
Proof.
  intros Hok Hi Hp. pose proof (k_end _ _ Hok i p Hi) as Hk.
  destruct p; cbn in Hk; try done.
  - eexists. by apply act_end, (ca_end_leave _ i).
  - destruct (decide (inFlight (lk (c_lock s)) = 0%nat)); eexists.
    + by apply act_end, (ca_end_left _ i).
    + by apply act_end, (ca_end_left_late _ i).
  - destruct (registered (c_lead s)) eqn:R; eexists.
    + by apply act_end, (ca_end_registered _ i).
    + by apply act_end, (ca_end_unregistered _ i).
  - eexists. by apply act_end, (ca_end_stop _ i).
  - destruct Hk as [Hreg Hst]. destruct (reload_done (c_lead s)) eqn:R.
    + eexists. by apply act_end, (ca_end_reload _ i).
    + destruct (c_lead s) eqn:E; try done. eexists. apply act_lead, ca_reload_stop; [done|]. by rewrite Hst.
  - destruct (c_fencing s) as [o|] eqn:F; [eauto using fencing_progress|].
    eexists. by apply act_end, (ca_end_fence _ i).
  - eexists. apply act_end, (ca_end_fence_done _ i); [done|]. by apply (k_ender _ _ Hok).
  - destruct (decide (c_lead s = LDone)); [|eauto using lead_progress].
    eexists. by apply act_end, (ca_end_teardown _ i).
  - eexists. by apply act_end, (ca_end_cancel _ i).
Qed.

(** ** Properties of a leadership cycle *)

(** C4: no teardown runs while the reload loop may be applying: in every reachable
    state of a cycle, with any number of concurrent [endCycle] calls and observers,
    [fenceMu] is not held by a fence while the callback is between claiming the
    pending fence and the reload loop's return. *)
Theorem fence_excludes_reload s :
  cyc_reachable self s -> c_lead s = LClaimed \/ c_lead s = LRunning ->
  c_fencing s = None /\ c_pending s = false /\ c_fenced s = false.
Proof.
  intros Hok%cyc_reachable_ok Hl. split_and!.
  - apply (k_run _ _ Hok); destruct Hl as [-> | ->]; done.
  - apply (k_pend _ _ Hok). by destruct Hl as [-> | ->].
  - apply (k_fresh _ _ Hok). by destruct Hl as [-> | ->].
Qed.

(** What may be left programmed once the cycle's own fence is behind it. *)
Lemma unfenced_kept s :
  cyc_ok self s -> c_fenced s = true -> fence_free s -> c_unfenced s = true ->
  c_pending s = true \/ c_fencing s = Some ByObserver.
Proof.
  intros Hok Hf Hff Hu. destruct (k_unf _ _ Hok Hu) as [?|[?|[? _]]]; [by left| |congruence].
  destruct Hff; [congruence|by right].
Qed.

(** A cycle the election was left without acquiring has started no callback, so its
    planes are an earlier cycle's. *)
Lemma unacquired_kept s :
  cyc_ok self s -> is_acquired s = false -> c_unfenced s = true ->
  c_pending s = true \/ c_fencing s = Some ByObserver.
Proof.
  intros Hok Ha Hu.
  assert (Hn : c_lead s = LNone).
  { destruct (decide (c_lead s = LNone)) as [|H]; [done|]. pose proof (k_acq _ _ Hok H). congruence. }
  destruct (k_unf _ _ Hok Hu) as [?|[Hf|[_ ?]]]; [by left| |done].
  right. destruct (c_fencing s) as [[|i|]|] eqn:F; try done; exfalso.
  - pose proof (proj1 (k_lead _ _ Hok) F) as Ho. by rewrite Hn in Ho.
  - pose proof (k_end _ _ Hok i _ (proj1 (k_ender _ _ Hok i) F)) as Hd. cbn in Hd. by rewrite Hn in Hd.
Qed.

(** C26: a cycle's data plane is torn down at most once, and a voluntary release
    does not precede it. Whenever the elector's context has been cancelled and
    neither of [endCycle]'s two bounded waits (for the acquisition write, for the
    callback to register its reload loop) ran out, anything an apply may still have
    left programmed is a kept data plane, owned by the pending fence or being torn
    down by it at that moment. When a wait did run out the release may come first;
    the late cycle is then fenced after it: in every reachable state, with late
    waits or without, the same holds once the lead callback has returned. *)
Theorem release_after_fence s :
  cyc_reachable self s ->
  (c_fences s <= 1)%nat /\
  (c_cancelled s = true -> c_late s = false -> c_unfenced s = true ->
   c_pending s = true \/ c_fencing s = Some ByObserver) /\
  (c_lead s = LDone -> c_unfenced s = true ->
   c_pending s = true \/ c_fencing s = Some ByObserver).
Proof.
  intros Hok%cyc_reachable_ok. split_and!.
  - pose proof (k_fences _ _ Hok). destruct (c_fenced s); lia.
  - intros Hc Hl Hu. destruct (k_cancel _ _ Hok Hc) as [?|[(Ha & _)|(Hf & _ & Hff)]];
      [congruence|by apply unacquired_kept|by apply unfenced_kept].
  - intros Hd Hu. apply unfenced_kept; try done.
    + apply (k_past _ _ Hok). by rewrite Hd.
    + apply (k_done _ _ Hok). by rewrite Hd.
Qed.

(** C35: ending a cycle terminates: left to its own goroutines, every run of the
    cycle is finite, and where it stops every [endCycle] call has returned, so the
    waits for the reload loop, for [fenceMu] and for the callback's teardown never
    deadlock. *)
Theorem end_cycle_terminates s :
  cyc_reachable self s ->
  Acc (fun s2 s1 => cyc_act self s1 s2) s /\
  forall s', rtc (cyc_act self) s s' -> (forall s'', ~ cyc_act self s' s'') ->
    forall i p, c_enders s' !! i = Some p -> p = EReturned.
Proof.
  intros Hok%cyc_reachable_ok. split.
  - clear Hok. remember (cyc_measure s) as n eqn:Hn. revert s Hn.
    induction n as [n IH] using lt_wf_ind. intros s ->. constructor. intros s' Hs.
    apply (IH (cyc_measure s')); [by apply cyc_act_measure|done].
  - intros s' Hr Hstuck i p Hi.
    assert (Hok' : cyc_ok self s').
    { clear Hstuck Hi. induction Hr as [|a b c Hab _ IH]; [done|]. apply IH.
      exact (cyc_step_ok self a b (or_introl Hab) Hok). }
    destruct (decide (p = EReturned)) as [|Hp]; [done|].
    destruct (end_progress s' i p Hok' Hi Hp) as [s'' Hs]. by destruct (Hstuck s'').
Qed.
End Ending.

(** A cycle that acquires the Lease and starts its reload loop. *)
Definition acquired_lock : lockst := mkLockst (mkAcquisitionLock true false 1) [mkWrite "me" true true].

Lemma sample_cycle : cyc_reachable "me" (lead (set_unfenced true (set_lead LClaimed
  (claimPendingFence (set_lock acquired_lock (set_lock (mkLockst (mkAcquisitionLock false false 1)
    [mkWrite "me" true false]) (cyc_init false))))))).
Proof.
  exists false.
  eapply rtc_l; [right; apply ce_lock, (lst_begin "me" newAcquisitionLock [] "me"); reflexivity|].
  eapply rtc_l; [right; apply ce_lock, (lst_return "me" _ [] [] "me" true false)|].
  eapply rtc_l; [left; apply act_lead, ca_claim; reflexivity|].
  eapply rtc_l; [left; apply act_lead, ca_register; reflexivity|]. apply rtc_refl.
Qed.

Lemma fence_excludes_reload_witness :
  c_fencing (lead (set_unfenced true (set_lead LClaimed (claimPendingFence (set_lock acquired_lock
    (set_lock (mkLockst (mkAcquisitionLock false false 1) [mkWrite "me" true false])
      (cyc_init false))))))) = None.
Proof. apply (fence_excludes_reload "me" _ sample_cycle). right. reflexivity. Defined.

Lemma release_after_fence_witness :
  (c_fences (lead (set_unfenced true (set_lead LClaimed (claimPendingFence (set_lock acquired_lock
    (set_lock (mkLockst (mkAcquisitionLock false false 1) [mkWrite "me" true false])
      (cyc_init false))))))) <= 1)%nat.
Proof. apply (release_after_fence "me" _ sample_cycle). Defined.

Lemma end_cycle_terminates_witness :
  Acc (fun s2 s1 => cyc_act "me" s1 s2) (lead (set_unfenced true (set_lead LClaimed
    (claimPendingFence (set_lock acquired_lock (set_lock (mkLockst (mkAcquisitionLock false false 1)
      [mkWrite "me" true false]) (cyc_init false))))))).
Proof. apply (end_cycle_terminates "me" _ sample_cycle). Defined.
