(* ===== verification/Render.v ===== *)
(** * Rendering: internal/link/render.go and its templates

    [RenderWGConf] and [RenderNftables] as the text the templates produce. A
    template action with a leading dash trims the newline before it, so every
    [range] or [if] of the nftables templates contributes whole lines; the
    documents are modelled as lists of lines.

    The theorems: the ruleset does not depend on the order forwards were resolved
    in, the mark masks written and preserved are exact complements, rendering a
    valid config never fails, and every slot carries a DNAT and an accept line for
    every forward. *)

From S2P Require Import Prelude GoStrings Identity Config Endpoints.

Definition nl : string := String "010"%char "".
Definition tab : string := String "009"%char "".

(** A document: each line followed by a newline. *)
Definition unlines (ls : list string) : string := foldr (fun l acc => l +:+ nl +:+ acc) "" ls.

Definition clusterInterface : string := "wg0".
Definition clusterNftTable : string := "gateway".

(** ** wgconf.tmpl *)
Record wgConfPeerData := mkWgConfPeerData {
  wp_PublicKey : string;
  wp_Endpoint : string;
  wp_AllowedIPs : string;
  wp_PersistentKeepalive : Z
}.

Definition wg_peer_data (p : Peer) : wgConfPeerData :=
  mkWgConfPeerData (PublicKey p) (Config.Endpoint p) (Join (AllowedIPs p) ", ") (PersistentKeepalive p).

Definition wg_peer_lines (p : wgConfPeerData) : list string :=
  [""; "[Peer]";
   "PublicKey = " +:+ wp_PublicKey p;
   "Endpoint = " +:+ wp_Endpoint p;
   "AllowedIPs = " +:+ wp_AllowedIPs p;
   "PersistentKeepalive = " +:+ Itoa (wp_PersistentKeepalive p)].

Definition RenderWGConf (rc : RuntimeConfig) (privKey : string) : string :=
  let peers := wg_peer_data <$> Peers (rc_WireGuard rc) in
  unlines (["[Interface]"; "PrivateKey = " +:+ privKey] ++
    (if 0 <? ListenPort (rc_WireGuard rc)
     then ["ListenPort = " +:+ Itoa (ListenPort (rc_WireGuard rc))] else []) ++
    (peers ≫= wg_peer_lines)).

(** ** Masks *)

(** [strconv.ParseUint(s, 0, 32)] followed by the complement. *)
Definition keepMask (markMask : string) : result num_error string :=
  v <-! ParseUint0 markMask 32 ;;
  Ok ("0x" +:+ fmt_08x (2 ^ 32 - 1 - v)).

(** ** The forward order *)
Definition forward_sort_le (a b : ResolvedForward) : Prop :=
  rf_PublicPort a < rf_PublicPort b \/
  (rf_PublicPort a = rf_PublicPort b /\ String.le (rf_Protocol a) (rf_Protocol b)).
#[global] Instance forward_sort_le_dec : RelDecision forward_sort_le.
Proof. intros a b. unfold forward_sort_le. apply _. Defined.

Definition sort_forwards (fs : list ResolvedForward) : list ResolvedForward :=
  merge_sort forward_sort_le fs.

(** ** nftables_cluster.tmpl *)
Record nftablesData := mkNftablesData {
  nd_Interface : string;
  nd_Table : string;
  nd_HealthPort : Z;
  nd_ResponderTarget : string;
  nd_ResponderPort : Z;
  nd_Forwards : list ResolvedForward
}.

Definition ind2 (s : string) : string := tab +:+ tab +:+ s.
Definition dnat_to (target : string) (port : Z) : string :=
  "dnat ip to " +:+ target +:+ " : " +:+ Itoa port.
Definition when {A} (b : bool) (l : list A) : list A := if b then l else [].
Definition nonempty (s : string) : bool := negb (bool_decide (s = "")).

Definition table_head (table : string) : list string :=
  ["add table inet " +:+ table; "flush table inet " +:+ table; "table inet " +:+ table +:+ " {"].
Definition chain (name hook : string) (body : list string) : list string :=
  [tab +:+ "chain " +:+ name +:+ " {"; ind2 hook] ++ body ++ [tab +:+ "}"].

Definition cluster_lines (d : nftablesData) : list string :=
  let i := quoted (nd_Interface d) in
  let health := nonempty (nd_ResponderTarget d) in
  table_head (nd_Table d) ++
  chain "prerouting" "type nat hook prerouting priority dstnat; policy accept;"
    (((fun f => ind2 ("iif " +:+ i +:+ " " +:+ rf_Protocol f +:+ " dport " +:+ Itoa (rf_PublicPort f)
        +:+ " " +:+ dnat_to (rf_Target f) (rf_TargetPort f))) <$> nd_Forwards d) ++
     when health [ind2 ("iif " +:+ i +:+ " tcp dport " +:+ Itoa (nd_HealthPort d) +:+ " "
        +:+ dnat_to (nd_ResponderTarget d) (nd_ResponderPort d))]) ++
  [""] ++
  chain "postrouting" "type nat hook postrouting priority srcnat; policy accept;"
    [ind2 ("oifname != " +:+ i +:+ " masquerade")] ++
  [""] ++
  chain "forward" "type filter hook forward priority filter; policy drop;"
    ([ind2 ("oifname " +:+ i +:+ " tcp flags syn tcp option maxseg size set rt mtu");
      ind2 "ct state established,related accept"] ++
     ((fun f => ind2 ("iif " +:+ i +:+ " ip daddr " +:+ rf_Target f +:+ " " +:+ rf_Protocol f
        +:+ " dport " +:+ Itoa (rf_TargetPort f) +:+ " accept")) <$> nd_Forwards d) ++
     when health [ind2 ("iif " +:+ i +:+ " ip daddr " +:+ nd_ResponderTarget d +:+ " tcp dport "
        +:+ Itoa (nd_ResponderPort d) +:+ " accept")]) ++
  [""] ++
  chain "input" "type filter hook input priority filter; policy accept;"
    [ind2 ("iif " +:+ i +:+ " drop")] ++
  ["}"].

(** ** nftables_local.tmpl *)
Record localSlotData := mkLocalSlotData {
  ls_Interface : string;
  ls_Mark : string;
  ls_MarkMask : string;
  ls_KeepMask : string
}.

Record nftablesLocalData := mkNftablesLocalData {
  ld_Table : string;
  ld_HealthPort : Z;
  ld_ResponderIP : string;
  ld_ResponderPort : Z;
  ld_PublicAddress : string;
  ld_Slots : list localSlotData;
  ld_Forwards : list ResolvedForward
}.

Definition slot_dnat (s : localSlotData) (f : ResolvedForward) : string :=
  ind2 ("iifname " +:+ quoted (ls_Interface s) +:+ " " +:+ rf_Protocol f +:+ " dport "
    +:+ Itoa (rf_PublicPort f) +:+ " counter " +:+ dnat_to (rf_Target f) (rf_TargetPort f)).
Definition slot_accept (s : localSlotData) (f : ResolvedForward) : string :=
  ind2 ("iifname " +:+ quoted (ls_Interface s) +:+ " ip daddr " +:+ rf_Target f +:+ " "
    +:+ rf_Protocol f +:+ " dport " +:+ Itoa (rf_TargetPort f) +:+ " ct state new counter accept").
Definition hairpin_dnat (address : string) (f : ResolvedForward) : string :=
  ind2 ("ip daddr " +:+ address +:+ " " +:+ rf_Protocol f +:+ " dport "
    +:+ Itoa (rf_PublicPort f) +:+ " counter " +:+ dnat_to (rf_Target f) (rf_TargetPort f)).

Definition premark_lines (s : localSlotData) : list string :=
  [ind2 ("iifname " +:+ quoted (ls_Interface s) +:+ " ct state new counter ct mark set ct mark and "
     +:+ ls_KeepMask s +:+ " or " +:+ ls_Mark s);
   ind2 ("ct direction reply ct mark and " +:+ ls_MarkMask s +:+ " == " +:+ ls_Mark s
     +:+ " counter meta mark set meta mark and " +:+ ls_KeepMask s +:+ " or " +:+ ls_Mark s)].

Definition local_prerouting_lines (d : nftablesLocalData) (s : localSlotData) : list string :=
  when (nonempty (ld_ResponderIP d))
    [ind2 ("iifname " +:+ quoted (ls_Interface s) +:+ " tcp dport " +:+ Itoa (ld_HealthPort d)
       +:+ " counter " +:+ dnat_to (ld_ResponderIP d) (ld_ResponderPort d))] ++
  (slot_dnat s <$> ld_Forwards d).

Definition local_forward_lines (d : nftablesLocalData) (s : localSlotData) : list string :=
  let i := quoted (ls_Interface s) in
  [ind2 ("oifname " +:+ i +:+ " tcp flags syn counter tcp option maxseg size set rt mtu");
   ind2 ("iifname " +:+ i +:+ " ct state established,related counter accept")] ++
  when (nonempty (ld_ResponderIP d))
    [ind2 ("iifname " +:+ i +:+ " ip daddr " +:+ ld_ResponderIP d +:+ " tcp dport "
       +:+ Itoa (ld_ResponderPort d) +:+ " ct state new counter accept")] ++
  (slot_accept s <$> ld_Forwards d) ++
  [ind2 ("iifname " +:+ i +:+ " counter drop");
   ind2 ("oifname " +:+ i +:+ " ct state established,related counter accept");
   ind2 ("oifname " +:+ i +:+ " counter drop")].

Definition hairpin_chains (d : nftablesLocalData) : list string :=
  [""] ++
  chain "output" "type nat hook output priority -100; policy accept;"
    (hairpin_dnat (ld_PublicAddress d) <$> ld_Forwards d) ++
  [""] ++
  chain "postrouting" "type nat hook postrouting priority srcnat; policy accept;"
    ((fun f => ind2 ("ip saddr " +:+ rf_Target f +:+ " ip daddr " +:+ rf_Target f +:+ " "
        +:+ rf_Protocol f +:+ " dport " +:+ Itoa (rf_TargetPort f) +:+ " counter masquerade"))
     <$> ld_Forwards d).

Definition local_lines (d : nftablesLocalData) : list string :=
  let hairpin := nonempty (ld_PublicAddress d) in
  table_head (ld_Table d) ++
  chain "premark" "type filter hook prerouting priority mangle; policy accept;"
    (ld_Slots d ≫= premark_lines) ++
  [""] ++
  chain "prerouting" "type nat hook prerouting priority dstnat; policy accept;"
    ((ld_Slots d ≫= local_prerouting_lines d) ++
     when hairpin (hairpin_dnat (ld_PublicAddress d) <$> ld_Forwards d)) ++
  when hairpin (hairpin_chains d) ++
  [""] ++
  chain "forward" "type filter hook forward priority filter; policy accept;"
    (ld_Slots d ≫= local_forward_lines d) ++
  [""] ++
  chain "input" "type filter hook input priority filter; policy accept;"
    ((fun s => ind2 ("iifname " +:+ quoted (ls_Interface s) +:+ " counter drop")) <$> ld_Slots d) ++
  ["}"].

(** ** RenderNftables *)
Definition local_slot_data (gatewayID : Z) (p : Peer) : result num_error localSlotData :=
  let id := NewSlotIdentity gatewayID (Slot p) in
  keep <-! keepMask (MarkMask id) ;;
  Ok (mkLocalSlotData (Interface id) (Mark id) (MarkMask id) keep).

Fixpoint local_slots (gatewayID : Z) (ps : list Peer) : result num_error (list localSlotData) :=
  match ps with
  | [] => Ok []
  | p :: ps => s <-! local_slot_data gatewayID p ;;
               rest <-! local_slots gatewayID ps ;; Ok (s :: rest)
  end.

Definition local_data (rc : RuntimeConfig) (id : GatewayIdentity) (slots : list localSlotData)
    (sorted : list ResolvedForward) (nodeName : string) : nftablesLocalData :=
  mkNftablesLocalData (gi_NftTable id) (HealthPort rc) (map_get "" (Responders rc) nodeName)
    (ResponderPort rc) (PublicAddress rc) slots sorted.

Definition cluster_data (rc : RuntimeConfig) (sorted : list ResolvedForward) : nftablesData :=
  mkNftablesData clusterInterface clusterNftTable (HealthPort rc)
    (if 0 <? HealthPort rc then ResponderTarget rc else "") (ResponderPort rc) sorted.

Definition nft_lines (rc : RuntimeConfig) (forwards : list ResolvedForward) (nodeName : string)
  : result num_error (list string) :=
  let sorted := sort_forwards forwards in
  match rc_Identity rc with
  | Some id =>
      slots <-! local_slots (gi_ID id) (Peers (rc_WireGuard rc)) ;;
      Ok (local_lines (local_data rc id slots sorted nodeName))
  | None => Ok (cluster_lines (cluster_data rc sorted))
  end.

Definition RenderNftables (rc : RuntimeConfig) (forwards : list ResolvedForward)
    (nodeName : string) : result num_error string :=
  ls <-! nft_lines rc forwards nodeName ;; Ok (unlines ls).

(** ** Order independence *)
#[global] Instance forward_sort_le_trans : Transitive forward_sort_le.
Proof.
  intros a b c. unfold forward_sort_le. intros [H1|[E1 L1]] [H2|[E2 L2]]; [left; lia..|].
  right. split; [lia|]. by transitivity (rf_Protocol b).
Qed.

#[global] Instance forward_sort_le_total : Total forward_sort_le.
Proof.
  intros a b. unfold forward_sort_le.
  destruct (Z.lt_total (rf_PublicPort a) (rf_PublicPort b)) as [?|[?|?]]; [auto| |auto].
  destruct (total String.le (rf_Protocol a) (rf_Protocol b)); auto.
Qed.

Definition rf_key (f : ResolvedForward) : Z * string := (rf_PublicPort f, rf_Protocol f).

Lemma forward_sort_le_key a b :
  forward_sort_le a b -> forward_sort_le b a -> rf_key a = rf_key b.
Proof.
  unfold forward_sort_le, rf_key. intros [H1|[E1 L1]] [H2|[E2 L2]]; try lia.
  f_equal; [done|]. by apply (anti_symm String.le).
Qed.

Lemma NoDup_fmap_elem {A B} (f : A -> B) l x y :
  NoDup (f <$> l) -> x ∈ l -> y ∈ l -> f x = f y -> x = y.
Proof.
  intros Hnd Hx Hy Heq.
  apply list_elem_of_lookup in Hx as [i Hi], Hy as [j Hj].
  assert (i = j); [|congruence].
  eapply (NoDup_lookup (f <$> l)); [done| |]; rewrite list_lookup_fmap, ?Hi, ?Hj; cbn; by f_equal.
Qed.

(** Forwards unique per (port, protocol) sort to one list, whatever order they were
    resolved in, so the unstable [slices.SortFunc] is deterministic on them. *)
Lemma sort_forwards_canonical fs gs :
  NoDup (rf_key <$> fs) -> fs ≡ₚ gs -> sort_forwards fs = sort_forwards gs.
Proof.
  intros Hnd Hp. unfold sort_forwards.
  assert (Hin : forall x, x ∈ merge_sort forward_sort_le fs -> x ∈ fs)
    by (intros x; by rewrite elem_of_merge_sort).
  apply (StronglySorted_unique_strong forward_sort_le);
    [|by apply StronglySorted_merge_sort; apply _..|by rewrite !merge_sort_Permutation].
  intros x y Hx Hy H1 H2. apply (NoDup_fmap_elem rf_key fs); try done.
  - by apply Hin.
  - rewrite Hp. by rewrite elem_of_merge_sort in Hy by apply _.
  - by apply forward_sort_le_key.
Qed.

(** ** What a rendered Local ruleset contains *)
Lemma keepMask_markMask : keepMask markMask = Ok "0x0000ffff".
Proof. vm_compute. reflexivity. Qed.

(** One slot's render input. *)
Definition slot_data (gatewayID slot : Z) : localSlotData :=
  let id := NewSlotIdentity gatewayID slot in
  mkLocalSlotData (Interface id) (Mark id) markMask "0x0000ffff".

Lemma local_slots_eq id ps : local_slots id ps = Ok ((fun p => slot_data id (Slot p)) <$> ps).
Proof.
  induction ps as [|p ps IH]; [done|]. cbn [local_slots]. unfold local_slot_data.
  change (MarkMask (NewSlotIdentity id (Slot p))) with markMask.
  rewrite keepMask_markMask, IH. done.
Qed.

Lemma nft_lines_local rc id fs node :
  rc_Identity rc = Some id ->
  nft_lines rc fs node = Ok (local_lines (local_data rc id
    ((fun p => slot_data (gi_ID id) (Slot p)) <$> Peers (rc_WireGuard rc)) (sort_forwards fs) node)).
Proof. intros H. unfold nft_lines. by rewrite H, local_slots_eq. Qed.

(** A line of a base chain of the document. *)
Definition in_chain (name hook l : string) (ls : list string) : Prop :=
  exists pre body post, ls = pre ++ chain name hook body ++ post /\ l ∈ body.

(** Where a line of a slot's blocks ends up in the document. *)
Lemma local_lines_premark d l :
  l ∈ (ld_Slots d ≫= premark_lines) ->
  in_chain "premark" "type filter hook prerouting priority mangle; policy accept;" l (local_lines d).
Proof. intros H. eexists (table_head _), _, _. split; [reflexivity|done]. Qed.

Lemma local_lines_prerouting d l :
  l ∈ (ld_Slots d ≫= local_prerouting_lines d) ->
  in_chain "prerouting" "type nat hook prerouting priority dstnat; policy accept;" l (local_lines d).
Proof.
  intros H. unfold local_lines.
  eexists (table_head _ ++ chain "premark" _ _ ++ [""]), _, _.
  split; [by rewrite <- !(assoc_L app)|]. apply elem_of_app. by left.
Qed.

Lemma local_lines_forward d l :
  l ∈ (ld_Slots d ≫= local_forward_lines d) ->
  in_chain "forward" "type filter hook forward priority filter; policy accept;" l (local_lines d).
Proof.
  intros H. unfold local_lines.
  eexists (table_head _ ++ chain "premark" _ _ ++ [""] ++ chain "prerouting" _ _ ++ when _ _ ++ [""]), _, _.
  split; [by rewrite <- !(assoc_L app)|done].
Qed.

(** ** Properties *)

(** rendering is total and deterministic: on forwards unique per public port
    and protocol, any two orders of resolution give byte-identical rulesets, in
    either mode, so an unchanged forward set never changes the ruleset's digest. *)
Theorem RenderNftables_deterministic rc fs gs node :
  NoDup (rf_key <$> fs) -> fs ≡ₚ gs ->
  RenderNftables rc fs node = RenderNftables rc gs node /\
  is_ok (RenderNftables rc fs node) = true.
Proof.
  intros Hnd Hp. unfold RenderNftables, nft_lines.
  rewrite (sort_forwards_canonical fs gs) by done. split; [done|].
  destruct (rc_Identity rc); [|done]. by rewrite local_slots_eq.
Qed.

Definition sample_rf (port : Z) : ResolvedForward := mkResolvedForward "web" port "tcp" "10.0.0.9" 8080.

Lemma RenderNftables_deterministic_witness :
  RenderNftables (sample_local [] [sample_peer 3]) [sample_rf 443; sample_rf 80] "n1" =
  RenderNftables (sample_local [] [sample_peer 3]) [sample_rf 80; sample_rf 443] "n1".
Proof.
  apply RenderNftables_deterministic; [|apply perm_swap].
  apply (bool_decide_unpack _). vm_compute. exact I.
Defined.

(** C28: a rendered Local ruleset serves every forward on every slot and keeps the slots'
    marks apart. For each peer of the config, with its slot's interface and mark, and
    each resolved forward, the document's premark chain sets the slot's mark on new
    connections from that interface and restores it on their replies, in both cases
    within the upper half of the mark and keeping the lower one; its prerouting chain
    translates the forward's public port on that interface to the forward's target; and
    its forward chain accepts the translated connection. *)
Theorem local_ruleset_complete rc id fs node p f :
  rc_Identity rc = Some id -> p ∈ Peers (rc_WireGuard rc) -> f ∈ fs ->
  let sid := NewSlotIdentity (gi_ID id) (Slot p) in
  let i := quoted (Interface sid) in
  exists ls, RenderNftables rc fs node = Ok (unlines ls) /\
    in_chain "premark" "type filter hook prerouting priority mangle; policy accept;"
      (ind2 ("iifname " +:+ i +:+ " ct state new counter ct mark set ct mark and 0x0000ffff or " +:+ Mark sid)) ls /\
    in_chain "premark" "type filter hook prerouting priority mangle; policy accept;"
      (ind2 ("ct direction reply ct mark and 0xffff0000 == " +:+ Mark sid
         +:+ " counter meta mark set meta mark and 0x0000ffff or " +:+ Mark sid)) ls /\
    in_chain "prerouting" "type nat hook prerouting priority dstnat; policy accept;"
      (ind2 ("iifname " +:+ i +:+ " " +:+ rf_Protocol f +:+ " dport " +:+ Itoa (rf_PublicPort f)
         +:+ " counter dnat ip to " +:+ rf_Target f +:+ " : " +:+ Itoa (rf_TargetPort f))) ls /\
    in_chain "forward" "type filter hook forward priority filter; policy accept;"
      (ind2 ("iifname " +:+ i +:+ " ip daddr " +:+ rf_Target f +:+ " " +:+ rf_Protocol f +:+ " dport "
         +:+ Itoa (rf_TargetPort f) +:+ " ct state new counter accept")) ls.
Proof.
  intros Hid Hp Hf sid i. unfold RenderNftables. rewrite (nft_lines_local rc id fs node Hid). cbn [res_bind].
  eexists. split; [reflexivity|]. set (s := slot_data (gi_ID id) (Slot p)).
  assert (Hs : s ∈ (fun p => slot_data (gi_ID id) (Slot p)) <$> Peers (rc_WireGuard rc))
    by (by apply (list_elem_of_fmap_2 (fun p => slot_data (gi_ID id) (Slot p)))).
  assert (Hf' : f ∈ sort_forwards fs) by (by apply elem_of_merge_sort).
  assert (Hpre : forall l, l ∈ premark_lines s -> l ∈ ((fun p => slot_data (gi_ID id) (Slot p)) <$>
      Peers (rc_WireGuard rc)) ≫= premark_lines) by (intros l Hl; apply list_elem_of_bind; eauto).
  split_and!.
  - apply local_lines_premark, Hpre. by left.
  - apply local_lines_premark, Hpre. right. by left.
  - apply local_lines_prerouting, list_elem_of_bind. exists s. split; [|exact Hs].
    unfold local_prerouting_lines. rewrite elem_of_app. right.
    change (slot_dnat s f ∈ slot_dnat s <$> sort_forwards fs). by apply list_elem_of_fmap_2.
  - apply local_lines_forward, list_elem_of_bind. exists s. split; [|exact Hs].
    unfold local_forward_lines. rewrite !elem_of_app. do 2 right. left.
    change (slot_accept s f ∈ slot_accept s <$> sort_forwards fs). by apply list_elem_of_fmap_2.
Qed.

Lemma local_ruleset_complete_witness :
  exists ls, RenderNftables (sample_local [] [sample_peer 3]) [sample_rf 80] "n1" = Ok (unlines ls) /\
    in_chain "prerouting" "type nat hook prerouting priority dstnat; policy accept;"
      (ind2 ("iifname " +:+ quoted "wg-gw5-3" +:+ " tcp dport 80 counter dnat ip to 10.0.0.9 : 8080")) ls.
Proof.
  destruct (local_ruleset_complete (sample_local [] [sample_peer 3]) (NewGatewayIdentity 5)
    [sample_rf 80] "n1" (sample_peer 3) (sample_rf 80)) as (ls & Hl & _ & _ & Hd & _);
    [reflexivity|set_solver|set_solver|]. exists ls. split; [exact Hl|exact Hd].
Defined.
