(* ===== verification/Apply.v ===== *)
(** * Applying a configuration: internal/link/apply.go

    The command plans of the data plane and their execution. A [command] is a
    process or a file write; running one, and the temporary files the WireGuard
    configs are written to, are operations [sysops] over an abstract world [W].
    Errors are their text, because the code classifies them by text. Logging is
    left out, the latch that silences repeated warnings is kept.

    The theorems: one slot's failure never affects another's outcome and every
    configured slot is attempted; a failed final ruleset admits no slot; the
    temporary key files are always removed; conntrack deletions select exactly the
    flows whose tuple disappeared; drifted sysctls converge. *)

From S2P Require Import Prelude GoStrings GoNet Identity Config Endpoints Render.

Definition HostProcSysNetPath : string := "/host/proc/sys/net".
Definition existsMarker : string := "File exists".
Definition absentMarker : string := "does not exist".
Definition noFlowsMarker : string := "0 flow entries have been deleted".
Definition rulePriority : string := "10000".

Record command := mkCommand {
  name : string;
  args : list string;
  stdin : string;
  writePath : string;
  writeValue : string;
  tolerateExists : bool;
  tolerateNoFlows : bool
}.

#[global] Instance command_eq_dec : EqDecision command.
Proof. solve_decision. Defined.

Definition exec (n : string) (a : list string) : command := mkCommand n a "" "" "" false false.

Definition nftTableName (rc : RuntimeConfig) : string :=
  match rc_Identity rc with Some id => gi_NftTable id | None => clusterNftTable end.

(** ** Plans *)
Record slotPlan := mkSlotPlan { sp_Slot : Z; sp_Cmds : list command }.

Record slotSysctl := mkSlotSysctl { key : string; value : Z }.
Definition slotSysctls : list slotSysctl :=
  [mkSlotSysctl "rp_filter" 0; mkSlotSysctl "forwarding" 1].

Definition slotSysctlPath (iface key : string) : string :=
  HostProcSysNetPath +:+ "/ipv4/conf/" +:+ iface +:+ "/" +:+ key.

Definition slotSysctlCommand (iface : string) (s : slotSysctl) : command :=
  mkCommand "" [] "" (slotSysctlPath iface (key s)) (Itoa (value s)) false false.

Definition localThrowTargets (fs : list ResolvedForward) : list string :=
  sorted_strings (list_to_set (filter (fun t => t <> "") (rf_Target <$> fs))).

Definition localRouteCommands (id : SlotIdentity) (targets : list string) : list command :=
  let table := Itoa (RouteTable id) in
  let fwmark := Mark id +:+ "/" +:+ MarkMask id in
  [exec "ip" ["route"; "replace"; "default"; "dev"; Interface id; "table"; table];
   exec "ip" ["route"; "flush"; "table"; table; "type"; "throw"]] ++
  ((fun t => exec "ip" ["route"; "replace"; "throw"; t +:+ "/32"; "table"; table]) <$> targets) ++
  [mkCommand "ip" ["rule"; "add"; "fwmark"; fwmark; "lookup"; table; "priority"; rulePriority]
     "" "" "" true false].

Record RouteStep := mkRouteStep { rs_Args : list string; rs_TolerateExists : bool }.
Definition LocalRouteCommands (id : SlotIdentity) (targets : list string) : list RouteStep :=
  (fun c => mkRouteStep (args c) (tolerateExists c)) <$> localRouteCommands id targets.

Definition linkSetFor (rc : RuntimeConfig) (iface : string) : list string :=
  ["link"; "set"; iface] ++
  (if 0 <? MTU (rc_WireGuard rc) then ["mtu"; Itoa (MTU (rc_WireGuard rc))] else []) ++ ["up"].

(** The steps both modes run on an interface. *)
Definition ifaceCommands (rc : RuntimeConfig) (iface confPath : string) (present : bool)
  : list command :=
  (if present then [] else [exec "ip" ["link"; "add"; iface; "type"; "wireguard"]]) ++
  [exec "wg" ["syncconf"; iface; confPath];
   exec "ip" ["addr"; "replace"; Address (rc_WireGuard rc); "dev"; iface];
   exec "ip" (linkSetFor rc iface)].

Definition localSlotPlan (rc : RuntimeConfig) (gid : Z) (paths : gmap Z string)
    (exists_ : gmap Z bool) (targets : list string) (p : Peer) : slotPlan :=
  let id := NewSlotIdentity gid (Slot p) in
  mkSlotPlan (Slot p)
    (ifaceCommands rc (Interface id) (default "" (paths !! Slot p))
       (default false (exists_ !! Slot p)) ++
     (slotSysctlCommand (Interface id) <$> slotSysctls) ++
     localRouteCommands id targets).

Definition buildApplyCommands (rc : RuntimeConfig) (paths : gmap Z string) (nftRuleset : string)
    (exists_ : gmap Z bool) (localForwards : list ResolvedForward) : list slotPlan * command :=
  let final := mkCommand "nft" ["-f"; "-"] nftRuleset "" "" false false in
  match rc_Identity rc with
  | None => ([mkSlotPlan 0 (ifaceCommands rc clusterInterface (default "" (paths !! 0))
                              (default false (exists_ !! 0)))], final)
  | Some id =>
      let targets := localThrowTargets localForwards in
      (localSlotPlan rc (gi_ID id) paths exists_ targets <$> Peers (rc_WireGuard rc), final)
  end.

(** ** Conntrack *)
Definition ConntrackFlushArgs (f : ResolvedForward) : list string :=
  ["-D"; "-p"; rf_Protocol f; "--orig-port-dst"; Itoa (rf_PublicPort f);
   "--reply-src"; rf_Target f; "--reply-port-src"; Itoa (rf_TargetPort f)].

Abbreviation forwardTuple := (string * Z * string * Z)%type.
Definition tupleOf (f : ResolvedForward) : forwardTuple :=
  (rf_Protocol f, rf_PublicPort f, rf_Target f, rf_TargetPort f).

Definition conntrack (a : list string) : command := mkCommand "conntrack" a "" "" "" false true.

(** The loop over [previous] with its [seen] set. *)
Fixpoint stale_forwards (present seen : gset forwardTuple) (previous : list ResolvedForward)
  : list ResolvedForward :=
  match previous with
  | [] => []
  | p :: ps =>
      if bool_decide (tupleOf p ∈ present) then stale_forwards present seen ps
      else if bool_decide (tupleOf p ∈ seen) then stale_forwards present seen ps
      else p :: stale_forwards present ({[tupleOf p]} ∪ seen) ps
  end.

Definition conntrackFlushCommands (previous current : list ResolvedForward) : list command :=
  (fun p => conntrack (ConntrackFlushArgs p)) <$>
  stale_forwards (list_to_set (tupleOf <$> current)) ∅ previous.

Definition hairpinArgs (address : string) (f : ResolvedForward) : list string :=
  ["-D"; "-p"; rf_Protocol f; "--orig-dst"; address; "--orig-port-dst"; Itoa (rf_PublicPort f)].

Definition hairpinConntrackCommands (address previousAddress : string)
    (previous current : list ResolvedForward) : list command :=
  if bool_decide (address = "") then []
  else
    let installed : gset (string * Z) :=
      if bool_decide (address = previousAddress)
      then list_to_set ((fun f => (rf_Protocol f, rf_PublicPort f)) <$> previous) else ∅ in
    (fun f => conntrack (hairpinArgs address f)) <$>
    filter (fun f => (rf_Protocol f, rf_PublicPort f) ∉ installed) current.

(** ** The unanswered-probe latch: the new latch and whether a warning is logged. *)
Definition latch_warn (warned missing : bool) : bool * bool :=
  if negb missing then (false, false) else if warned then (true, false) else (true, true).

Definition warnUnansweredProbes (warned : bool) (rc : RuntimeConfig) (nodeName : string)
  : bool * bool :=
  if isLocal rc then latch_warn warned (bool_decide (Responders rc !! nodeName = None))
  else latch_warn warned ((0 <? HealthPort rc) && bool_decide (ResponderTarget rc = "")).

(** ** Running *)
Record SlotResult := mkSlotResult { sr_Slot : Z; sr_Applied : bool; sr_Err : option string }.

(** Running a command, and the operations on temporary files and names, over an
    abstract world. An error is its text. *)
Record sysops (W : Type) := mkSysops {
  os_run : W -> command -> W * option string;
  os_createTemp : W -> W * result string string;
  os_chmod : W -> string -> W * option string;
  os_writeString : W -> string -> string -> W * option string;
  os_close : W -> string -> W * option string;
  os_remove : W -> string -> W * option string;
  os_resolve : W -> string -> W * result string string
}.
Arguments os_run {W}. Arguments os_createTemp {W}. Arguments os_chmod {W}.
Arguments os_writeString {W}. Arguments os_close {W}. Arguments os_remove {W}.
Arguments os_resolve {W}.

(** [errors.Join]: [nil] for no error, else the texts on lines of their own. *)
Definition errors_join (errs : list string) : option string :=
  match errs with [] => None | _ => Some (Join errs nl) end.

Section Run.
Context {W : Type} (os : sysops W).

Definition runStep (w : W) (c : command) : W * option string :=
  let '(w, e) := os_run os w c in
  match e with
  | None => (w, None)
  | Some t =>
      if tolerateExists c && Contains t existsMarker then (w, None)
      else if tolerateNoFlows c && Contains t noFlowsMarker then (w, None)
      else (w, Some t)
  end.

(** The steps of a plan up to and including the first that fails. *)
Fixpoint runSteps (w : W) (cs : list command) : W * option string :=
  match cs with
  | [] => (w, None)
  | c :: cs => match runStep w c with
               | (w, None) => runSteps w cs
               | (w, Some e) => (w, Some e)
               end
  end.

Definition ifaceExists (w : W) (iface : string) : W * result string bool :=
  let '(w, e) := os_run os w (exec "ip" ["link"; "show"; iface]) in
  match e with
  | None => (w, Ok true)
  | Some t => if Contains t absentMarker then (w, Ok false)
              else (w, Err ("probe interface " +:+ iface +:+ ": " +:+ t))
  end.

Fixpoint resolveForwards (w : W) (fs : list Forward) : W * result string (list ResolvedForward) :=
  match fs with
  | [] => (w, Ok [])
  | f :: fs =>
      match os_resolve os w (Service f) with
      | (w, Err e) => (w, Err ("forward " +:+ quoted (Name f) +:+ ": resolve " +:+ Service f +:+ ": " +:+ e))
      | (w, Ok ip) =>
          match resolveForwards w fs with
          | (w, Err e) => (w, Err e)
          | (w, Ok rest) =>
              (w, Ok (mkResolvedForward (Name f) (PublicPort f) (Protocol f) ip (TargetPort f) :: rest))
          end
      end
  end.

(** *** Temporary config files *)

(** [cleanup]: every path is removed whatever happens to the others. *)
Fixpoint remove_all (w : W) (paths : list string) : W * list string :=
  match paths with
  | [] => (w, [])
  | p :: paths =>
      let '(w, e) := os_remove os w p in
      let '(w, errs) := remove_all w paths in
      (w, match e with None => errs | Some t => ("remove " +:+ p +:+ ": " +:+ t) :: errs end)
  end.
Definition cleanup (w : W) (paths : list string) (logFailures : bool) : W * option string :=
  let '(w, errs) := remove_all w paths in
  (w, if logFailures then None else errors_join errs).

(** [writeWGConf]: the path, the paths to clean up so far (the new file's included
    as soon as it exists) and the error. *)
Definition writeWGConf (w : W) (paths : list string) (text : string)
  : W * list string * result string string :=
  match os_createTemp os w with
  | (w, Err e) => (w, paths, Err ("create wg conf temp file: " +:+ e))
  | (w, Ok path) =>
      let paths := paths ++ [path] in
      match os_chmod os w path with
      | (w, Some e) => let '(w, _) := os_close os w path in
                       (w, paths, Err ("chmod wg conf " +:+ path +:+ ": " +:+ e))
      | (w, None) =>
          match os_writeString os w path text with
          | (w, Some e) => let '(w, _) := os_close os w path in
                           (w, paths, Err ("write wg conf " +:+ path +:+ ": " +:+ e))
          | (w, None) =>
              match os_close os w path with
              | (w, Some e) => (w, paths, Err ("close wg conf " +:+ path +:+ ": " +:+ e))
              | (w, None) => (w, paths, Ok path)
              end
          end
      end
  end.

Definition with_Peers (rc : RuntimeConfig) (ps : list Peer) : RuntimeConfig :=
  let g := rc_WireGuard rc in
  mkRuntimeConfig (TrafficPolicy rc) (rc_Identity rc) (HealthPort rc) (PodSelector rc)
    (Responders rc) (ResponderPort rc) (ResponderTarget rc) (PublicAddress rc)
    (mkWireGuard (Address g) (ListenPort g) (MTU g) ps) (Forwards rc).

(** One config per slot, in the peers' order; Cluster mode writes slot 0. *)
Fixpoint writeSlotConfs (w : W) (paths : list string) (m : gmap Z string)
    (confs : list (Z * string)) : W * list string * result string (gmap Z string) :=
  match confs with
  | [] => (w, paths, Ok m)
  | (slot, text) :: confs =>
      match writeWGConf w paths text with
      | (w, paths, Err e) => (w, paths, Err e)
      | (w, paths, Ok path) => writeSlotConfs w paths (<[slot := path]> m) confs
      end
  end.

Definition slot_confs (rc : RuntimeConfig) (privKey : string) : list (Z * string) :=
  if isLocal rc
  then (fun p => (Slot p, RenderWGConf (with_Peers rc [p]) privKey)) <$> Peers (rc_WireGuard rc)
  else [(0, RenderWGConf rc privKey)].

Record rendered := mkRendered {
  r_confs : gmap Z string;
  r_ruleset : string;
  r_resolved : list ResolvedForward;
  r_paths : list string
}.

Definition num_error_text (e : num_error) : string :=
  match e with ErrSyntax => "invalid syntax" | ErrRange => "value out of range" end.

Definition renderConfig (w : W) (rc : RuntimeConfig) (privKey : string)
    (localForwards : list ResolvedForward) (nodeName : string) : W * result string rendered :=
  match writeSlotConfs w [] ∅ (slot_confs rc privKey) with
  | (w, paths, Err e) => let '(w, _) := cleanup w paths true in (w, Err e)
  | (w, paths, Ok confs) =>
      let '(w, resolved) :=
        if isLocal rc then (w, Ok localForwards)
        else match resolveForwards w (Forwards rc) with
             | (w, Err e) => (w, Err ("resolve forwards: " +:+ e))
             | ok => ok
             end in
      match resolved with
      | Err e => let '(w, _) := cleanup w paths true in (w, Err e)
      | Ok resolved =>
          match RenderNftables rc resolved nodeName with
          | Err e => let '(w, _) := cleanup w paths true in
                     (w, Err ("render nftables ruleset: " +:+ num_error_text e))
          | Ok ruleset => (w, Ok (mkRendered confs ruleset resolved paths))
          end
      end
  end.

(** *** Applying *)

(** The interface probes: the first probe failure ends the pass. *)
Fixpoint probe_ifaces (w : W) (m : gmap Z bool) (ifaces : list (Z * string))
  : W * result string (gmap Z bool) :=
  match ifaces with
  | [] => (w, Ok m)
  | (slot, iface) :: ifaces =>
      match ifaceExists w iface with
      | (w, Err e) => (w, Err e)
      | (w, Ok b) => probe_ifaces w (<[slot := b]> m) ifaces
      end
  end.

Definition slot_ifaces (rc : RuntimeConfig) : list (Z * string) :=
  match rc_Identity rc with
  | None => [(0, clusterInterface)]
  | Some id => (fun p => (Slot p, Interface (NewSlotIdentity (gi_ID id) (Slot p)))) <$>
               Peers (rc_WireGuard rc)
  end.

(** Every plan is run, a failed step ending its own plan only. *)
Fixpoint runPlans (w : W) (plans : list slotPlan) : W * list SlotResult :=
  match plans with
  | [] => (w, [])
  | sp :: plans =>
      let '(w, e) := runSteps w (sp_Cmds sp) in
      let '(w, rest) := runPlans w plans in
      (w, mkSlotResult (sp_Slot sp) (bool_decide (e = None)) e :: rest)
  end.

Definition unapplied (results : list SlotResult) (err : string) : list SlotResult :=
  (fun r => mkSlotResult (sr_Slot r) false (Some (default err (sr_Err r)))) <$> results.

(** Commands in order, a failure wrapped with its argument list. *)
Fixpoint runWrapped (what : string) (w : W) (cs : list command) : W * option string :=
  match cs with
  | [] => (w, None)
  | c :: cs => match runStep w c with
               | (w, None) => runWrapped what w cs
               | (w, Some e) => (w, Some (what +:+ Join (args c) " " +:+ ": " +:+ e))
               end
  end.

Definition flushConntrack (w : W) (previous applied : list ResolvedForward) : W * option string :=
  runWrapped "flush conntrack for forward " w (conntrackFlushCommands previous applied).

Record apply_out := mkApplyOut {
  ao_results : list SlotResult;
  ao_applied : list ResolvedForward;
  ao_err : option string
}.

Definition run_cluster (w : W) (plans : list slotPlan) (final : command)
    (previous resolved : list ResolvedForward) : W * apply_out :=
  match runSteps w (match plans with [] => [] | sp :: _ => sp_Cmds sp end) with
  | (w, Some e) => (w, mkApplyOut [] [] (Some e))
  | (w, None) =>
      match runStep w final with
      | (w, Some e) => (w, mkApplyOut [] [] (Some ("apply nftables ruleset: " +:+ e)))
      | (w, None) =>
          match flushConntrack w previous resolved with
          | (w, Some e) => (w, mkApplyOut [] [] (Some e))
          | (w, None) => (w, mkApplyOut [] resolved None)
          end
      end
  end.

Definition run_local (w : W) (rc : RuntimeConfig) (plans : list slotPlan) (final : command)
    (previous : list ResolvedForward) (previousAddress : string)
    (resolved : list ResolvedForward) : W * apply_out :=
  let '(w, results) := runPlans w plans in
  match runStep w final with
  | (w, Some e) =>
      let err := "apply nftables ruleset: " +:+ e in
      (w, mkApplyOut (unapplied results err) [] (Some err))
  | (w, None) =>
      match flushConntrack w previous resolved with
      | (w, Some e) => (w, mkApplyOut results [] (Some e))
      | (w, None) =>
          match runWrapped "delete conntrack for hairpin " w
                  (hairpinConntrackCommands (PublicAddress rc) previousAddress previous resolved) with
          | (w, Some e) => (w, mkApplyOut results [] (Some e))
          | (w, None) => (w, mkApplyOut results resolved None)
          end
      end
  end.

(** The body after a successful render, before the deferred cleanup. *)
Definition apply_rendered (w : W) (rc : RuntimeConfig) (r : rendered)
    (previous : list ResolvedForward) (previousAddress : string)
    (localForwards : list ResolvedForward) : W * apply_out :=
  match probe_ifaces w ∅ (slot_ifaces rc) with
  | (w, Err e) => (w, mkApplyOut [] [] (Some e))
  | (w, Ok present) =>
      let '(plans, final) := buildApplyCommands rc (r_confs r) (r_ruleset r) present localForwards in
      if isLocal rc then run_local w rc plans final previous previousAddress (r_resolved r)
      else run_cluster w plans final previous (r_resolved r)
  end.

(** [applyConfig]: the new latch and the outcome. A cleanup failure after a
    successful pass becomes the pass's error; after a failed one it is only logged. *)
Definition applyConfig (w : W) (rc : RuntimeConfig) (privKey : string)
    (previous : list ResolvedForward) (previousAddress : string)
    (localForwards : list ResolvedForward) (nodeName : string) (warned : bool)
  : W * bool * apply_out :=
  let warned := (warnUnansweredProbes warned rc nodeName).1 in
  match renderConfig w rc privKey localForwards nodeName with
  | (w, Err e) => (w, warned, mkApplyOut [] [] (Some e))
  | (w, Ok r) =>
      let '(w, out) := apply_rendered w rc r previous previousAddress localForwards in
      let failed := bool_decide (is_Some (ao_err out)) in
      let '(w, ce) := cleanup w (r_paths r) failed in
      match ce with
      | None => (w, warned, out)
      | Some e => (w, warned, mkApplyOut (ao_results out) (ao_applied out)
                                (Some ("remove wg conf temp files: " +:+ e)))
      end
  end.
End Run.

(** ** Resolver *)
Definition resolveAttempts : nat := 4.

Definition firstIPv4 (addrs : list Z) : option string :=
  match omap To4 addrs with [] => None | v :: _ => Some (ipv4_string v) end.

(** One attempt's outcome; [lookup attempt] is the answer of the [ip4] query of that
    attempt and [cancelled attempt] whether the context ends in the delay before. *)
Inductive resolve_error := ErrCancelled | ErrLookup (e : string) | ErrNoIPv4.

Fixpoint resolve_attempts (fuel attempt : nat) (lookup : nat -> result string (list Z))
    (cancelled : nat -> bool) (last : resolve_error) : result resolve_error string :=
  match fuel with
  | O => Err last
  | S fuel =>
      if negb (attempt =? 0)%nat && cancelled attempt then Err ErrCancelled
      else match lookup attempt with
           | Err e => resolve_attempts fuel (S attempt) lookup cancelled (ErrLookup e)
           | Ok addrs => match firstIPv4 addrs with
                         | None => resolve_attempts fuel (S attempt) lookup cancelled ErrNoIPv4
                         | Some ip => Ok ip
                         end
           end
  end.

(** [newResolver]'s closure: the host is made absolute before it is looked up. *)
Definition absolute_host (host : string) : string :=
  if HasSuffix host "." then host else host +:+ ".".
Definition newResolver (lookup : string -> nat -> result string (list Z))
    (cancelled : nat -> bool) (host : string) : result resolve_error string :=
  resolve_attempts resolveAttempts 0 (lookup (absolute_host host)) cancelled ErrNoIPv4.

(** ** Pre-checks *)
Definition FaultApplyFailed : string := "ApplyFailed".
Definition FaultRPFilterStrict : string := "RPFilterStrict".

Record preCheckFault := mkPreCheckFault { pf_Reason : string; pf_Message : string }.

(** [readSysctlInt]: absent, unreadable or unparseable, or the integer. *)
Inductive sysctl_read := SysctlValue (v : Z) | SysctlAbsent (e : string) | SysctlError (e : string).

Definition unreadableSysctlFault (node e : string) : preCheckFault :=
  mkPreCheckFault FaultApplyFailed (node +:+ ": " +:+ e).

Definition preCheckLocalAt (read : string -> sysctl_read) (prefix node : string) : preCheckFault :=
  match read (prefix +:+ "/ipv4/ip_forward") with
  | SysctlAbsent e | SysctlError e => unreadableSysctlFault node e
  | SysctlValue f =>
      if f =? 0 then mkPreCheckFault FaultApplyFailed
        (node +:+ ": net.ipv4.ip_forward is 0; the node does not forward")
      else match read (prefix +:+ "/ipv4/conf/all/rp_filter") with
           | SysctlAbsent e | SysctlError e => unreadableSysctlFault node e
           | SysctlValue rp =>
               if negb (rp =? 0) && negb (rp =? 2) then
                 mkPreCheckFault FaultRPFilterStrict
                   (node +:+ ": net.ipv4.conf.all.rp_filter is " +:+ Itoa rp +:+
                    "; Local mode needs an effective value of 0 or 2 on the tunnel interface")
               else mkPreCheckFault "" ""
           end
  end.

(** [readSysctlInt] over the file's contents. *)
Definition readSysctlInt (contents : string -> result sysctl_read string) (path : string)
  : sysctl_read :=
  match contents path with
  | Err e => e
  | Ok raw => match Atoi (TrimSpace raw) with
              | Ok v => SysctlValue v
              | Err e => SysctlError ("parse " +:+ path +:+ ": " +:+ num_error_text e)
              end
  end.

(** ** Re-asserting drifted sysctls *)
Section Reassert.
Context {W : Type} (run : W -> command -> W * option string) (read : W -> string -> sysctl_read).

Fixpoint reassert_keys (w : W) (iface : string) (ss : list slotSysctl) : W :=
  match ss with
  | [] => w
  | s :: ss =>
      match read w (slotSysctlPath iface (key s)) with
      | SysctlAbsent _ => w
      | SysctlError _ => reassert_keys w iface ss
      | SysctlValue found =>
          if found =? value s then reassert_keys w iface ss
          else reassert_keys (run w (slotSysctlCommand iface s)).1 iface ss
      end
  end.

Definition reassertSlotSysctls (w : W) (rc : RuntimeConfig) : W :=
  match rc_Identity rc with
  | None => w
  | Some id =>
      foldl (fun w p => reassert_keys w (Interface (NewSlotIdentity (gi_ID id) (Slot p))) slotSysctls)
        w (Peers (rc_WireGuard rc))
  end.
End Reassert.

(** ** Conntrack facts *)
Lemma stale_forwards_spec present seen previous f :
  tupleOf f ∈ (tupleOf <$> stale_forwards present seen previous) <->
  tupleOf f ∈ (tupleOf <$> previous) /\ tupleOf f ∉ present /\ tupleOf f ∉ seen.
Proof.
  revert seen. induction previous as [|p ps IH]; intros seen; cbn [stale_forwards]; [set_solver|].
  rewrite fmap_cons, elem_of_cons.
  destruct (bool_decide (tupleOf p ∈ present)) eqn:E1; bool_prop.
  { rewrite IH. split; [tauto|]. intros ([Heq|?] & ? & ?); [rewrite Heq in *; done|done]. }
  destruct (bool_decide (tupleOf p ∈ seen)) eqn:E2; bool_prop.
  { rewrite IH. split; [tauto|]. intros ([Heq|?] & ? & ?); [rewrite Heq in *; done|done]. }
  rewrite fmap_cons, elem_of_cons, IH, elem_of_union, elem_of_singleton.
  destruct (decide (tupleOf f = tupleOf p)) as [Heq|]; [rewrite Heq|]; tauto.
Qed.

Lemma stale_forwards_nodup present seen previous :
  NoDup (tupleOf <$> stale_forwards present seen previous).
Proof.
  revert seen. induction previous as [|p ps IH]; intros seen; cbn [stale_forwards]; [constructor|].
  repeat case_bool_decide; [done..|]. rewrite fmap_cons. constructor; [|done].
  rewrite stale_forwards_spec. set_solver.
Qed.

Lemma stale_forwards_sublist present seen previous :
  stale_forwards present seen previous `sublist_of` previous.
Proof.
  revert seen. induction previous as [|p ps IH]; intros seen; cbn [stale_forwards]; [constructor|].
  repeat case_bool_decide; by constructor.
Qed.

(** ** Execution facts *)
Definition result_ok (r : SlotResult) : Prop := sr_Applied r = bool_decide (sr_Err r = None).

(** The failure a plan ends with when each command's outcome is [outcome]. *)
Fixpoint first_failure (outcome : command -> option string) (cs : list command) : option string :=
  match cs with
  | [] => None
  | c :: cs =>
      match outcome c with
      | None => first_failure outcome cs
      | Some t => if tolerateExists c && Contains t existsMarker then first_failure outcome cs
                  else if tolerateNoFlows c && Contains t noFlowsMarker then first_failure outcome cs
                  else Some t
      end
  end.

Section RunFacts.
Context {W : Type} (os : sysops W).

Lemma runPlans_slots w plans : sr_Slot <$> (runPlans os w plans).2 = sp_Slot <$> plans.
Proof.
  revert w. induction plans as [|sp plans IH]; intros w; [done|]. cbn [runPlans].
  destruct (runSteps os w (sp_Cmds sp)) as [w1 e]. specialize (IH w1).
  destruct (runPlans os w1 plans) as [w2 rest]. cbn in *. by rewrite IH.
Qed.

Lemma runPlans_ok w plans : Forall result_ok (runPlans os w plans).2.
Proof.
  revert w. induction plans as [|sp plans IH]; intros w; [constructor|]. cbn [runPlans].
  destruct (runSteps os w (sp_Cmds sp)) as [w1 e]. specialize (IH w1).
  destruct (runPlans os w1 plans) as [w2 rest]. by constructor.
Qed.

Lemma unapplied_slots results e : sr_Slot <$> unapplied results e = sr_Slot <$> results.
Proof. unfold unapplied. by rewrite <- list_fmap_compose. Qed.

Lemma unapplied_failed results e :
  Forall (fun r => sr_Applied r = false /\ is_Some (sr_Err r)) (unapplied results e).
Proof.
  unfold unapplied. apply Forall_fmap, Forall_forall. intros r _. cbn. split; [done|by eexists].
Qed.

Lemma run_local_results w rc plans final prev prevA resolved w' out :
  run_local os w rc plans final prev prevA resolved = (w', out) ->
  sr_Slot <$> ao_results out = sp_Slot <$> plans /\ Forall result_ok (ao_results out) /\
  (ao_applied out = resolved \/ ao_applied out = [] /\ is_Some (ao_err out)).
Proof.
  unfold run_local. pose proof (runPlans_slots w plans) as Hs. pose proof (runPlans_ok w plans) as Hr.
  destruct (runPlans os w plans) as [w1 results]. cbn in Hs, Hr.
  destruct (runStep os w1 final) as [w2 [e|]]; [intros; simplify_eq/=|].
  - rewrite unapplied_slots. split; [done|]. split; [|by eauto].
    eapply Forall_impl; [apply (unapplied_failed results)|].
    cbn. intros r [Ha [t Ht]]. unfold result_ok. by rewrite Ha, Ht.
  - destruct (flushConntrack os w2 prev resolved) as [w3 [e|]]; [intros; simplify_eq/=; by eauto 6|].
    destruct (runWrapped os _ w3 _) as [w4 [e|]]; intros; simplify_eq/=; by eauto 6.
Qed.

(** In Local mode the forwards rendered are the ones the pass was given. *)
Lemma renderConfig_local w rc key lf node w' r id :
  rc_Identity rc = Some id -> renderConfig os w rc key lf node = (w', Ok r) -> r_resolved r = lf.
Proof.
  intros Hid. unfold renderConfig, isLocal. rewrite Hid.
  destruct (writeSlotConfs os w [] ∅ _) as [[w1 paths] [confs|e]]; [|by destruct (cleanup os w1 paths true)].
  destruct (RenderNftables rc lf node); [by intros [= _ <-]|by destruct (cleanup os w1 paths true)].
Qed.
End RunFacts.

(** *** What a pass does before it programs anything *)

(** A view of the host that no preparation touches: neither the operations on temporary
    files, nor a name lookup, nor the probe of an interface. Every programmed object
    (links, addresses, routes, rules, nftables, conntrack) is one. *)
Record outside_prep {W A} (os : sysops W) (obs : W -> A) : Prop := {
  op_createTemp w : obs (os_createTemp os w).1 = obs w;
  op_chmod w p : obs (os_chmod os w p).1 = obs w;
  op_writeString w p t : obs (os_writeString os w p t).1 = obs w;
  op_close w p : obs (os_close os w p).1 = obs w;
  op_remove w p : obs (os_remove os w p).1 = obs w;
  op_resolve w n : obs (os_resolve os w n).1 = obs w;
  op_probe w iface : obs (os_run os w (exec "ip" ["link"; "show"; iface])).1 = obs w
}.

Section Prep.
Context {W A : Type} (os : sysops W) (obs : W -> A) (Hobs : outside_prep os obs).

Lemma prep_remove_all paths w : obs (remove_all os w paths).1 = obs w.
Proof.
  revert w. induction paths as [|p paths IH]; intros w; [done|]. cbn [remove_all].
  pose proof (op_remove _ _ Hobs w p) as H. destruct (os_remove os w p) as [w1 e]. specialize (IH w1).
  destruct (remove_all os w1 paths). cbn in *. congruence.
Qed.

Lemma prep_cleanup paths b w : obs (cleanup os w paths b).1 = obs w.
Proof.
  unfold cleanup. pose proof (prep_remove_all paths w) as H. by destruct (remove_all os w paths).
Qed.

Lemma prep_writeWGConf paths text w : obs (writeWGConf os w paths text).1.1 = obs w.
Proof.
  unfold writeWGConf. pose proof (op_createTemp _ _ Hobs w) as H1.
  destruct (os_createTemp os w) as [w1 [path|e]]; [|done]. cbn in H1. rewrite <- H1.
  pose proof (op_chmod _ _ Hobs w1 path) as H2. destruct (os_chmod os w1 path) as [w2 [e|]]; cbn in H2; rewrite <- H2.
  { pose proof (op_close _ _ Hobs w2 path) as H3. by destruct (os_close os w2 path). }
  pose proof (op_writeString _ _ Hobs w2 path text) as H3.
  destruct (os_writeString os w2 path text) as [w3 [e|]]; cbn in H3; rewrite <- H3;
    pose proof (op_close _ _ Hobs w3 path) as H4; by destruct (os_close os w3 path) as [w4 [e'|]].
Qed.

Lemma prep_writeSlotConfs confs paths m w : obs (writeSlotConfs os w paths m confs).1.1 = obs w.
Proof.
  revert paths m w. induction confs as [|[slot text] confs IH]; intros paths m w; [done|].
  cbn [writeSlotConfs]. pose proof (prep_writeWGConf paths text w) as H.
  destruct (writeWGConf os w paths text) as [[w1 paths1] [path|e]]; cbn in H; [|done]. by rewrite IH.
Qed.

Lemma prep_resolveForwards fs w : obs (resolveForwards os w fs).1 = obs w.
Proof.
  revert w. induction fs as [|f fs IH]; intros w; [done|]. cbn [resolveForwards].
  pose proof (op_resolve _ _ Hobs w (Service f)) as H.
  destruct (os_resolve os w (Service f)) as [w1 [ip|e]]; cbn in H; [|done]. specialize (IH w1).
  destruct (resolveForwards os w1 fs) as [w2 [rest|e]]; cbn in *; congruence.
Qed.

Lemma prep_renderConfig rc key lf node w : obs (renderConfig os w rc key lf node).1 = obs w.
Proof.
  unfold renderConfig. pose proof (prep_writeSlotConfs (slot_confs rc key) [] ∅ w) as H.
  destruct (writeSlotConfs os w [] ∅ _) as [[w1 paths] [confs|e]]; cbn in H.
  2: { pose proof (prep_cleanup paths true w1) as Hc. destruct (cleanup os w1 paths true). cbn in *. congruence. }
  assert (Hr : forall r w2, (if isLocal rc then (w1, Ok lf) else
      match resolveForwards os w1 (Forwards rc) with
      | (w, Err e) => (w, Err ("resolve forwards: " +:+ e)) | ok => ok end) = (w2, r) -> obs w2 = obs w1).
  { intros r w2. destruct (isLocal rc); [by intros [= <- _]|].
    pose proof (prep_resolveForwards (Forwards rc) w1) as Hf.
    destruct (resolveForwards os w1 (Forwards rc)) as [w3 [x|e]]; by intros [= <- _]. }
  destruct (if isLocal rc then _ else _) as [w2 r]. specialize (Hr _ _ eq_refl).
  pose proof (prep_cleanup paths true w2) as Hc.
  destruct r as [resolved|e]; [destruct (RenderNftables rc resolved node)|];
    try destruct (cleanup os w2 paths true); cbn in *; congruence.
Qed.

Lemma prep_probe_ifaces ifaces m w : obs (probe_ifaces os w m ifaces).1 = obs w.
Proof.
  revert m w. induction ifaces as [|[slot iface] ifaces IH]; intros m w; [done|]. cbn [probe_ifaces].
  unfold ifaceExists. pose proof (op_probe _ _ Hobs w iface) as H.
  destruct (os_run os w _) as [w1 [t|]]; cbn in H; [destruct (Contains t absentMarker)|];
    rewrite ?IH; done.
Qed.
End Prep.

(** ** Properties *)

(** C27: a Local pass either attempts every configured slot or programs nothing.
    Whenever it gets past rendering and the interface probes it reports one result per
    peer, in the peers' order, each marked applied exactly when it carries no error, and
    it reports either the forwards it was given or none as applied, the former whenever
    it returns without error; a pass that stops before that reports no result, nothing
    applied and an error, and leaves as it was all of the host but its temporary files:
    every view of it that those, lookups and probes do not touch. *)
Theorem applyConfig_results {W} (os : sysops W) w rc id key prev prevA lf node warned w' l out :
  rc_Identity rc = Some id ->
  applyConfig os w rc key prev prevA lf node warned = (w', l, out) ->
  (ao_results out = [] /\ ao_applied out = [] /\ is_Some (ao_err out) /\
   forall A (obs : W -> A), outside_prep os obs -> obs w' = obs w) \/
  (sr_Slot <$> ao_results out = Slot <$> Peers (rc_WireGuard rc) /\
   Forall result_ok (ao_results out) /\
   (ao_applied out = lf \/ ao_applied out = [] /\ is_Some (ao_err out))).
Proof.
  intros Hid. unfold applyConfig.
  assert (Hprep : forall A (obs : W -> A), outside_prep os obs -> obs (renderConfig os w rc key lf node).1 = obs w)
    by (intros; by apply prep_renderConfig).
  destruct (renderConfig os w rc key lf node) as [w1 [r|e]] eqn:Er; cbn [fst] in Hprep;
    [|intros; simplify_eq/=; left; by eauto].
  assert (Hlf : r_resolved r = lf) by exact (renderConfig_local os w rc key lf node w1 r id Hid Er).
  destruct (apply_rendered os w1 rc r prev prevA lf) as [w2 out2] eqn:E.
  pose proof (fun A obs Ho => prep_cleanup (A := A) os obs Ho (r_paths r) (bool_decide (is_Some (ao_err out2))) w2) as Hc.
  destruct (cleanup os w2 (r_paths r) _) as [w3 ce]. cbn [fst] in Hc.
  assert (H2 : (ao_results out2 = [] /\ ao_applied out2 = [] /\ is_Some (ao_err out2) /\
      forall A (obs : W -> A), outside_prep os obs -> obs w3 = obs w) \/
    (sr_Slot <$> ao_results out2 = Slot <$> Peers (rc_WireGuard rc) /\
     Forall result_ok (ao_results out2) /\
     (ao_applied out2 = lf \/ ao_applied out2 = [] /\ is_Some (ao_err out2)))).
  { unfold apply_rendered, isLocal, buildApplyCommands in E. rewrite Hid in E.
    pose proof (fun A obs Ho => prep_probe_ifaces (A := A) os obs Ho (slot_ifaces rc) ∅ w1) as Hp.
    destruct (probe_ifaces os w1 ∅ (slot_ifaces rc)) as [w4 [b|e]]; cbn [fst] in Hp.
    - apply run_local_results in E as (Hs & Hr & Ha). right. rewrite Hlf in Ha. split_and!; [|done|done].
      rewrite Hs, <- list_fmap_compose. by apply list_fmap_ext.
    - simplify_eq/=. left. split_and!; [done..|by eauto|]. intros A obs Ho.
      rewrite Hc, Hp, Hprep; done. }
  destruct ce as [e|]; intros; simplify_eq/=; [|done].
  destruct H2 as [(? & ? & ? & ?)|(? & ? & [?|[? ?]])]; [left|right|right]; split_and!; eauto.
Qed.

(** slots are isolated: when a command's outcome does not depend on what ran
    before it, each slot's result is decided by its own plan alone, whatever the
    plans before it did, and the plans' order only orders the results. *)
Theorem slots_isolated {W} (os : sysops W) (outcome : command -> option string) w plans :
  (forall w c, (os_run os w c).2 = outcome c) ->
  (runPlans os w plans).2 =
    (fun sp => let e := first_failure outcome (sp_Cmds sp) in
               mkSlotResult (sp_Slot sp) (bool_decide (e = None)) e) <$> plans.
Proof.
  intros Ho.
  assert (Hsteps : forall cs w, (runSteps os w cs).2 = first_failure outcome cs).
  { induction cs as [|c cs IH]; intros w0; [done|]. cbn. unfold runStep.
    specialize (Ho w0 c). destruct (os_run os w0 c) as [w1 e]. cbn in Ho. subst e.
    destruct (outcome c) as [t|]; [|apply IH].
    destruct (_ && _); [apply IH|]. destruct (_ && _); [apply IH|done]. }
  revert w. induction plans as [|sp plans IH]; intros w; [done|]. cbn [runPlans].
  specialize (Hsteps (sp_Cmds sp) w). destruct (runSteps os w (sp_Cmds sp)) as [w1 e].
  specialize (IH w1). destruct (runPlans os w1 plans) as [w2 rest]. cbn in *. by rewrite Hsteps, IH.
Qed.

(** conntrack deletions are exact: the flush issues one deletion per flow tuple
    that the previous apply programmed and the new one does not, none for a tuple
    still programmed and never two for the same tuple, in the previous order. *)
Theorem conntrack_flush_exact previous current :
  exists stale, conntrackFlushCommands previous current =
                  ((fun p => conntrack (ConntrackFlushArgs p)) <$> stale) /\
    stale `sublist_of` previous /\ NoDup (tupleOf <$> stale) /\
    forall f, tupleOf f ∈ (tupleOf <$> stale) <->
      tupleOf f ∈ (tupleOf <$> previous) /\ tupleOf f ∉ (tupleOf <$> current).
Proof.
  eexists. split; [reflexivity|]. split_and!.
  - apply stale_forwards_sublist.
  - apply stale_forwards_nodup.
  - intros f. rewrite stale_forwards_spec, elem_of_list_to_set.
    split; [tauto|]. intros [? ?]. split_and!; [done..|]. apply not_elem_of_empty.
Qed.

(** The node's flows under the hairpin rule: after an apply at [address], every
    forward's port that the previous apply did not serve at the same address gets a
    deletion. *)
Lemma hairpin_covers address previousAddress previous current f :
  address <> "" -> f ∈ current ->
  (address = previousAddress ->
   (rf_Protocol f, rf_PublicPort f) ∉ ((fun f => (rf_Protocol f, rf_PublicPort f)) <$> previous)) ->
  conntrack (hairpinArgs address f) ∈ hairpinConntrackCommands address previousAddress previous current.
Proof.
  intros Ha Hf Hn. unfold hairpinConntrackCommands. rewrite bool_decide_false by done.
  apply list_elem_of_fmap. exists f. split; [done|]. apply list_elem_of_filter. split; [|done].
  case_bool_decide; [|set_solver]. rewrite elem_of_list_to_set. auto.
Qed.

(** ** Temporary files *)

(** What the code relies on of [os]: creating a temporary file yields a path that
    did not exist, removing one succeeds and removes it, and nothing else changes
    which temporary files exist. *)
Class TempFiles {W} (os : sysops W) (files : W -> gset string) : Prop := {
  tf_run w c : files (os_run os w c).1 = files w;
  tf_create w : match os_createTemp os w with
                | (w', Ok p) => p ∉ files w /\ files w' = {[p]} ∪ files w
                | (w', Err _) => files w' = files w
                end;
  tf_chmod w p : files (os_chmod os w p).1 = files w;
  tf_write w p t : files (os_writeString os w p t).1 = files w;
  tf_close w p : files (os_close os w p).1 = files w;
  tf_resolve w h : files (os_resolve os w h).1 = files w;
  tf_remove w p : files (os_remove os w p).1 = files w ∖ {[p]} /\ (os_remove os w p).2 = None
}.

Section Files.
Context {W : Type} (os : sysops W) (files : W -> gset string) `{!TempFiles os files}.

(** Rewrite the world reached by an operation back to the one it started from. *)
Ltac step_files :=
  repeat match goal with
  | H : os_run os ?w ?c = (?w', _) |- _ =>
      let E := fresh in pose proof (tf_run w c) as E; rewrite H in E; cbn in E; clear H
  | H : os_chmod os ?w ?c = (?w', _) |- _ =>
      let E := fresh in pose proof (tf_chmod w c) as E; rewrite H in E; cbn in E; clear H
  | H : os_writeString os ?w ?c ?t = (?w', _) |- _ =>
      let E := fresh in pose proof (tf_write w c t) as E; rewrite H in E; cbn in E; clear H
  | H : os_close os ?w ?c = (?w', _) |- _ =>
      let E := fresh in pose proof (tf_close w c) as E; rewrite H in E; cbn in E; clear H
  | H : os_resolve os ?w ?c = (?w', _) |- _ =>
      let E := fresh in pose proof (tf_resolve w c) as E; rewrite H in E; cbn in E; clear H
  end.

Lemma runStep_files w c : files (runStep os w c).1 = files w.
Proof.
  unfold runStep. destruct (os_run os w c) as [w1 [t|]] eqn:E; repeat case_match; step_files; done.
Qed.

Lemma runSteps_files w cs : files (runSteps os w cs).1 = files w.
Proof.
  revert w. induction cs as [|c cs IH]; intros w; [done|]. cbn.
  pose proof (runStep_files w c). destruct (runStep os w c) as [w1 [e|]]; cbn in *; [done|].
  by rewrite IH.
Qed.

Lemma runWrapped_files what w cs : files (runWrapped os what w cs).1 = files w.
Proof.
  revert w. induction cs as [|c cs IH]; intros w; [done|]. cbn.
  pose proof (runStep_files w c). destruct (runStep os w c) as [w1 [e|]]; cbn in *; [done|].
  by rewrite IH.
Qed.

Lemma runPlans_files w plans : files (runPlans os w plans).1 = files w.
Proof.
  revert w. induction plans as [|sp plans IH]; intros w; [done|]. cbn.
  pose proof (runSteps_files w (sp_Cmds sp)). destruct (runSteps os w (sp_Cmds sp)) as [w1 e].
  specialize (IH w1). destruct (runPlans os w1 plans). cbn in *. congruence.
Qed.

Lemma probe_files w m l : files (probe_ifaces os w m l).1 = files w.
Proof.
  revert w m. induction l as [|[s i] l IH]; intros w m; [done|]. cbn. unfold ifaceExists.
  destruct (os_run os w _) as [w1 e] eqn:E. step_files.
  destruct e as [t|]; [destruct (Contains t absentMarker)|]; cbn; rewrite ?IH; done.
Qed.

Lemma resolve_files w fs : files (resolveForwards os w fs).1 = files w.
Proof.
  revert w. induction fs as [|f fs IH]; intros w; [done|]. cbn.
  destruct (os_resolve os w (Service f)) as [w1 [ip|e]] eqn:E; step_files; [|done].
  specialize (IH w1). destruct (resolveForwards os w1 fs) as [w2 [r|e]]; cbn in *; congruence.
Qed.

Lemma apply_rendered_files w rc r prev prevA lf :
  files (apply_rendered os w rc r prev prevA lf).1 = files w.
Proof.
  unfold apply_rendered. pose proof (probe_files w ∅ (slot_ifaces rc)) as Hp.
  destruct (probe_ifaces os w ∅ (slot_ifaces rc)) as [w1 [b|e]]; cbn in Hp; [|done].
  destruct (buildApplyCommands _ _ _ _ _) as [plans final].
  unfold run_local, run_cluster, flushConntrack. destruct (isLocal rc).
  - pose proof (runPlans_files w1 plans). destruct (runPlans os w1 plans) as [w2 rs]. cbn in *.
    pose proof (runStep_files w2 final). destruct (runStep os w2 final) as [w3 [e|]]; cbn in *; [congruence|].
    match goal with |- context [runWrapped os ?a w3 ?b] => pose proof (runWrapped_files a w3 b);
      destruct (runWrapped os a w3 b) as [w4 [e|]] end; cbn in *; [congruence|].
    match goal with |- context [runWrapped os ?a w4 ?b] => pose proof (runWrapped_files a w4 b);
      destruct (runWrapped os a w4 b) as [w5 [e|]] end; cbn in *; congruence.
  - match goal with |- context [runSteps os w1 ?b] => pose proof (runSteps_files w1 b);
      destruct (runSteps os w1 b) as [w2 [e|]] end; cbn in *; [congruence|].
    pose proof (runStep_files w2 final). destruct (runStep os w2 final) as [w3 [e|]]; cbn in *; [congruence|].
    match goal with |- context [runWrapped os ?a w3 ?b] => pose proof (runWrapped_files a w3 b);
      destruct (runWrapped os a w3 b) as [w4 [e|]] end; cbn in *; congruence.
Qed.

Lemma cleanup_files w paths b :
  files (cleanup os w paths b).1 = files w ∖ list_to_set paths /\ (cleanup os w paths b).2 = None.
Proof.
  assert (H : files (remove_all os w paths).1 = files w ∖ list_to_set paths /\
              (remove_all os w paths).2 = []).
  { revert w. induction paths as [|p paths IH]; intros w; cbn; [split; [set_solver|done]|].
    pose proof (tf_remove w p) as [Hf He]. destruct (os_remove os w p) as [w1 e]. cbn in Hf, He. subst e.
    specialize (IH w1). destruct (remove_all os w1 paths) as [w2 errs]. cbn in *.
    destruct IH as [IH ->]. split; [set_solver|done]. }
  unfold cleanup. destruct (remove_all os w paths) as [w1 errs]. cbn in *.
  destruct H as [? ->]. split; [done|]. by destruct b.
Qed.

(** The paths a run of [writeWGConf] adds are fresh and are all it leaves. *)
Definition wrote (w : W) (paths : list string) (w' : W) (paths' : list string) : Prop :=
  exists new, paths' = paths ++ new /\ files w' = list_to_set new ∪ files w /\
              list_to_set new ## files w.

Lemma writeWGConf_files w paths t w' paths' r :
  writeWGConf os w paths t = (w', paths', r) -> wrote w paths w' paths'.
Proof.
  unfold writeWGConf. pose proof (tf_create w) as Hc.
  destruct (os_createTemp os w) as [w1 [p|e]].
  2: { intros; simplify_eq. exists []. rewrite app_nil_r. set_solver. }
  destruct Hc as [Hfresh Hc]. intros H. exists [p].
  assert (Hw : files w' = files w1 /\ paths' = paths ++ [p])
    by (repeat (case_match; simplify_eq/=); step_files; split; congruence).
  destruct Hw as [-> ->]. rewrite Hc. clear H Hc. split; [done|]. cbn. set_solver.
Qed.

Lemma writeSlotConfs_files w paths m confs w' paths' r :
  writeSlotConfs os w paths m confs = (w', paths', r) -> wrote w paths w' paths'.
Proof.
  revert w paths m. induction confs as [|[s t] confs IH]; intros w paths m; cbn.
  { intros; simplify_eq. exists []. rewrite app_nil_r. set_solver. }
  destruct (writeWGConf os w paths t) as [[w1 paths1] [p|e]] eqn:E; apply writeWGConf_files in E.
  - intros H%IH. destruct E as (n1 & -> & F1 & D1), H as (n2 & -> & F2 & D2).
    rewrite F1 in D2. exists (n1 ++ n2). rewrite app_assoc, list_to_set_app_L, F2, F1. clear IH F1 F2.
    split; [done|]. set_solver.
  - intros; by simplify_eq.
Qed.

Lemma renderConfig_files w rc k lf node :
  match renderConfig os w rc k lf node with
  | (w', Err _) => files w' = files w
  | (w', Ok r) => files w' = list_to_set (r_paths r) ∪ files w /\ list_to_set (r_paths r) ## files w
  end.
Proof.
  unfold renderConfig.
  destruct (writeSlotConfs os w [] ∅ _) as [[w1 paths] res] eqn:E.
  apply writeSlotConfs_files in E as (new & -> & F & D). cbn [app].
  assert (Hclean : forall w2, files w2 = files w1 -> files (cleanup os w2 new true).1 = files w).
  { intros w2 H2. rewrite (proj1 (cleanup_files w2 new true)), H2, F. set_solver. }
  destruct res as [confs|e].
  2: { specialize (Hclean w1 eq_refl). by destruct (cleanup os w1 new true). }
  pose proof (resolve_files w1 (Forwards rc)) as Hr.
  destruct (resolveForwards os w1 (Forwards rc)) as [w2 r2]. cbn in Hr.
  assert (Hres : forall w3 (r3 : result string (list ResolvedForward)), files w3 = files w1 ->
    match (match r3 with
      | Ok resolved => match RenderNftables rc resolved node with
          | Ok ruleset => (w3, Ok (mkRendered confs ruleset resolved new))
          | Err e => let '(w, _) := cleanup os w3 new true in
                     (w, Err ("render nftables ruleset: " +:+ num_error_text e)) end
      | Err e => let '(w, _) := cleanup os w3 new true in (w, Err e) end) with
    | (w', Err _) => files w' = files w
    | (w', Ok r) => files w' = list_to_set (r_paths r) ∪ files w /\ list_to_set (r_paths r) ## files w
    end).
  { intros w3 r3 H3. specialize (Hclean w3 H3).
    destruct r3 as [resolved|e]; [destruct (RenderNftables rc resolved node)|];
      try (by destruct (cleanup os w3 new true)).
    cbn. rewrite H3. done. }
  destruct (isLocal rc); [exact (Hres w1 (Ok lf) eq_refl)|].
  destruct r2 as [r2|e2]; [exact (Hres w2 (Ok r2) Hr)|exact (Hres w2 (Err _) Hr)].
Qed.
End Files.

(** no private key is left on disk: whatever a pass does, whichever of its steps
    fail and in either mode, every temporary WireGuard config it created is removed
    again, so the temporary files after the pass are those before it. *)
Theorem applyConfig_removes_confs {W} (os : sysops W) files `{!TempFiles os files}
    w rc key prev prevA lf node warned :
  files (applyConfig os w rc key prev prevA lf node warned).1.1 = files w.
Proof.
  unfold applyConfig. pose proof (renderConfig_files os files w rc key lf node) as Hr.
  destruct (renderConfig os w rc key lf node) as [w1 [r|e]]; [|done]. destruct Hr as [F D].
  pose proof (apply_rendered_files os files w1 rc r prev prevA lf) as Ha.
  destruct (apply_rendered os w1 rc r prev prevA lf) as [w2 out]. cbn in Ha.
  set (b := bool_decide _). pose proof (cleanup_files os files w2 (r_paths r) b) as [Hc He].
  destruct (cleanup os w2 (r_paths r) b) as [w3 ce]. cbn in *. subst ce. cbn. rewrite Hc, Ha, F.
  set_solver.
Qed.

(** ** Sysctl convergence *)

(** What the code relies on of the kernel's per-interface settings (ip-sysctl: conf/<interface>
    changes the settings of that interface): one that could be read and is written without
    an error reads as what was written, and the link's other keys, on that interface or
    another, keep their values. *)
Class SysctlFiles {W} (run : W -> command -> W * option string) (read : W -> string -> sysctl_read)
    : Prop := {
  sf_write w iface s v :
    s ∈ slotSysctls -> read w (slotSysctlPath iface (key s)) = SysctlValue v ->
    (run w (slotSysctlCommand iface s)).2 = None ->
    read (run w (slotSysctlCommand iface s)).1 (slotSysctlPath iface (key s)) = SysctlValue (value s);
  sf_other w iface s iface' s' :
    s ∈ slotSysctls -> s' ∈ slotSysctls -> slotSysctlPath iface' (key s') <> slotSysctlPath iface (key s) ->
    read (run w (slotSysctlCommand iface s)).1 (slotSysctlPath iface' (key s')) = read w (slotSysctlPath iface' (key s'))
}.

Lemma last_chars_path iface k c l :
  chars k = l ++ [c] -> last (chars (slotSysctlPath iface k)) = Some c.
Proof.
  intros Hk. unfold slotSysctlPath. rewrite !chars_app, Hk, !app_assoc. by rewrite last_snoc.
Qed.

Lemma slotSysctls_cases s :
  s ∈ slotSysctls -> s = mkSlotSysctl "rp_filter" 0 \/ s = mkSlotSysctl "forwarding" 1.
Proof. unfold slotSysctls. rewrite !elem_of_cons. intros [?|[?|[]%not_elem_of_nil]]; auto. Qed.

(** The two keys never share a file, whatever the interfaces are called. *)
Lemma slotSysctlPath_value i1 i2 s1 s2 :
  s1 ∈ slotSysctls -> s2 ∈ slotSysctls ->
  slotSysctlPath i1 (key s1) = slotSysctlPath i2 (key s2) -> value s1 = value s2.
Proof.
  pose proof (fun i => last_chars_path i "rp_filter" "r"%char (chars "rp_filte") eq_refl) as Hr.
  pose proof (fun i => last_chars_path i "forwarding" "g"%char (chars "forwardin") eq_refl) as Hg.
  intros [-> | ->]%slotSysctls_cases [-> | ->]%slotSysctls_cases E; try done;
    apply (f_equal (fun p => last (chars p))) in E; cbn [key] in E; rewrite Hr, Hg in E; done.
Qed.

Section Converge.
Context {W : Type} (run : W -> command -> W * option string) (read : W -> string -> sysctl_read).
Context `{!SysctlFiles run read}.
(** Every write of a slot's key succeeds. *)
Hypothesis Hwrites : forall w iface s, s ∈ slotSysctls -> (run w (slotSysctlCommand iface s)).2 = None.

Definition readable (w : W) (iface : string) (s : slotSysctl) : Prop :=
  exists v, read w (slotSysctlPath iface (key s)) = SysctlValue v.
Definition intended (w : W) (iface : string) (s : slotSysctl) : Prop :=
  read w (slotSysctlPath iface (key s)) = SysctlValue (value s).

(** One write keeps what is readable readable and what is intended intended. *)
Lemma write_keeps w i s i' s' :
  s ∈ slotSysctls -> s' ∈ slotSysctls -> readable w i s ->
  let w' := (run w (slotSysctlCommand i s)).1 in
  intended w' i s /\ (readable w i' s' -> readable w' i' s') /\ (intended w i' s' -> intended w' i' s').
Proof.
  intros Hs Hs' [v Hv] w'. pose proof (sf_write w i s v Hs Hv (Hwrites w i s Hs)) as Hw. split; [exact Hw|].
  unfold readable, intended.
  destruct (decide (slotSysctlPath i' (key s') = slotSysctlPath i (key s))) as [E|Hne].
  - rewrite E. split; [intros _; exists (value s); exact Hw|]. intros _. unfold w'. rewrite Hw. f_equal.
    symmetry. by apply (slotSysctlPath_value i' i).
  - unfold w'. by rewrite sf_other by done.
Qed.

Lemma reassert_keys_keeps w i ss i' s' :
  (forall s, s ∈ ss -> s ∈ slotSysctls /\ readable w i s) -> s' ∈ slotSysctls ->
  let w' := reassert_keys run read w i ss in
  (forall s, s ∈ ss -> intended w' i s) /\
  (readable w i' s' -> readable w' i' s') /\ (intended w i' s' -> intended w' i' s').
Proof.
  revert w i' s'. induction ss as [|s ss IH]; intros w i' s' Hss Hs'; cbn; [set_solver|].
  destruct (Hss s) as [Hs Hr]; [set_solver|]. destruct Hr as [v Hv]. rewrite Hv.
  assert (Hgo : forall w1, (intended w1 i s) ->
    (forall j t, t ∈ slotSysctls -> readable w j t -> readable w1 j t) ->
    (intended w i' s' -> intended w1 i' s') ->
    (forall t, t ∈ s :: ss -> intended (reassert_keys run read w1 i ss) i t) /\
    (readable w i' s' -> readable (reassert_keys run read w1 i ss) i' s') /\
    (intended w i' s' -> intended (reassert_keys run read w1 i ss) i' s')).
  { intros w1 Hi Hrd Hin.
    assert (Hss1 : forall t, t ∈ ss -> t ∈ slotSysctls /\ readable w1 i t).
    { intros t Ht. destruct (Hss t) as [? ?]; [set_solver|]. auto. }
    destruct (IH w1 i' s' Hss1 Hs') as (Ha & Hb & Hc).
    destruct (IH w1 i s Hss1 Hs) as (_ & _ & Hd). split_and!; auto.
    intros t [->|Ht]%elem_of_cons; auto. }
  destruct (Z.eqb_spec v (value s)) as [->|Hne].
  - by apply Hgo.
  - apply Hgo.
    + exact (proj1 (write_keeps w i s i s Hs Hs (ex_intro _ v Hv))).
    + intros j t Ht. exact (proj1 (proj2 (write_keeps w i s j t Hs Ht (ex_intro _ v Hv)))).
    + exact (proj2 (proj2 (write_keeps w i s i' s' Hs Hs' (ex_intro _ v Hv)))).
Qed.

Lemma reassert_peers_keeps gid ps w :
  (forall p s, p ∈ ps -> s ∈ slotSysctls ->
    readable w (Interface (NewSlotIdentity gid (Slot p))) s) ->
  let w' := foldl (fun w p => reassert_keys run read w
              (Interface (NewSlotIdentity gid (Slot p))) slotSysctls) w ps in
  (forall p s, p ∈ ps -> s ∈ slotSysctls -> intended w' (Interface (NewSlotIdentity gid (Slot p))) s) /\
  (forall i s, s ∈ slotSysctls -> intended w i s -> intended w' i s).
Proof.
  revert w. induction ps as [|p ps IH]; intros w Hr; cbn [foldl]; [set_solver|].
  set (i := Interface (NewSlotIdentity gid (Slot p))).
  assert (Hp : forall s, s ∈ slotSysctls -> s ∈ slotSysctls /\ readable w i s)
    by (intros s Hs; split; [done|]; apply Hr; set_solver).
  set (w1 := reassert_keys run read w i slotSysctls).
  assert (Hk : forall i' s', s' ∈ slotSysctls ->
    (readable w i' s' -> readable w1 i' s') /\ (intended w i' s' -> intended w1 i' s'))
    by (intros i' s' Hs'; exact (proj2 (reassert_keys_keeps w i slotSysctls i' s' Hp Hs'))).
  destruct (IH w1) as [Ha Hb].
  { intros q s Hq Hs. apply Hk; [done|]. apply Hr; set_solver. }
  split.
  - intros q s [->|Hq]%elem_of_cons Hs; [|by apply Ha]. apply Hb; [done|].
    by apply (proj1 (reassert_keys_keeps w i slotSysctls i s Hp Hs)).
  - intros j s Hs Hj. apply Hb; [done|]. by apply Hk.
Qed.

Lemma reassert_keys_id w i ss : (forall s, s ∈ ss -> intended w i s) -> reassert_keys run read w i ss = w.
Proof.
  induction ss as [|s ss IH]; intros H; [done|]. cbn.
  rewrite (H s) by set_solver. rewrite Z.eqb_refl. apply IH. set_solver.
Qed.
End Converge.

(** drifted slot sysctls converge: when every slot's keys can be read and written, one
    re-assert pass leaves each at its intended value and a second pass writes
    nothing. *)
Theorem reassert_converges {W} run read `{!SysctlFiles (W := W) run read} w rc id :
  (forall w iface s, s ∈ slotSysctls -> (run w (slotSysctlCommand iface s)).2 = None) ->
  rc_Identity rc = Some id ->
  (forall p s, p ∈ Peers (rc_WireGuard rc) -> s ∈ slotSysctls ->
    readable read w (Interface (NewSlotIdentity (gi_ID id) (Slot p))) s) ->
  let w' := reassertSlotSysctls run read w rc in
  (forall p s, p ∈ Peers (rc_WireGuard rc) -> s ∈ slotSysctls ->
    intended read w' (Interface (NewSlotIdentity (gi_ID id) (Slot p))) s) /\
  reassertSlotSysctls run read w' rc = w'.
Proof.
  intros Hw Hid Hr. unfold reassertSlotSysctls. rewrite Hid. cbn zeta.
  destruct (reassert_peers_keeps run read Hw (gi_ID id) (Peers (rc_WireGuard rc)) w Hr) as [Ha _].
  set (w' := foldl _ w _) in *. split; [exact Ha|]. clearbody w'. clear Hr.
  induction (Peers (rc_WireGuard rc)) as [|p ps IH]; [done|]. cbn [foldl].
  rewrite (reassert_keys_id run read Hw w'); [apply IH|]; intros; apply Ha; set_solver.
Qed.

(** the pre-check passes a node exactly when it forwards and its [rp_filter] on
    [all] is 0 or 2; an unreadable key is a fault, never a pass. *)
Theorem preCheckLocal_spec read prefix node :
  preCheckLocalAt read prefix node = mkPreCheckFault "" "" <->
  exists f rp, read (prefix +:+ "/ipv4/ip_forward") = SysctlValue f /\ f <> 0 /\
    read (prefix +:+ "/ipv4/conf/all/rp_filter") = SysctlValue rp /\ (rp = 0 \/ rp = 2).
Proof.
  unfold preCheckLocalAt, unreadableSysctlFault.
  destruct (read (prefix +:+ "/ipv4/ip_forward")) as [f|e|e]; [|split; [done|naive_solver]..].
  destruct (Z.eqb_spec f 0); [split; [done|naive_solver]|].
  destruct (read (prefix +:+ "/ipv4/conf/all/rp_filter")) as [rp|e|e];
    [|split; [done|naive_solver]..].
  destruct (Z.eqb_spec rp 0), (Z.eqb_spec rp 2); cbn [negb andb]; [naive_solver..|].
  split; [done|naive_solver].
Qed.

(** ** Concrete instances *)

(** A world of temporary files where every command succeeds but those whose
    outcome [bad] gives. *)
Definition toy_os (bad : command -> option string) : sysops (gset string) :=
  mkSysops (gset string) (fun w c => (w, bad c))
    (fun w => let p := fresh w in ({[p]} ∪ w, Ok p))
    (fun w _ => (w, None)) (fun w _ _ => (w, None)) (fun w _ => (w, None))
    (fun w p => (w ∖ {[p]}, None)) (fun w h => (w, Ok "10.96.0.1")).

#[global] Instance toy_os_files bad : TempFiles (toy_os bad) (fun w => w).
Proof. constructor; intros; cbn; try done. split; [apply is_fresh|done]. Qed.

Definition fail_slot_9 (c : command) : option string :=
  if bool_decide ("wg-gw5-9" ∈ args c) && bool_decide (name c = "wg") then Some "boom" else None.

Definition sample_apply : gset string * bool * apply_out :=
  applyConfig (toy_os fail_slot_9) ∅ (sample_local [] [sample_peer 9; sample_peer 0])
    "key" [] "" [sample_rf 80] "n1" false.

Lemma applyConfig_results_witness :
  sr_Applied <$> ao_results sample_apply.2 = [false; true] /\
  sr_Slot <$> ao_results sample_apply.2 = Slot <$> [sample_peer 9; sample_peer 0] /\
  Forall result_ok (ao_results sample_apply.2).
Proof.
  split; [vm_compute; reflexivity|].
  destruct (applyConfig_results (toy_os fail_slot_9) ∅ (sample_local [] [sample_peer 9; sample_peer 0])
    (NewGatewayIdentity 5) "key" [] "" [sample_rf 80] "n1" false sample_apply.1.1 sample_apply.1.2
    sample_apply.2 eq_refl) as [[H _]|(? & ? & _)]; [|by vm_compute in H|by split].
  unfold sample_apply. by destruct (applyConfig _ _ _ _ _ _ _ _ _) as [[? ?] ?].
Defined.

Lemma slots_isolated_witness :
  (runPlans (toy_os fail_slot_9) ∅ [mkSlotPlan 9 [exec "wg" ["wg-gw5-9"]]; mkSlotPlan 0 [exec "wg" ["wg-gw5"]]]).2
  = (fun sp => let e := first_failure fail_slot_9 (sp_Cmds sp) in
               mkSlotResult (sp_Slot sp) (bool_decide (e = None)) e)
    <$> [mkSlotPlan 9 [exec "wg" ["wg-gw5-9"]]; mkSlotPlan 0 [exec "wg" ["wg-gw5"]]].
Proof. apply (slots_isolated (toy_os fail_slot_9) fail_slot_9). reflexivity. Defined.

Lemma applyConfig_removes_confs_witness :
  (applyConfig (toy_os fail_slot_9) {["other"]} (sample_local [] [sample_peer 9; sample_peer 0])
    "key" [] "" [sample_rf 80] "n1" false).1.1 = {["other"]}.
Proof. apply (applyConfig_removes_confs (toy_os fail_slot_9) (fun w => w)). Defined.

(** Sysctl files as a map from path to value. *)
Definition toy_write (w : gmap string Z) (c : command) : gmap string Z * option string :=
  match Atoi (writeValue c) with
  | Ok v => (<[writePath c := v]> w, None)
  | Err _ => (w, Some "invalid argument")
  end.
Definition toy_read (w : gmap string Z) (path : string) : sysctl_read :=
  match w !! path with Some v => SysctlValue v | None => SysctlAbsent "no such file" end.

Lemma Atoi_Itoa_small n : 0 <= n < 2 ^ 63 -> Atoi (Itoa n) = Ok n.
Proof. intros. unfold Atoi. apply ParseInt_Itoa_nonneg. lia. Qed.

Lemma toy_write_eq w i s :
  s ∈ slotSysctls -> (toy_write w (slotSysctlCommand i s)).1 = <[slotSysctlPath i (key s) := value s]> w.
Proof.
  intros [-> | ->]%slotSysctls_cases; unfold toy_write; cbn [writeValue slotSysctlCommand value];
    rewrite Atoi_Itoa_small by lia; reflexivity.
Qed.

#[global] Instance toy_sysctl_files : SysctlFiles toy_write toy_read.
Proof.
  constructor; intros; rewrite toy_write_eq by done; unfold toy_read; cbn beta.
  - by rewrite lookup_insert_eq.
  - by rewrite lookup_insert_ne by congruence.
Qed.

Definition toy_sysctls : gmap string Z :=
  {[slotSysctlPath "wg-gw5-9" "rp_filter" := 2; slotSysctlPath "wg-gw5-9" "forwarding" := 1]}.

Lemma reassert_converges_witness :
  toy_read (reassertSlotSysctls toy_write toy_read toy_sysctls (sample_local [] [sample_peer 9]))
    (slotSysctlPath "wg-gw5-9" "rp_filter") = SysctlValue 0 /\
  reassertSlotSysctls toy_write toy_read
    (reassertSlotSysctls toy_write toy_read toy_sysctls (sample_local [] [sample_peer 9]))
    (sample_local [] [sample_peer 9]) =
  reassertSlotSysctls toy_write toy_read toy_sysctls (sample_local [] [sample_peer 9]).
Proof.
  split; [vm_compute; reflexivity|].
  apply (reassert_converges toy_write toy_read toy_sysctls (sample_local [] [sample_peer 9])
    (NewGatewayIdentity 5)); [|reflexivity|].
  { intros w i s [-> | ->]%slotSysctls_cases; unfold toy_write; cbn [writeValue slotSysctlCommand value];
      by rewrite Atoi_Itoa_small by lia. }
  intros p s ->%list_elem_of_singleton [-> | ->]%slotSysctls_cases; eexists; vm_compute; reflexivity.
Defined.

(** The resolver's answer is used as it comes: an empty address is not refused. *)
Lemma resolveForwards_empty_target :
  (resolveForwards (mkSysops unit (fun w _ => (w, None)) (fun w => (w, Err "")) (fun w _ => (w, None))
     (fun w _ _ => (w, None)) (fun w _ => (w, None)) (fun w _ => (w, None)) (fun w _ => (w, Ok "")))
   tt [mkForward "web" 80 "tcp" "web.apps.svc" 8080 "" "" ""]).2
  = Ok [mkResolvedForward "web" 80 "tcp" "" 8080].
Proof. reflexivity. Qed.
