(* ===== verification/Host.v ===== *)
(** * The link's host: execCommand and preCheckLocal of internal/link/apply.go, linkNames
      and wgShowHandshakes of link.go

    Everything the link programs goes through [execCommand]: a write of one file, or a
    process whose standard error ends up in the returned text. The rest of the
    development runs its plans over any runner; here the runner is the code's, on a host
    whose processes and files are parameters. [host_runs_plans] discharges what the plans
    assume of their runner: a link's sysctls it wrote read back, a rule that is already
    there is added again without an error, and only because the process is run in the C
    locale, whose wording the step looks for. *)

From S2P Require Import Prelude GoStrings GoText Identity Config Render Apply.

(** [None] for a standard input that is not set. *)
Record process := mkProcess { pc_name : string; pc_args : list string; pc_env : list string; pc_stdin : option string }.

(** How a process ended: its failure, if any, its output and its standard error. *)
Record exited := mkExited { ex_failed : option string; ex_stdout : string; ex_stderr : string }.

(** [ho_read] is a file's contents, or why it cannot be read. *)
Record host_ops (H : Type) := mkHostOps {
  ho_environ : list string;
  ho_writeFile : H -> string -> string -> H * option string;
  ho_process : H -> process -> H * exited;
  ho_read : H -> string -> result sysctl_read string
}.
Arguments ho_environ {H}. Arguments ho_writeFile {H}. Arguments ho_process {H}. Arguments ho_read {H}.

Section Host.
Context {H : Type} (ops : host_ops H).

(** [%v] of a list of strings. *)
Definition fmt_args (a : list string) : string := "[" +:+ Join a " " +:+ "]".

Definition execCommand (h : H) (c : command) : H * option string :=
  if negb (bool_decide (writePath c = "")) then
    let '(h, e) := ho_writeFile ops h (writePath c) (writeValue c) in
    (h, (fun e => "write " +:+ writePath c +:+ ": " +:+ e) <$> e)
  else
    let p := mkProcess (name c) (args c) (ho_environ ops ++ ["LC_ALL=C"])
               (if negb (bool_decide (stdin c = "")) then Some (stdin c) else None) in
    let '(h, x) := ho_process ops h p in
    (h, (fun e => name c +:+ " " +:+ fmt_args (args c) +:+ ": " +:+ e +:+ ": " +:+ ex_stderr x) <$> ex_failed x).

(** [exec.CommandContext(...).Output()], in the process's own environment. *)
Definition output (h : H) (n : string) (a : list string) : H * result string string :=
  let '(h, x) := ho_process ops h (mkProcess n a (ho_environ ops) None) in
  (h, match ex_failed x with Some e => Err e | None => Ok (ex_stdout x) end).

(** [decode]: the ifname of each link of the JSON text. *)
Definition linkNames (decode : string -> result string (list string)) (h : H) : H * result string (list string) :=
  let '(h, r) := output h "ip" ["-j"; "link"; "show"] in
  (h, match r with
      | Err e => Err ("ip -j link show: " +:+ e)
      | Ok out => match decode out with
                  | Err e => Err ("decode ip -j link show output: " +:+ e)
                  | Ok names => Ok names
                  end
      end).

Definition wgShowHandshakes (h : H) (iface : string) : H * result string string :=
  let '(h, r) := output h "wg" ["show"; iface; "latest-handshakes"] in
  (h, match r with Err e => Err ("wg show " +:+ iface +:+ " latest-handshakes: " +:+ e) | Ok out => Ok out end).

Definition host_read (h : H) (path : string) : sysctl_read := readSysctlInt (ho_read ops h) path.
Definition preCheckLocal (h : H) (node : string) : preCheckFault := preCheckLocalAt (host_read h) HostProcSysNetPath node.

(** The runner of a plan; temporary files and names stay abstract. *)
Definition host_sysops (rest : sysops H) : sysops H :=
  mkSysops H execCommand (os_createTemp rest) (os_chmod rest) (os_writeString rest) (os_close rest)
    (os_remove rest) (os_resolve rest).
End Host.

(** A variable of an environment: of duplicates the last counts. *)
Definition getenv (env : list string) (k : string) : option string :=
  last (omap (fun s => match Cut "="%char s with
                       | Some (k', v) => if bool_decide (k' = k) then Some v else None
                       | None => None
                       end) env).

(** ** Interfaces *)

(** The kernel's per-interface sysctl files: a readable one that is written without an
    error reads as what was written, with space around it, and the other ones the link
    writes keep their contents. *)
Class KernelFiles {H} (ops : host_ops H) : Prop := {
  kf_write h iface s v :
    s ∈ slotSysctls -> host_read ops h (slotSysctlPath iface (key s)) = SysctlValue v ->
    (ho_writeFile ops h (slotSysctlPath iface (key s)) (Itoa (value s))).2 = None ->
    exists raw, ho_read ops (ho_writeFile ops h (slotSysctlPath iface (key s)) (Itoa (value s))).1
        (slotSysctlPath iface (key s)) = Ok raw /\ TrimSpace raw = Itoa (value s);
  kf_other h iface s iface' s' :
    s ∈ slotSysctls -> s' ∈ slotSysctls -> slotSysctlPath iface' (key s') <> slotSysctlPath iface (key s) ->
    ho_read ops (ho_writeFile ops h (slotSysctlPath iface (key s)) (Itoa (value s))).1 (slotSysctlPath iface' (key s')) =
    ho_read ops h (slotSysctlPath iface' (key s'))
}.

(** iproute2: adding a rule the kernel has fails and changes nothing; in the C locale it
    says so in the words of strerror. *)
Class Iproute {H} (ops : host_ops H) (has_rule : H -> list string -> Prop) : Prop := {
  ip_present h rule env stdin : has_rule h rule -> getenv env "LC_ALL" = Some "C" ->
    exists e out err, ho_process ops h (mkProcess "ip" ("rule" :: "add" :: rule) env stdin) = (h, mkExited (Some e) out err) /\
      Contains err existsMarker = true
}.

(** ** Proofs *)
Lemma getenv_last env k v : ("="%char ∉ chars k) -> getenv (env ++ [k +:+ String "="%char v]) k = Some v.
Proof.
  intros Hk. unfold getenv. rewrite omap_app. cbn [omap list_omap]. rewrite Cut_app by done. rewrite bool_decide_true by done.
  apply last_snoc.
Qed.

Lemma contains_suffix a b m : Contains b m = true -> Contains (a +:+ b) m = true.
Proof.
  unfold Contains. rewrite chars_app. intros H. induction (chars a) as [|c l IH]; [done|]. cbn. rewrite IH. apply orb_true_r.
Qed.

Lemma getenv_C env : getenv (env ++ ["LC_ALL=C"]) "LC_ALL" = Some "C".
Proof. apply (getenv_last env "LC_ALL" "C"). apply (bool_decide_unpack _). vm_compute. exact I. Qed.

(** The runner's sysctl writes. *)
Lemma exec_sysctl {H} (ops : host_ops H) h iface s :
  (execCommand ops h (slotSysctlCommand iface s)).1 = (ho_writeFile ops h (slotSysctlPath iface (key s)) (Itoa (value s))).1 /\
  ((execCommand ops h (slotSysctlCommand iface s)).2 = None <->
   (ho_writeFile ops h (slotSysctlPath iface (key s)) (Itoa (value s))).2 = None).
Proof.
  unfold execCommand, slotSysctlCommand. cbn [writePath writeValue].
  rewrite bool_decide_false by done. cbn [negb]. by destruct (ho_writeFile _ _ _ _) as [h1 [e|]].
Qed.

#[global] Instance exec_SysctlFiles {H} (ops : host_ops H) `{!KernelFiles ops} : SysctlFiles (execCommand ops) (host_read ops).
Proof.
  split.
  - intros h iface s v Hs Hv. destruct (exec_sysctl ops h iface s) as [-> ->]. intros Hok.
    destruct (kf_write h iface s v Hs Hv Hok) as (raw & Hr & Ht).
    unfold host_read, readSysctlInt. rewrite Hr, Ht. by apply slotSysctls_cases in Hs as [-> | ->].
  - intros h iface s iface' s' Hs Hs' Hne. rewrite (proj1 (exec_sysctl ops h iface s)).
    unfold host_read, readSysctlInt. by rewrite kf_other.
Qed.

(** Adding a rule the kernel has. *)
Lemma rule_add_again {H} (ops : host_ops H) rest has_rule `{!Iproute ops has_rule} h c rule :
  name c = "ip" -> args c = "rule" :: "add" :: rule -> writePath c = "" -> tolerateExists c = true -> has_rule h rule ->
  runStep (host_sysops ops rest) h c = (h, None).
Proof.
  intros Hn Ha Hw Ht Hr. unfold runStep. cbn [os_run host_sysops]. unfold execCommand. rewrite Hw, Hn, Ha, bool_decide_true by done. cbn [negb].
  destruct (ip_present h rule (ho_environ ops ++ ["LC_ALL=C"])
    (if negb (bool_decide (stdin c = "")) then Some (stdin c) else None) Hr (getenv_C _)) as (e & out & err & E & Hc).
  rewrite E. cbn [ex_failed fmap option_fmap option_map ex_stderr]. rewrite Ht.
  match goal with |- context [Contains ?t existsMarker] =>
    assert (Hx : Contains t existsMarker = true) by (repeat apply contains_suffix; exact Hc); by rewrite Hx end.
Qed.

(** What the link's plans assume of their runner, its own runner provides. Over any
    host whose sysctl files and iproute2 behave as documented: one pass of re-asserting
    leaves every slot's readable sysctls at their intended values when its writes
    succeed, and a second changes nothing; the rule step of a slot's routes succeeds and
    changes nothing when the kernel has the rule, whatever locale the process was
    started in. *)
Theorem host_runs_plans {H} (ops : host_ops H) rest has_rule `{!KernelFiles ops, !Iproute ops has_rule} h rc id :
  (forall h p t, (ho_writeFile ops h p t).2 = None) ->
  rc_Identity rc = Some id ->
  (forall p s, p ∈ Peers (rc_WireGuard rc) -> s ∈ slotSysctls ->
     readable (host_read ops) h (Interface (NewSlotIdentity (gi_ID id) (Slot p))) s) ->
  let h' := reassertSlotSysctls (execCommand ops) (host_read ops) h rc in
  ((forall p s, p ∈ Peers (rc_WireGuard rc) -> s ∈ slotSysctls ->
      intended (host_read ops) h' (Interface (NewSlotIdentity (gi_ID id) (Slot p))) s) /\
   reassertSlotSysctls (execCommand ops) (host_read ops) h' rc = h') /\
  (forall h sid targets c, last (localRouteCommands sid targets) = Some c -> has_rule h (drop 2 (args c)) ->
     runStep (host_sysops ops rest) h c = (h, None)).
Proof.
  intros Hw Hid Hread h'. split.
  - apply (reassert_converges (execCommand ops) (host_read ops) h rc id); [|exact Hid|exact Hread].
    intros h0 iface s _. apply exec_sysctl, Hw.
  - intros h0 sid targets c Hl Hr. unfold localRouteCommands in Hl. rewrite app_assoc, last_snoc in Hl. injection Hl as <-.
    eapply (rule_add_again ops rest has_rule); [reflexivity..|exact Hr].
Qed.

(** ** A sample host: every rule is there, and its messages are in the user's language *)
Definition sample_write (h : gmap string string) (p t : string) : gmap string string * option string :=
  (<[p := t +:+ String "010"%char ""]> h, None).
Definition sample_process (h : gmap string string) (p : process) : gmap string string * exited :=
  (h, mkExited (Some "exit status 2") ""
        (if bool_decide (getenv (pc_env p) "LC_ALL" = Some "C") then "RTNETLINK answers: File exists" else "Die Datei existiert bereits")).
Definition sample_host : host_ops (gmap string string) :=
  mkHostOps _ ["LANG=de_DE.UTF-8"] sample_write sample_process
    (fun h p => match h !! p with Some t => Ok t | None => Err (SysctlAbsent "no such file") end).

#[global] Instance sample_KernelFiles : KernelFiles sample_host.
Proof.
  split.
  - intros h iface s v Hs Hv _. exists (Itoa (value s) +:+ String "010"%char ""). cbn [ho_read ho_writeFile sample_host sample_write fst].
    rewrite lookup_insert_eq. split; [done|]. by apply slotSysctls_cases in Hs as [-> | ->].
  - intros h iface s iface' s' _ _ Hq. cbn. by rewrite lookup_insert_ne by congruence.
Qed.

#[global] Instance sample_Iproute : Iproute sample_host (fun _ _ => True).
Proof.
  split. intros h rule env stdin _ Henv. cbn. unfold sample_process. cbn [pc_env]. rewrite Henv, bool_decide_true by done.
  eexists _, _, _. split; [reflexivity|]. vm_compute. reflexivity.
Qed.

(** A Gateway with one slot, whose sysctls drifted. *)
Definition sample_slot_config : RuntimeConfig :=
  mkRuntimeConfig "Local" (Some (mkGatewayIdentity 7 27007 "t")) 0 ∅ ∅ 0 "" "" (mkWireGuard "" 0 0 [mkPeer 3 "" "" [] 0]) [].
Definition sample_slot_host : gmap string string :=
  let i := Interface (NewSlotIdentity 7 3) in
  {[ slotSysctlPath i "rp_filter" := "1"; slotSysctlPath i "forwarding" := "0" ]}.
Definition sample_rest : sysops (gmap string string) :=
  mkSysops _ (fun h _ => (h, None)) (fun h => (h, Err "none")) (fun h _ => (h, None)) (fun h _ _ => (h, None))
    (fun h _ => (h, None)) (fun h _ => (h, None)) (fun h _ => (h, Err "none")).

Lemma host_runs_plans_witness :
  host_read sample_host sample_slot_host (slotSysctlPath (Interface (NewSlotIdentity 7 3)) "rp_filter") = SysctlValue 1 /\
  intended (host_read sample_host) (reassertSlotSysctls (execCommand sample_host) (host_read sample_host) sample_slot_host sample_slot_config)
    (Interface (NewSlotIdentity 7 3)) (mkSlotSysctl "rp_filter" 0).
Proof.
  split; [vm_compute; reflexivity|].
  assert (Hr : forall p s, p ∈ Peers (rc_WireGuard sample_slot_config) -> s ∈ slotSysctls ->
    readable (host_read sample_host) sample_slot_host (Interface (NewSlotIdentity 7 (Slot p))) s).
  { intros p s Hp Hs. cbn in Hp. apply list_elem_of_singleton in Hp as ->.
    apply slotSysctls_cases in Hs as [-> | ->]; eexists; vm_compute; reflexivity. }
  apply (proj1 (proj1 (host_runs_plans sample_host sample_rest (fun _ _ => True) sample_slot_host sample_slot_config
    (mkGatewayIdentity 7 27007 "t") (fun _ _ _ => eq_refl) eq_refl Hr)) (mkPeer 3 "" "" [] 0) (mkSlotSysctl "rp_filter" 0)); by left.
Defined.
