(* ===== verification/DataPlane.v ===== *)
(** * Holding and tearing down slots: internal/link/dataplane.go, teardown.go

    [dataPlane] remembers which slots of the node this replica may have programmed
    and tears them down when they leave the config, when another replica takes
    over, or when this one steps down. A nil identity dereference is [None].

    The theorems: no programmed slot is ever forgotten, because a slot leaves the
    record only when each of its teardown steps succeeded or found its object
    gone; an apply pass tears down exactly the slots that left the config;
    stepping down without error leaves nothing held; the remembered forwards only
    change on a successful apply. *)

From S2P Require Import Prelude GoStrings Identity Config Endpoints Render Apply.

(** ** Teardown steps *)
Record TeardownStep := mkTeardownStep { ts_Name : string; ts_Args : list string }.

Definition deleteTableCommand (table : string) : command :=
  exec "nft" ["delete"; "table"; "inet"; table].

Definition slotTeardownSteps (gatewayID slot : Z) : list TeardownStep :=
  let id := NewSlotIdentity gatewayID slot in
  let table := Itoa (RouteTable id) in
  [mkTeardownStep "ip" ["rule"; "del"; "fwmark"; Mark id +:+ "/" +:+ MarkMask id; "lookup"; table;
                        "priority"; rulePriority];
   mkTeardownStep "ip" ["route"; "flush"; "table"; table];
   mkTeardownStep "ip" ["link"; "del"; Interface id]].

Definition table_step (rc : RuntimeConfig) : TeardownStep :=
  let c := deleteTableCommand (nftTableName rc) in mkTeardownStep (name c) (args c).

Definition TeardownCommands (rc : RuntimeConfig) : list TeardownStep :=
  table_step rc ::
  match rc_Identity rc with
  | None => [mkTeardownStep "ip" ["link"; "del"; clusterInterface]]
  | Some id => Peers (rc_WireGuard rc) ≫= fun p => slotTeardownSteps (gi_ID id) (Slot p)
  end.

Definition absentObjectMarkers : list string :=
  [absentMarker; "Cannot find device"; "No such file or directory"].

(** ** The record *)
Record dataPlane := mkDataPlane {
  d_rc : RuntimeConfig;
  d_slots : gmap Z bool;
  d_otherHolder : bool;
  d_forwards : list ResolvedForward;
  d_publicAddress : string;
  d_warned : bool
}.

Definition newDataPlane (rc : RuntimeConfig) : dataPlane := mkDataPlane rc ∅ false [] "" false.

Definition with_slots (d : dataPlane) (m : gmap Z bool) : dataPlane :=
  mkDataPlane (d_rc d) m (d_otherHolder d) (d_forwards d) (d_publicAddress d) (d_warned d).
Definition with_rc (d : dataPlane) (rc : RuntimeConfig) : dataPlane :=
  mkDataPlane rc (d_slots d) (d_otherHolder d) (d_forwards d) (d_publicAddress d) (d_warned d).
Definition with_applied (d : dataPlane) (fs : list ResolvedForward) (addr : string) : dataPlane :=
  mkDataPlane (d_rc d) (d_slots d) (d_otherHolder d) fs addr (d_warned d).

Definition hold (d : dataPlane) (slot : Z) : dataPlane :=
  with_slots d (<[slot := false]> (d_slots d)).

Definition observeOtherHolder (d : dataPlane) : dataPlane :=
  mkDataPlane (d_rc d) (d_slots d) true (d_forwards d) (d_publicAddress d) (d_warned d).

Definition startLeading (d : dataPlane) : dataPlane :=
  mkDataPlane (d_rc d) (d_slots d) false (d_forwards d) "" (d_warned d).

Definition configuredSlots (rc : RuntimeConfig) : gset Z := list_to_set (Slot <$> Peers (rc_WireGuard rc)).

(** [d.slots[r.Slot] = r.Applied], in the results' order. *)
Definition record_results (m : gmap Z bool) (results : list SlotResult) : gmap Z bool :=
  foldl (fun m r => <[sr_Slot r := sr_Applied r]> m) m results.

Definition heldSlots (d : dataPlane) : list Z := sorted_ints (dom (d_slots d)).

Definition slotErrors (down : list SlotResult) : list string := omap sr_Err down.

Section Passes.
Context {W : Type} (run : W -> command -> W * option string).

Definition runTeardownStep (w : W) (step : TeardownStep) : W * option string :=
  let '(w, e) := run w (exec (ts_Name step) (ts_Args step)) in
  match e with
  | None => (w, None)
  | Some t => if existsb (Contains t) absentObjectMarkers then (w, None) else (w, Some t)
  end.

(** Every step is run whatever the others did; the errors are collected. *)
Fixpoint runTeardownSteps (w : W) (steps : list TeardownStep) : W * list string :=
  match steps with
  | [] => (w, [])
  | s :: steps =>
      let '(w, e) := runTeardownStep w s in
      let '(w, errs) := runTeardownSteps w steps in
      (w, match e with None => errs | Some t => t :: errs end)
  end.

Definition teardownCluster (w : W) (rc : RuntimeConfig) : W * option string :=
  let '(w, errs) := runTeardownSteps w (TeardownCommands rc) in (w, errors_join errs).

(** The loop over the sorted keys of [d.slots]. *)
Fixpoint teardown_loop (gid : option Z) (keep : gset Z) (w : W) (m : gmap Z bool) (slots : list Z)
  : option (W * gmap Z bool * list SlotResult) :=
  match slots with
  | [] => Some (w, m, [])
  | slot :: slots =>
      if bool_decide (slot ∈ keep) then teardown_loop gid keep w m slots
      else match gid with
           | None => None
           | Some g =>
               let '(w, errs) := runTeardownSteps w (slotTeardownSteps g slot) in
               match errors_join errs with
               | Some e =>
                   '(w, m, down) ← teardown_loop gid keep w (<[slot := false]> m) slots;
                   Some (w, m, mkSlotResult slot false (Some e) :: down)
               | None => teardown_loop gid keep w (delete slot m) slots
               end
           end
  end.

Definition teardownSlots (w : W) (d : dataPlane) (keep : gset Z)
  : option (W * dataPlane * list SlotResult) :=
  '(w, m, down) ← teardown_loop (gi_ID <$> rc_Identity (d_rc d)) keep w (d_slots d) (heldSlots d);
  Some (w, with_slots d m, down).

(** [apply] as [applyPass] receives it: the last applied forwards and address in,
    the pass's outcome out. *)
Definition applyPass (w : W) (d : dataPlane) (current : RuntimeConfig)
    (apply : W -> list ResolvedForward -> string -> W * apply_out)
  : option (W * dataPlane * list SlotResult * option string) :=
  let remember (d : dataPlane) (out : apply_out) :=
    match ao_err out with
    | None => with_applied d (ao_applied out) (PublicAddress current)
    | Some _ => d
    end in
  if negb (isLocal current) then
    let '(w, out) := apply w (d_forwards d) (d_publicAddress d) in
    Some (w, remember d out, ao_results out, ao_err out)
  else
    '(w, d, departed) ← teardownSlots w (with_rc d current) (configuredSlots current);
    let '(w, out) := apply w (d_forwards d) (d_publicAddress d) in
    let d := remember d out in
    let d := with_slots d (record_results (d_slots d) (ao_results out)) in
    Some (w, d, ao_results out ++ departed, ao_err out).

Definition standbyPass (w : W) (d : dataPlane) (current : RuntimeConfig) (leader : bool)
  : option (W * dataPlane * option string) :=
  if leader then Some (w, d, None)
  else
    let d := with_rc d current in
    if negb (d_otherHolder d) then Some (w, d, None)
    else '(w, d, down) ← teardownSlots w d ∅; Some (w, d, errors_join (slotErrors down)).

Definition stepDown (w : W) (d : dataPlane) : option (W * dataPlane * option string) :=
  if negb (isLocal (d_rc d)) then
    let '(w, e) := teardownCluster w (d_rc d) in Some (w, d, e)
  else
    let '(w, e) := runTeardownStep w (table_step (d_rc d)) in
    '(w, d, down) ← teardownSlots w d ∅;
    Some (w, d, errors_join (match e with None => [] | Some t => [t] end ++ slotErrors down)).
End Passes.

(** ** The teardown loop *)
Section Loop.
Context {W : Type} (run : W -> command -> W * option string).

(** What the loop leaves behind: [kept] slots untouched, and each other slot of the
    list either gone from the record or still there, marked not applied and
    reported. *)
Definition loop_post (keep : gset Z) (slots : list Z) (m m' : gmap Z bool) (down : list SlotResult)
  : Prop :=
  (forall s, s ∉ slots \/ s ∈ keep -> m' !! s = m !! s) /\
  (forall s, s ∈ slots -> s ∉ keep ->
     (m' !! s = None /\ s ∉ (sr_Slot <$> down)) \/ (m' !! s = Some false /\ s ∈ (sr_Slot <$> down))) /\
  Forall (fun r => sr_Slot r ∈ slots /\ sr_Slot r ∉ keep /\ sr_Applied r = false /\ is_Some (sr_Err r)) down.

Lemma teardown_loop_post g keep w m slots :
  NoDup slots ->
  exists w' m' down, teardown_loop run (Some g) keep w m slots = Some (w', m', down) /\
    loop_post keep slots m m' down.
Proof.
  intros Hnd. revert w m. induction Hnd as [|s slots Hs Hnd IH]; intros w m; cbn [teardown_loop].
  { exists w, m, []. split; [done|]. split_and!; [done|set_solver|constructor]. }
  case_bool_decide as Hk.
  { destruct (IH w m) as (w' & m' & down & -> & H1 & H2 & H3). exists w', m', down. split; [done|].
    split_and!.
    - intros t Ht. apply H1. set_solver.
    - intros t [->|Ht]%elem_of_cons Hnk; [done|auto].
    - eapply Forall_impl; [exact H3|]. cbn. set_solver. }
  destruct (runTeardownSteps run w (slotTeardownSteps g s)) as [w1 errs].
  destruct (errors_join errs) as [e|].
  - destruct (IH w1 (<[s := false]> m)) as (w' & m' & down & -> & H1 & H2 & H3).
    eexists w', m', _. split; [done|]. split_and!.
    + intros t Ht. rewrite H1 by set_solver. apply lookup_insert_ne. set_solver.
    + intros t [->|Ht]%elem_of_cons Hnk; rewrite fmap_cons, elem_of_cons.
      * right. rewrite H1 by auto. rewrite lookup_insert_eq. auto.
      * destruct (H2 t Ht Hnk) as [[? ?]|[? ?]]; [left|auto]. split; [done|].
        intros [->|?]; done.
    + constructor; [cbn; split_and!; [set_solver|done|done|by eexists]|].
      eapply Forall_impl; [exact H3|]. cbn. set_solver.
  - destruct (IH w1 (delete s m)) as (w' & m' & down & -> & H1 & H2 & H3).
    exists w', m', down. split; [done|]. split_and!.
    + intros t Ht. rewrite H1 by set_solver. apply lookup_delete_ne. set_solver.
    + intros t [->|Ht]%elem_of_cons Hnk; [|auto]. left. rewrite H1 by auto.
      rewrite lookup_delete_eq. split; [done|].
      intros (r & Hr & Hin)%list_elem_of_fmap. rewrite Forall_forall in H3.
      destruct (H3 r Hin) as [Hr' _]. rewrite <- Hr in Hr'. done.
    + eapply Forall_impl; [exact H3|]. cbn. set_solver.
Qed.

Lemma elem_of_heldSlots d s : s ∈ heldSlots d <-> is_Some (d_slots d !! s).
Proof. unfold heldSlots. by rewrite elem_of_sorted_ints, elem_of_dom. Qed.

(** On a Local record the teardown is total, keeps the kept slots and reports every
    other held slot it could not remove. *)
Lemma teardownSlots_post w d keep id :
  rc_Identity (d_rc d) = Some id ->
  exists w' m' down, teardownSlots run w d keep = Some (w', with_slots d m', down) /\
    loop_post keep (heldSlots d) (d_slots d) m' down.
Proof.
  intros Hid. unfold teardownSlots. rewrite Hid. cbn [fmap option_fmap option_map].
  destruct (teardown_loop_post (gi_ID id) keep w (d_slots d) (heldSlots d))
    as (w' & m' & down & -> & Hp); [apply NoDup_sorted_ints|].
  exists w', m', down. done.
Qed.

Lemma loop_post_down keep d m' down s :
  loop_post keep (heldSlots d) (d_slots d) m' down ->
  is_Some (m' !! s) <-> (is_Some (d_slots d !! s) /\ s ∈ keep) \/ s ∈ (sr_Slot <$> down).
Proof.
  intros (H1 & H2 & H3). rewrite <- elem_of_heldSlots.
  destruct (decide (s ∈ heldSlots d)) as [Hs|Hs].
  - destruct (decide (s ∈ keep)) as [Hk|Hk].
    + rewrite H1 by auto. rewrite <- elem_of_heldSlots. tauto.
    + destruct (H2 s Hs Hk) as [[-> Hn]|[-> Hn]]; [split; [by intros []|tauto]|].
      split; [auto|by eexists].
  - rewrite H1 by auto. rewrite <- elem_of_heldSlots. split; [done|]. intros [[? ?]|Hd]; [done|].
    apply list_elem_of_fmap in Hd as (r & -> & Hr). rewrite Forall_forall in H3.
    by destruct (H3 r Hr) as [? _].
Qed.
End Loop.

Lemma record_results_lookup m rs s :
  is_Some (record_results m rs !! s) <-> is_Some (m !! s) \/ s ∈ (sr_Slot <$> rs).
Proof.
  unfold record_results. revert m. induction rs as [|r rs IH]; intros m; cbn [foldl]; [set_solver|].
  rewrite IH, lookup_insert_is_Some, fmap_cons, elem_of_cons.
  destruct (decide (sr_Slot r = s)) as [->|]; [tauto|]. naive_solver.
Qed.

(** ** Properties of the passes *)

(** an apply pass never tears a configured slot down and never forgets one it
    could not remove: on a Local config the pass always completes, the slots held
    afterwards are the configured ones that were held, those the apply attempted and
    the departed ones whose teardown failed, the last reported after the apply's own
    results; and the remembered forwards change only when the apply succeeded. *)
Theorem applyPass_spec {W} run (w : W) d rc id apply :
  rc_Identity rc = Some id ->
  exists w1 w' out d' departed,
    apply w1 (d_forwards d) (d_publicAddress d) = (w', out) /\
    applyPass run w d rc apply = Some (w', d', ao_results out ++ departed, ao_err out) /\
    (forall s, s ∈ heldSlots d' <->
       (s ∈ heldSlots d /\ s ∈ configuredSlots rc) \/ s ∈ (sr_Slot <$> ao_results out) \/
       s ∈ (sr_Slot <$> departed)) /\
    Forall (fun r => sr_Slot r ∉ configuredSlots rc /\ sr_Applied r = false /\ is_Some (sr_Err r)) departed /\
    (d_forwards d', d_publicAddress d') =
      match ao_err out with
      | None => (ao_applied out, PublicAddress rc)
      | Some _ => (d_forwards d, d_publicAddress d)
      end.
Proof.
  intros Hid. unfold applyPass, isLocal. rewrite Hid. cbn [negb].
  destruct (teardownSlots_post run w (with_rc d rc) (configuredSlots rc) id Hid)
    as (w1 & m' & departed & -> & Hp). cbn [mbind option_bind].
  destruct (apply w1 _ _) as [w' out] eqn:E. exists w1, w', out. eexists _, departed.
  split; [exact E|]. split; [reflexivity|]. split_and!.
  - intros s. rewrite elem_of_heldSlots. cbn [d_slots with_slots].
    rewrite record_results_lookup.
    assert (Hd : d_slots (match ao_err out with
        | Some _ => with_slots (with_rc d rc) m'
        | None => with_applied (with_slots (with_rc d rc) m') (ao_applied out) (PublicAddress rc)
        end) = m') by (by destruct (ao_err out)).
    rewrite Hd, (loop_post_down _ _ _ _ s Hp), elem_of_heldSlots. cbn [d_slots with_rc]. tauto.
  - destruct Hp as (_ & _ & Hf). eapply Forall_impl; [exact Hf|]. cbn. tauto.
  - by destruct (ao_err out).
Qed.

(** stepping down cleanly leaves nothing behind: on a Local record [stepDown]
    always completes; every slot still held afterwards failed its teardown, and when
    no error is reported none is held. *)
Theorem stepDown_spec {W} run (w : W) d id :
  rc_Identity (d_rc d) = Some id ->
  exists w' d' err, stepDown run w d = Some (w', d', err) /\
    (forall s, s ∈ heldSlots d' -> s ∈ heldSlots d /\ d_slots d' !! s = Some false) /\
    (err = None -> heldSlots d' = []).
Proof.
  intros Hid. unfold stepDown, isLocal. rewrite Hid. cbn [negb].
  destruct (runTeardownStep run w (table_step (d_rc d))) as [w1 e].
  destruct (teardownSlots_post run w1 d ∅ id Hid) as (w' & m' & down & -> & Hp).
  cbn [mbind option_bind]. eexists w', _, _. split; [reflexivity|].
  pose proof (fun s => loop_post_down _ _ _ _ s Hp) as Hd. destruct Hp as (H1 & H2 & H3).
  assert (Hheld : forall s, is_Some (m' !! s) -> s ∈ heldSlots d /\ m' !! s = Some false).
  { intros s Hs. assert (Hin : s ∈ heldSlots d).
    { destruct (decide (s ∈ heldSlots d)) as [|Hn]; [done|]. rewrite H1 in Hs by auto.
      by apply elem_of_heldSlots. }
    split; [done|]. destruct (H2 s Hin) as [[Hn _]|[? _]]; [set_solver| |done].
    rewrite Hn in Hs. by destruct Hs. }
  split.
  - intros s. rewrite elem_of_heldSlots. cbn. apply Hheld.
  - intros He. destruct down as [|r down].
    + assert (Hm : m' = ∅).
      { apply map_empty. intros s. destruct (m' !! s) eqn:E; [|done].
        assert (Hs : is_Some (m' !! s)) by (by rewrite E).
        apply Hd in Hs as [[_ ?]|?]; set_solver. }
      subst m'. vm_compute. reflexivity.
    + exfalso. apply Forall_cons in H3 as [(_ & _ & _ & t & Ht) _].
      unfold errors_join in He. cbn [slotErrors omap list_omap] in He.
      destruct e; cbn in He; rewrite Ht in He; done.
Qed.

(** ** Nothing programmed is forgotten *)

(** What the code relies on of ip(8): each teardown step addresses one object of one
    slot (its rule, its routes, its link, numbered as the steps are), never creates
    one, and a step that succeeds, or answers with one of the absent wordings, leaves
    that object absent. *)
Class SlotObjects {W} (run : W -> command -> W * option string) (gid : Z)
    (objs : W -> gset (Z * nat)) : Prop := {
  so_shrinks w slot k step :
    slotTeardownSteps gid slot !! k = Some step ->
    objs (runTeardownStep run w step).1 ⊆ objs w;
  so_gone w slot k step :
    slotTeardownSteps gid slot !! k = Some step -> (runTeardownStep run w step).2 = None ->
    (slot, k) ∉ objs (runTeardownStep run w step).1;
  so_kinds w slot k : (slot, k) ∈ objs w -> (k < 3)%nat;
  so_table w table : objs (runTeardownStep run w (mkTeardownStep "nft" ["delete"; "table"; "inet"; table])).1 = objs w
}.

Section Forgotten.
Context {W : Type} (run : W -> command -> W * option string) (gid : Z) (objs : W -> gset (Z * nat)).
Context `{!SlotObjects run gid objs}.

(** The apply programs objects of the slots it reports a result for, and no others. *)
Definition apply_scope (apply : W -> list ResolvedForward -> string -> W * apply_out) : Prop :=
  forall w fs a slot k,
    (slot, k) ∈ objs (apply w fs a).1 ->
    (slot, k) ∈ objs w \/ slot ∈ (sr_Slot <$> ao_results (apply w fs a).2).

Definition covered (w : W) (m : gmap Z bool) : Prop :=
  forall slot k, (slot, k) ∈ objs w -> is_Some (m !! slot).

Definition has_gid (rc : RuntimeConfig) : Prop := exists id, rc_Identity rc = Some id /\ gi_ID id = gid.

Lemma steps_from w slot n steps :
  (forall k step, steps !! k = Some step -> slotTeardownSteps gid slot !! (n + k)%nat = Some step) ->
  objs (runTeardownSteps run w steps).1 ⊆ objs w /\
  ((runTeardownSteps run w steps).2 = [] ->
   forall k, (k < length steps)%nat -> (slot, (n + k)%nat) ∉ objs (runTeardownSteps run w steps).1).
Proof.
  revert w n. induction steps as [|s steps IH]; intros w n Hk; cbn [runTeardownSteps].
  { split; [done|]. cbn. lia. }
  assert (H0 : slotTeardownSteps gid slot !! n = Some s).
  { specialize (Hk 0%nat s eq_refl). by rewrite Nat.add_0_r in Hk. }
  pose proof (so_shrinks w slot n s H0) as Hsh. pose proof (so_gone w slot n s H0) as Hg.
  destruct (runTeardownStep run w s) as [w1 e]. cbn in Hsh, Hg.
  destruct (IH w1 (S n)) as [Hsub Hgone].
  { intros k step Hl. rewrite Nat.add_succ_comm. by apply Hk. }
  destruct (runTeardownSteps run w1 steps) as [w2 errs]. cbn in *. split; [set_solver|].
  intros He. destruct e as [t|]; [done|]. subst errs. intros [|k] Hlt.
  - rewrite Nat.add_0_r. specialize (Hg eq_refl). set_solver.
  - rewrite <- Nat.add_succ_comm. apply Hgone; [done|lia].
Qed.

Lemma slot_steps w slot :
  objs (runTeardownSteps run w (slotTeardownSteps gid slot)).1 ⊆ objs w /\
  ((runTeardownSteps run w (slotTeardownSteps gid slot)).2 = [] ->
   forall k, (slot, k) ∉ objs (runTeardownSteps run w (slotTeardownSteps gid slot)).1).
Proof.
  destruct (steps_from w slot 0 (slotTeardownSteps gid slot)) as [Hs Hg]; [done|].
  split; [done|]. intros He k Hin. pose proof (so_kinds _ _ _ Hin).
  by apply (Hg He k).
Qed.

Lemma errors_join_nil errs : errors_join errs = None -> errs = [].
Proof. by destruct errs. Qed.

Lemma loop_covered keep w m slots w' m' down :
  teardown_loop run (Some gid) keep w m slots = Some (w', m', down) ->
  covered w m -> covered w' m' /\ objs w' ⊆ objs w.
Proof.
  revert w m w' m' down. induction slots as [|s slots IH]; intros w m w' m' down; cbn [teardown_loop].
  { intros; simplify_eq. split; [done|set_solver]. }
  case_bool_decide as Hkeep; [apply IH|].
  pose proof (slot_steps w s) as [Hsub Hgone].
  destruct (runTeardownSteps run w (slotTeardownSteps gid s)) as [w1 errs]. cbn in Hsub, Hgone.
  destruct (errors_join errs) as [e|] eqn:E.
  - destruct (teardown_loop run (Some gid) keep w1 (<[s:=false]> m) slots) as [[[w2 m2] down2]|] eqn:L; [|done].
    intros Heq Hc; simplify_eq/=. destruct (IH _ _ _ _ _ L) as [? ?]; [|split; [done|set_solver]].
    intros t k Hin. apply lookup_insert_is_Some. destruct (decide (s = t)); [by left|right].
    split; [done|]. apply (Hc t k). set_solver.
  - intros Heq Hc. apply errors_join_nil in E. subst errs. specialize (Hgone eq_refl).
    destruct (IH _ _ _ _ _ Heq) as [? ?]; [|split; [done|set_solver]].
    intros t k Hin. destruct (decide (s = t)) as [->|]; [by destruct (Hgone k)|].
    rewrite lookup_delete_ne by done. apply (Hc t k). set_solver.
Qed.

Lemma teardownSlots_covered w d keep w' d' down :
  has_gid (d_rc d) -> teardownSlots run w d keep = Some (w', d', down) ->
  covered w (d_slots d) -> covered w' (d_slots d') /\ d_rc d' = d_rc d.
Proof.
  intros (id & Hid & Hg) H Hc. unfold teardownSlots in H. rewrite Hid in H. cbn in H. rewrite Hg in H. clear Hg.
  destruct (teardown_loop run (Some gid) keep w (d_slots d) (heldSlots d)) as [[[w1 m1] down1]|] eqn:L;
    [|done]. cbn in H. simplify_eq. split; [|done]. apply loop_covered in L as [? _]; done.
Qed.

(** The passes a Local replica runs, in any order. *)
Inductive dp_step : W * dataPlane -> W * dataPlane -> Prop :=
| dp_hold w d slot : dp_step (w, d) (w, hold d slot)
| dp_other w d : dp_step (w, d) (w, observeOtherHolder d)
| dp_lead w d : dp_step (w, d) (w, startLeading d)
| dp_apply w d rc apply w' d' rs e : has_gid rc -> apply_scope apply ->
    applyPass run w d rc apply = Some (w', d', rs, e) -> dp_step (w, d) (w', d')
| dp_standby w d rc leader w' d' e : has_gid rc ->
    standbyPass run w d rc leader = Some (w', d', e) -> dp_step (w, d) (w', d')
| dp_down w d w' d' e :
    stepDown run w d = Some (w', d', e) -> dp_step (w, d) (w', d').

Definition dp_ok (s : W * dataPlane) : Prop := has_gid (d_rc s.2) /\ covered s.1 (d_slots s.2).

Lemma dp_apply_ok w d rc apply w' d' rs e :
  has_gid rc -> apply_scope apply -> applyPass run w d rc apply = Some (w', d', rs, e) ->
  covered w (d_slots d) -> dp_ok (w', d').
Proof.
  intros Hg Hscope H Hc. unfold applyPass, isLocal in H.
  assert (Hg' : has_gid (d_rc (with_rc d rc))) by done. destruct Hg as (id & Hid & Hgid).
  rewrite Hid in H. cbn [negb] in H.
  destruct (teardownSlots run w (with_rc d rc) (configuredSlots rc)) as [[[w1 d1] dep]|] eqn:T; [|done].
  cbn [mbind option_bind] in H.
  destruct (teardownSlots_covered _ _ _ _ _ _ Hg' T Hc) as [Hc1 Hrc].
  pose proof (Hscope w1 (d_forwards d1) (d_publicAddress d1)) as Hs.
  destruct (apply w1 (d_forwards d1) (d_publicAddress d1)) as [w2 out]. cbn in Hs. injection H as <- <- _ _.
  assert (Hd : d_slots (match ao_err out with Some _ => d1
      | None => with_applied d1 (ao_applied out) (PublicAddress rc) end) = d_slots d1 /\
      d_rc (match ao_err out with Some _ => d1
      | None => with_applied d1 (ao_applied out) (PublicAddress rc) end) = d_rc d1)
    by (by destruct (ao_err out)).
  destruct Hd as [Hd1 Hd2]. split; cbn.
  - rewrite Hd2, Hrc. by exists id.
  - intros slot k Hin. rewrite Hd1. apply record_results_lookup.
    destruct (Hs slot k Hin); [left; by apply (Hc1 slot k)|by right].
Qed.

Lemma dp_step_ok s s' : dp_step s s' -> dp_ok s -> dp_ok s'.
Proof.
  intros Hs [Hg Hc]. destruct Hs as [w d slot|w d|w d|w d rc apply w' d' rs e Hg' Hscope H|w d rc leader w' d' e Hg' H|w d w' d' e H];
    cbn in Hg, Hc.
  - split; [done|]. intros t k Hin. apply lookup_insert_is_Some.
    destruct (decide (slot = t)); [by left|right]. split; [done|]. by apply (Hc t k).
  - done.
  - done.
  - eauto using dp_apply_ok.
  - unfold standbyPass in H. destruct leader; [by simplify_eq|]. cbn in H.
    destruct (d_otherHolder d); cbn in H; [|by simplify_eq].
    destruct (teardownSlots run w (with_rc d rc) ∅) as [[[w1 d1] down]|] eqn:T; [|done]. simplify_eq/=.
    destruct (teardownSlots_covered w (with_rc d rc) ∅ _ _ _ Hg' T Hc) as [? Hrc]. split; cbn; [by rewrite Hrc|done].
  - unfold stepDown, isLocal in H. pose proof Hg as Hg'. destruct Hg as (id & Hid & Hgid). rewrite Hid in H. cbn [negb] in H.
    pose proof (so_table w (nftTableName (d_rc d))) as Ht.
    unfold table_step in H. cbn [name args deleteTableCommand exec] in H.
    destruct (runTeardownStep run w _) as [w1 e1]. cbn in Ht.
    destruct (teardownSlots run w1 d ∅) as [[[w2 d2] down]|] eqn:T; [|done]. injection H as <- <- _.
    destruct (teardownSlots_covered _ _ _ _ _ _ Hg' T) as [? Hrc].
    { intros t k Hin. apply (Hc t k). by rewrite <- Ht. }
    split; cbn; [rewrite Hrc; by exists id|done].
Qed.

(** nothing programmed is ever forgotten: starting from a record that covers the
    node, through any sequence of holds, apply passes, standby passes, step-downs and
    leadership changes, and whichever teardown steps fail, every slot that still has
    a rule, a route or an interface on the node is held, so the next pass retries it. *)
Theorem slots_never_forgotten s s' :
  dp_ok s -> rtc dp_step s s' ->
  forall slot k, (slot, k) ∈ objs s'.1 -> slot ∈ heldSlots s'.2.
Proof.
  intros Hok Hr slot k Hin. apply elem_of_heldSlots.
  assert (Hok' : dp_ok s').
  { clear Hin. induction Hr as [|a b c Hab _ IH]; [done|]. apply IH. eauto using dp_step_ok. }
  by apply (proj2 Hok' slot k).
Qed.
End Forgotten.

(** ** Concrete instances *)
#[global] Instance TeardownStep_eq_dec : EqDecision TeardownStep.
Proof. solve_decision. Defined.

(** A node of gateway 5 as the set of its slots' objects; a command deletes the
    objects whose teardown step it is. *)
Definition toy_node_run (w : gset (Z * nat)) (c : command) : gset (Z * nat) * option string :=
  (filter (fun o => slotTeardownSteps 5 o.1 !! o.2 <> Some (mkTeardownStep (name c) (args c))) w, None).
Definition toy_objs (w : gset (Z * nat)) : gset (Z * nat) := filter (fun o => (o.2 < 3)%nat) w.

Lemma steps_are_ip slot k step : slotTeardownSteps 5 slot !! k = Some step -> ts_Name step = "ip".
Proof. destruct k as [|[|[|k]]]; cbn; intros; by simplify_eq. Qed.

#[global] Instance toy_node_objects : SlotObjects toy_node_run 5 toy_objs.
Proof.
  constructor.
  - intros w slot k [n a] Hs. unfold runTeardownStep. cbn. unfold toy_objs. set_solver.
  - intros w slot k [n a] Hs _. unfold runTeardownStep. cbn [toy_node_run fst ts_Name ts_Args exec name args].
    unfold toy_objs. rewrite !elem_of_filter. cbn. intros (_ & Hne & _). by destruct Hne.
  - intros w slot k Hin. unfold toy_objs in Hin. rewrite elem_of_filter in Hin. by destruct Hin.
  - intros w table. unfold runTeardownStep, toy_objs.
    cbn [toy_node_run fst ts_Name ts_Args exec name args].
    apply set_eq. intros [s k]. rewrite !elem_of_filter. cbn.
    split; [tauto|]. intros [? ?]. split_and!; [done| |done]. by intros ?%steps_are_ip.
Qed.

Definition toy_apply (w : gset (Z * nat)) (fs : list ResolvedForward) (a : string)
  : gset (Z * nat) * apply_out :=
  ({[(3, 2%nat)]} ∪ w, mkApplyOut [mkSlotResult 3 true None] fs None).

Lemma toy_apply_scope : apply_scope toy_objs toy_apply.
Proof. intros w fs a slot k. unfold toy_objs. rewrite !elem_of_filter. cbn. set_solver. Qed.

Definition toy_plane : dataPlane := hold (newDataPlane (sample_local [] [sample_peer 3])) 9.

Lemma applyPass_spec_witness :
  exists w1 w' out d' departed,
    toy_apply w1 (d_forwards toy_plane) (d_publicAddress toy_plane) = (w', out) /\
    applyPass toy_node_run {[(9, 0%nat)]} toy_plane (sample_local [] [sample_peer 3]) toy_apply
      = Some (w', d', ao_results out ++ departed, ao_err out) /\
    (forall s, s ∈ heldSlots d' <->
       (s ∈ heldSlots toy_plane /\ s ∈ configuredSlots (sample_local [] [sample_peer 3])) \/
       s ∈ (sr_Slot <$> ao_results out) \/ s ∈ (sr_Slot <$> departed)) /\
    Forall (fun r => sr_Slot r ∉ configuredSlots (sample_local [] [sample_peer 3]) /\
              sr_Applied r = false /\ is_Some (sr_Err r)) departed /\
    (d_forwards d', d_publicAddress d') =
      match ao_err out with
      | None => (ao_applied out, PublicAddress (sample_local [] [sample_peer 3]))
      | Some _ => (d_forwards toy_plane, d_publicAddress toy_plane)
      end.
Proof.
  apply (applyPass_spec toy_node_run {[(9, 0%nat)]} toy_plane (sample_local [] [sample_peer 3])
    (NewGatewayIdentity 5) toy_apply). reflexivity.
Defined.

Lemma stepDown_spec_witness :
  exists w' d' err, stepDown toy_node_run {[(9, 0%nat)]} toy_plane = Some (w', d', err) /\
    (forall s, s ∈ heldSlots d' -> s ∈ heldSlots toy_plane /\ d_slots d' !! s = Some false) /\
    (err = None -> heldSlots d' = []).
Proof.
  apply (stepDown_spec toy_node_run {[(9, 0%nat)]} toy_plane (NewGatewayIdentity 5)). reflexivity.
Defined.

Lemma slots_never_forgotten_witness :
  (9, 0%nat) ∈ toy_objs {[(9, 0%nat)]} /\ 9 ∈ heldSlots (startLeading toy_plane).
Proof.
  assert (Hin : (9, 0%nat) ∈ toy_objs {[(9, 0%nat)]})
    by (apply (bool_decide_unpack _); vm_compute; exact I).
  split; [exact Hin|].
  refine (slots_never_forgotten toy_node_run 5 toy_objs
    ({[(9, 0%nat)]}, toy_plane) ({[(9, 0%nat)]}, startLeading toy_plane) _ _ 9 0%nat Hin).
  - split.
    + exists (NewGatewayIdentity 5). split; reflexivity.
    + intros slot k. unfold toy_objs. cbn [fst snd]. rewrite elem_of_filter, elem_of_singleton.
      intros [_ E]. injection E as -> ->. exists false. reflexivity.
  - apply rtc_once. apply dp_lead.
Defined.
