(* ===== verification/Fault.v ===== *)
(** * Fault and slot-state publication: internal/link/fault.go

    What the Lease holder publishes on its Lease. The Lease is its holder and its
    annotations; [publishFault] and [publishSlotState] are read-modify-write loops
    retried on conflict, over an API server that refuses an update whose version
    is stale. JSON encoding is a parameter.

    The theorems: a bounded message fits and is cut on a rune boundary; a
    successful write never overwrites a Lease another replica holds, touches only
    its own annotations and leaves them at the value asked for. *)

From S2P Require Import Prelude GoStrings Config Endpoints Apply.

Definition FaultNoLocalEndpoint : string := "NoLocalEndpoint".
Definition knownFaults : list string := [FaultRPFilterStrict; FaultApplyFailed; FaultNoLocalEndpoint].
Definition maxFaultMessageBytes : nat := 4096.
Definition faultMessageTruncationMarker : string := "... (truncated)".

(** [utf8.RuneStart]: not a continuation byte. *)
Definition RuneStart (c : ascii) : bool := negb (Z.land (byte_val c) 192 =? 128).

(** The loop [for cut > 0 && !utf8.RuneStart(msg[cut])]. *)
Fixpoint cut_back (l : list ascii) (cut : nat) : nat :=
  match cut with
  | O => O
  | S n => match l !! cut with
           | Some c => if RuneStart c then cut else cut_back l n
           | None => cut
           end
  end.

Definition boundMessage (msg : string) : string :=
  let l := chars msg in
  if (length l <=? maxFaultMessageBytes)%nat then msg
  else
    let cut := cut_back l (maxFaultMessageBytes - String.length faultMessageTruncationMarker) in
    of_chars (take cut l) +:+ faultMessageTruncationMarker.

Definition reason_text (r : unsatisfied_reason) : string :=
  match r with
  | reasonWatchUnsynced => "endpoint watch not synced"
  | reasonNoLocalPod => "no ready backend pod on this node"
  | reasonPortNotFound => "service port not found on the ready local endpoints"
  end.

Definition describeUnsatisfied (us : list unsatisfiedForward) : string :=
  Join ((fun u => uf_name u +:+ " (" +:+ reason_text (uf_reason u) +:+ ")") <$> us) ", ".

Definition nodeMessage (node msg : string) : string :=
  if bool_decide (node = "") then msg else node +:+ ": " +:+ msg.

Definition leaderFault (node : string) (applyErr : option string) (us : list unsatisfiedForward)
  : string * string :=
  match applyErr with
  | Some e => (FaultApplyFailed, boundMessage (nodeMessage node ("apply: " +:+ e)))
  | None => match us with
            | _ :: _ => (FaultNoLocalEndpoint,
                nodeMessage node ("forwards without a ready local endpoint: " +:+ describeUnsatisfied us))
            | [] => ("", "")
            end
  end.

(** ** The Lease and its annotations *)
Definition LeaseFaultAnnotation : string := "wgnet.dev/link-fault".
Definition LeaseFaultMessageAnnotation : string := "wgnet.dev/link-fault-message".
Definition LeaseSlotStateAnnotation : string := "wgnet.dev/link-slot-state".

Record lease_obj := mkLeaseObj {
  lo_version : nat;
  lo_holder : option string;
  lo_annotations : gmap string string
}.

(** [holder != "" && holder != self] *)
Definition held_elsewhere (self : string) (l : lease_obj) : bool :=
  let holder := default "" (lo_holder l) in
  negb (bool_decide (holder = "")) && negb (bool_decide (holder = self)).

Definition with_annotations (l : lease_obj) (a : gmap string string) : lease_obj :=
  mkLeaseObj (lo_version l) (lo_holder l) a.

(** One pass of [publishFault]'s closure after the Get: the object to update with, or
    [None] when it returns without writing. *)
Definition fault_write (self reason message : string) (l : lease_obj) : option lease_obj :=
  let a := lo_annotations l in
  if held_elsewhere self l then None
  else if bool_decide (reason = "") then
    match a !! LeaseFaultAnnotation with
    | None => None
    | Some _ => Some (with_annotations l
                  (delete LeaseFaultMessageAnnotation (delete LeaseFaultAnnotation a)))
    end
  else if bool_decide (map_get "" a LeaseFaultAnnotation = reason) &&
          bool_decide (map_get "" a LeaseFaultMessageAnnotation = message) then None
  else Some (with_annotations l
         (<[LeaseFaultMessageAnnotation := message]> (<[LeaseFaultAnnotation := reason]> a))).

Definition slotStateApplied : string := "applied".
Definition slotStateDown : string := "down".
Record SlotState := mkSlotState { State : string; Message : string }.

Definition slot_state (r : SlotResult) : SlotState :=
  if sr_Applied r then mkSlotState slotStateApplied ""
  else mkSlotState slotStateDown (default "" (sr_Err r)).

Definition slot_states (rs : list SlotResult) : gmap string SlotState :=
  foldl (fun m r => <[Itoa (sr_Slot r) := slot_state r]> m) ∅ rs.

Section Publish.
Variable marshal : gmap string SlotState -> string.

Definition slotStateJSON (rs : list SlotResult) : string := marshal (slot_states rs).

(** One pass of [publishSlotState]'s closure after the Get. *)
Definition slot_write (self : string) (rs : list SlotResult) (l : lease_obj) : option lease_obj :=
  let a := lo_annotations l in
  let value := slotStateJSON rs in
  if held_elsewhere self l then None
  else match rs with
       | [] => match a !! LeaseSlotStateAnnotation with
               | None => None
               | Some _ => Some (with_annotations l (delete LeaseSlotStateAnnotation a))
               end
       | _ => if bool_decide (map_get "" a LeaseSlotStateAnnotation = value) then None
              else Some (with_annotations l (<[LeaseSlotStateAnnotation := value]> a))
       end.
End Publish.

(** ** The retry loop *)

(** The API server: [None] before the Lease exists. An update is refused when the
    stored version moved on, and bumps it otherwise. *)
Inductive update_result := Updated (l : lease_obj) | Conflict | UpdateError.

Definition server_update (stored : option lease_obj) (new : lease_obj) : update_result :=
  match stored with
  | None => UpdateError
  | Some l => if (lo_version l =? lo_version new)%nat
              then Updated (mkLeaseObj (S (lo_version l)) (lo_holder new) (lo_annotations new))
              else Conflict
  end.

(** What one attempt meets: the Lease its Get returns ([None] for an error), the
    Lease stored when its Update arrives, and whether that Update fails otherwise. *)
Record attempt := mkAttempt {
  at_get : option lease_obj;
  at_stored : option lease_obj;
  at_fail : bool
}.

Inductive publish_result :=
| NotWritten
| Written (over stored : lease_obj)
| GetError
| WriteError
| ConflictExhausted.

(** [retry.RetryOnConflict] over the attempts its backoff allows. *)
Fixpoint publish (write : lease_obj -> option lease_obj) (ats : list attempt) : publish_result :=
  match ats with
  | [] => ConflictExhausted
  | a :: ats =>
      match at_get a with
      | None => GetError
      | Some l =>
          match write l with
          | None => NotWritten
          | Some new =>
              if at_fail a then WriteError
              else match server_update (at_stored a) new with
                   | Updated l' => Written (default l (at_stored a)) l'
                   | Conflict => publish write ats
                   | UpdateError => WriteError
                   end
          end
      end
  end.

Definition publishFault (self reason message : string) := publish (fault_write self reason message).
Definition publishSlotState (marshal : gmap string SlotState -> string) (self : string)
    (rs : list SlotResult) := publish (slot_write marshal self rs).

(** ** Facts *)
Lemma cut_back_le l cut : (cut_back l cut <= cut)%nat.
Proof. induction cut as [|n IH]; cbn; [lia|]. repeat case_match; lia. Qed.

(** Between the cut and the limit there are only continuation bytes, and the cut
    itself is at the start of a rune. *)
Lemma cut_back_spec l cut :
  (cut < length l)%nat ->
  (cut_back l cut = 0%nat \/ exists c, l !! cut_back l cut = Some c /\ RuneStart c = true) /\
  forall i c, (cut_back l cut < i <= cut)%nat -> l !! i = Some c -> RuneStart c = false.
Proof.
  induction cut as [|n IH]; intros Hlt; cbn [cut_back]; [split; [auto|lia]|].
  destruct (lookup_lt_is_Some_2 l (S n) Hlt) as [c Hc]. rewrite Hc.
  destruct (RuneStart c) eqn:E; [split; [eauto|lia]|].
  destruct IH as [H1 H2]; [lia|]. split; [done|].
  intros i d Hi Hd. destruct (decide (i = S n)) as [->|]; [congruence|]. apply (H2 i); [lia|done].
Qed.

Lemma publish_written write ats over l' :
  publish write ats = Written over l' ->
  exists a l new, a ∈ ats /\ at_get a = Some l /\ write l = Some new /\
    at_stored a = Some over /\ lo_version over = lo_version new /\
    l' = mkLeaseObj (S (lo_version over)) (lo_holder new) (lo_annotations new).
Proof.
  induction ats as [|a ats IH]; cbn [publish]; [done|].
  destruct (at_get a) as [l|] eqn:Hg; [|done]. destruct (write l) as [new|] eqn:Hw; [|done].
  destruct (at_fail a); [done|]. unfold server_update.
  destruct (at_stored a) as [s|] eqn:Hs; [|done].
  destruct (Nat.eqb_spec (lo_version s) (lo_version new)).
  - intros; simplify_eq/=. exists a, l, new. split_and!; try done. set_solver.
  - intros (a' & H)%IH. exists a'. set_solver.
Qed.

Lemma fault_write_keeps self reason message l new :
  fault_write self reason message l = Some new ->
  held_elsewhere self l = false /\ lo_version new = lo_version l /\ lo_holder new = lo_holder l /\
  (forall k, k <> LeaseFaultAnnotation -> k <> LeaseFaultMessageAnnotation ->
     lo_annotations new !! k = lo_annotations l !! k) /\
  (reason = "" -> lo_annotations new !! LeaseFaultAnnotation = None /\
                  lo_annotations new !! LeaseFaultMessageAnnotation = None) /\
  (reason <> "" -> lo_annotations new !! LeaseFaultAnnotation = Some reason /\
                   lo_annotations new !! LeaseFaultMessageAnnotation = Some message).
Proof.
  unfold fault_write. destruct (held_elsewhere self l); [done|].
  assert (Hne : LeaseFaultAnnotation <> LeaseFaultMessageAnnotation) by done.
  case_bool_decide as Hr.
  - destruct (lo_annotations l !! LeaseFaultAnnotation) as [x|]; [|done]. intros; simplify_eq/=.
    split_and!; try done.
    + intros k H1 H2. by rewrite !lookup_delete_ne by congruence.
    + intros _. by rewrite lookup_delete_ne, !lookup_delete_eq by congruence.
  - destruct (_ && _); [done|]. intros; simplify_eq/=. split_and!; try done.
    + intros k H1 H2. by rewrite !lookup_insert_ne by congruence.
    + intros _. by rewrite lookup_insert_ne, !lookup_insert_eq by congruence.
Qed.

(** ** Properties *)

(** a bounded message always fits the annotation and stays on rune boundaries:
    at most 4096 bytes; unchanged when it fits; otherwise a prefix that ends where a
    rune starts, dropping only continuation bytes below the limit, followed by the
    marker. *)
Theorem boundMessage_spec msg :
  (String.length (boundMessage msg) <= 4096)%nat /\
  ((String.length msg <= 4096)%nat -> boundMessage msg = msg) /\
  ((4096 < String.length msg)%nat ->
   exists cut, boundMessage msg = of_chars (take cut (chars msg)) +:+ faultMessageTruncationMarker /\
     (cut <= 4081)%nat /\
     (cut = 0%nat \/ exists c, chars msg !! cut = Some c /\ RuneStart c = true) /\
     forall i c, (cut < i <= 4081)%nat -> chars msg !! i = Some c -> RuneStart c = false).
Proof.
  unfold boundMessage, maxFaultMessageBytes. rewrite length_chars.
  set (k := (4096 - String.length faultMessageTruncationMarker)%nat).
  assert (Hk : k = 4081%nat) by reflexivity. clearbody k. subst k.
  pose proof (cut_back_le (chars msg) 4081) as Hcut.
  destruct (Nat.leb_spec (String.length msg) 4096) as [Hle|Hgt].
  - split_and!; [done|done|lia].
  - split_and!; [|lia|].
    + rewrite string_length_app, <- length_chars, chars_of_chars, length_take.
      assert (Hm : String.length faultMessageTruncationMarker = 15%nat) by reflexivity.
      rewrite Hm. lia.
    + intros _. exists (cut_back (chars msg) 4081). split; [done|]. split; [done|].
      apply cut_back_spec. rewrite length_chars. lia.
Qed.

(** C32: a published fault is exact and never lands on another replica's Lease: when
    [publishFault] writes, through any number of conflicts, the Lease it replaced was
    free or held by this replica at the version it read, its holder and every other
    annotation are kept as read, and the two fault annotations are exactly what was
    asked for (both absent when clearing). *)
Theorem publishFault_safe self reason message ats over l' :
  publishFault self reason message ats = Written over l' ->
  exists a l, a ∈ ats /\ at_get a = Some l /\ at_stored a = Some over /\
    lo_version over = lo_version l /\ held_elsewhere self l = false /\
    lo_holder l' = lo_holder l /\
    (forall k, k <> LeaseFaultAnnotation -> k <> LeaseFaultMessageAnnotation ->
       lo_annotations l' !! k = lo_annotations l !! k) /\
    lo_annotations l' !! LeaseFaultAnnotation =
      (if decide (reason = "") then None else Some reason) /\
    lo_annotations l' !! LeaseFaultMessageAnnotation =
      (if decide (reason = "") then None else Some message).
Proof.
  intros (a & l & new & Ha & Hg & Hw & Hs & Hv & ->)%publish_written.
  apply fault_write_keeps in Hw as (Hh & Hver & Hhold & Hother & Hclr & Hset).
  exists a, l. cbn. split_and!; try done; try congruence.
  - case_decide; [by apply Hclr|by apply Hset].
  - case_decide; [by apply Hclr|by apply Hset].
Qed.

Definition sample_lease (v : nat) (holder : string) : lease_obj :=
  mkLeaseObj v (Some holder) {["wgnet.dev/tunnel-ready" := "true"]}.
Definition sample_attempts : list attempt :=
  [mkAttempt (Some (sample_lease 3 "me")) (Some (sample_lease 4 "me")) false;
   mkAttempt (Some (sample_lease 4 "me")) (Some (sample_lease 4 "me")) false].

Lemma publishFault_safe_witness :
  exists a l, a ∈ sample_attempts /\ at_get a = Some l /\ at_stored a = Some (sample_lease 4 "me") /\
    lo_version (sample_lease 4 "me") = lo_version l /\ held_elsewhere "me" l = false /\
    lo_holder (mkLeaseObj 5 (Some "me") (<[LeaseFaultMessageAnnotation := "n1: apply: boom"]>
      (<[LeaseFaultAnnotation := FaultApplyFailed]> {["wgnet.dev/tunnel-ready" := "true"]}))) = lo_holder l /\
    (forall k, k <> LeaseFaultAnnotation -> k <> LeaseFaultMessageAnnotation ->
       lo_annotations (mkLeaseObj 5 (Some "me") (<[LeaseFaultMessageAnnotation := "n1: apply: boom"]>
         (<[LeaseFaultAnnotation := FaultApplyFailed]> {["wgnet.dev/tunnel-ready" := "true"]}))) !! k
       = lo_annotations l !! k) /\
    lo_annotations (mkLeaseObj 5 (Some "me") (<[LeaseFaultMessageAnnotation := "n1: apply: boom"]>
      (<[LeaseFaultAnnotation := FaultApplyFailed]> {["wgnet.dev/tunnel-ready" := "true"]})))
      !! LeaseFaultAnnotation = Some FaultApplyFailed /\
    lo_annotations (mkLeaseObj 5 (Some "me") (<[LeaseFaultMessageAnnotation := "n1: apply: boom"]>
      (<[LeaseFaultAnnotation := FaultApplyFailed]> {["wgnet.dev/tunnel-ready" := "true"]})))
      !! LeaseFaultMessageAnnotation = Some "n1: apply: boom".
Proof.
  apply (publishFault_safe "me" FaultApplyFailed "n1: apply: boom" sample_attempts).
  vm_compute. reflexivity.
Defined.

(** A free Lease is written too: the guard refuses only another holder's. *)
Lemma publishFault_free_lease :
  publishFault "me" FaultApplyFailed "boom"
    [mkAttempt (Some (mkLeaseObj 1 None ∅)) (Some (mkLeaseObj 1 None ∅)) false]
  = Written (mkLeaseObj 1 None ∅) (mkLeaseObj 2 None
      {[LeaseFaultMessageAnnotation := "boom"; LeaseFaultAnnotation := FaultApplyFailed]}).
Proof. vm_compute. reflexivity. Qed.

(** The message naming 64 unsatisfied forwards, the most a Gateway may have, is
    published past the bound. *)
Lemma unsatisfied_message_unbounded :
  (maxFaultMessageBytes < String.length (leaderFault "n1" None
     (replicate 64 (mkUnsatisfied "payments-frontend-production-a" reasonNoLocalPod))).2)%nat.
Proof. vm_compute. lia. Qed.
