(* ===== verification/Readiness.v ===== *)
(** * Readiness and the Lease lock: internal/link/readiness.go, leaselock.go

    The readiness state the election, the apply path and the handlers share, the
    decision [/healthz] and the Lease annotations answer with, and the lock that
    stamps that answer on every Lease write. [wgShow] is a parameter giving the
    text of [wg show <iface> latest-handshakes].

    The theorems: the staleness window never drops below its floor, whatever the
    keepalive; [freshestHandshake] is the maximum valid epoch whatever the order
    of the lines; when a holder is ready; and what each Lease write carries. *)

From S2P Require Import Prelude GoStrings Identity Config Endpoints Render Apply.

Definition defaultStaleness : Z := 180 * second.
Definition minStaleness : Z := 150 * second.
Definition bodyNoHandshake : string := "no recent handshake".
Definition bodyNoPeers : string := "no peers configured".

Record readiness := mkReadiness {
  rd_local : bool;
  rd_gatewayID : Z;
  rd_keepalive : Z;
  rd_leader : bool;
  rd_applied : bool;
  rd_peers : Z;
  rd_nodeFault : string;
  rd_fault : string;
  rd_slots : list SlotResult
}.

Definition newReadiness (local : bool) (gatewayID : Z) : readiness :=
  mkReadiness local gatewayID 0 false false 0 "" "" [].

Definition setPass (r : readiness) (slots : list SlotResult) (peers keepalive : Z) (applied : bool)
  : readiness :=
  mkReadiness (rd_local r) (rd_gatewayID r) keepalive (rd_leader r) applied peers
    (rd_nodeFault r) (rd_fault r) slots.

Definition setLeader (r : readiness) (leader : bool) : readiness :=
  let r := setPass r [] 0 0 false in
  mkReadiness (rd_local r) (rd_gatewayID r) (rd_keepalive r) leader (rd_applied r) (rd_peers r)
    (rd_nodeFault r) (rd_fault r) (rd_slots r).

Definition setFault (r : readiness) (reason : string) : readiness :=
  mkReadiness (rd_local r) (rd_gatewayID r) (rd_keepalive r) (rd_leader r) (rd_applied r)
    (rd_peers r) (rd_nodeFault r) reason (rd_slots r).

Definition setNodeFault (r : readiness) (reason : string) : readiness :=
  mkReadiness (rd_local r) (rd_gatewayID r) (rd_keepalive r) (rd_leader r) (rd_applied r)
    (rd_peers r) reason (rd_fault r) (rd_slots r).

Definition gatingFault (r : readiness) : string :=
  if negb (bool_decide (rd_nodeFault r = "")) then rd_nodeFault r else rd_fault r.

(** [max(time.Duration(3*k)*time.Second, minStaleness)], each product wrapping. *)
Definition staleness (r : readiness) : Z :=
  if rd_keepalive r <=? 0 then defaultStaleness
  else Z.max (wrap64 (wrap64 (3 * rd_keepalive r) * second)) minStaleness.

(** ** Handshakes *)
Definition line_epoch (line : string) : option Z :=
  match last (Fields line) with
  | Some f =>
      if (length (Fields line) <? 2)%nat then None
      else match ParseInt f 64 with
           | Ok e => if e <=? 0 then None else Some e
           | Err _ => None
           end
  | None => None
  end.

Definition freshestHandshake (out : string) : option Z :=
  let newest := foldl (fun newest line =>
    match line_epoch line with
    | Some e => if newest <? e then e else newest
    | None => newest
    end) 0 (Split "010"%char out) in
  if newest =? 0 then None else Some (newest * second).

Section Status.
Variable wgShow : string -> result string string.
Variable now : Z.

Definition fresh_iface (r : readiness) (iface : string) : bool :=
  match wgShow iface with
  | Err _ => false
  | Ok out => match freshestHandshake out with
              | None => false
              | Some ts => time_sub now ts <? staleness r
              end
  end.

Definition freshClusterInterface (r : readiness) : bool := fresh_iface r clusterInterface.

Definition anyFreshSlot (r : readiness) : bool :=
  existsb (fun s => sr_Applied s && fresh_iface r (Interface (NewSlotIdentity (rd_gatewayID r) (sr_Slot s))))
    (rd_slots r).

Definition tunnelStatus (r : readiness) : bool * string :=
  if negb (rd_applied r) then (false, bodyNoHandshake)
  else if rd_local r then
    if (rd_peers r =? 0) || anyFreshSlot r then (true, "") else (false, bodyNoHandshake)
  else if rd_peers r =? 0 then (false, bodyNoPeers)
  else if freshClusterInterface r then (true, "")
  else (false, bodyNoHandshake).

Definition kubeletStatus (r : readiness) : bool * string :=
  let fault := gatingFault r in
  if negb (bool_decide (fault = "")) then (false, "node fault: " +:+ fault)
  else if negb (rd_leader r) then (true, "")
  else tunnelStatus r.

(** [handler]: the status code and the body. *)
Definition handler (r : readiness) : Z * string :=
  let '(ready, body) := kubeletStatus r in if ready then (200, "ok") else (503, body).

(** The state function [Run] gives the Lease lock. *)
Definition lease_state (r : readiness) : bool * string :=
  if negb (rd_leader r) then (false, "not leader") else tunnelStatus r.
End Status.

(** ** The Lease lock *)
Definition LeaseTunnelReadyAnnotation : string := "wgnet.dev/tunnel-ready".
Definition LeaseTunnelReasonAnnotation : string := "wgnet.dev/tunnel-reason".

(** The election record the elector reads and writes, and the Lease as the lock
    keeps it: its spec and its annotations. *)
Record LeaderElectionRecord := mkRecord {
  le_HolderIdentity : string;
  le_LeaseTransitions : Z;
  le_RenewTime : Z
}.

Record tunnelLease := mkTunnelLease {
  tl_spec : LeaderElectionRecord;
  tl_annotations : gmap string string
}.

Record tunnelLeaseLock := mkTunnelLeaseLock {
  tll_identity : string;
  tll_lease : option tunnelLease
}.


Definition annotate (state : bool * string) (l : tunnelLease) : tunnelLease :=
  let '(ready, reason) := state in
  let reason := if ready then "" else reason in
  mkTunnelLease (tl_spec l)
    (<[LeaseTunnelReasonAnnotation := reason]>
     (<[LeaseTunnelReadyAnnotation := FormatBool ready]> (tl_annotations l))).

Inductive lock_err := ErrNotInitialized | ErrServer (e : string).

(** The API calls: what the server answers a get, a create and an update with. *)
Record lease_client := mkLeaseClient {
  cl_get : result string tunnelLease;
  cl_create : tunnelLease -> result string tunnelLease;
  cl_update : tunnelLease -> result string tunnelLease
}.

Definition lock_Get (c : lease_client) (l : tunnelLeaseLock)
  : tunnelLeaseLock * result lock_err LeaderElectionRecord :=
  match cl_get c with
  | Err e => (l, Err (ErrServer e))
  | Ok lease => (mkTunnelLeaseLock (tll_identity l) (Some lease), Ok (tl_spec lease))
  end.

Definition lock_Create (c : lease_client) (state : bool * string) (l : tunnelLeaseLock)
    (ler : LeaderElectionRecord) : tunnelLeaseLock * option lock_err :=
  match cl_create c (annotate state (mkTunnelLease ler ∅)) with
  | Err e => (l, Some (ErrServer e))
  | Ok created => (mkTunnelLeaseLock (tll_identity l) (Some created), None)
  end.

(** The fetched object is rewritten in place before the call, so a failed update
    leaves the new spec and annotations on it. *)
Definition lock_Update (c : lease_client) (state : bool * string) (l : tunnelLeaseLock)
    (ler : LeaderElectionRecord) : tunnelLeaseLock * option lock_err :=
  match tll_lease l with
  | None => (l, Some ErrNotInitialized)
  | Some lease =>
      let lease := annotate state (mkTunnelLease ler (tl_annotations lease)) in
      match cl_update c lease with
      | Err e => (mkTunnelLeaseLock (tll_identity l) (Some lease), Some (ErrServer e))
      | Ok updated => (mkTunnelLeaseLock (tll_identity l) (Some updated), None)
      end
  end.

(** ** Facts *)
Definition epochs (out : string) : list Z := omap line_epoch (Split "010"%char out).

Lemma line_epoch_pos line e : line_epoch line = Some e -> 0 < e.
Proof.
  unfold line_epoch. destruct (last _); [|done]. destruct (_ <? _)%nat; [done|].
  destruct (ParseInt _ _); [|done]. destruct (Z.leb_spec a 0); [done|]. intros; by simplify_eq.
Qed.

Lemma newest_fold lines n :
  0 <= n ->
  let r := foldl (fun newest line => match line_epoch line with
             | Some e => if newest <? e then e else newest | None => newest end) n lines in
  n <= r /\ (r = n \/ r ∈ omap line_epoch lines) /\ forall e, e ∈ omap line_epoch lines -> e <= r.
Proof.
  revert n. induction lines as [|l lines IH]; intros n Hn; cbn [foldl]; [set_solver by lia|].
  csimpl. destruct (line_epoch l) as [e|] eqn:E; [|by apply IH].
  pose proof (line_epoch_pos _ _ E).
  destruct (Z.ltb_spec n e) as [Hlt|Hge].
  - destruct (IH e ltac:(lia)) as (H1 & H2 & H3). split_and!; [lia| |].
    + right. rewrite elem_of_cons. destruct H2; auto.
    + intros x [->|Hx]%elem_of_cons; [done|auto].
  - destruct (IH n Hn) as (H1 & H2 & H3). split_and!; [done| |].
    + rewrite elem_of_cons. tauto.
    + intros x [->|Hx]%elem_of_cons; [lia|auto].
Qed.

(** The result is the greatest positive epoch of any line. *)
Lemma freshestHandshake_spec out ts :
  freshestHandshake out = Some ts <->
  exists e, ts = e * second /\ e ∈ epochs out /\ forall e', e' ∈ epochs out -> e' <= e.
Proof.
  unfold freshestHandshake, epochs.
  destruct (newest_fold (Split "010"%char out) 0 ltac:(lia)) as (H1 & H2 & H3).
  set (r := foldl _ 0 _) in *. clearbody r.
  assert (Hpos : forall e, e ∈ omap line_epoch (Split "010"%char out) -> 0 < e).
  { intros e (l & _ & He)%list_elem_of_omap. by apply line_epoch_pos in He. }
  destruct (Z.eqb_spec r 0) as [->|Hr].
  - split; [done|]. intros (e & _ & He & _). specialize (Hpos e He). specialize (H3 e He). lia.
  - assert (Hin : r ∈ omap line_epoch (Split "010"%char out)) by (destruct H2; done). split.
    + intros; simplify_eq. exists r. auto.
    + intros (e & -> & He & Hmax). do 2 f_equal. specialize (H3 e He). specialize (Hmax r Hin). lia.
Qed.

(** ** Properties *)

(** the staleness window is never shorter than 150 seconds, for every value the
    keepalive can take, overflowing ones included, and is three keepalive intervals
    once that is longer, for every keepalive WireGuard accepts. *)
Theorem staleness_floor r :
  minStaleness <= staleness r /\
  (0 < rd_keepalive r <= 65535 -> staleness r = Z.max (3 * rd_keepalive r * second) minStaleness).
Proof.
  unfold staleness, minStaleness, defaultStaleness. split.
  - destruct (_ <=? _); unfold second; lia.
  - intros Hk. rewrite (proj2 (Z.leb_gt _ _)) by lia.
    rewrite (wrap64_id (3 * rd_keepalive r)) by (unfold int64_ok; lia).
    rewrite wrap64_id by (unfold int64_ok, second; lia). done.
Qed.

Lemma staleness_floor_witness :
  staleness (setPass (newReadiness true 5) [] 1 60 true) = Z.max (3 * 60 * second) minStaleness.
Proof.
  apply (staleness_floor (setPass (newReadiness true 5) [] 1 60 true)). cbn. lia.
Defined.

(** the probe passes a holder exactly when it should: a fault-free holder is
    ready iff its last pass applied and, in Local mode, the fleet is empty or one
    applied slot's interface has a handshake inside the window, in Cluster mode there
    is a peer and the tunnel's handshake is inside it; a replica that just became
    holder is unready until a pass of its own. *)
Theorem holder_ready_iff wgShow now r :
  gatingFault r = "" -> rd_leader r = true ->
  ((kubeletStatus wgShow now r).1 = true <->
   rd_applied r = true /\
   if rd_local r
   then rd_peers r = 0 \/ exists s, s ∈ rd_slots r /\ sr_Applied s = true /\
          exists out ts, wgShow (Interface (NewSlotIdentity (rd_gatewayID r) (sr_Slot s))) = Ok out /\
            freshestHandshake out = Some ts /\ time_sub now ts < staleness r
   else rd_peers r <> 0 /\
          exists out ts, wgShow clusterInterface = Ok out /\
            freshestHandshake out = Some ts /\ time_sub now ts < staleness r) /\
  (kubeletStatus wgShow now (setLeader r true)).1 = false.
Proof.
  intros Hf Hl. split; [|unfold kubeletStatus, setLeader, gatingFault in *; cbn; by rewrite Hf].
  assert (Hfresh : forall i, fresh_iface wgShow now r i = true <->
    exists out ts, wgShow i = Ok out /\ freshestHandshake out = Some ts /\ time_sub now ts < staleness r).
  { intros i. unfold fresh_iface. destruct (wgShow i) as [out|e]; [|naive_solver].
    destruct (freshestHandshake out) as [ts|] eqn:E; [|naive_solver].
    rewrite Z.ltb_lt. naive_solver. }
  unfold kubeletStatus, tunnelStatus. rewrite Hf, Hl. cbn [negb].
  rewrite bool_decide_true by done. cbn [negb].
  destruct (rd_applied r); cbn [negb]; [|naive_solver].
  destruct (rd_local r).
  - destruct (Z.eqb_spec (rd_peers r) 0) as [E|E]; cbn [orb]; [naive_solver|].
    destruct (anyFreshSlot wgShow now r) eqn:A; unfold anyFreshSlot in A.
    + apply existsb_exists in A as (s & Hs%list_elem_of_In & [? ?%Hfresh]%andb_true_iff). naive_solver.
    + split; [done|]. intros [_ [?|(s & Hs & Ha & Hx)]]; [done|]. exfalso.
      apply not_true_iff_false in A. apply A. apply existsb_exists.
      exists s. rewrite <- list_elem_of_In, andb_true_iff, Hfresh. done.
  - destruct (Z.eqb_spec (rd_peers r) 0) as [E|E]; [naive_solver|].
    unfold freshClusterInterface. rewrite <- Hfresh.
    destruct (fresh_iface wgShow now r clusterInterface); naive_solver.
Qed.

Definition sample_ready : readiness :=
  setPass (setLeader (newReadiness true 5) true) [mkSlotResult 3 true None] 1 25 true.
Definition sample_show (iface : string) : result string string :=
  if bool_decide (iface = "wg-gw5-3") then Ok ("pk 100" +:+ nl) else Err "no such device".

Lemma holder_ready_iff_witness :
  (kubeletStatus sample_show (120 * second) sample_ready).1 = true /\
  (kubeletStatus sample_show (120 * second) (setLeader sample_ready true)).1 = false.
Proof.
  split; [vm_compute; reflexivity|].
  apply (holder_ready_iff sample_show (120 * second) sample_ready); reflexivity.
Defined.

(** Every write of the lock carries this replica's current tunnel state, with the
    reason empty once ready, and keeps every other annotation of the Lease. *)
Lemma lock_Update_annotations c state l ler lease :
  tll_lease l = Some lease ->
  exists new, (forall e, cl_update c new = Err e ->
                 (lock_Update c state l ler).2 = Some (ErrServer e)) /\
    tl_spec new = ler /\
    tl_annotations new !! LeaseTunnelReadyAnnotation = Some (FormatBool state.1) /\
    tl_annotations new !! LeaseTunnelReasonAnnotation = Some (if state.1 then "" else state.2) /\
    (forall k, k <> LeaseTunnelReadyAnnotation -> k <> LeaseTunnelReasonAnnotation ->
       tl_annotations new !! k = tl_annotations lease !! k).
Proof.
  intros Hl. unfold lock_Update. rewrite Hl.
  exists (annotate state (mkTunnelLease ler (tl_annotations lease))).
  destruct state as [ready reason]. cbn. split_and!; try done.
  - intros e He. unfold annotate in He. by rewrite He.
  - by rewrite lookup_insert_ne, lookup_insert_eq by done.
  - by rewrite lookup_insert_eq.
  - intros k H1 H2. by rewrite !lookup_insert_ne by congruence.
Qed.
