(* ===== verification/Reload.v ===== *)
(** * The reload loop: internal/link/reconcile.go and newLeaderReconcile of link.go

    [reload_pass] is one run of the [apply] closure of [watchAndReload]: it loads the
    config, re-asserts the sysctls, snapshots the watcher and calls [reconcile] when
    something changed. The closure's captured variables are [reload_state].
    [reconcile] and [reassert] act on an abstract world; JSON encoding and SHA-256
    are parameters. [newLeaderReconcile] is the [reconcile] the process installs.

    The theorems: within the grace of its watch, an apply never drops the rules of a
    programmed forward because the watch has not synced; a pass is repeated until it succeeds on every slot and then
    settles; a reconcile without error left the Lease with the fault it computed. *)

From S2P Require Import Prelude GoStrings Identity Config Endpoints Render Apply Fault Readiness.

Definition defaultReconcileInterval : Z := 10 * second.

(** ** Loading *)
Inductive load_error :=
| LoadConfig (e : config_error)
| LoadMode (policy : string) (local : bool)
| LoadIdentity (got want : GatewayIdentity).

Section Load.
Variable unmarshal : string -> option RuntimeConfig.

Definition loadRuntimeConfigMatching (contents : option string) (startup : option GatewayIdentity)
  : result load_error RuntimeConfig :=
  match LoadRuntimeConfig unmarshal contents with
  | Err e => Err (LoadConfig e)
  | Ok rc =>
      match rc_Identity rc, startup with
      | None, None => Ok rc
      | Some id, Some want =>
          guard bool_decide (id = want) else LoadIdentity id want ;; Ok rc
      | _, _ => Err (LoadMode (TrafficPolicy rc) (bool_decide (is_Some startup)))
      end
  end.
End Load.

Definition forwardNames (forwards : list Forward) (pending : list string) : gset string :=
  list_to_set (filter (fun n => n ∉ pending) (Name <$> forwards)).

(** ** Digests *)
Definition nul : string := String "000"%char "".

(** What [rulesetDigest] writes to the hash. *)
Fixpoint unsat_text (us : list unsatisfiedForward) : string :=
  match us with
  | [] => ""
  | u :: us => nul +:+ uf_name u +:+ nul +:+ reason_text (uf_reason u) +:+ unsat_text us
  end.

Definition ruleset_text (ruleset : string) (us : list unsatisfiedForward) : string :=
  ruleset +:+ unsat_text us.

Record reload_state := mkReloadState {
  lastConfigDigest : string;
  lastRulesetDigest : string;
  appliedForwards : option (gset string)
}.

Definition reload_init : reload_state := mkReloadState "" "" None.

Section Reload.
Context {W E : Type}.
Variable unmarshal : string -> option RuntimeConfig.
Variable marshal : RuntimeConfig -> result string string.
Variable sha256 : string -> string.
Variable reassert : W -> RuntimeConfig -> W.
Variable reconcile : W -> RuntimeConfig -> list ResolvedForward -> list unsatisfiedForward ->
  W * (list SlotResult * option E).
Variable nodeName : string.
Variable startup : option GatewayIdentity.
Variable keptDataPlane : bool.

Definition configDigest (rc : RuntimeConfig) : result string string :=
  data <-! marshal rc ;; Ok (sha256 data).

Definition rulesetDigest (ruleset : string) (us : list unsatisfiedForward) : string :=
  sha256 (ruleset_text ruleset us).

Definition reload_call : Type := RuntimeConfig * list ResolvedForward * list unsatisfiedForward.

(** What a pass leaves: its captured variables, the watcher, the world, and the
    arguments it called [reconcile] with, if it did. *)
Record pass_result := mkPass {
  p_state : reload_state;
  p_ew : option endpointWatcher;
  p_world : W;
  p_call : option reload_call
}.

Definition seed_applied (st : reload_state) (rc : RuntimeConfig) : gset string :=
  match appliedForwards st with
  | Some a => a
  | None => if keptDataPlane then forwardNames (Forwards rc) [] else ∅
  end.

(** From [changed] to the end of the closure. [ruleset] is the ruleset digest, in
    Local mode only. *)
Definition reload_finish (st : reload_state) (ew : option endpointWatcher) (w : W)
    (rc : RuntimeConfig) (cfgDigest : string) (ruleset : option string)
    (forwards : list ResolvedForward) (us : list unsatisfiedForward) (pending : list string)
  : pass_result :=
  let changed := negb (bool_decide (cfgDigest = lastConfigDigest st)) ||
    match ruleset with
    | Some d => negb (bool_decide (d = lastRulesetDigest st))
    | None => false
    end in
  if negb changed then mkPass st ew w None
  else if existsb (fun p => bool_decide (Config.Endpoint p = "")) (Peers (rc_WireGuard rc))
  then mkPass st ew w None
  else
    let '(w, (results, err)) := reconcile w rc forwards us in
    match err with
    | Some _ => mkPass st ew w (Some (rc, forwards, us))
    | None =>
        if existsb (fun r => negb (sr_Applied r)) results
        then mkPass st ew w (Some (rc, forwards, us))
        else mkPass (mkReloadState cfgDigest (default (lastRulesetDigest st) ruleset)
                       (Some (forwardNames (Forwards rc) pending)))
               ew w (Some (rc, forwards, us))
    end.

(** One run of the closure: the file's contents, the clock at [setForwards] and at
    [snapshot]. [None] is a nil dereference in [snapshot]. *)
Definition reload_pass (contents : option string) (t_set t_snap : Z) (st : reload_state)
    (ew : option endpointWatcher) (w : W) : option pass_result :=
  match loadRuntimeConfigMatching unmarshal contents startup with
  | Err _ => Some (mkPass st ew w None)
  | Ok rc =>
      let w := reassert w rc in
      match configDigest rc with
      | Err _ => Some (mkPass st ew w None)
      | Ok cfgDigest =>
          let applied := seed_applied st rc in
          let st := mkReloadState (lastConfigDigest st) (lastRulesetDigest st) (Some applied) in
          match ew with
          | None => Some (reload_finish st None w rc cfgDigest None [] [] [])
          | Some x =>
              let x := setForwards x (Forwards rc) t_set in
              match snapshot x t_snap with
              | None => None
              | Some (forwards, us, pending) =>
                  if existsb (fun n => bool_decide (n ∈ applied)) pending
                  then Some (mkPass st (Some x) w None)
                  else match RenderNftables rc forwards nodeName with
                       | Err _ => Some (mkPass st (Some x) w None)
                       | Ok ruleset =>
                           Some (reload_finish st (Some x) w rc cfgDigest
                                   (Some (rulesetDigest ruleset us)) forwards us pending)
                       end
              end
          end
      end
  end.

(** A reconcile the pass records: no error and no slot down. *)
Definition recorded (res : list SlotResult * option E) : bool :=
  match res.2 with
  | Some _ => false
  | None => forallb sr_Applied res.1
  end.

(** ** Proofs *)
Lemma existsb_not_applied rs : existsb (fun r => negb (sr_Applied r)) rs = negb (forallb sr_Applied rs).
Proof. induction rs as [|r rs IH]; cbn; [done|]. rewrite IH. by destruct (sr_Applied r). Qed.

(** [reload_finish], on every branch: whether it calls, and what it records. *)
Lemma reload_finish_spec st ew w rc cfg rs fwds us pending :
  let p := reload_finish st ew w rc cfg rs fwds us pending in
  let res := reconcile w rc fwds us in
  p_ew p = ew /\
  match p_call p with
  | None => p_state p = st /\ p_world p = w /\
      ~ (Forall (fun q => Config.Endpoint q <> "") (Peers (rc_WireGuard rc)) /\
         (cfg <> lastConfigDigest st \/ exists d, rs = Some d /\ d <> lastRulesetDigest st))
  | Some c =>
      c = (rc, fwds, us) /\ p_world p = res.1 /\
      Forall (fun q => Config.Endpoint q <> "") (Peers (rc_WireGuard rc)) /\
      (cfg <> lastConfigDigest st \/ exists d, rs = Some d /\ d <> lastRulesetDigest st) /\
      p_state p = if recorded res.2
                  then mkReloadState cfg (default (lastRulesetDigest st) rs)
                         (Some (forwardNames (Forwards rc) pending))
                  else st
  end.
Proof.
  cbn. unfold reload_finish, recorded.
  set (ch := _ || _).
  assert (Hch : ch = true <->
    (cfg <> lastConfigDigest st \/ exists d, rs = Some d /\ d <> lastRulesetDigest st)).
  { subst ch. rewrite orb_true_iff, negb_true_iff, bool_decide_eq_false.
    destruct rs as [d|]; [rewrite negb_true_iff, bool_decide_eq_false|]; naive_solver. }
  assert (He : existsb (fun q => bool_decide (Config.Endpoint q = "")) (Peers (rc_WireGuard rc)) = false
    <-> Forall (fun q => Config.Endpoint q <> "") (Peers (rc_WireGuard rc))).
  { generalize (Peers (rc_WireGuard rc)). intros l. induction l as [|q l IH]; cbn.
    - split; [constructor|done].
    - by rewrite orb_false_iff, bool_decide_eq_false, Forall_cons, IH. }
  destruct ch; cbn; [|by destruct Hch; naive_solver].
  destruct (existsb _ (Peers _)); cbn; [by destruct He; naive_solver|].
  apply proj1 in Hch, He. specialize (Hch eq_refl). specialize (He eq_refl).
  destruct (reconcile w rc fwds us) as [w' [rs' e]]; cbn.
  rewrite existsb_not_applied.
  destruct e; cbn; [done|]. by destruct (forallb _ _).
Qed.

(** What a pass that reached [reload_finish] saw. *)
Definition pass_inputs (contents : option string) (t_set t_snap : Z) (st : reload_state)
    (ew : option endpointWatcher) (rc : RuntimeConfig) (cfg : string) (ew' : option endpointWatcher)
    (rs : option string) (fwds : list ResolvedForward) (us : list unsatisfiedForward)
    (pending : list string) : Prop :=
  loadRuntimeConfigMatching unmarshal contents startup = Ok rc /\
  configDigest rc = Ok cfg /\
  match ew with
  | None => ew' = None /\ rs = None /\ fwds = [] /\ us = [] /\ pending = []
  | Some x =>
      let x' := setForwards x (Forwards rc) t_set in
      ew' = Some x' /\ snapshot x' t_snap = Some (fwds, us, pending) /\
      (forall n, n ∈ pending -> n ∉ seed_applied st rc) /\
      exists ruleset, RenderNftables rc fwds nodeName = Ok ruleset /\
                      rs = Some (rulesetDigest ruleset us)
  end.

Definition seeded (st : reload_state) (rc : RuntimeConfig) : reload_state :=
  mkReloadState (lastConfigDigest st) (lastRulesetDigest st) (Some (seed_applied st rc)).

Lemma existsb_mem_false (X : gset string) (l : list string) :
  existsb (fun n => bool_decide (n ∈ X)) l = false <-> forall n, n ∈ l -> n ∉ X.
Proof.
  induction l as [|a l IH]; cbn; [split; [intros _ n Hn; by apply elem_of_nil in Hn|done]|].
  rewrite orb_false_iff, bool_decide_eq_false, IH. split.
  - intros [Ha Hl] n [->|Hn]%elem_of_cons; auto.
  - intros H. split; [apply H; by left|intros n Hn; apply H; by right].
Qed.

(** A pass over these inputs is [reload_finish] over them. *)
Lemma reload_pass_finish contents t_set t_snap st ew w rc cfg ew' rs fwds us pending :
  pass_inputs contents t_set t_snap st ew rc cfg ew' rs fwds us pending ->
  reload_pass contents t_set t_snap st ew w =
    Some (reload_finish (seeded st rc) ew' (reassert w rc) rc cfg rs fwds us pending).
Proof.
  intros (Hl & Hd & Hx). unfold reload_pass. rewrite Hl, Hd.
  destruct ew as [x|].
  - destruct Hx as (-> & -> & Hp & ruleset & -> & ->).
    by rewrite (proj2 (existsb_mem_false _ _) Hp).
  - by destruct Hx as (-> & -> & -> & -> & ->).
Qed.

(** A pass that calls [reconcile] had such inputs. *)
Lemma reload_pass_called contents t_set t_snap st ew w p rc fwds us :
  reload_pass contents t_set t_snap st ew w = Some p -> p_call p = Some (rc, fwds, us) ->
  exists cfg ew' rs pending,
    pass_inputs contents t_set t_snap st ew rc cfg ew' rs fwds us pending /\
    p = reload_finish (seeded st rc) ew' (reassert w rc) rc cfg rs fwds us pending.
Proof.
  unfold reload_pass, pass_inputs. intros Hp Hc.
  destruct (loadRuntimeConfigMatching _ _ _) as [rc0|] eqn:Hl; [|by simplify_eq/=].
  destruct (configDigest rc0) as [cfg|] eqn:Hd; [|by simplify_eq/=].
  destruct ew as [x|].
  - destruct (snapshot _ _) as [[[f u] pe]|] eqn:Hs; [|done].
    destruct (existsb _ pe) eqn:He; [by simplify_eq/=|].
    destruct (RenderNftables _ _ _) as [ruleset|] eqn:Hr; [|by simplify_eq/=].
    injection Hp as <-.
    pose proof (reload_finish_spec (seeded st rc0) (Some (setForwards x (Forwards rc0) t_set))
      (reassert w rc0) rc0 cfg (Some (rulesetDigest ruleset u)) f u pe) as Hf.
    cbn in Hf. unfold seeded in Hf. rewrite Hc in Hf. destruct Hf as (_ & [= -> -> ->] & _).
    exists cfg, (Some (setForwards x (Forwards rc0) t_set)), (Some (rulesetDigest ruleset u)), pe.
    split; [|done]. do 4 (split; [done|]). split; [by apply existsb_mem_false|eauto].
  - injection Hp as <-.
    pose proof (reload_finish_spec (seeded st rc0) None (reassert w rc0) rc0 cfg None [] [] []) as Hf.
    cbn in Hf. unfold seeded in Hf. rewrite Hc in Hf. destruct Hf as (_ & [= -> -> ->] & _).
    exists cfg, None, None, []. done.
Qed.

Lemma setForwards_forwards x fs now : w_forwards (setForwards x fs now) = fs.
Proof. unfold setForwards. by destruct (decide _). Qed.

Lemma setForwards_again x fs now now' :
  setForwards (setForwards x fs now) fs now' = setForwards x fs now.
Proof. unfold setForwards at 1. rewrite decide_True; [done|]. apply setForwards_forwards. Qed.

(** What a snapshot says of one forward. *)
Lemma snapshot_forward_in x now fwds us pending f :
  snapshot x now = Some (fwds, us, pending) -> f ∈ w_forwards x ->
  exists inf, w_slices x !! key_of f = Some inf /\
    match snapshot_forward x now inf f with
    | Resolved r => r ∈ fwds
    | Unsatisfied u => u ∈ us
    | Pending n => n ∈ pending
    end.
Proof.
  unfold snapshot. destruct (outcomes x now) as [os|] eqn:Eo; intros ? Hf; simplify_eq/=.
  unfold outcomes in Eo. apply mapM_Some in Eo. apply list_elem_of_lookup in Hf as [i Hi].
  destruct (Forall2_lookup_l _ _ _ _ _ Eo Hi) as (o & Ho%list_elem_of_lookup_2 & H).
  destruct (w_slices x !! key_of f) as [inf|]; [|done]. cbn in H. injection H as H. exists inf. split; [done|].
  rewrite H. destruct o; apply list_elem_of_omap; eauto.
Qed.


(** C23: A pass is repeated until it succeeds everywhere, and then settles. After a
    pass that called reconcile, a pass over the same config file and the same watch
    outcome calls reconcile again with the same arguments exactly when the first call
    returned an error or left a slot down; after a success on every slot it makes no
    call and leaves its state alone. *)
Theorem reload_rerun contents t_set t_snap t_set' t_snap' st ew w w' p p' rc fwds us :
  reload_pass contents t_set t_snap st ew w = Some p ->
  p_call p = Some (rc, fwds, us) ->
  (forall x', p_ew p = Some x' -> snapshot x' t_snap' = snapshot x' t_snap) ->
  reload_pass contents t_set' t_snap' (p_state p) (p_ew p) w' = Some p' ->
  if recorded (reconcile (reassert w rc) rc fwds us).2
  then p_call p' = None /\ p_state p' = p_state p
  else p_call p' = Some (rc, fwds, us).
Proof.
  intros Hp Hc Hsnap Hp'.
  destruct (reload_pass_called _ _ _ _ _ _ _ _ _ _ Hp Hc) as (cfg & ew' & rs & pe & Hin & ->).
  pose proof (reload_finish_spec (seeded st rc) ew' (reassert w rc) rc cfg rs fwds us pe) as Hf.
  cbn in Hf. rewrite Hc in Hf. destruct Hf as (Hew & _ & _ & Hends & Hch & Hst).
  rewrite Hst, Hew in Hp'. rewrite Hew in Hsnap.
  set (st' := if recorded _ then _ else _) in Hp', Hst.
  assert (Hin' : pass_inputs contents t_set' t_snap' st' ew' rc cfg ew' rs fwds us pe).
  { destruct Hin as (Hl & Hd & Hx). do 2 (split; [done|]).
    destruct ew as [x|]; cbn in Hx.
    - destruct Hx as (-> & Hs & Hpe & Hr). cbn. rewrite setForwards_again.
      split; [done|]. split; [by rewrite Hsnap|]. split; [|done].
      intros n Hn. subst st'. destruct (recorded _); cbn; [|by apply Hpe].
      unfold forwardNames. rewrite elem_of_list_to_set, list_elem_of_filter. tauto.
    - by destruct Hx as (-> & -> & -> & -> & ->). }
  rewrite (reload_pass_finish _ _ _ _ _ w' _ _ _ _ _ _ _ Hin') in Hp'. injection Hp' as <-.
  pose proof (reload_finish_spec (seeded st' rc) ew' (reassert w' rc) rc cfg rs fwds us pe) as Hf'.
  cbn zeta in Hf'. destruct Hf' as [_ Hf']. rewrite Hst.
  subst st'. destruct (recorded _) eqn:Hrec.
  - destruct (p_call _) as [c|] eqn:Hc' in Hf' |- *; [exfalso|by destruct Hf' as [-> _]].
    destruct Hf' as (_ & _ & _ & [Hcfg|(d & -> & Hd)] & _); [by apply Hcfg|by apply Hd].
  - destruct (p_call _) as [c|] eqn:Hc' in Hf' |- *; [by destruct Hf' as [-> _]|exfalso].
    destruct Hf' as (_ & _ & Hno). apply Hno. split; [exact Hends|exact Hch].
Qed.
End Reload.

(** ** What the ruleset digest covers *)
Definition nul_free (s : string) : Prop := "000"%char ∉ chars s.

(** A text that is empty or starts with the separator. *)
Definition nul_led (s : string) : Prop := s = "" \/ exists t, s = nul +:+ t.

Lemma nul_split_inj h h' t t' :
  nul_free h -> nul_free h' -> nul_led t -> nul_led t' ->
  h +:+ t = h' +:+ t' -> h = h' /\ t = t'.
Proof.
  unfold nul_free. intros Hh Hh' Ht Ht' Heq. revert h' Hh' Heq.
  induction h as [|c h IH]; intros [|c' h'] Hh' Heq; cbn in *.
  - done.
  - exfalso. destruct Ht as [->|[s ->]]; [done|]. cbn in Heq. injection Heq as <- _. set_solver.
  - exfalso. destruct Ht' as [->|[s ->]]; [done|]. cbn in Heq. injection Heq as -> _. set_solver.
  - injection Heq as <- Heq. destruct (IH ltac:(set_solver) h' ltac:(set_solver) Heq) as [-> ->].
    done.
Qed.

Lemma reason_text_nul_free r : nul_free (reason_text r).
Proof. unfold nul_free. apply (bool_decide_eq_true_1 (~ _)). by destruct r. Qed.

Lemma reason_text_inj r r' : reason_text r = reason_text r' -> r = r'.
Proof. by destruct r, r'. Qed.

(** The hash's input determines the ruleset and the unsatisfied forwards, so a change
    among the latter changes the input although no ruleset shows it. *)
Lemma ruleset_text_inj r r' us us' :
  nul_free r -> nul_free r' ->
  Forall (fun u => nul_free (uf_name u)) us -> Forall (fun u => nul_free (uf_name u)) us' ->
  ruleset_text r us = ruleset_text r' us' -> r = r' /\ us = us'.
Proof.
  intros Hr Hr' Hus Hus' Heq. unfold ruleset_text in Heq.
  assert (Hled : forall l, nul_led (unsat_text l)).
  { intros [|u l]; [by left|right]. cbn. eauto. }
  apply nul_split_inj in Heq as [-> Heq]; [|done..]. split; [done|].
  clear Hr Hr'. revert us' Hus' Heq. induction Hus as [|[n rs] us Hn _ IH];
    intros [|[n' rs'] us'] Hus' Heq; [done|by cbn in Heq..|].
  apply Forall_cons in Hus' as [Hn' Hus']. cbn in Heq, Hn, Hn'.
  apply (string_app_inj_l nul) in Heq.
  apply nul_split_inj in Heq as [<- Heq]; [|done|done|right; eauto..].
  apply (string_app_inj_l nul) in Heq.
  apply nul_split_inj in Heq as [Hrs Heq]; [|apply reason_text_nul_free..|done|done].
  apply reason_text_inj in Hrs as ->. by rewrite (IH us' Hus' Heq).
Qed.

(** ** newLeaderReconcile *)
Definition gatewayIDOf (rc : RuntimeConfig) : Z :=
  match rc_Identity rc with Some id => gi_ID id | None => 0 end.

Definition publish_failed (r : publish_result) : bool :=
  match r with NotWritten | Written _ _ => false | _ => true end.

Inductive reconcile_error :=
| PreCheckFailed (reason message : string)
| PublishFailed (reason : string)
| ApplyFailed (e : string).

Record reconcile_out {W : Type} := mkReconcileOut {
  ro_world : W;
  ro_rd : readiness;
  ro_slot_pub : option publish_result;
  ro_fault_pub : publish_result;
  ro_results : list SlotResult;
  ro_err : option reconcile_error
}.
Arguments reconcile_out : clear implicits.

Section LeaderReconcile.
Context {W : Type}.
Variable marshalSlots : gmap string SlotState -> string.
Variable apply : W -> RuntimeConfig -> list ResolvedForward -> W * (list SlotResult * option string).
Variables podName nodeName : string.
Variable preCheck : preCheckFault.

(** The closure [newLeaderReconcile] returns. [slotAts] and [faultAts] are what the
    attempts of its two Lease writes meet. *)
Definition newLeaderReconcile (slotAts faultAts : list attempt) (rd : readiness) (w : W)
    (rc : RuntimeConfig) (forwards : list ResolvedForward) (us : list unsatisfiedForward)
  : reconcile_out W :=
  if negb (bool_decide (pf_Reason preCheck = "")) then
    mkReconcileOut W w rd None (publishFault podName (pf_Reason preCheck) (pf_Message preCheck) faultAts)
      [] (Some (PreCheckFailed (pf_Reason preCheck) (pf_Message preCheck)))
  else
    let '(w, (results, applyErr)) := apply w rc forwards in
    let peers := Peers (rc_WireGuard rc) in
    let keepalive := match peers with [] => 0 | p :: _ => PersistentKeepalive p end in
    let rd := setPass rd results (Z.of_nat (length peers)) keepalive
                (bool_decide (applyErr = None)) in
    let rd := setFault rd (if bool_decide (applyErr = None) then "" else FaultApplyFailed) in
    let slotPub := publishSlotState marshalSlots podName results slotAts in
    let '(reason, message) := leaderFault nodeName applyErr us in
    let faultPub := publishFault podName reason message faultAts in
    mkReconcileOut W w rd (Some slotPub) faultPub results
      (match applyErr with
       | Some e => Some (ApplyFailed e)
       | None => if publish_failed faultPub then Some (PublishFailed reason) else None
       end).
End LeaderReconcile.

(** [readKeyFile], over the file's contents. *)
Inductive key_error := KeyRead | KeyEmpty.

Definition readKeyFile (contents : option string) : result key_error string :=
  match contents with
  | None => Err KeyRead
  | Some raw => let key := TrimSpace raw in
                if bool_decide (key = "") then Err KeyEmpty else Ok key
  end.

(** ** The config directory watch *)
Inductive watch_event :=
| EvDone
| EvFs (ok dir removed : bool)
| EvError (ok : bool)
| EvTick
| EvExtra.

Inductive watch_exit :=
| Watching
| WatchStopped
| WatchCreateFailed
| WatchAddFailed
| EventsClosed
| ErrorsClosed.

Section Watch.
Context {W : Type}.
Variable onChange : W -> W.
Variable readd : W -> W.

(** The select loop over the events it receives, in order. *)
Fixpoint watch_loop (evs : list watch_event) (w : W) : watch_exit * W :=
  match evs with
  | [] => (Watching, w)
  | ev :: evs =>
      match ev with
      | EvDone => (WatchStopped, w)
      | EvFs ok dir removed =>
          if negb ok then (EventsClosed, w)
          else watch_loop evs (onChange (if dir && removed then readd w else w))
      | EvError ok => if negb ok then (ErrorsClosed, w) else watch_loop evs w
      | EvTick | EvExtra => watch_loop evs (onChange w)
      end
  end.

Definition watch_interval (configured : Z) : Z :=
  if configured <=? 0 then defaultReconcileInterval else configured.

(** [created] and [added]: whether NewWatcher and Add succeed; [done]: whether the
    context is already done when the loop is reached. *)
Definition watchConfigDir (created added done : bool) (evs : list watch_event) (w : W)
  : watch_exit * W :=
  if negb created then (WatchCreateFailed, w)
  else if negb added then (WatchAddFailed, w)
  else if done then (WatchStopped, w)
  else watch_loop evs (onChange w).
End Watch.

(** ** The two watches of the directory *)
Section Watches.
Context {W E : Type}.
Variable unmarshal : string -> option RuntimeConfig.
Variable startup : option GatewayIdentity.
(** The config file and the clock, in the world as it is. *)
Variable contents : W -> option string.
Variable clock : W -> Z.
Variable readd : W -> W.
Variables created added done : bool.

(** The leader's: each change runs the reload closure; nothing runs after a panic. *)
Definition watchAndReload (marshal : RuntimeConfig -> result string string) (sha256 : string -> string)
    (reassert : W -> RuntimeConfig -> W)
    (reconcile : W -> RuntimeConfig -> list ResolvedForward -> list unsatisfiedForward -> W * (list SlotResult * option E))
    (nodeName : string) (keptDataPlane : bool) (evs : list watch_event) (ew : option endpointWatcher) (w : W)
  : watch_exit * option pass_result :=
  watchConfigDir
    (fun s => p ← s; reload_pass unmarshal marshal sha256 reassert reconcile nodeName startup keptDataPlane
                       (contents (p_world p)) (clock (p_world p)) (clock (p_world p)) (p_state p) (p_ew p) (p_world p))
    (fmap (fun p => mkPass (p_state p) (p_ew p) (readd (p_world p)) (p_call p)))
    created added done evs (Some (mkPass reload_init ew w None)).

(** Every replica's: an accepted config sets the watched forwards and is handed on. *)
Definition forwards_pass (onConfig : W -> RuntimeConfig -> W) (x : endpointWatcher * W) : endpointWatcher * W :=
  match loadRuntimeConfigMatching unmarshal (contents x.2) startup with
  | Err _ => x
  | Ok rc => (setForwards x.1 (Forwards rc) (clock x.2), onConfig x.2 rc)
  end.

Definition watchLocalForwards (onConfig : W -> RuntimeConfig -> W) (evs : list watch_event) (x : endpointWatcher * W)
  : watch_exit * (endpointWatcher * W) :=
  watchConfigDir (forwards_pass onConfig) (fun x => (x.1, readd x.2)) created added done evs x.
End Watches.

(** What every change and re-add keeps, the watch keeps. *)
Lemma watchConfigDir_keeps {W} (P : W -> Prop) onChange readd created added done evs w :
  (forall w, P w -> P (onChange w)) -> (forall w, P w -> P (readd w)) -> P w ->
  P (watchConfigDir onChange readd created added done evs w).2.
Proof.
  intros Hc Hr Hw. unfold watchConfigDir. destruct (negb created); [done|]. destruct (negb added); [done|].
  destruct done; [done|]. assert (Hw' : P (onChange w)) by auto. revert Hw'. generalize (onChange w) as v. clear w Hw.
  induction evs as [|ev evs IH]; intros v Hv; [done|]. cbn. destruct ev as [|ok dir removed|ok| |]; [done| | |auto..].
  - destruct (negb ok); [done|]. apply IH, Hc. destruct (dir && removed); auto.
  - destruct (negb ok); [done|auto].
Qed.

(** A replica's watch keeps the endpoint watcher sound, and only configs of the identity
    the process started with are ever handed on. *)
Lemma watchLocalForwards_keeps {W} unmarshal startup contents clock readd created added done
    (onConfig : W -> RuntimeConfig -> W) (P : W -> Prop) evs x :
  (forall w rc, P w -> (exists c, loadRuntimeConfigMatching unmarshal c startup = Ok rc) -> P (onConfig w rc)) ->
  (forall w, P w -> P (readd w)) -> watcher_ok x.1 -> P x.2 ->
  let y := (watchLocalForwards unmarshal startup contents clock readd created added done onConfig evs x).2 in
  watcher_ok y.1 /\ P y.2.
Proof.
  intros Hc Hr Hw Hp. apply (watchConfigDir_keeps (fun x => watcher_ok x.1 /\ P x.2)); [|naive_solver|done].
  intros [ew w] [He Hpw]. unfold forwards_pass. cbn [fst snd] in *.
  destruct (loadRuntimeConfigMatching _ _ _) as [rc|e] eqn:E; [|done]. cbn. split; [by apply setForwards_ok|eauto].
Qed.

(** ** Proofs: reconciling *)
Lemma readKeyFile_trimmed contents key :
  readKeyFile contents = Ok key -> key <> "" /\ exists raw, contents = Some raw /\ key = TrimSpace raw.
Proof.
  unfold readKeyFile. destruct contents as [raw|]; [|done].
  destruct (bool_decide _) eqn:Hb; intros [= <-]. apply bool_decide_eq_false in Hb. eauto.
Qed.

(** The Lease a publication leaves without failing: the one it wrote, or the one it
    read and left alone. *)
Definition published_lease (ats : list attempt) (r : publish_result) (l : lease_obj) : Prop :=
  match r with
  | Written _ l' => l = l'
  | NotWritten => exists a, a ∈ ats /\ at_get a = Some l
  | _ => False
  end.

Definition shows_fault (reason message : string) (l : lease_obj) : Prop :=
  if bool_decide (reason = "") then lo_annotations l !! LeaseFaultAnnotation = None
  else map_get "" (lo_annotations l) LeaseFaultAnnotation = reason /\
       map_get "" (lo_annotations l) LeaseFaultMessageAnnotation = message.

Lemma fault_write_shows self reason message l :
  match fault_write self reason message l with
  | None => held_elsewhere self l = true \/ shows_fault reason message l
  | Some new => shows_fault reason message new
  end.
Proof.
  unfold fault_write, shows_fault, map_get. destruct (held_elsewhere self l); [by left|].
  destruct (bool_decide (reason = "")) eqn:Hr.
  - destruct (_ !! LeaseFaultAnnotation) eqn:Ha; [|by right]. cbn.
    rewrite lookup_delete_ne by done. by rewrite lookup_delete_eq.
  - destruct (_ && _) eqn:Hb.
    + right. apply andb_true_iff in Hb as [?%bool_decide_eq_true ?%bool_decide_eq_true]. done.
    + cbn. rewrite lookup_insert_ne by done. by rewrite !lookup_insert_eq.
Qed.

Lemma publishFault_shows self reason message ats :
  publish_failed (publishFault self reason message ats) = false ->
  exists l, published_lease ats (publishFault self reason message ats) l /\
            (held_elsewhere self l = true \/ shows_fault reason message l).
Proof.
  unfold publishFault. induction ats as [|a ats IH]; cbn; [done|].
  destruct (at_get a) as [l|] eqn:Hg; [|done].
  pose proof (fault_write_shows self reason message l) as Hw.
  destruct (fault_write _ _ _ l) as [new|].
  - destruct (at_fail a); [done|]. unfold server_update.
    destruct (at_stored a) as [st|]; [|done].
    destruct (lo_version st =? lo_version new)%nat.
    + intros _. eexists. split; [done|]. by right.
    + intros Hf. destruct (IH Hf) as (l' & Hl' & H'). exists l'. split; [|done].
      destruct (publish _ ats); try done. destruct Hl' as (a' & Ha' & ?). exists a'.
      rewrite elem_of_cons. auto.
  - intros _. exists l. split; [|done]. exists a. by rewrite elem_of_cons; auto.
Qed.

(** C31: What a reconcile that reports no error has done. It ran on a node that passed
    its pre-check, its apply ran and returned no error (a slot that could not be applied
    is down in its results), readiness now shows the pass and no fault, and the Lease it last read or wrote either carries exactly the fault
    [leaderFault] computes from the unsatisfied forwards (none when all are satisfied)
    or is held by another replica. So the reload loop never records a config whose
    fault has not been published. *)
Theorem leader_reconcile_ok {W} marshalSlots apply podName nodeName preCheck slotAts faultAts rd
    (w : W) rc fwds us :
  let out := newLeaderReconcile marshalSlots apply podName nodeName preCheck slotAts faultAts
               rd w rc fwds us in
  ro_err out = None ->
  pf_Reason preCheck = "" /\
  (exists w', apply w rc fwds = (w', (ro_results out, None)) /\ ro_world out = w') /\
  rd_applied (ro_rd out) = true /\ rd_fault (ro_rd out) = "" /\
  rd_peers (ro_rd out) = Z.of_nat (length (Peers (rc_WireGuard rc))) /\
  exists l, published_lease faultAts (ro_fault_pub out) l /\
    (held_elsewhere podName l = true \/
     shows_fault (leaderFault nodeName None us).1 (leaderFault nodeName None us).2 l).
Proof.
  cbv zeta. unfold newLeaderReconcile.
  destruct (bool_decide (pf_Reason preCheck = "")) eqn:Hpf; cbn [negb]; [|done].
  apply bool_decide_eq_true in Hpf. destruct (apply w rc fwds) as [w' [results [e|]]].
  - by destruct (leaderFault nodeName (Some e) us).
  - destruct (leaderFault nodeName None us) as [reason message]. cbn.
    destruct (publish_failed _) eqn:Hp; [done|]. intros _.
    split; [done|]. split; [eauto|]. do 3 (split; [done|]). exact (publishFault_shows _ _ _ _ Hp).
Qed.

Definition sample_reconcile (faultAts : list attempt) : reconcile_out nat :=
  newLeaderReconcile (fun _ => "{}")
    (fun (w : nat) rc (_ : list ResolvedForward) => (S w, ([mkSlotResult 3 true None], None)))
    "p1" "n1" (mkPreCheckFault "" "") [] faultAts (newReadiness true 5) 0%nat
    (sample_local [sample_forward 80 "tcp"] [sample_peer 3]) []
    [mkUnsatisfied "web" reasonNoLocalPod].

Definition sample_fault_attempts : list attempt :=
  [mkAttempt (Some (sample_lease 4 "p1")) (Some (sample_lease 5 "p1")) false;
   mkAttempt (Some (sample_lease 5 "p1")) (Some (sample_lease 5 "p1")) false].

Lemma leader_reconcile_ok_witness :
  ro_err (sample_reconcile sample_fault_attempts) = None /\
  exists l, published_lease sample_fault_attempts
      (ro_fault_pub (sample_reconcile sample_fault_attempts)) l /\
    (held_elsewhere "p1" l = true \/
     shows_fault FaultNoLocalEndpoint
       (leaderFault "n1" None [mkUnsatisfied "web" reasonNoLocalPod]).2 l).
Proof.
  split; [vm_compute; reflexivity|].
  apply (leader_reconcile_ok (fun _ => "{}")
    (fun (w : nat) rc (_ : list ResolvedForward) => (S w, ([mkSlotResult 3 true None], None)))
    "p1" "n1" (mkPreCheckFault "" "") [] sample_fault_attempts (newReadiness true 5) 0%nat
    (sample_local [sample_forward 80 "tcp"] [sample_peer 3]) []
    [mkUnsatisfied "web" reasonNoLocalPod]).
  vm_compute. reflexivity.
Defined.

(** A sample process: a Local config with one forward, digests that are the digested
    text itself, and a reconcile that fails on its first call. *)
Definition sample_rc : RuntimeConfig := sample_local [sample_forward 80 "tcp"] [sample_peer 3].

Definition sample_call (w : nat) (_ : RuntimeConfig) (_ : list ResolvedForward)
    (_ : list unsatisfiedForward) : nat * (list SlotResult * option string) :=
  (S w, ([mkSlotResult 3 (0 <? w)%nat None], None)).

Definition sample_pass : option string -> Z -> Z -> reload_state -> option endpointWatcher -> nat ->
    option (pass_result (W := nat)) :=
  reload_pass (fun _ => Some sample_rc) (fun _ => Ok "rc") (fun s => s) (fun w _ => w) sample_call
    "n1" (Some (NewGatewayIdentity 5)) true.

Definition sample_pass_1 : option (pass_result (W := nat)) :=
  sample_pass (Some "{}") 0 0 reload_init (Some synced_watcher) 0%nat.

Definition sample_fwds : list ResolvedForward := [mkResolvedForward "web" 80 "tcp" "10.0.0.9" 8080].

Definition sample_p1 : pass_result (W := nat) :=
  default (mkPass reload_init None 0%nat None) sample_pass_1.
Definition sample_p2 : pass_result (W := nat) :=
  default (mkPass reload_init None 0%nat None)
    (sample_pass (Some "{}") 7 0 (p_state sample_p1) (p_ew sample_p1) 1%nat).


(** The grace run out: the same watcher with its informer not synced yet. *)
Lemma unsynced_after_grace :
  p_call <$> sample_pass (Some "{}") 0 (2 * endpointSyncGrace) reload_init
    (Some (newEndpointWatcher "n1" [] [sample_forward 80 "tcp"] 0)) 0%nat =
  Some (Some (sample_rc, [], [mkUnsatisfied (Name (sample_forward 80 "tcp")) reasonWatchUnsynced])).
Proof. vm_compute. reflexivity. Qed.

(** The first call of the sample leaves its slot down, so the second pass calls again. *)
Lemma reload_rerun_witness :
  recorded (sample_call 0 sample_rc sample_fwds []).2 = false /\
  p_call sample_p2 = Some (sample_rc, sample_fwds, []).
Proof.
  split; [reflexivity|].
  apply (reload_rerun (fun _ => Some sample_rc) (fun _ => Ok "rc") (fun s => s)
    (fun (w : nat) (_ : RuntimeConfig) => w) sample_call "n1" (Some (NewGatewayIdentity 5)) true
    (Some "{}") 0 0 7 0 reload_init (Some synced_watcher) 0%nat 1%nat sample_p1 sample_p2
    sample_rc sample_fwds []).
  - vm_compute. reflexivity.
  - vm_compute. reflexivity.
  - reflexivity.
  - vm_compute. reflexivity.
Defined.
