(* ===== verification/Runner.v ===== *)
(** * The link process: Run of internal/link/link.go and the election loop runElection
      of internal/link/election.go

    The process loads its config, takes over the data plane an earlier process left on
    the node, and then runs one leadership cycle after another until it is shut down or
    its reload loop fails. The cycles are those of [Cycle]; between them only the pending
    flag, the fence in progress and what is programmed on the node carry over.
    [exit_leaves_no_plane] shows that [runElection] never returns with something
    programmed that no fence was run for, [shutdown_terminates] that a shutdown always
    gets there. *)

From S2P Require Import Prelude GoStrings Identity Config Endpoints Election Cycle Apply DataPlane Fault Readiness Reload.

(** ** Start-up *)
Inductive start_error :=
| StartConfig (e : config_error)
| StartKey (e : key_error)
| StartNoNodeName
| StartClient (e : string)
| StartWatcher (e : string).

(** What [Run] hands to its goroutines. *)
Record started := mkStarted {
  sd_rc : RuntimeConfig;
  sd_privKey : string;
  sd_dp : dataPlane;
  sd_inherited : bool;
  sd_rd : readiness;
  sd_preCheck : preCheckFault;
  sd_ew : option endpointWatcher
}.

(** The data plane found on the node; [names] are the node's interfaces, or nothing when
    the listing failed. *)
Definition inherit (rc : RuntimeConfig) (names : option (list string)) : dataPlane * bool :=
  match rc_Identity rc with
  | None => (newDataPlane rc, false)
  | Some id =>
      let slots := InheritedSlots (default [] names) (gi_ID id) in
      (foldl hold (newDataPlane rc) slots, negb (bool_decide (slots = [])))
  end.

Section Start.
Variable unmarshal : string -> option RuntimeConfig.
Variable readSysctl : string -> sysctl_read.
(** The pods the endpoint watcher's informers synced with, or why it did not start. *)
Variable listPods : result string (list Pod).

Definition newLocalEndpointWatcher (node : string) (rc : RuntimeConfig) (now : Z) : result start_error (option endpointWatcher) :=
  if negb (isLocal rc) then Ok None
  else match listPods with
       | Ok pods => Ok (Some (newEndpointWatcher node pods (Forwards rc) now))
       | Err e => Err (StartWatcher e)
       end.

(** [Run] up to the start of its goroutines. *)
Definition run_start (config key : option string) (node : string) (client : result string unit) (names : option (list string))
    (now : Z) : result start_error started :=
  match LoadRuntimeConfig unmarshal config with
  | Err e => Err (StartConfig e)
  | Ok rc =>
  match readKeyFile key with
  | Err e => Err (StartKey e)
  | Ok privKey =>
  if isLocal rc && bool_decide (node = "") then Err StartNoNodeName
  else match client with
  | Err e => Err (StartClient e)
  | Ok _ =>
  let '(dp, inherited) := inherit rc names in
  let rd := newReadiness (isLocal rc) (gatewayIDOf rc) in
  let preCheck := if isLocal rc then preCheckLocalAt readSysctl HostProcSysNetPath node else mkPreCheckFault "" "" in
  let rd := if isLocal rc then setNodeFault rd (pf_Reason preCheck) else rd in
  match newLocalEndpointWatcher node rc now with
  | Err e => Err e
  | Ok ew => Ok (mkStarted rc privKey dp inherited rd preCheck ew)
  end
  end
  end
  end.
End Start.

(** [serveHealth]: its select on the server's return and on the end of the group. *)
Inductive health_event :=
| ServerClosed
| ServerFailed (e : string)
| GroupDone (shutdown : option string).

(** What is published on the way out, and the error. *)
Definition serveHealth (podName nodeName : string) (rd : readiness) (faultAts : list attempt) (ev : health_event)
  : option publish_result * option string :=
  match ev with
  | ServerClosed => (None, None)
  | ServerFailed e =>
      (if rd_leader rd
       then Some (publishFault podName FaultApplyFailed (nodeMessage nodeName ("health server: " +:+ e)) faultAts) else None,
       Some ("health server: " +:+ e))
  | GroupDone None => (None, None)
  | GroupDone (Some e) => (None, Some ("shutdown health server: " +:+ e))
  end.

(** ** runElection *)

(** Where the loop is: at the entry gate, in [elector.Run], at the deferred fence, in its
    teardown, returned. *)
Inductive run_pc := AtGate | Contending | AtExit | ExitFencing | Returned.

#[global] Instance run_pc_eq_dec : EqDecision run_pc.
Proof. solve_decision. Defined.

(** [r_gone]: the group's context is done. [r_watched]: this cycle's shutdown watch has
    fired. [r_failed]: this cycle's error is set. *)
Record run := mkRun {
  r_pc : run_pc;
  r_cyc : cyc;
  r_gone : bool;
  r_watched : bool;
  r_failed : bool
}.

(** The variables of a new cycle; the pending flag, the node and a running kept-plane
    fence are the process's. *)
Definition next_cycle (c : cyc) : cyc :=
  mkCyc (mkLockst newAcquisitionLock []) LNone ∅ (c_pending c) false false false false false (c_fencing c) (c_unfenced c) 0 false.

Definition run_init (inherited : bool) : run := mkRun AtGate (cyc_init inherited) false false false.

(** [elector.Run] has returned and the leadership callback, if any, has closed [done]: the
    elector's writes are over, its context was cancelled or a held Lease was lost. *)
Definition elector_returned (c : cyc) : Prop :=
  (c_cancelled c = true \/ (is_acquired c = true /\ c_lost c = true)) /\
  (is_acquired c = true -> c_lead c = LDone) /\ lk_writes (c_lock c) = [].

Definition fail_noted (r : run) (c : cyc) : bool := r_failed r || bool_decide (c_lead c = LForced).

(** [fencePendingOnHolder] and [fencePendingOnPoll], whose read of the Lease may fail. *)
Definition fencePendingOnHolder (self node : string) (ew : option endpointWatcher) (holder : string) (c : cyc) : cyc :=
  if negb (observeHolder self node ew holder) || negb (c_pending c) then c else fenceKept c.

Definition fencePendingOnPoll (self node : string) (ew : option endpointWatcher) (read : result string string) (c : cyc) : cyc :=
  if negb (c_pending c) then c
  else match read with
       | Ok holder => fencePendingOnHolder self node ew holder c
       | Err _ => c
       end.

Section Run.
Variables self node : string.

(** The steps of the process's own goroutines. *)
Inductive run_act : run -> run -> Prop :=
| ra_cycle r c : r_pc r <> ExitFencing -> r_pc r <> Returned -> cyc_act self (r_cyc r) c ->
    run_act r (mkRun (r_pc r) c (r_gone r) (r_watched r) (fail_noted r c))
| ra_gate_gone r : r_pc r = AtGate -> r_gone r = true ->
    run_act r (mkRun AtExit (r_cyc r) true (r_watched r) (r_failed r))
| ra_shutdown r i : r_pc r = Contending -> r_gone r = true -> r_watched r = false -> c_enders (r_cyc r) !! i = None ->
    run_act r (mkRun Contending (set_ended (set_ender i EEnded (r_cyc r))) true true (r_failed r))
| ra_loop r : r_pc r = Contending -> elector_returned (r_cyc r) -> r_failed r = false -> r_gone r = false ->
    run_act r (mkRun AtGate (next_cycle (r_cyc r)) false false false)
| ra_leave r : r_pc r = Contending -> elector_returned (r_cyc r) -> r_failed r || r_gone r = true ->
    run_act r (mkRun AtExit (r_cyc r) (r_gone r) (r_watched r) (r_failed r))
| ra_exit_fence r : r_pc r = AtExit -> c_fencing (r_cyc r) = None ->
    run_act r (mkRun (if c_pending (r_cyc r) then ExitFencing else Returned) (fenceKept (r_cyc r))
                 (r_gone r) (r_watched r) (r_failed r))
| ra_exit_done r : r_pc r = ExitFencing ->
    run_act r (mkRun Returned (fence_returns (r_cyc r)) (r_gone r) (r_watched r) (r_failed r)).

(** What comes from outside: a shutdown or a sibling's failure, a view that opens the
    gate (at once without an endpoint watcher), the events of a cycle, an elector that
    cannot be created, and a holder seen by the gate's poll or by a late callback. *)
Inductive run_env : run -> run -> Prop :=
| re_gone r : run_env r (mkRun (r_pc r) (r_cyc r) true (r_watched r) (r_failed r))
| re_gate r : r_pc r = AtGate -> r_gone r = false ->
    run_env r (mkRun Contending (r_cyc r) false (r_watched r) (r_failed r))
| re_cycle r c : r_pc r = Contending -> cyc_env self (r_cyc r) c ->
    run_env r (mkRun Contending c (r_gone r) (r_watched r) (r_failed r))
| re_no_elector r : r_pc r = Contending -> c_lead (r_cyc r) = LNone -> is_acquired (r_cyc r) = false ->
    run_env r (mkRun AtExit (r_cyc r) (r_gone r) (r_watched r) true)
| re_poll r ew read : r_pc r = AtGate -> c_fencing (r_cyc r) = None ->
    run_env r (mkRun AtGate (fencePendingOnPoll self node ew read (r_cyc r)) (r_gone r) (r_watched r) (r_failed r))
| re_observer r ew holder : r_pc r = AtGate \/ r_pc r = AtExit -> c_fencing (r_cyc r) = None ->
    run_env r (mkRun (r_pc r) (fencePendingOnHolder self node ew holder (r_cyc r)) (r_gone r) (r_watched r) (r_failed r)).

Definition run_step (r r' : run) : Prop := run_act r r' \/ run_env r r'.
Definition run_reachable (r : run) : Prop := exists inherited, rtc run_step (run_init inherited) r.
End Run.

(** ** Proofs *)

(** No cycle is under way: the callback has returned or never started. *)
Definition idle (c : cyc) : Prop := c_lead c = LDone \/ (c_lead c = LNone /\ is_acquired c = false).

Section RunProofs.
Variables self node : string.

Lemma elector_idle c : cyc_ok self c -> elector_returned c -> idle c.
Proof.
  intros Hok (_ & Ha & _). destruct (is_acquired c) eqn:E; [by left; auto|right].
  split; [|done]. destruct (decide (c_lead c = LNone)) as [|Hn]; [done|].
  pose proof (k_acq _ _ Hok Hn). congruence.
Qed.

(** Between cycles only a kept-plane fence may run, and what is still programmed is kept. *)
Lemma idle_fence_free c : cyc_ok self c -> idle c -> fence_free c.
Proof.
  intros Hok [Hd|[Hl Ha]]; [apply (k_done _ _ Hok); by rewrite Hd|].
  unfold fence_free. destruct (c_fencing c) as [[|i|]|] eqn:F; auto; exfalso.
  - pose proof (proj1 (k_lead _ _ Hok) F) as H. by rewrite Hl in H.
  - pose proof (k_end _ _ Hok i _ (proj1 (k_ender _ _ Hok i) F)) as H. cbn in H. by rewrite Hl in H.
Qed.

Lemma idle_kept c : cyc_ok self c -> idle c -> c_unfenced c = true -> c_pending c = true \/ c_fencing c <> None.
Proof.
  intros Hok Hidle Hu. destruct (k_unf _ _ Hok Hu) as [?|[?|[Hf Hn]]]; auto.
  destruct Hidle as [Hd|[Hl _]]; [|done]. exfalso. pose proof (k_past _ _ Hok) as H. rewrite Hd in H. by rewrite H in Hf.
Qed.

Lemma next_cycle_ok c : cyc_ok self c -> idle c -> cyc_ok self (next_cycle c).
Proof.
  intros Hok Hidle. pose proof (idle_fence_free _ Hok Hidle) as Hf. pose proof (idle_kept _ Hok Hidle) as Hk.
  constructor; cbn; try done; try naive_solver.
  - constructor; [done|]. intros _ w Hw. set_solver.
  - split; [|done]. intros H. destruct Hf; congruence.
  - intros i. rewrite lookup_empty. split; [|done]. intros H. destruct Hf; congruence.
Qed.

Lemma act_idle c c' : cyc_act self c c' -> idle c -> idle c'.
Proof.
  intros Hs Hidle. destruct Hs as [Hs|Hs|Hs].
  - exfalso. destruct Hs, Hidle as [?|[??]]; congruence.
  - destruct Hs; unfold fenceCycle, fence_returns; repeat case_match; exact Hidle.
  - destruct Hs. exact Hidle.
Qed.

(** The [endCycle] calls a finished cycle leaves behind touch nothing of the process: they
    may be forgotten when the next cycle starts. *)
Lemma finished_inert c c' :
  cyc_ok self c -> idle c -> end_act c c' ->
  c_pending c' = c_pending c /\ c_unfenced c' = c_unfenced c /\ c_fencing c' = c_fencing c.
Proof.
  intros Hok Hidle Hs. pose proof (idle_fence_free _ Hok Hidle) as Hf. destruct Hs as [| | | | | | |s i Hi|s i Hi Hfe| |]; try done.
  - assert (Hd : c_lead s = LDone).
    { destruct Hidle as [|[Hl _]]; [done|]. pose proof (k_end _ _ Hok i _ Hi) as Hkn. cbn in Hkn. by rewrite Hl in Hkn. }
    unfold fenceCycle. rewrite (k_past _ _ Hok); [done|]. by rewrite Hd.
  - destruct Hf; congruence.
Qed.

Definition run_ok (r : run) : Prop :=
  cyc_ok self (r_cyc r) /\
  match r_pc r with
  | AtGate => idle (r_cyc r)
  | Contending => True
  | AtExit => idle (r_cyc r) /\ r_failed r || r_gone r = true
  | ExitFencing => c_fencing (r_cyc r) = Some ByObserver /\ c_pending (r_cyc r) = false /\ r_failed r || r_gone r = true
  | Returned => c_unfenced (r_cyc r) = false /\ c_pending (r_cyc r) = false /\ r_failed r || r_gone r = true
  end.

Lemma kept_fence_ok c : cyc_ok self c -> c_fencing c = None -> cyc_ok self (fenceKept c).
Proof. intros Hok Hf. refine (cyc_step_ok self c _ _ Hok). right. by apply ce_observer. Qed.

Lemma kept_fence_idle c : idle c -> idle (fenceKept c).
Proof. unfold fenceKept. by destruct (c_pending c). Qed.

(** What a holder seen outside a cycle does is nothing or a kept-plane fence. *)
Lemma observed_cases ew holder c :
  fencePendingOnHolder self node ew holder c = c \/ fencePendingOnHolder self node ew holder c = fenceKept c.
Proof. unfold fencePendingOnHolder. destruct (_ || _); auto. Qed.

Lemma polled_cases ew read c :
  fencePendingOnPoll self node ew read c = c \/ fencePendingOnPoll self node ew read c = fenceKept c.
Proof. unfold fencePendingOnPoll. destruct (negb _); [auto|]. destruct read; [apply observed_cases|auto]. Qed.

Lemma run_act_ok r r' : run_act self r r' -> run_ok r -> run_ok r'.
Proof.
  intros Hs [Hok Hpc]. destruct Hs as [r c H1 H2 Hc|r Hp Hg|r i Hp Hg Hw Hi|r Hp He Hf Hg|r Hp He Hfg|r Hp Hf|r Hp];
    rewrite ?Hp in Hpc; unfold run_ok; cbn [r_pc r_cyc r_gone r_watched r_failed].
  - split; [exact (cyc_step_ok self _ _ (or_introl Hc) Hok)|]. unfold fail_noted.
    destruct (r_pc r); try done; [exact (act_idle _ _ Hc Hpc)|]. destruct Hpc as [Hi Hfg].
    split; [exact (act_idle _ _ Hc Hi)|]. by destruct (r_failed r), (r_gone r), (bool_decide _).
  - split; [done|]. split; [done|]. by rewrite orb_true_r.
  - split; [|done]. refine (cyc_step_ok self (r_cyc r) _ _ Hok). right. by apply ce_end.
  - pose proof (elector_idle _ Hok He) as Hi. split; [by apply next_cycle_ok|by right].
  - split; [done|]. split; [exact (elector_idle _ Hok He)|done].
  - destruct Hpc as [Hi Hfg]. split; [by apply kept_fence_ok|]. unfold fenceKept.
    destruct (c_pending (r_cyc r)) eqn:Ep; [by split_and!|]. split_and!; [|done|done].
    destruct (c_unfenced (r_cyc r)) eqn:Eu; [|done]. destruct (idle_kept _ Hok Hi Eu); congruence.
  - destruct Hpc as (Hf & Hp' & Hfg). split; [|done].
    refine (cyc_step_ok self (r_cyc r) _ _ Hok). left. by apply act_observer, ca_observer_done.
Qed.

Lemma run_env_ok r r' : run_env self node r r' -> run_ok r -> run_ok r'.
Proof.
  intros Hs [Hok Hpc]. destruct Hs as [r|r Hp Hg|r c Hp Hc|r Hp Hl Ha|r ew read Hp Hf|r ew holder Hp Hf];
    unfold run_ok; cbn [r_pc r_cyc r_gone r_watched r_failed].
  - split; [done|]. destruct (r_pc r); rewrite ?orb_true_r; naive_solver.
  - done.
  - split; [|done]. exact (cyc_step_ok self _ _ (or_intror Hc) Hok).
  - split; [done|]. split; [by right|done].
  - rewrite Hp in Hpc. destruct (polled_cases ew read (r_cyc r)) as [-> | ->]; [done|].
    split; [by apply kept_fence_ok|by apply kept_fence_idle].
  - destruct (observed_cases ew holder (r_cyc r)) as [-> | ->]; [done|].
    split; [by apply kept_fence_ok|]. destruct Hp as [Hp|Hp]; rewrite Hp in *; [by apply kept_fence_idle|].
    split; [by apply kept_fence_idle, Hpc|apply Hpc].
Qed.

Lemma run_reachable_ok r : run_reachable self node r -> run_ok r.
Proof.
  intros [inherited Hr].
  assert (H0 : run_ok (run_init inherited)) by (split; [apply cyc_init_ok|by right]).
  revert H0. induction Hr as [|x y z [Hs|Hs] _ IH]; intros H0; [done|apply IH..].
  - exact (run_act_ok _ _ Hs H0).
  - exact (run_env_ok _ _ Hs H0).
Qed.

(** *** A shutdown comes to an end *)
Definition run_rank (r : run) : nat :=
  2 * (match r_pc r with AtGate | Contending => 3 | AtExit => 2 | ExitFencing => 1 | Returned => 0 end) +
  (if r_watched r then 0 else 1).

Lemma run_act_decreases r r' :
  run_act self r r' -> r_gone r = true ->
  r_gone r' = true /\
  ((run_rank r' < run_rank r)%nat \/ (run_rank r' = run_rank r /\ (cyc_measure (r_cyc r') < cyc_measure (r_cyc r))%nat)).
Proof.
  intros Hs Hg. unfold run_rank. destruct Hs as [r c H1 H2 Hc|r Hp _|r i Hp _ Hw Hi|r Hp He Hf Hg'|r Hp He Hfg|r Hp Hf|r Hp];
    cbn [r_pc r_cyc r_gone r_watched r_failed]; rewrite ?Hp, ?Hw; (split; [congruence|]).
  - right. split; [done|]. exact (cyc_act_measure self _ _ Hc).
  - left. destruct (r_watched r); lia.
  - left. lia.
  - congruence.
  - left. destruct (r_watched r); lia.
  - left. destruct (c_pending _), (r_watched r); lia.
  - left. destruct (r_watched r); lia.
Qed.

Lemma run_act_acc r : r_gone r = true -> Acc (fun r2 r1 => run_act self r1 r2) r.
Proof.
  remember (run_rank r) as n eqn:Hn. revert r Hn. induction n as [n IHn] using lt_wf_ind. intros r.
  remember (cyc_measure (r_cyc r)) as k eqn:Hk. revert r Hk. induction k as [k IHk] using lt_wf_ind.
  intros r -> -> Hg. constructor. intros r' Hs. destruct (run_act_decreases _ _ Hs Hg) as [Hg' [Hlt|[Heq Hlt]]].
  - exact (IHn _ Hlt r' eq_refl Hg').
  - exact (IHk _ Hlt r' eq_refl (eq_sym Heq) Hg').
Qed.

(** A returned [endCycle] has cancelled the elector, and a call once made is not lost. *)
Definition ends_cancel (c : cyc) : Prop := forall i, c_enders c !! i = Some EReturned -> c_cancelled c = true.

Lemma step_ends_cancel c c' : cyc_step self c c' -> ends_cancel c -> ends_cancel c'.
Proof.
  intros [[Hs|Hs|Hs]|Hs] H j; destruct Hs;
    unfold fenceCycle, fence_returns, keep_plane, fenceKept, claimPendingFence, lead; repeat case_match; cbn; try exact (H j);
    try done; rewrite lookup_insert; case_decide; try done; exact (H j).
Qed.

Lemma step_ender_stays c c' i : cyc_step self c c' -> is_Some (c_enders c !! i) -> is_Some (c_enders c' !! i).
Proof.
  intros [[Hs|Hs|Hs]|Hs] H; destruct Hs;
    unfold fenceCycle, fence_returns, keep_plane, fenceKept, claimPendingFence, lead; repeat case_match; cbn; try exact H;
    rewrite lookup_insert; case_decide; try done; exact H.
Qed.

(** A fired shutdown watch has called [endCycle]. *)
Definition watch_ok (r : run) : Prop :=
  ends_cancel (r_cyc r) /\ (r_pc r = Contending -> r_watched r = true -> exists i, is_Some (c_enders (r_cyc r) !! i)).

Lemma run_step_watch r r' : run_step self node r r' -> (r_pc r = AtGate -> r_watched r = false) /\ watch_ok r ->
  (r_pc r' = AtGate -> r_watched r' = false) /\ watch_ok r'.
Proof.
  intros Hs (Hgate & He & Hw). unfold watch_ok.
  assert (Hcyc : forall c, cyc_step self (r_cyc r) c -> ends_cancel c /\
    (r_pc r = Contending -> r_watched r = true -> exists i, is_Some (c_enders c !! i))).
  { intros c Hc. split; [exact (step_ends_cancel _ _ Hc He)|]. intros Hp Hwt. destruct (Hw Hp Hwt) as [i Hi].
    exists i. exact (step_ender_stays _ _ _ Hc Hi). }
  destruct Hs as [Hs|Hs]; destruct Hs as [r c ? ? Hc|r Hp|r i Hp Hg Hnw Hi|r Hp|r Hp|r Hp Hf|r Hp]
    || destruct Hs as [r|r Hp Hg|r c Hp Hc|r Hp|r ew read Hp Hf|r ew holder Hp Hf]; cbn [r_pc r_cyc r_gone r_watched r_failed].
  - split; [exact Hgate|]. exact (Hcyc c (or_introl Hc)).
  - by split_and!.
  - split; [done|]. split; [|intros _ _; exists i; cbn; rewrite lookup_insert_eq; eauto].
    refine (step_ends_cancel _ _ (or_intror (ce_end self _ i Hi)) He).
  - split; [done|]. split; [by intros i|done].
  - by split_and!.
  - split; [by destruct (c_pending _)|]. split; [|by destruct (c_pending _)].
    exact (step_ends_cancel _ _ (or_intror (ce_observer self _ Hf)) He).
  - by split_and!.
  - by split_and!.
  - split; [done|]. split; [exact He|]. intros _ Hwt. rewrite (Hgate Hp) in Hwt. done.
  - split; [done|]. rewrite Hp in Hcyc. exact (Hcyc c (or_intror Hc)).
  - by split_and!.
  - split; [exact (fun _ => Hgate Hp)|]. split; [|done].
    destruct (polled_cases ew read (r_cyc r)) as [-> | ->]; [done|].
    exact (step_ends_cancel _ _ (or_intror (ce_observer self _ Hf)) He).
  - split; [exact Hgate|]. split; [|intros Hc; destruct Hp; congruence].
    destruct (observed_cases ew holder (r_cyc r)) as [-> | ->]; [done|].
    exact (step_ends_cancel _ _ (or_intror (ce_observer self _ Hf)) He).
Qed.

Lemma run_reachable_watch r : run_reachable self node r -> watch_ok r.
Proof.
  intros [inherited Hr].
  assert (H0 : (r_pc (run_init inherited) = AtGate -> r_watched (run_init inherited) = false) /\ watch_ok (run_init inherited))
    by (by split_and!).
  revert H0. induction Hr as [|x y z Hs _ IH]; intros H0; [apply H0|]. apply IH. exact (run_step_watch _ _ Hs H0).
Qed.

(** A cancelled cycle that acquired the Lease goes on until its callback is done. *)
Lemma cancelled_progress c :
  cyc_ok self c -> c_cancelled c = true -> is_acquired c = true -> c_lead c <> LDone -> exists c', cyc_act self c c'.
Proof.
  intros Hok Hc Ha Hd. destruct (c_fencing c) as [o|] eqn:F; [eauto using fencing_progress|].
  destruct (reload_done (c_lead c)) eqn:Hr; [eauto using lead_progress|].
  destruct (c_lead c) eqn:E; try done; eexists; apply act_lead.
  - by apply ca_claim.
  - by apply ca_register.
  - apply ca_reload_stop; [done|]. by rewrite Hc, orb_true_r.
Qed.

Lemma shutdown_progress r :
  run_ok r -> watch_ok r -> r_gone r = true -> lk_writes (c_lock (r_cyc r)) = [] -> r_pc r <> Returned ->
  exists r', run_act self r r'.
Proof.
  intros [Hok Hpc] [He Hw] Hg Hwr Hp.
  assert (Hcyc : r_pc r <> ExitFencing -> forall c, cyc_act self (r_cyc r) c -> exists r', run_act self r r').
  { intros He' c Hc. eexists. by apply (ra_cycle _ _ c). }
  destruct (r_pc r) eqn:E; [eexists; by apply ra_gate_gone| | |eexists; by apply ra_exit_done|done].
  2: { destruct (c_fencing (r_cyc r)) as [o|] eqn:F; [|eexists; by apply ra_exit_fence].
       destruct (fencing_progress self _ _ Hok F) as [c Hc]. by apply (Hcyc ltac:(done) c). }
  destruct (r_watched r) eqn:Ew.
  2: { eexists. apply (ra_shutdown _ _ (fresh (dom (c_enders (r_cyc r))))); [done..|].
       apply not_elem_of_dom, is_fresh. }
  destruct (Hw eq_refl eq_refl) as [i [p Hi]].
  destruct (decide (p = EReturned)) as [->|Hne].
  2: { destruct (end_progress self _ i p Hok Hi Hne) as [c Hc]. by apply (Hcyc ltac:(done) c). }
  pose proof (He i Hi) as Hcan. destruct (is_acquired (r_cyc r)) eqn:Ha.
  - destruct (decide (c_lead (r_cyc r) = LDone)) as [Hl|Hl].
    + eexists. apply ra_leave; [done| |by rewrite Hg, orb_true_r]. split_and!; auto.
    + destruct (cancelled_progress _ Hok Hcan Ha Hl) as [c Hc]. by apply (Hcyc ltac:(done) c).
  - eexists. apply ra_leave; [done| |by rewrite Hg, orb_true_r]. split_and!; [auto|congruence|done].
Qed.
End RunProofs.

Lemma foldl_hold_keeps slots d slot : is_Some (d_slots d !! slot) -> is_Some (d_slots (foldl hold d slots) !! slot).
Proof.
  revert d. induction slots as [|s slots IH]; intros d H; [done|]. apply IH. cbn. rewrite lookup_insert. by case_decide.
Qed.

Lemma foldl_hold_held slots d slot : slot ∈ slots -> is_Some (d_slots (foldl hold d slots) !! slot).
Proof.
  intros Hs. apply list_elem_of_split in Hs as (l1 & l2 & ->). rewrite foldl_app. cbn [foldl].
  apply foldl_hold_keeps. cbn. rewrite lookup_insert_eq. eauto.
Qed.

(** C24: A link process takes over every slot interface of its Gateway that an earlier
    process left on the node, and [runElection] leaves nothing behind: over any sequence
    of cycles, observed holders, lost Leases and shutdowns, when it has returned, a fence
    has run since the last apply and after the inherited data plane, and it returned
    because of a shutdown, a failed reload loop or an elector it could not create. *)
Theorem exit_leaves_no_plane unmarshal readSysctl listPods config key node client names now sd self r :
  run_start unmarshal readSysctl listPods config key node client names now = Ok sd ->
  rtc (run_step self node) (run_init (sd_inherited sd)) r ->
  (forall id slot, rc_Identity (sd_rc sd) = Some id -> slot ∈ InheritedSlots (default [] names) (gi_ID id) ->
     is_Some (d_slots (sd_dp sd) !! slot) /\ c_unfenced (r_cyc (run_init (sd_inherited sd))) = true) /\
  (r_pc r = Returned ->
     c_unfenced (r_cyc r) = false /\ c_pending (r_cyc r) = false /\ r_failed r || r_gone r = true).
Proof.
  intros Hst Hr. split.
  - intros id slot Hid Hs. unfold run_start in Hst. destruct (LoadRuntimeConfig _ _) as [rc|e]; [|done].
    destruct (readKeyFile _) as [k|e]; [|done]. destruct (_ && _); [done|]. destruct client as [u|e]; [|done].
    destruct (inherit rc names) as [dp inh] eqn:Ei. destruct (newLocalEndpointWatcher _ _ _ _) as [ew|e]; [|done].
    injection Hst as <-. cbn in *. unfold inherit in Ei. rewrite Hid in Ei. injection Ei as <- <-.
    split; [by apply foldl_hold_held|]. rewrite bool_decide_false; [done|]. intros E. rewrite E in Hs. by apply elem_of_nil in Hs.
  - intros Hp. assert (Hok : run_ok self r) by (apply (run_reachable_ok self node); by exists (sd_inherited sd)).
    destruct Hok as [_ Hpc]. by rewrite Hp in Hpc.
Qed.

(** A shutdown terminates: once the group's context is done, every run of the
    process's own goroutines is finite, and where it stops with no Lease write left in
    flight [runElection] has returned. No wait of the loop, of the cycle it is in or of
    the exit fence deadlocks. *)
Theorem shutdown_terminates self node r :
  run_reachable self node r -> r_gone r = true ->
  Acc (fun r2 r1 => run_act self r1 r2) r /\
  forall r', rtc (run_act self) r r' -> (forall r'', ~ run_act self r' r'') -> lk_writes (c_lock (r_cyc r')) = [] ->
    r_pc r' = Returned.
Proof.
  intros Hr Hg. split; [by apply run_act_acc|]. intros r' Hrun Hstuck Hw.
  assert (Hg' : r_gone r' = true).
  { clear Hr Hstuck Hw. induction Hrun as [|x y z Hs _ IH]; [done|]. apply IH. by apply (run_act_decreases self x y Hs). }
  assert (Hr' : run_reachable self node r').
  { destruct Hr as [inherited Hr]. exists inherited. transitivity r; [done|].
    clear -Hrun. induction Hrun as [|x y z Hs _ IH]; [apply rtc_refl|]. exact (rtc_l _ _ _ _ (or_introl Hs) IH). }
  destruct (decide (r_pc r' = Returned)) as [|Hp]; [done|].
  destruct (shutdown_progress self r' (run_reachable_ok _ _ _ Hr') (run_reachable_watch _ _ _ Hr') Hg' Hw Hp) as [r'' Hs].
  by destruct (Hstuck r'').
Qed.

(** ** A sample process: an inherited plane, a shutdown at the gate *)
Definition sample_sysctl (path : string) : sysctl_read := SysctlValue 1.
Definition sample_started : result start_error started :=
  run_start (fun _ => Some (sample_local [sample_forward 80 "tcp"] [sample_peer 3])) sample_sysctl (Ok []) (Some "{}") (Some " key ")
    "n1" (Ok tt) (Some ["eth0"; "wg-gw5-9"]) 0.

Definition sample_gone : run := mkRun AtGate (cyc_init true) true false false.
Definition sample_exit : run := mkRun AtExit (cyc_init true) true false false.
Definition sample_exiting : run := mkRun ExitFencing (fenceKept (cyc_init true)) true false false.
Definition sample_returned : run := mkRun Returned (fence_returns (fenceKept (cyc_init true))) true false false.

Lemma sample_run : rtc (run_step "me" "n1") (run_init true) sample_returned.
Proof.
  eapply rtc_l; [right; apply re_gone|]. eapply rtc_l; [left; by apply ra_gate_gone|].
  eapply rtc_l; [left; by apply ra_exit_fence|]. eapply rtc_l; [left; by apply ra_exit_done|]. apply rtc_refl.
Qed.

Lemma exit_leaves_no_plane_witness :
  exists sd, sample_started = Ok sd /\ is_Some (d_slots (sd_dp sd) !! 9) /\ c_unfenced (r_cyc sample_returned) = false.
Proof.
  destruct sample_started as [sd|e] eqn:E; [|vm_compute in E; discriminate E]. exists sd. split; [reflexivity|].
  assert (Hi : sd_inherited sd = true) by (vm_compute in E; injection E as <-; reflexivity).
  assert (Hid : rc_Identity (sd_rc sd) = Some (NewGatewayIdentity 5)) by (vm_compute in E; injection E as <-; reflexivity).
  pose proof (exit_leaves_no_plane _ _ _ _ _ _ _ _ _ sd "me" sample_returned E) as H. rewrite Hi in H.
  destruct (H sample_run) as [H1 H2]. split; [|apply H2; reflexivity].
  apply (H1 _ 9 Hid). vm_compute. apply list_elem_of_here.
Defined.

Lemma shutdown_terminates_witness :
  r_gone sample_gone = true /\ Acc (fun r2 r1 => run_act "me" r1 r2) sample_gone.
Proof.
  split; [reflexivity|]. refine (proj1 (shutdown_terminates "me" "n1" sample_gone _ eq_refl)).
  exists true. eapply rtc_l; [right; apply re_gone|]. apply rtc_refl.
Defined.
