(* ===== verification/NodePass.v ===== *)
(** * The passes of a node: how Run of internal/link/link.go wires applyConfig of apply.go
      to the record of dataplane.go

    [DataPlane] keeps its record true for any apply that programs only the slots it
    reports. Here the apply is the program's own: the closure [Run] hands to the leader's
    reconcile loop, which runs [applyConfig] inside [applyPass] with the record's probe
    latch. What it needs of ip(8) is that a command creates nothing but the object it
    names ([CreatesNamed]); that the names of the plans are the slot's own is proved, from
    the validated config and the injectivity of the slot identities.

    [node_record_complete] runs from the start of the process, over the data plane an
    earlier one left behind, through every pass of the process. *)

From S2P Require Import Prelude GoStrings Identity Config Endpoints Render Apply DataPlane Reload Runner.

(** ** The apply closure of Run *)
Definition with_warned (d : dataPlane) (b : bool) : dataPlane :=
  mkDataPlane (d_rc d) (d_slots d) (d_otherHolder d) (d_forwards d) (d_publicAddress d) b.

Section Closure.
Context {W : Type} (os : sysops W).

(** [applyConfig(..., &dp.probeLatch, log)] as [applyPass] calls it. *)
Definition apply_callback (node : string) (rc : RuntimeConfig) (privKey : string) (localForwards : list ResolvedForward)
    (warned : bool) (w : W) (previous : list ResolvedForward) (previousAddress : string) : W * apply_out :=
  let '(w, _, out) := applyConfig os w rc privKey previous previousAddress localForwards node warned in (w, out).

Definition run_apply (node : string) (w : W) (d : dataPlane) (rc : RuntimeConfig) (privKey : string)
    (localForwards : list ResolvedForward) : option (W * dataPlane * list SlotResult * option string) :=
  '(w, d', rs, e) ← applyPass (os_run os) w d rc (apply_callback node rc privKey localForwards (d_warned d));
  Some (w, with_warned d' (warnUnansweredProbes (d_warned d) rc node).1, rs, e).
End Closure.

(** ** What ip(8) creates *)

(** The command names the object: the slot's table in a rule or a route, its interface in
    a link. *)
Definition names_object (gid : Z) (c : command) (slot : Z) (k : nat) : Prop :=
  let id := NewSlotIdentity gid slot in
  name c = "ip" /\
  match k with
  | 0%nat => take 2 (args c) = ["rule"; "add"] /\ args c !! 5%nat = Some (Itoa (RouteTable id))
  | 1%nat => take 2 (args c) = ["route"; "replace"] /\ last (args c) = Some (Itoa (RouteTable id))
  | 2%nat => take 3 (args c) = ["link"; "add"; Interface id]
  | _ => False
  end.
#[global] Instance names_object_dec gid c slot k : Decision (names_object gid c slot k).
Proof. unfold names_object. destruct k as [|[|[|k]]]; apply _. Defined.

(** A command creates no object of a slot but the one it names, and nothing that is not a
    command creates any. *)
Class CreatesNamed {W} (os : sysops W) (gid : Z) (objs : W -> gset (Z * nat)) : Prop := {
  cn_slots w slot k : (slot, k) ∈ objs w -> slot_ok slot;
  cn_run w c slot k : (slot, k) ∈ objs (os_run os w c).1 -> (slot, k) ∈ objs w \/ names_object gid c slot k;
  cn_create w : objs (os_createTemp os w).1 = objs w;
  cn_chmod w p : objs (os_chmod os w p).1 = objs w;
  cn_write w p t : objs (os_writeString os w p t).1 = objs w;
  cn_close w p : objs (os_close os w p).1 = objs w;
  cn_remove w p : objs (os_remove os w p).1 = objs w;
  cn_resolve w h : objs (os_resolve os w h).1 = objs w
}.

(** ** The steps of a Local process *)
Section Steps.
Context {W : Type} (os : sysops W) (read : W -> string -> sysctl_read).
Context (unmarshal : string -> option RuntimeConfig) (startup : option GatewayIdentity) (node : string).

(** The leader's pass and the standby's, over a config that was loaded; the fence; the
    record's two callbacks; the re-asserting of the sysctls. *)
Inductive node_step : W * dataPlane -> W * dataPlane -> Prop :=
| ns_pass w d contents rc privKey fs w' d' rs e :
    loadRuntimeConfigMatching unmarshal contents startup = Ok rc ->
    run_apply os node w d rc privKey fs = Some (w', d', rs, e) -> node_step (w, d) (w', d')
| ns_standby w d contents rc leader w' d' e :
    loadRuntimeConfigMatching unmarshal contents startup = Ok rc ->
    standbyPass (os_run os) w d rc leader = Some (w', d', e) -> node_step (w, d) (w', d')
| ns_down w d w' d' e : stepDown (os_run os) w d = Some (w', d', e) -> node_step (w, d) (w', d')
| ns_other w d : node_step (w, d) (w, observeOtherHolder d)
| ns_lead w d : node_step (w, d) (w, startLeading d)
| ns_reassert w d rc : node_step (w, d) (reassertSlotSysctls (os_run os) read w rc, d).
End Steps.

(** ** Names of a plan *)
Lemma route_table_pos gid slot : gateway_id_ok gid -> slot_ok slot -> 0 <= RouteTable (NewSlotIdentity gid slot).
Proof.
  intros Hg Hs. pose proof (routing_key_range _ _ Hg Hs). cbn. unfold routeTableBase.
  rewrite wrap64_id by (unfold int64_ok; lia). lia.
Qed.

Lemma table_text_inj gid s t :
  gateway_id_ok gid -> slot_ok s -> slot_ok t ->
  Itoa (RouteTable (NewSlotIdentity gid s)) = Itoa (RouteTable (NewSlotIdentity gid t)) -> s = t.
Proof.
  intros Hg Hs Ht E. apply Itoa_inj in E; [|by apply route_table_pos..].
  by apply (slot_identity_inj gid s gid t); auto.
Qed.

Lemma iface_text_inj gid s t :
  gateway_id_ok gid -> slot_ok s -> slot_ok t ->
  Interface (NewSlotIdentity gid s) = Interface (NewSlotIdentity gid t) -> s = t.
Proof. intros Hg Hs Ht E. by apply (slot_identity_inj gid s gid t); auto. Qed.

(** A command that names an object of a slot names one of [slot]. *)
Definition names_only (gid slot : Z) (c : command) : Prop :=
  forall s k, slot_ok s -> names_object gid c s k -> s = slot.

(** Decide what a literal command names. *)
Ltac names_nothing :=
  let s := fresh in let k := fresh in let Hs := fresh in let Hn := fresh in let Hk := fresh in
  intros s k Hs [Hn Hk]; destruct k as [|[|[|k]]]; cbn in Hn, Hk; [destruct Hk as [Hk _]|destruct Hk as [Hk _]| |done];
  discriminate.

Lemma iface_commands_own rc gid slot path present :
  gateway_id_ok gid -> slot_ok slot ->
  Forall (names_only gid slot) (ifaceCommands rc (Interface (NewSlotIdentity gid slot)) path present).
Proof.
  intros Hg Hs. unfold ifaceCommands. apply Forall_app. split.
  - destruct present; [constructor|]. repeat constructor. intros s k Hs' [_ Hk].
    destruct k as [|[|[|k]]]; cbn [args exec take] in Hk; [destruct Hk; discriminate|destruct Hk; discriminate| |done].
    injection Hk as Hk. symmetry. by apply (iface_text_inj gid).
  - repeat constructor; names_nothing.
Qed.

Lemma route_commands_own gid slot targets :
  gateway_id_ok gid -> slot_ok slot ->
  Forall (names_only gid slot) (localRouteCommands (NewSlotIdentity gid slot) targets).
Proof.
  intros Hg Hs. unfold localRouteCommands.
  assert (Hroute : forall pre, Forall (names_only gid slot)
    [exec "ip" (["route"; "replace"] ++ pre ++ ["table"; Itoa (RouteTable (NewSlotIdentity gid slot))])]).
  { intros pre. repeat constructor. intros s k Hs' [_ Hk]. destruct k as [|[|[|k]]]; [..|done].
    - destruct Hk; discriminate.
    - destruct Hk as [_ Hl]. cbn [args exec] in Hl. change ["table"; ?t] with (["table"] ++ [t]) in Hl.
      rewrite !app_assoc, last_snoc in Hl. injection Hl as Hl. symmetry. by apply (table_text_inj gid).
    - discriminate. }
  rewrite !Forall_app. split_and!.
  - apply Forall_cons. split; [exact (proj1 (proj1 (Forall_cons _ _ _) (Hroute ["default"; "dev"; Interface (NewSlotIdentity gid slot)])))|].
    repeat constructor. names_nothing.
  - apply Forall_fmap, Forall_true. intros t.
    exact (proj1 (proj1 (Forall_cons _ _ _) (Hroute ["throw"; t +:+ "/32"]))).
  - repeat constructor. intros s k Hs' [_ Hk]. destruct k as [|[|[|k]]]; [|destruct Hk; discriminate|discriminate|done].
    destruct Hk as [_ Hl]. cbn in Hl. injection Hl as Hl. symmetry. by apply (table_text_inj gid).
Qed.

(** Each command of a slot's plan that names an object names one of that slot. *)
Lemma plan_names_own rc gid paths present targets p :
  gateway_id_ok gid -> slot_ok (Slot p) ->
  Forall (names_only gid (Slot p)) (sp_Cmds (localSlotPlan rc gid paths present targets p)).
Proof.
  intros Hg Hp. cbn [sp_Cmds localSlotPlan]. rewrite !Forall_app. split_and!.
  - by apply iface_commands_own.
  - apply Forall_fmap, Forall_true. intros s. cbn. names_nothing.
  - by apply route_commands_own.
Qed.

(** ** What a pass programs *)
Section Scope.
Context {W : Type} (os : sysops W) (gid : Z) (objs : W -> gset (Z * nat)).
Context `{!CreatesNamed os gid objs}.

(** From [w] to [w'] objects appear at slots of [S] only. *)
Definition scoped (S : list Z) (w w' : W) : Prop :=
  forall slot k, (slot, k) ∈ objs w' -> (slot, k) ∈ objs w \/ slot ∈ S.

Lemma scoped_eq S w w' : objs w' = objs w -> scoped S w w'.
Proof. intros E slot k. rewrite E. auto. Qed.
Lemma scoped_trans S w1 w2 w3 : scoped S w1 w2 -> scoped S w2 w3 -> scoped S w1 w3.
Proof. intros H1 H2 slot k H. destruct (H2 _ _ H); [by apply H1|auto]. Qed.
Lemma scoped_weaken S w w' : scoped [] w w' -> scoped S w w'.
Proof. intros H slot k Hin. destruct (H _ _ Hin) as [|Hn]; [auto|by apply elem_of_nil in Hn]. Qed.

(** A command may program slots of [S] only. *)
Definition within (S : list Z) (c : command) : Prop := forall slot k, slot_ok slot -> names_object gid c slot k -> slot ∈ S.

Lemma scoped_run S w c : within S c -> scoped S w (os_run os w c).1.
Proof.
  intros Hc slot k H. pose proof (cn_slots _ _ _ H) as Hs. destruct (cn_run w c slot k H); [by left|right]. by apply (Hc slot k).
Qed.

Lemma within_other S c : name c <> "ip" -> within S c.
Proof. by intros Hn slot k _ [H _]. Qed.

Lemma runStep_scoped S w c : within S c -> scoped S w (runStep os w c).1.
Proof.
  intros Hc. pose proof (scoped_run S w c Hc) as H. unfold runStep. destruct (os_run os w c) as [w1 [t|]]; [|done].
  destruct (_ && _); [done|]. by destruct (_ && _).
Qed.

Lemma runSteps_scoped S w cs : Forall (within S) cs -> scoped S w (runSteps os w cs).1.
Proof.
  intros H. revert w. induction H as [|c cs Hc _ IH]; intros w; [by apply scoped_eq|]. cbn [runSteps].
  pose proof (runStep_scoped S w c Hc) as Hs. destruct (runStep os w c) as [w1 [t|]]; [done|].
  exact (scoped_trans _ _ _ _ Hs (IH w1)).
Qed.

Lemma runWrapped_scoped S what w cs : Forall (within S) cs -> scoped S w (runWrapped os what w cs).1.
Proof.
  intros H. revert w. induction H as [|c cs Hc _ IH]; intros w; [by apply scoped_eq|]. cbn [runWrapped].
  pose proof (runStep_scoped S w c Hc) as Hs. destruct (runStep os w c) as [w1 [t|]]; [done|].
  exact (scoped_trans _ _ _ _ Hs (IH w1)).
Qed.

Lemma runPlans_scoped S w plans :
  Forall (fun sp => Forall (within S) (sp_Cmds sp)) plans -> scoped S w (runPlans os w plans).1.
Proof.
  intros H. revert w. induction H as [|sp plans Hp _ IH]; intros w; [by apply scoped_eq|]. cbn [runPlans].
  pose proof (runSteps_scoped S w _ Hp) as Hs. destruct (runSteps os w (sp_Cmds sp)) as [w1 e].
  specialize (IH w1). destruct (runPlans os w1 plans) as [w2 rs]. exact (scoped_trans _ _ _ _ Hs IH).
Qed.

Lemma probe_scoped S w m l : scoped S w (probe_ifaces os w m l).1.
Proof.
  revert w m. induction l as [|[slot iface] l IH]; intros w m; [by apply scoped_eq|]. cbn [probe_ifaces]. unfold ifaceExists.
  assert (Hc : within S (exec "ip" ["link"; "show"; iface])).
  { intros s k _ [_ Hk]. destruct k as [|[|[|k]]]; [destruct Hk; discriminate..|discriminate|done]. }
  pose proof (scoped_run S w _ Hc) as Hs. destruct (os_run os w _) as [w1 [t|]].
  - destruct (Contains t absentMarker); [|done]. exact (scoped_trans _ _ _ _ Hs (IH w1 _)).
  - exact (scoped_trans _ _ _ _ Hs (IH w1 _)).
Qed.

(** *** The temporary files *)
Lemma remove_all_objs w paths : objs (remove_all os w paths).1 = objs w.
Proof.
  revert w. induction paths as [|p paths IH]; intros w; [done|]. cbn [remove_all].
  pose proof (cn_remove w p) as Hr. destruct (os_remove os w p) as [w1 e]. specialize (IH w1).
  destruct (remove_all os w1 paths) as [w2 errs]. cbn in *. congruence.
Qed.

Lemma cleanup_objs w paths b : objs (cleanup os w paths b).1 = objs w.
Proof. unfold cleanup. rewrite <- (remove_all_objs w paths). by destruct (remove_all os w paths). Qed.

Lemma writeWGConf_objs w paths t : objs (writeWGConf os w paths t).1.1 = objs w.
Proof.
  unfold writeWGConf. pose proof (cn_create w) as H1. destruct (os_createTemp os w) as [w1 [p|e]]; [|done].
  pose proof (cn_chmod w1 p) as H2. destruct (os_chmod os w1 p) as [w2 [e|]].
  { pose proof (cn_close w2 p) as H3. destruct (os_close os w2 p). cbn in *. congruence. }
  pose proof (cn_write w2 p t) as H3. destruct (os_writeString os w2 p t) as [w3 [e|]].
  { pose proof (cn_close w3 p) as H4. destruct (os_close os w3 p). cbn in *. congruence. }
  pose proof (cn_close w3 p) as H4. destruct (os_close os w3 p) as [w4 [e|]]; cbn in *; congruence.
Qed.

Lemma writeSlotConfs_objs w paths m confs : objs (writeSlotConfs os w paths m confs).1.1 = objs w.
Proof.
  revert w paths m. induction confs as [|[slot t] confs IH]; intros w paths m; [done|]. cbn [writeSlotConfs].
  pose proof (writeWGConf_objs w paths t) as Hw. destruct (writeWGConf os w paths t) as [[w1 ps] [p|e]]; [|done].
  rewrite IH. done.
Qed.

Lemma resolve_objs w fs : objs (resolveForwards os w fs).1 = objs w.
Proof.
  revert w. induction fs as [|f fs IH]; intros w; [done|]. cbn [resolveForwards].
  pose proof (cn_resolve w (Service f)) as Hr. destruct (os_resolve os w (Service f)) as [w1 [ip|e]]; [|done].
  specialize (IH w1). destruct (resolveForwards os w1 fs) as [w2 [r|e]]; cbn in *; congruence.
Qed.

Lemma renderConfig_objs w rc key lf node : objs (renderConfig os w rc key lf node).1 = objs w.
Proof.
  unfold renderConfig. pose proof (writeSlotConfs_objs w [] ∅ (slot_confs rc key)) as Hw.
  destruct (writeSlotConfs os w [] ∅ _) as [[w1 paths] [confs|e]]; cbn in Hw.
  2: { pose proof (cleanup_objs w1 paths true) as Hc. destruct (cleanup os w1 paths true). cbn in *. congruence. }
  match goal with |- context [let '(w, resolved) := ?x in _] =>
    assert (Hr : objs x.1 = objs w1); [|destruct x as [w2 [resolved|e]]] end.
  { destruct (isLocal rc); [done|]. pose proof (resolve_objs w1 (Forwards rc)) as Hr.
    by destruct (resolveForwards os w1 (Forwards rc)) as [w2 [r|e]]. }
  - destruct (RenderNftables rc resolved node); [cbn in *; congruence|].
    pose proof (cleanup_objs w2 paths true) as Hc. destruct (cleanup os w2 paths true). cbn in *. congruence.
  - pose proof (cleanup_objs w2 paths true) as Hc. destruct (cleanup os w2 paths true). cbn in *. congruence.
Qed.

(** *** The pass *)
Lemma flush_within S previous current : Forall (within S) (conntrackFlushCommands previous current).
Proof. apply Forall_fmap, Forall_true. intros f. by apply within_other. Qed.

Lemma hairpin_within S a a' previous current : Forall (within S) (hairpinConntrackCommands a a' previous current).
Proof.
  unfold hairpinConntrackCommands. apply Forall_forall. intros c Hc.
  apply within_other. repeat (case_match || (apply elem_of_app in Hc as [Hc|Hc])).
  all: try (by apply elem_of_nil in Hc). all: by apply list_elem_of_fmap in Hc as (f & -> & _).
Qed.

Lemma run_local_scoped S w rc plans final previous previousAddress resolved :
  Forall (fun sp => Forall (within S) (sp_Cmds sp)) plans -> name final = "nft" ->
  scoped S w (run_local os w rc plans final previous previousAddress resolved).1.
Proof.
  intros Hp Hf. unfold run_local. pose proof (runPlans_scoped S w plans Hp) as H1.
  destruct (runPlans os w plans) as [w1 rs]. cbn in H1.
  assert (Hn : name final <> "ip") by (by rewrite Hf).
  pose proof (scoped_trans _ _ _ _ H1 (runStep_scoped S w1 final (within_other S final Hn))) as H2.
  destruct (runStep os w1 final) as [w2 [e|]]; [exact H2|]. unfold flushConntrack.
  pose proof (scoped_trans _ _ _ _ H2 (runWrapped_scoped S "flush conntrack for forward " w2 _ (flush_within S previous resolved))) as H3.
  destruct (runWrapped os _ w2 _) as [w3 [e|]]; [exact H3|].
  pose proof (scoped_trans _ _ _ _ H3 (runWrapped_scoped S "delete conntrack for hairpin " w3 _
    (hairpin_within S (PublicAddress rc) previousAddress previous resolved))) as H4.
  by destruct (runWrapped os _ w3 _) as [w4 [e|]].
Qed.

Lemma plans_within rc id paths ruleset present lf :
  rc_Identity rc = Some id -> gi_ID id = gid -> gateway_id_ok gid -> Forall peer_ok (Peers (rc_WireGuard rc)) ->
  Forall (fun sp => Forall (within (Slot <$> Peers (rc_WireGuard rc))) (sp_Cmds sp))
    (buildApplyCommands rc paths ruleset present lf).1.
Proof.
  intros Hid Hg Hok Hp. unfold buildApplyCommands. rewrite Hid. cbn [fst]. rewrite Hg.
  apply Forall_fmap, Forall_forall. intros p Hin.
  rewrite Forall_forall in Hp. destruct (Hp p Hin) as [_ Hs]. eapply Forall_impl; [by apply plan_names_own|].
  intros c Hc slot k Hslot Hn. rewrite (Hc slot k Hslot Hn). apply list_elem_of_fmap. eauto.
Qed.

(** From [w] a pass creates objects of the slots it reports, and reports the slots of its
    config or none. *)
Definition pass_scope (rc : RuntimeConfig) (w : W) (x : W * apply_out) : Prop :=
  scoped (sr_Slot <$> ao_results x.2) w x.1 /\
  (ao_results x.2 = [] \/ sr_Slot <$> ao_results x.2 = Slot <$> Peers (rc_WireGuard rc)).

Lemma apply_rendered_scope w rc id r previous previousAddress lf :
  rc_Identity rc = Some id -> gi_ID id = gid -> gateway_id_ok gid -> Forall peer_ok (Peers (rc_WireGuard rc)) ->
  pass_scope rc w (apply_rendered os w rc r previous previousAddress lf).
Proof.
  intros Hid Hg Hok Hp. unfold apply_rendered. pose proof (probe_scoped [] w ∅ (slot_ifaces rc)) as H1.
  destruct (probe_ifaces os w ∅ (slot_ifaces rc)) as [w2 [present|e]]; [|by split; [|left]].
  pose proof (plans_within rc id (r_confs r) (r_ruleset r) present lf Hid Hg Hok Hp) as H2.
  assert (Hpl : sp_Slot <$> (buildApplyCommands rc (r_confs r) (r_ruleset r) present lf).1 = Slot <$> Peers (rc_WireGuard rc) /\
    name (buildApplyCommands rc (r_confs r) (r_ruleset r) present lf).2 = "nft").
  { unfold buildApplyCommands. rewrite Hid. cbn [fst]. by rewrite <- list_fmap_compose. }
  destruct (buildApplyCommands rc (r_confs r) (r_ruleset r) present lf) as [plans final]. cbn in H2, Hpl.
  destruct Hpl as [Hpl Hf]. unfold isLocal. rewrite Hid.
  pose proof (run_local_scoped _ w2 rc plans final previous previousAddress (r_resolved r) H2 Hf) as H3.
  destruct (run_local os w2 rc plans final previous previousAddress (r_resolved r)) as [w3 o] eqn:E.
  apply run_local_results in E as [E _]. unfold pass_scope. cbn [fst snd]. rewrite E, Hpl.
  split; [|by right]. exact (scoped_trans _ _ _ _ (scoped_weaken _ _ _ H1) H3).
Qed.

Lemma callback_scope node rc id key lf warned w previous previousAddress :
  rc_Identity rc = Some id -> gi_ID id = gid -> gateway_id_ok gid -> Forall peer_ok (Peers (rc_WireGuard rc)) ->
  pass_scope rc w (apply_callback os node rc key lf warned w previous previousAddress).
Proof.
  intros Hid Hg Hok Hp. unfold apply_callback, applyConfig. pose proof (renderConfig_objs w rc key lf node) as Hr.
  destruct (renderConfig os w rc key lf node) as [w1 [r|e]]; [|by split; [apply scoped_eq|left]]. cbn in Hr.
  destruct (apply_rendered_scope w1 rc id r previous previousAddress lf Hid Hg Hok Hp) as [Hb1 Hb2].
  destruct (apply_rendered _ _ _ _ _ _ _) as [w2 o]. cbn in Hb1, Hb2.
  pose proof (cleanup_objs w2 (r_paths r) (bool_decide (is_Some (ao_err o)))) as Hc.
  destruct (cleanup os w2 _ _) as [w3 ce]. cbn in Hc.
  assert (Hs : scoped (sr_Slot <$> ao_results o) w w3).
  { exact (scoped_trans _ _ _ _ (scoped_eq _ _ _ Hr) (scoped_trans _ _ _ _ Hb1 (scoped_eq _ _ _ Hc))). }
  by destruct ce; split.
Qed.

Lemma reassert_objs read w rc : objs (reassertSlotSysctls (os_run os) read w rc) ⊆ objs w.
Proof.
  assert (Hk : forall ss w iface, scoped [] w (reassert_keys (os_run os) read w iface ss)).
  { induction ss as [|s ss IH]; intros w0 iface; [by apply scoped_eq|]. cbn [reassert_keys].
    destruct (read w0 _); [|by apply scoped_eq|apply IH]. destruct (_ =? _); [apply IH|].
    assert (Hs : within [] (slotSysctlCommand iface s)) by (by apply within_other).
    exact (scoped_trans _ _ _ _ (scoped_run [] w0 _ Hs) (IH _ iface)). }
  assert (Hf : scoped [] w (reassertSlotSysctls (os_run os) read w rc)).
  { unfold reassertSlotSysctls. destruct (rc_Identity rc) as [id|]; [|by apply scoped_eq].
    revert w. induction (Peers (rc_WireGuard rc)) as [|p ps IH]; intros w; [by apply scoped_eq|]. cbn [foldl].
    exact (scoped_trans _ _ _ _ (Hk _ w _) (IH _)). }
  intros [slot k] Hin. destruct (Hf slot k Hin) as [|Hn]; [done|by apply elem_of_nil in Hn].
Qed.
End Scope.

(** A loaded config is a Local one of the Gateway the process started for. *)
Lemma loaded_local unmarshal contents id rc :
  loadRuntimeConfigMatching unmarshal contents (Some id) = Ok rc ->
  rc_Identity rc = Some id /\ Forall peer_ok (Peers (rc_WireGuard rc)).
Proof.
  unfold loadRuntimeConfigMatching, LoadRuntimeConfig. destruct contents as [data|]; [|done].
  destruct (unmarshal data) as [raw|]; [|done]. destruct (validate raw) as [rc'|] eqn:V; [|done].
  apply validate_iff in V as [_ (_ & Hp & _)]. destruct (rc_Identity rc') as [id'|] eqn:E; [|done].
  case_bool_decide; [|done]. intros [= <-]. by subst.
Qed.

Lemma foldl_hold_rc slots d : d_rc (foldl hold d slots) = d_rc d.
Proof. revert d. induction slots as [|s slots IH]; intros d; [done|]. cbn [foldl]. by rewrite IH. Qed.

Section Process.
Context {W : Type} (os : sysops W) (read : W -> string -> sysctl_read) (objs : W -> gset (Z * nat)).
Context (unmarshal : string -> option RuntimeConfig) (id : GatewayIdentity) (node : string).
Context `{!SlotObjects (os_run os) (gi_ID id) objs, !CreatesNamed os (gi_ID id) objs}.
Context (Hid : gateway_id_ok (gi_ID id)).

Abbreviation ok := (dp_ok (gi_ID id) objs).
Abbreviation step := (node_step os read unmarshal (Some id) node).

Lemma loaded_scope contents rc key lf warned :
  loadRuntimeConfigMatching unmarshal contents (Some id) = Ok rc ->
  apply_scope objs (apply_callback os node rc key lf warned).
Proof.
  intros [Hrc Hp]%loaded_local w fs a.
  exact (proj1 (callback_scope os (gi_ID id) objs node rc id key lf warned w fs a Hrc eq_refl Hid Hp)).
Qed.

Lemma node_step_ok s s' : step s s' -> ok s -> ok s'.
Proof.
  intros Hs Hok. destruct Hs as [w d contents rc key lf w' d' rs e Hl H|w d contents rc leader w' d' e Hl H|w d w' d' e H|w d|w d|w d rc].
  - unfold run_apply in H. destruct (applyPass _ _ _ _ _) as [[[[w1 d1] rs1] e1]|] eqn:E; [|done]. cbn in H.
    injection H as <- <- _ _. pose proof (loaded_local _ _ _ _ Hl) as [Hrc _].
    assert (Hg : has_gid (gi_ID id) rc) by (by exists id).
    exact (dp_step_ok _ _ objs _ _ (dp_apply _ _ objs w d rc _ w1 d1 rs1 e1 Hg (loaded_scope _ _ _ _ _ Hl) E) Hok).
  - apply loaded_local in Hl as [Hrc _]. assert (Hg : has_gid (gi_ID id) rc) by (by exists id).
    exact (dp_step_ok _ _ objs _ _ (dp_standby _ _ objs w d rc leader w' d' e Hg H) Hok).
  - exact (dp_step_ok _ _ objs _ _ (dp_down _ _ objs w d w' d' e H) Hok).
  - exact Hok.
  - exact Hok.
  - destruct Hok as [Hg Hc]. split; [exact Hg|]. intros slot k Hin.
    apply (Hc slot k). exact (reassert_objs os (gi_ID id) objs read w rc _ Hin).
Qed.

Lemma node_steps_ok s s' : rtc step s s' -> ok s -> ok s'.
Proof. induction 1 as [|x y z Hxy _ IH]; [done|]. intros H. by apply IH, (node_step_ok x y). Qed.

(** Where [Run] starts: every slot with an object has its interface, and is held. *)
Lemma start_ok readSysctl listPods config key client names now sd w :
  run_start unmarshal readSysctl listPods config key node client (Some names) now = Ok sd ->
  rc_Identity (sd_rc sd) = Some id ->
  (forall slot k, (slot, k) ∈ objs w -> Interface (NewSlotIdentity (gi_ID id) slot) ∈ names) ->
  ok (w, sd_dp sd).
Proof.
  intros Hst Hrc Hn. unfold run_start in Hst. destruct (LoadRuntimeConfig _ _) as [rc|e]; [|done].
  destruct (readKeyFile _) as [k|e]; [|done]. destruct (_ && _); [done|]. destruct client as [u|e]; [|done].
  destruct (inherit rc (Some names)) as [dp inh] eqn:Ei. destruct (newLocalEndpointWatcher _ _ _ _) as [ew|e]; [|done].
  injection Hst as <-. cbn [sd_rc sd_dp] in *. unfold inherit in Ei. rewrite Hrc in Ei. injection Ei as <- _. split.
  - exists id. split; [|done]. cbn [snd]. by rewrite foldl_hold_rc.
  - intros slot k' Hin. apply foldl_hold_held. cbn [default]. unfold_ids.
    apply InheritedSlots_spec; [lia|]. split; [exact (cn_slots w slot k' Hin)|exact (Hn slot k' Hin)].
Qed.

(** What the record says of the node. *)
Lemma held_complete w d slot k : ok (w, d) -> (slot, k) ∈ objs w -> slot ∈ heldSlots d.
Proof. intros [_ Hc] Hin. apply elem_of_heldSlots. exact (Hc slot k Hin). Qed.

Lemma clean_step_down w d :
  ok (w, d) -> exists w' d' e, stepDown (os_run os) w d = Some (w', d', e) /\ ok (w', d') /\ (e = None -> objs w' = ∅).
Proof.
  intros Hok. destruct (proj1 Hok) as (id' & Hr & _).
  destruct (stepDown_spec (os_run os) w d id' Hr) as (w' & d' & e & H & _ & He). exists w', d', e.
  assert (Hok' : ok (w', d')) by exact (node_step_ok _ _ (ns_down os read unmarshal (Some id) node w d w' d' e H) Hok).
  split_and!; [done|done|]. intros Hnone. apply elem_of_equiv_empty_L. intros [slot k] Hin.
  pose proof (held_complete _ _ _ _ Hok' Hin) as Hh. rewrite (He Hnone) in Hh. by apply elem_of_nil in Hh.
Qed.

Lemma pass_leaves_configured w d contents rc key lf :
  ok (w, d) -> loadRuntimeConfigMatching unmarshal contents (Some id) = Ok rc ->
  exists w' d' rs e, run_apply os node w d rc key lf = Some (w', d', rs, e) /\ ok (w', d') /\
    (forall slot k, (slot, k) ∈ objs w' -> slot ∈ configuredSlots rc \/
       exists r, r ∈ rs /\ sr_Slot r = slot /\ sr_Applied r = false /\ is_Some (sr_Err r)).
Proof.
  intros Hok Hl. destruct (loaded_local _ _ _ _ Hl) as [Hrc Hp].
  destruct (applyPass_spec (os_run os) w d rc id (apply_callback os node rc key lf (d_warned d)) Hrc)
    as (w1 & w' & out & d' & dep & Ho & Ha & Hheld & Hdep & _).
  assert (Hrun : run_apply os node w d rc key lf =
    Some (w', with_warned d' (warnUnansweredProbes (d_warned d) rc node).1, ao_results out ++ dep, ao_err out))
    by (unfold run_apply; rewrite Ha; done).
  eexists w', _, _, _. split; [exact Hrun|].
  assert (Hok' : ok (w', with_warned d' (warnUnansweredProbes (d_warned d) rc node).1))
    by exact (node_step_ok _ _ (ns_pass os read unmarshal (Some id) node w d contents rc key lf _ _ _ _ Hl Hrun) Hok).
  split; [exact Hok'|]. intros slot k Hin. pose proof (held_complete _ _ _ _ Hok' Hin) as Hh.
  change (slot ∈ heldSlots d') in Hh. apply Hheld in Hh as [[_ Hc]|[Hr|Hd]]; [by left| |].
  - left. destruct (callback_scope os (gi_ID id) objs node rc id key lf (d_warned d) w1 (d_forwards d) (d_publicAddress d) Hrc eq_refl Hid Hp)
      as [_ [E|E]]; rewrite Ho in E; cbn [snd] in E.
    + rewrite E in Hr. by apply elem_of_nil in Hr.
    + rewrite E in Hr. unfold configuredSlots. by apply elem_of_list_to_set.
  - right. apply list_elem_of_fmap in Hd as (r & -> & Hr). rewrite Forall_forall in Hdep.
    destruct (Hdep r Hr) as (_ & Ha' & He). exists r. split_and!; [apply elem_of_app; by right|done..].
Qed.
End Process.


(** ** A sample node: gateway 5, slot 9 inherited, slot 3 configured *)
Definition sample_universe : gset (Z * nat) :=
  {[(3, 0%nat); (3, 1%nat); (3, 2%nat); (9, 0%nat); (9, 1%nat); (9, 2%nat)]}.

(** Teardown steps delete, other commands create the sample's objects they name, and
    [ip link show] fails on a link that is absent. *)
Definition sample_node_run (w : gset (Z * nat)) (c : command) : gset (Z * nat) * option string :=
  ((toy_node_run w c).1 ∪ filter (fun o => names_object 5 c o.1 o.2) sample_universe,
   if bool_decide (Exists (fun o => args c = ["link"; "show"; Interface (NewSlotIdentity 5 o.1)] /\ o ∉ w)
        [(3, 2%nat); (9, 2%nat)])
   then Some "Device does not exist." else None).

Definition sample_node_os : sysops (gset (Z * nat)) :=
  mkSysops _ sample_node_run (fun w => (w, Ok "/tmp/wg.conf")) (fun w _ => (w, None)) (fun w _ _ => (w, None))
    (fun w _ => (w, None)) (fun w _ => (w, None)) (fun w _ => (w, Ok "10.96.0.1")).

Definition sample_objs (w : gset (Z * nat)) : gset (Z * nat) := filter (fun o => (o.2 < 3)%nat /\ slot_ok o.1) w.

Lemma teardown_names_nothing slot k step slot' k' :
  slotTeardownSteps 5 slot !! k = Some step -> ~ names_object 5 (exec (ts_Name step) (ts_Args step)) slot' k'.
Proof.
  intros Hs [_ Hk]. destruct k as [|[|[|k]]]; [..|done]; cbn in Hs; injection Hs as <-;
    destruct k' as [|[|[|k']]]; [destruct Hk; discriminate|destruct Hk; discriminate|discriminate|done
    |destruct Hk; discriminate|destruct Hk; discriminate|discriminate|done
    |destruct Hk; discriminate|destruct Hk; discriminate|discriminate|done].
Qed.

Lemma sample_step_world w step : (runTeardownStep sample_node_run w step).1 = (sample_node_run w (exec (ts_Name step) (ts_Args step))).1.
Proof. unfold runTeardownStep. destruct (sample_node_run _ _) as [w1 [t|]]; [|done]. by destruct (existsb _ _). Qed.

#[global] Instance sample_SlotObjects : SlotObjects (os_run sample_node_os) 5 sample_objs.
Proof.
  cbn [os_run sample_node_os]. constructor.
  - intros w slot k step Hs. rewrite sample_step_world. intros [s j]. unfold sample_objs, sample_node_run, toy_node_run. cbn [fst].
    rewrite !elem_of_filter, elem_of_union, !elem_of_filter. pose proof (teardown_names_nothing slot k step s j Hs). cbn in *. tauto.
  - intros w slot k step Hs _. rewrite sample_step_world. unfold sample_objs, sample_node_run, toy_node_run. cbn [fst].
    rewrite !elem_of_filter, elem_of_union, !elem_of_filter. pose proof (teardown_names_nothing slot k step slot k Hs).
    destruct step as [n a]. cbn in *. tauto.
  - intros w slot k. unfold sample_objs. rewrite elem_of_filter. cbn. tauto.
  - intros w table. rewrite sample_step_world. apply set_eq. intros [s j].
    unfold sample_objs, sample_node_run, toy_node_run. cbn [fst]. rewrite !elem_of_filter, elem_of_union, !elem_of_filter. cbn.
    split; [|intros [? ?]; split_and!; [tauto..|left; split; [by intros ?%steps_are_ip|done]]].
    intros [? [[_ ?]|[[Hn _] _]]]; [done|discriminate].
Qed.

#[global] Instance sample_CreatesNamed : CreatesNamed sample_node_os 5 sample_objs.
Proof.
  constructor; try done.
  - intros w slot k. unfold sample_objs. rewrite elem_of_filter. cbn. tauto.
  - intros w c slot k. unfold sample_objs. cbn [os_run sample_node_os sample_node_run toy_node_run fst].
    rewrite !elem_of_filter, elem_of_union, !elem_of_filter. cbn. tauto.
Qed.

Definition sample_unmarshal (_ : string) : option RuntimeConfig := Some (sample_local [sample_forward 80 "tcp"] [sample_peer 3]).
Definition sample_passed (d : dataPlane) : option (gset (Z * nat) * dataPlane * list SlotResult * option string) :=
  run_apply sample_node_os "n1" {[(9, 2%nat)]} d (sample_local [sample_forward 80 "tcp"] [sample_peer 3]) "key" [].
Definition sample_dp : dataPlane := hold (newDataPlane (sample_local [sample_forward 80 "tcp"] [sample_peer 3])) 9.



(** *** A slot without its link *)

(** The kernel refuses to delete rules. *)
Definition stuck_run (w : gset (Z * nat)) (c : command) : gset (Z * nat) * option string :=
  if bool_decide (take 2 (args c) = ["rule"; "del"]) then (w, Some "Operation not permitted") else toy_node_run w c.

(** The condition on the start is needed: a fence that fails on a slot's rule still deletes
    its link, and the process that starts next, which finds slots by their links, does not
    hold the slot and never deletes the rule. *)
Lemma linkless_slot_lost :
  exists d' e, stepDown stuck_run {[(9, 0%nat); (9, 1%nat); (9, 2%nat)]} sample_dp = Some ({[(9, 0%nat)]}, d', Some e) /\
    heldSlots d' = [9] /\ heldSlots (inherit (d_rc sample_dp) (Some ["eth0"])).1 = [].
Proof.
  destruct (stepDown stuck_run _ sample_dp) as [[[w' d'] [e|]]|] eqn:E; [|vm_compute in E; discriminate E..].
  exists d', e. assert (Hw : w' = {[(9, 0%nat)]} /\ heldSlots d' = [9])
    by (vm_compute in E; injection E as <- <- _; split; vm_compute; reflexivity).
  destruct Hw as [-> Hh]. split_and!; [reflexivity|exact Hh|vm_compute; reflexivity].
Qed.
