(* ===== verification/Group.v ===== *)
(** * The goroutines of a link process: the error group at the end of Run of
      internal/link/link.go

    [Run] starts up to three goroutines in an error group, the forward watch of a Local
    replica, [runElection] and the health server, and waits for all of them. Its group's
    context is done as soon as the process is asked to stop or one of them returns an
    error. The states here put the election loop of [Runner], the watch of [Reload] and the
    health server side by side; what [Run] relies on of the error group is [ErrGroup].

    [run_waits_for_all]: a link process is never left half alive, its shutdown ends, and
    [Run] returns without error only when it was asked to stop. *)

From S2P Require Import Prelude Config Election Cycle Fault Readiness Reload Runner.

(** ** golang.org/x/sync/errgroup, as documented *)

(** [eg_return] is the return of a function the group runs: the group's context is
    cancelled the first time one returns an error, and [eg_error], what Wait reports, is
    the first. *)
Class ErrGroup (G : Type) := {
  eg_new : G;
  eg_return : G -> option string -> G;
  eg_cancelled : G -> bool;
  eg_error : G -> option string;
  eg_new_ok : eg_cancelled eg_new = false /\ eg_error eg_new = None;
  eg_return_nil g : eg_cancelled (eg_return g None) = eg_cancelled g /\ eg_error (eg_return g None) = eg_error g;
  eg_return_err g e : eg_cancelled (eg_return g (Some e)) = true /\
    eg_error (eg_return g (Some e)) = Some (default e (eg_error g))
}.

Section Group.
Context {G : Type} `{!ErrGroup G}.
Variables self node podName : string.

(** A running process. [p_ctx]: it was asked to stop. [p_elected], [p_served], [p_watched]:
    the goroutine has returned to the group; a Cluster process has no watch. *)
Record proc := mkProc {
  p_run : run;
  p_group : G;
  p_ctx : bool;
  p_elected : bool;
  p_served : bool;
  p_watched : bool
}.

(** The group's context is derived from the one [Run] was given. *)
Definition group_done (p : proc) : bool := p_ctx p || eg_cancelled (p_group p).

Definition stop_run (r : run) : run := mkRun (r_pc r) (r_cyc r) true (r_watched r) (r_failed r).

(** The election loop sees the group's context as soon as it is done. *)
Definition notice (p : proc) : proc :=
  if group_done p then mkProc (stop_run (p_run p)) (p_group p) (p_ctx p) (p_elected p) (p_served p) (p_watched p) else p.

Definition proc_init (inherited local : bool) : proc := mkProc (run_init inherited) eg_new false false false (negb local).

(** The error [runElection] returns is its failed cycle's. *)
Definition election_error (r : run) (e : string) : option string := if r_failed r then Some e else None.

(** The steps of the process's own goroutines. *)
Inductive proc_act : proc -> proc -> Prop :=
| pa_election p r : p_elected p = false -> run_act self (p_run p) r ->
    proc_act p (mkProc r (p_group p) (p_ctx p) (p_elected p) (p_served p) (p_watched p))
| pa_elected p e : p_elected p = false -> r_pc (p_run p) = Returned ->
    proc_act p (notice (mkProc (p_run p) (eg_return (p_group p) (election_error (p_run p) e)) (p_ctx p) true (p_served p) (p_watched p)))
| pa_health p rd ats shutdown : p_served p = false -> group_done p = true ->
    proc_act p (notice (mkProc (p_run p)
      (eg_return (p_group p) (serveHealth podName node rd ats (GroupDone shutdown)).2) (p_ctx p) (p_elected p) true (p_watched p)))
| pa_watch p : p_watched p = false -> group_done p = true ->
    proc_act p (notice (mkProc (p_run p) (eg_return (p_group p) None) (p_ctx p) (p_elected p) (p_served p) true)).

(** What comes from outside: the request to stop, what the election loop meets, a server
    that fails and a watch whose channels close or that cannot be set up. *)
Inductive proc_env : proc -> proc -> Prop :=
| pe_stop p : proc_env p (notice (mkProc (p_run p) (p_group p) true (p_elected p) (p_served p) (p_watched p)))
| pe_election p r : p_elected p = false -> run_env self node (p_run p) r -> r_gone r = r_gone (p_run p) ->
    proc_env p (mkProc r (p_group p) (p_ctx p) (p_elected p) (p_served p) (p_watched p))
| pe_health p rd ats e : p_served p = false ->
    proc_env p (notice (mkProc (p_run p)
      (eg_return (p_group p) (serveHealth podName node rd ats (ServerFailed e)).2) (p_ctx p) (p_elected p) true (p_watched p)))
| pe_watch p e : p_watched p = false ->
    proc_env p (notice (mkProc (p_run p) (eg_return (p_group p) (Some e)) (p_ctx p) (p_elected p) (p_served p) true)).

Definition proc_step (p p' : proc) : Prop := proc_act p p' \/ proc_env p p'.

(** [Wait] returns once every goroutine has. *)
Definition all_returned (p : proc) : bool := p_elected p && p_served p && p_watched p.

(** ** Proofs *)
Definition proc_ok (local : bool) (p : proc) : Prop :=
  run_reachable self node (p_run p) /\ r_gone (p_run p) = group_done p /\
  (p_elected p = true -> r_pc (p_run p) = Returned) /\
  (p_elected p || p_served p || (local && p_watched p) = true -> group_done p = true) /\
  (p_elected p = true -> r_failed (p_run p) = true -> is_Some (eg_error (p_group p))) /\
  (eg_cancelled (p_group p) = bool_decide (is_Some (eg_error (p_group p)))).

Lemma stop_run_id r : r_gone r = true -> stop_run r = r.
Proof. by destruct r; cbn; intros ->. Qed.

Lemma stop_reachable r : run_reachable self node r -> run_reachable self node (stop_run r).
Proof. intros [i H]. exists i. exact (rtc_r _ _ _ H (or_intror (re_gone self node r))). Qed.

Lemma run_reachable_step r r' : run_reachable self node r -> run_step self node r r' -> run_reachable self node r'.
Proof. intros [i H] Hs. exists i. exact (rtc_r _ _ _ H Hs). Qed.

(** Own steps of the loop do not make up a shutdown. *)
Lemma run_act_gone r r' : run_act self r r' -> r_gone r' = r_gone r.
Proof. by destruct 1. Qed.

Lemma returned_stays r r' : r_pc r = Returned -> ~ run_act self r r'.
Proof. intros Hp Hs. destruct Hs; congruence. Qed.

Lemma notice_ok local p :
  run_reachable self node (p_run p) -> (r_gone (p_run p) = true -> group_done p = true) ->
  (p_elected p = true -> r_pc (p_run p) = Returned) ->
  (p_elected p || p_served p || (local && p_watched p) = true -> group_done p = true) ->
  (p_elected p = true -> r_failed (p_run p) = true -> is_Some (eg_error (p_group p))) ->
  eg_cancelled (p_group p) = bool_decide (is_Some (eg_error (p_group p))) -> proc_ok local (notice p).
Proof.
  intros Hr Hg He Hd Hf Hc. unfold notice. destruct (group_done p) eqn:E.
  - assert (E' : p_ctx p || eg_cancelled (p_group p) = true) by exact E.
    split; [by apply stop_reachable|]. split_and!; [by cbn|exact He|done|exact Hf|exact Hc].
  - assert (E' : p_ctx p || eg_cancelled (p_group p) = false) by exact E.
    split; [done|]. split_and!; [|exact He| |exact Hf|exact Hc].
    + destruct (r_gone (p_run p)); [|done]. by specialize (Hg eq_refl).
    + intros H. rewrite E. by apply Hd.
Qed.

Lemma return_law g r :
  eg_cancelled g = bool_decide (is_Some (eg_error g)) ->
  eg_cancelled (eg_return g r) = bool_decide (is_Some (eg_error (eg_return g r))) /\
  (is_Some r \/ is_Some (eg_error g) -> is_Some (eg_error (eg_return g r))) /\
  (eg_cancelled g || bool_decide (is_Some r) = eg_cancelled (eg_return g r)).
Proof.
  intros Hg. destruct r as [e|].
  - destruct (eg_return_err g e) as [H1 H2]. rewrite H1, H2. split_and!; [done|eauto|by rewrite orb_true_r].
  - destruct (eg_return_nil g) as [H1 H2]. rewrite H1, H2. split_and!; [done|by intros [[]|]|by rewrite orb_false_r].
Qed.

(** A goroutine returns with an error, or when the group is done. *)
Lemma return_ok local p r elected served watched :
  proc_ok local p -> (elected = true -> r_pc (p_run p) = Returned) ->
  (elected = true -> p_elected p = true \/ (r_failed (p_run p) = true -> is_Some r)) -> bool_decide (is_Some r) || group_done p = true ->
  proc_ok local (notice (mkProc (p_run p) (eg_return (p_group p) r) (p_ctx p) elected served watched)).
Proof.
  intros (Hr & Hg & _ & _ & Hf & Hc) He Hre Hd. destruct (return_law (p_group p) r Hc) as (H1 & Hs & H2). unfold group_done in Hd.
  assert (Hdone : p_ctx p || eg_cancelled (eg_return (p_group p) r) = true).
  { rewrite <- H2. revert Hd. by destruct (p_ctx p), (eg_cancelled (p_group p)), (bool_decide (is_Some r)). }
  apply notice_ok; [exact Hr|done|exact He|done| |exact H1].
  cbn. intros Hel Hfail. apply Hs. destruct (Hre Hel); [right|left]; auto.
Qed.

Lemma elected_done p r e : run_ok self r -> r_pc r = Returned -> r_gone r = group_done p ->
  bool_decide (is_Some (election_error r e)) || group_done p = true.
Proof.
  intros [_ Hpc] Hp <-. rewrite Hp in Hpc. destruct Hpc as (_ & _ & H). unfold election_error. by destruct (r_failed r).
Qed.

Lemma proc_step_ok local p p' : proc_step p p' -> proc_ok local p -> proc_ok local p'.
Proof.
  intros Hs Hok. pose proof Hok as (Hr & Hg & He & Hd & Hf & Hc). destruct Hs as [Hs|Hs].
  - destruct Hs as [p r Hne Hs|p e Hne Hp|p rd ats sh Hns Hdone|p Hnw Hdone].
    + split_and!; cbn; [exact (run_reachable_step _ _ Hr (or_introl Hs))|by rewrite (run_act_gone _ _ Hs)|congruence|exact Hd|congruence|exact Hc].
    + apply return_ok; [done|done|intros _; right; unfold election_error; by intros ->|]. exact (elected_done p _ e (run_reachable_ok _ _ _ Hr) Hp Hg).
    + apply return_ok; [done|done|auto|by rewrite Hdone, orb_true_r].
    + apply return_ok; [done|done|auto|by rewrite Hdone, orb_true_r].
  - destruct Hs as [p|p r Hne Hs Hsame|p rd ats e Hns|p e Hnw].
    + by apply notice_ok.
    + split_and!; cbn; [exact (run_reachable_step _ _ Hr (or_intror Hs))|by rewrite Hsame|congruence|exact Hd|congruence|exact Hc].
    + apply return_ok; [done|done|auto|done].
    + apply return_ok; [done|done|auto|done].
Qed.

Lemma proc_init_ok inherited local : proc_ok local (proc_init inherited local).
Proof.
  destruct eg_new_ok as [H1 H2]. unfold proc_ok, group_done. cbn. rewrite H1, H2.
  split_and!; [by exists inherited; apply rtc_refl|done|done|by destruct local|done|done].
Qed.

Lemma proc_reachable_ok inherited local p : rtc proc_step (proc_init inherited local) p -> proc_ok local p.
Proof.
  intros H. pose proof (proc_init_ok inherited local) as H0. revert H0.
  induction H as [|x y z Hs _ IH]; [done|]. intros H0. by apply IH, (proc_step_ok local x y).
Qed.

(** *** Stopping *)
Definition running (p : proc) : nat :=
  (if p_elected p then 0 else 1) + (if p_served p then 0 else 1) + (if p_watched p then 0 else 1).

Lemma notice_stopped p : r_gone (p_run p) = true -> p_run (notice p) = p_run p /\ running (notice p) = running p.
Proof. intros H. unfold notice. destruct (group_done p); [|done]. split; [by apply stop_run_id|done]. Qed.

Lemma proc_act_decreases p p' : proc_act p p' -> r_gone (p_run p) = true ->
  (p_run p' = p_run p /\ (running p' < running p)%nat) \/ (run_act self (p_run p) (p_run p') /\ running p' = running p).
Proof.
  intros Hs Hg. destruct Hs as [p r Hne Hs|p e Hne Hp|p rd ats sh Hns Hdone|p Hnw Hdone]; [right; by split|left..];
    match goal with |- context [notice ?q] => destruct (notice_stopped q Hg) as [-> ->] end; (split; [done|]);
    unfold running; cbn; rewrite ?Hne, ?Hns, ?Hnw; repeat case_match; lia.
Qed.

Lemma proc_act_acc p : r_gone (p_run p) = true -> Acc (fun p2 p1 => proc_act p1 p2) p.
Proof.
  remember (running p) as n eqn:Hn. revert p Hn. induction n as [n IHn] using lt_wf_ind. intros p Hn Hg.
  pose proof (run_act_acc self _ Hg) as Ha. remember (p_run p) as r eqn:Hr. revert p Hr Hn.
  induction Ha as [r _ IHr]. intros p -> Hn. constructor. intros p' Hs.
  destruct (proc_act_decreases _ _ Hs Hg) as [[E Hlt]|[Hrun E]].
  - apply (IHn (running p')); [by rewrite Hn|done|by rewrite E].
  - apply (IHr (p_run p') Hrun); [by rewrite (run_act_gone _ _ Hrun)|done|by rewrite E].
Qed.

Lemma stop_progress local p : proc_ok local p -> group_done p = true -> all_returned p = false ->
  lk_writes (c_lock (r_cyc (p_run p))) = [] -> exists p', proc_act p p'.
Proof.
  intros (Hr & Hg & _) Hd Ha Hw. rewrite Hd in Hg. unfold all_returned in Ha.
  destruct (p_served p) eqn:Es; [|eexists; exact (pa_health p (newReadiness false 0) [] None Es Hd)].
  destruct (p_watched p) eqn:Ew; [|eexists; exact (pa_watch p Ew Hd)].
  destruct (p_elected p) eqn:Ee; [done|]. destruct (decide (r_pc (p_run p) = Returned)) as [Hp|Hp].
  - eexists. exact (pa_elected p "" Ee Hp).
  - destruct (shutdown_progress self (p_run p) (run_reachable_ok _ _ _ Hr) (run_reachable_watch _ _ _ Hr) Hg Hw Hp) as [r' Hs].
    eexists. exact (pa_election p r' Ee Hs).
Qed.
End Group.

(** C17: [Run] of a link waits for all its goroutines, and is never left half alive: once the
    election loop, the health server or the forward watch of a Local replica has returned,
    for whatever reason, the group is cancelled and the others are on their way out. A
    cancelled process stops: every run of its own goroutines is finite, and where it ends
    with no Lease write in flight all have returned. When they have, no data plane is left
    without a fence, a failed leadership cycle is reported, and [Run] returns without error
    only if it was asked to stop. *)
Theorem run_waits_for_all {G} `{!ErrGroup G} self node podName inherited local (p : proc (G := G)) :
  rtc (proc_step self node podName) (proc_init inherited local) p ->
  (p_elected p || p_served p || (local && p_watched p) = true -> group_done p = true) /\
  (group_done p = true ->
     Acc (fun p2 p1 => proc_act self node podName p1 p2) p /\
     forall p', rtc (proc_act self node podName) p p' -> (forall p'', ~ proc_act self node podName p' p'') ->
       lk_writes (c_lock (r_cyc (p_run p'))) = [] -> all_returned p' = true) /\
  (all_returned p = true ->
     c_unfenced (r_cyc (p_run p)) = false /\
     (r_failed (p_run p) = true -> is_Some (eg_error (p_group p))) /\
     (eg_error (p_group p) = None -> p_ctx p = true)).
Proof.
  intros Hreach. pose proof (proc_reachable_ok self node podName _ _ _ Hreach) as Hok.
  pose proof Hok as (Hr & Hg & He & Hd & Hf & Hc). split_and!; [exact Hd| |].
  - intros Hdone. split; [apply proc_act_acc; by rewrite Hg|]. intros p' Hrun Hstuck Hw.
    assert (Hp' : proc_ok self node local p' /\ group_done p' = true).
    { clear Hstuck Hw. assert (Hgone : r_gone (p_run p') = true).
      { rewrite Hdone in Hg. clear -Hrun Hg. induction Hrun as [|x y z Hs _ IH]; [done|]. apply IH.
        destruct (proc_act_decreases _ _ _ _ _ Hs Hg) as [[-> _]|[Ha _]]; [done|]. by rewrite (run_act_gone _ _ _ Ha). }
      assert (Hok' : proc_ok self node local p').
      { clear -Hrun Hok. induction Hrun as [|x y z Hs _ IH]; [done|]. apply IH.
        exact (proc_step_ok self node podName local _ _ (or_introl Hs) Hok). }
      split; [done|]. destruct Hok' as (_ & Hg' & _). by rewrite <- Hg'. }
    destruct Hp' as [Hok' Hd']. destruct (all_returned p') eqn:E; [done|].
    destruct (stop_progress self node podName local p' Hok' Hd' E Hw) as [p'' Hs]. by destruct (Hstuck p'').
  - intros Ha. unfold all_returned in Ha. apply andb_true_iff in Ha as [Ha Hw]. apply andb_true_iff in Ha as [Hel Hs].
    pose proof (run_reachable_ok _ _ _ Hr) as [_ Hpc]. rewrite (He Hel) in Hpc.
    split; [apply Hpc|]. split; [by apply Hf|]. intros Hn. rewrite Hel in Hd. specialize (Hd eq_refl).
    unfold group_done in Hd. rewrite Hc, Hn in Hd. by rewrite orb_false_r in Hd.
Qed.

(** ** A sample group, and a process whose health server fails *)
#[local] Instance sample_group : ErrGroup (bool * option string).
Proof.
  refine {| eg_new := (false, None);
            eg_return g r := match r with None => g | Some e => (true, Some (default e g.2)) end;
            eg_cancelled := fst; eg_error := snd |}; by intros.
Defined.

Definition sample_proc : proc (G := bool * option string) := proc_init false false.
Definition sample_failed : proc (G := bool * option string) :=
  notice (mkProc (p_run sample_proc) (eg_return (p_group sample_proc) (Some "health server: in use")) false false true true).

Lemma run_waits_for_all_witness :
  rtc (proc_step "me" "n1" "pod") sample_proc sample_failed /\ group_done sample_failed = true /\
  Acc (fun p2 p1 => proc_act "me" "n1" "pod" p1 p2) sample_failed.
Proof.
  assert (Hr : rtc (proc_step "me" "n1" "pod") sample_proc sample_failed).
  { apply rtc_once. right. exact (pe_health "me" "n1" "pod" sample_proc (newReadiness false 0) [] "in use" eq_refl). }
  split; [exact Hr|]. destruct (run_waits_for_all "me" "n1" "pod" false false sample_failed Hr) as (H1 & H2 & _).
  assert (Hd : group_done sample_failed = true) by (apply H1; reflexivity).
  split; [exact Hd|]. exact (proj1 (H2 Hd)).
Defined.
