(* ===== verification/TunnelAddresses.v ===== *)
(** * Tunnel address allocation: internal/controller/gcp_zones.go and slotAddress

    The Gateway's WireGuard subnet is validated and turned into the list of addresses
    its members' slots take: slot 0 the gateway address, slot [s > 0] the [s-1]-th
    eligible address ([slotAddress] of internal/gcpmembers/reconcile.go). Addresses
    are 32-bit integers and every addition of the source wraps at its width.

    The theorem [slot_addresses_distinct] ties the two files together: below the
    capacity the operator advertises, every slot has an address, a usable host of the
    subnet that is neither the link's nor another slot's. *)

From S2P Require Import Prelude GoStrings GoNet.

Definition capacityLimit : Z := 256.

(** [effectiveZones], over the two fields it reads. *)
Definition effectiveZones (zones : list string) (zone : string) : list string :=
  match zones with [] => [zone] | _ => zones end.

Definition networkRange (n : IPNet) : Z * Z :=
  match net_to4 n with
  | None => (0, 0)
  | Some ip4 => if negb (ipn_bits n =? 32) then (0, 0)
                else (ip4, u64 (Z.shiftl 1 (ipn_bits n - ipn_ones n)))
  end.

Definition capacityOf (n : IPNet) : Z :=
  let '(_, size) := networkRange n in
  if size <? 4 then 0 else Z.min (size - 2 - 1) capacityLimit.

Definition capacity (subnet : string) : Z :=
  match ParseCIDR subnet with None => 0 | Some n => capacityOf n end.

Definition subnetPrefix (subnet : string) : Z :=
  match ParseCIDR subnet with None => 0 | Some n => ipn_ones n end.

Definition usableHost (n : IPNet) (ip : Z) : bool :=
  match To4 ip with
  | None => false
  | Some ip4 =>
      if negb (net_contains4 n ip4) then false
      else let '(base, size) := networkRange n in
           if size <? 4 then false
           else negb (ip4 =? base) && negb (ip4 =? u64 (u64 (base + size) - 1))
  end.

(** The allocation loop from [i], with room for [room] more addresses. The loop runs at
    most [room] times plus once per taken address; [fuel] bounds it. *)
Fixpoint collect (fuel : nat) (base size i : Z) (taken : gset Z) (room : nat) : list string :=
  match fuel with
  | O => []
  | S fuel =>
      if (i <? size - 1) && negb (room =? 0)%nat then
        let host := u32 (base + u32 i) in
        if bool_decide (host ∈ taken) then collect fuel base size (i + 1) taken room
        else ipv4_string host :: collect fuel base size (i + 1) taken (pred room)
      else []
  end.

(** One constructor per refusal. *)
Inductive tunnel_error :=
| BadSubnet (subnet : string)
| BadGateway (addr : string)
| BadLink (addr : string)
| SameAddress (addr : string)
| GatewayNotUsable (addr subnet : string)
| LinkNotUsable (addr subnet : string).

Definition tunnelAddresses (subnet gatewayAddress linkAddress : string)
  : result tunnel_error (list string) :=
  match ParseCIDR subnet with
  | None => Err (BadSubnet subnet)
  | Some ipnet =>
  match ParseIP gatewayAddress with
  | None => Err (BadGateway gatewayAddress)
  | Some gateway =>
  match ParseIP linkAddress with
  | None => Err (BadLink linkAddress)
  | Some link =>
      guard negb (gateway =? link) else SameAddress gatewayAddress ;;
      guard usableHost ipnet gateway else GatewayNotUsable gatewayAddress subnet ;;
      guard usableHost ipnet link else LinkNotUsable linkAddress subnet ;;
      let '(base, size) := networkRange ipnet in
      let taken := list_to_set [default 0 (To4 gateway); default 0 (To4 link)] : gset Z in
      let want := Z.to_nat (capacityOf ipnet - 1) in
      Ok (collect (want + 3) base size 1 taken want)
  end end end.

(** [slotAddress]; [None] when the slot has no eligible address. *)
Definition slotAddress (slot : Z) (gatewayAddress : string) (eligible : list string)
  : option string :=
  if slot =? 0 then Some gatewayAddress
  else let idx := slot - 1 in
       if (idx <? 0) || (Z.of_nat (length eligible) <=? idx) then None
       else eligible !! Z.to_nat idx.

(** ** The loop against its specification *)
Section Collect.
Variables (base size : Z) (taken : gset Z).
Hypothesis Hrange : 0 <= base /\ base + size <= 2 ^ 32.

(** The free hosts from offset [i] on, in order. *)
Definition free_from (i : Z) : list Z := filter (fun h => h ∉ taken) (seqZ (base + i) (size - 1 - i)).

Definition taken_from (i : Z) : gset Z := filter (fun h => base + i <= h) taken.

Lemma free_from_cons i :
  i < size - 1 ->
  free_from i = if decide (base + i ∈ taken) then free_from (i + 1)
                else (base + i) :: free_from (i + 1).
Proof.
  intros Hi. unfold free_from at 1. rewrite (seqZ_cons (base + i)) by lia.
  unfold free_from. replace (Z.succ (base + i)) with (base + (i + 1)) by lia.
  replace (Z.pred (size - 1 - i)) with (size - 1 - (i + 1)) by lia.
  cbn [filter list_filter]. destruct (decide (base + i ∈ taken)).
  - by rewrite decide_False by auto.
  - by rewrite decide_True by auto.
Qed.

Lemma collect_spec fuel i room :
  0 <= i -> (room + base.size (taken_from i) < fuel)%nat ->
  collect fuel base size i taken room = ipv4_string <$> take room (free_from i).
Proof.
  revert i room. induction fuel as [|fuel IH]; intros i room Hi Hf; [lia|]. cbn [collect].
  destruct (i <? size - 1) eqn:Hlt; cbn [andb].
  - apply Z.ltb_lt in Hlt. rewrite (free_from_cons i Hlt).
    destruct room as [|room]; [by rewrite take_0|]. cbn [negb Nat.eqb].
    replace (u32 (base + u32 i)) with (base + i) 
      by (unfold u32; rewrite (Z.mod_small i), Z.mod_small by lia; lia).
    assert (Hsub : taken_from (i + 1) ⊆ taken_from i).
    { intros h. unfold taken_from. rewrite !elem_of_filter. intros [? ?]. split; [lia|done]. }
    destruct (decide (base + i ∈ taken)) as [Ht|Ht].
    + rewrite bool_decide_eq_true_2 by done. apply IH; [lia|].
      assert (base.size (taken_from (i + 1)) < base.size (taken_from i))%nat; [|lia].
      apply subset_size. split; [done|]. intros H. specialize (H (base + i)).
      unfold taken_from in H. rewrite !elem_of_filter in H. destruct H; [|lia]. split; [lia|done].
    + rewrite bool_decide_eq_false_2 by done. cbn [take fmap list_fmap Init.Nat.pred].
      f_equal. apply IH; [lia|]. apply subseteq_size in Hsub. lia.
  - apply Z.ltb_ge in Hlt. unfold free_from. rewrite seqZ_nil by lia. cbn. by rewrite take_nil.
Qed.

Lemma free_from_spec i h :
  h ∈ free_from i <-> h ∉ taken /\ base + i <= h < base + size - 1.
Proof. clear Hrange. unfold free_from. rewrite list_elem_of_filter, elem_of_seqZ. intuition lia. Qed.

Lemma NoDup_free_from i : NoDup (free_from i).
Proof. apply NoDup_filter, NoDup_seqZ. Qed.
End Collect.

(** ** The network's range *)
Lemma digit_val_nonneg c d : digit_val c = Some d -> 0 <= d.
Proof. unfold digit_val. intros. repeat case_match; simplify_eq; bool_prop; lia. Qed.

Lemma read_digits_nonneg b acc l n : 0 <= b -> 0 <= acc -> read_digits b acc l = Some n -> 0 <= n.
Proof.
  intros Hb. revert acc. induction l as [|c l IH]; intros acc Hacc H; cbn in H; [by simplify_eq|].
  destruct (digit_val c) as [d|] eqn:Hd; [|done]. apply digit_val_nonneg in Hd.
  destruct (d <? b); [|done]. apply (IH (acc * b + d)); [nia|done].
Qed.

Lemma parse_octet_range s v : parse_octet s = Some v -> 0 <= v <= 255.
Proof.
  unfold parse_octet. intros H. repeat case_match; simplify_eq. bool_prop.
  split; [|lia]. eapply (read_digits_nonneg 10 0); [lia|lia|eassumption].
Qed.

Lemma parse_ipv4_range s v : parse_ipv4 s = Some v -> 0 <= v < 2 ^ 32.
Proof.
  unfold parse_ipv4. intros H. repeat case_match; try done.
  apply bind_Some in H as (a & Ha & H). apply bind_Some in H as (b & Hb & H).
  apply bind_Some in H as (c & Hc & H). apply bind_Some in H as (d & Hd & H). simplify_eq.
  apply parse_octet_range in Ha, Hb, Hc, Hd. unfold octets_val. lia.
Qed.

Lemma ParseAddr_v4_range s v : ParseAddr s = Some (V4 v) -> 0 <= v < 2 ^ 32.
Proof.
  unfold ParseAddr. generalize (chars s). intros l. induction l as [|c l IH]; cbn; [done|].
  intros H. repeat case_match; try done; try by apply IH.
  - apply fmap_Some in H as (x & Hp & [= ->]). exact (parse_ipv4_range s x Hp).
  - unfold parse_ipv6 in H. repeat case_match; try done;
      by apply bind_Some in H as (? & _ & ?).
Qed.

Lemma mask_low_div ones v :
  0 <= ones <= 32 -> mask_low 32 ones v = 2 ^ (32 - ones) * (v / 2 ^ (32 - ones)).
Proof.
  intros. unfold mask_low. rewrite Z.shiftl_mul_pow2, Z.shiftr_div_pow2 by lia. lia.
Qed.

(** A subnet with a usable host: its base, its size and the arithmetic of its range. *)
Lemma networkRange_spec subnet n base size :
  ParseCIDR subnet = Some n -> networkRange n = (base, size) -> 4 <= size ->
  0 <= base /\ base + size <= 2 ^ 32 /\
  forall h, net_contains4 n h = true <-> base <= h < base + size.
Proof.
  unfold ParseCIDR, networkRange, net_contains4. intros Hp Hr Hs.
  destruct (net_to4 n) as [ip4|] eqn:Hn4; [|simplify_eq; lia].
  destruct (ipn_bits n =? 32) eqn:Hb; cbn in Hr; [|simplify_eq; lia]. injection Hr as <- <-.
  destruct (Cut "/"%char subnet) as [[a m]|]; [|done].
  destruct (ParseAddr a) as [[v|v zone]|] eqn:Ha; [| |done]; cycle 1.
  { case_match; [|done]. by apply bind_Some in Hp as (k & _ & [= <-]). }
  apply bind_Some in Hp as (k & Hk & ?). simplify_eq/=. apply ParseAddr_v4_range in Ha.
  assert (0 <= k <= 32) as Hk32.
  { unfold parse_prefix in Hk. repeat case_match; simplify_eq. bool_prop.
    split; [|lia]. eapply (read_digits_nonneg 10 0); [lia|lia|eassumption]. }
  unfold net_to4 in Hn4. cbn in Hn4. injection Hn4 as <-.
  assert (Hsz : u64 (Z.shiftl 1 (32 - k)) = 2 ^ (32 - k)).
  { rewrite Z.shiftl_1_l. unfold u64. apply Z.mod_small.
    split; [apply Z.pow_nonneg; lia|apply Z.pow_lt_mono_r; lia]. }
  rewrite Hsz in *. rewrite !(mask_low_div k) by lia.
  assert (Hpow : 2 ^ 32 = 2 ^ (32 - k) * 2 ^ k) by (rewrite <- Z.pow_add_r by lia; f_equal; lia).
  assert (0 < 2 ^ k) by (apply Z.pow_pos_nonneg; lia).
  set (P := 2 ^ (32 - k)) in *.
  assert (0 < P) by lia.
  assert (0 <= v / P < 2 ^ k).
  { split; [apply Z.div_pos; lia|]. apply Z.div_lt_upper_bound; lia. }
  split; [nia|]. split; [nia|]. intros h. rewrite Z.eqb_eq.
  rewrite !(mask_low_div k) by lia. fold P.
  rewrite (Z.mul_comm P (v / P)), Z.div_mul by lia.
  pose proof (Z.div_mod h P ltac:(lia)). pose proof (Z.mod_pos_bound h P ltac:(lia)).
  split; [lia|]. intros ?. f_equal. symmetry. apply Z.div_unique with (h - v / P * P); lia.
Qed.

Lemma usableHost_spec subnet n ip base size :
  ParseCIDR subnet = Some n -> networkRange n = (base, size) ->
  usableHost n ip = true <->
  4 <= size /\ exists h, To4 ip = Some h /\ base < h < base + size - 1.
Proof.
  unfold usableHost. intros Hp Hr. rewrite Hr. destruct (To4 ip) as [h|]; [|naive_solver].
  destruct (Z.ltb_spec size 4) as [H4|H4].
  { destruct (negb _); split; [done|intros [? _]; lia|done|intros [? _]; lia]. }
  destruct (networkRange_spec _ _ _ _ Hp Hr H4) as (Hb & Hle & Hin). specialize (Hin h).
  destruct (net_contains4 n h) eqn:Hc; cbn [negb].
  - pose proof (proj1 Hin eq_refl). unfold u64.
    rewrite (Z.mod_small (base + size)), Z.mod_small by lia.
    rewrite andb_true_iff, !negb_true_iff, !Z.eqb_neq. split.
    + intros ?. split; [done|]. exists h. split; [done|lia].
    + intros (_ & h' & [= <-] & ?). lia.
  - split; [done|]. intros (_ & h' & [= <-] & ?). apply Hin. lia.
Qed.

Lemma free_from_length base size g l :
  base < g < base + size - 1 -> base < l < base + size - 1 -> g <> l ->
  Z.of_nat (length (free_from base size (list_to_set [g; l]) 1)) = size - 4.
Proof.
  intros Hg Hl Hne. unfold free_from.
  set (all := seqZ (base + 1) (size - 1 - 1)).
  assert (Hnd : NoDup all) by apply NoDup_seqZ.
  assert (Hlen : Z.of_nat (length all) = size - 2) by (unfold all; rewrite length_seqZ; lia).
  assert (Hsub : [g; l] ⊆+ all).
  { apply NoDup_submseteq; [apply NoDup_cons; split; [set_solver|apply NoDup_singleton]|].
    intros x Hx. unfold all. apply elem_of_seqZ. set_solver by lia. }
  apply submseteq_Permutation in Hsub as [rest Hp].
  assert (Hf : filter (fun h => h ∉ (list_to_set [g; l] : gset Z)) all ≡ₚ rest).
  { rewrite Hp. cbn [app]. rewrite !filter_cons_False by set_solver.
    rewrite Hp in Hnd. apply NoDup_app in Hnd as (_ & Hdis & _).
    assert (Hrest : Forall (fun h => h ∉ (list_to_set [g; l] : gset Z)) rest).
    { apply Forall_forall. intros x Hx Hx2. apply (Hdis x); [set_solver|done]. }
    clear -Hrest. induction Hrest as [|x rest Hx _ IH]; [done|].
    by rewrite filter_cons_True, IH by done. }
  rewrite Hf. rewrite Hp in Hlen. cbn in Hlen. lia.
Qed.

(** ** Slots and addresses *)
Definition addr4 (s : string) : option Z := ip ← ParseIP s; To4 ip.

Lemma addr4_ipv4_string h : 0 <= h < 2 ^ 32 -> addr4 (ipv4_string h) = Some h.
Proof.
  intros Hh. unfold addr4, ParseIP. rewrite ParseAddr_ipv4_string by done. cbn.
  by apply To4_mapped.
Qed.

Lemma To4_inj a b v : To4 a = Some v -> To4 b = Some v -> a = b.
Proof.
  unfold To4. rewrite !Z.shiftr_div_pow2 by lia.
  destruct (Z.eqb_spec (a / 2 ^ 32) 65535) as [Ha|]; [|done].
  destruct (Z.eqb_spec (b / 2 ^ 32) 65535) as [Hb|]; [|done]. intros [= H1] [= H2].
  rewrite (Z.div_mod a (2 ^ 32)), (Z.div_mod b (2 ^ 32)) by lia. congruence.
Qed.

Lemma NoDup_take {A} n (l : list A) : NoDup l -> NoDup (take n l).
Proof. intros H. eapply sublist_NoDup; [exact H|apply sublist_take]. Qed.

Lemma take_elem {A} n (l : list A) x : x ∈ take n l -> x ∈ l.
Proof. rewrite elem_of_take. intros (i & Hi & _). exact (list_elem_of_lookup_2 l i x Hi). Qed.

(** What an accepted address plan is: the two given hosts, and the next free ones. *)
Lemma tunnelAddresses_ok subnet gw lk eligible :
  tunnelAddresses subnet gw lk = Ok eligible ->
  exists n base size g l hosts,
    ParseCIDR subnet = Some n /\ networkRange n = (base, size) /\ 4 <= size /\
    addr4 gw = Some g /\ addr4 lk = Some l /\ base < l < base + size - 1 /\
    eligible = ipv4_string <$> hosts /\ NoDup (g :: hosts) /\ l ∉ g :: hosts /\
    (forall h, h ∈ g :: hosts -> base < h < base + size - 1) /\
    Z.of_nat (length (g :: hosts)) = capacity subnet.
Proof.
  unfold tunnelAddresses, capacity.
  destruct (ParseCIDR subnet) as [n|] eqn:Hn; [|done].
  destruct (ParseIP gw) as [gip|] eqn:Hg; [|done].
  destruct (ParseIP lk) as [lip|] eqn:Hl; [|done].
  intros H. apply guard_ok in H as [Hne H]. apply guard_ok in H as [Hug H].
  apply guard_ok in H as [Hul H]. destruct (networkRange n) as [base size] eqn:Hr.
  apply (usableHost_spec _ _ _ _ _ Hn Hr) in Hug as (H4 & g & Hg4 & Hgr).
  apply (usableHost_spec _ _ _ _ _ Hn Hr) in Hul as (_ & l & Hl4 & Hlr).
  destruct (networkRange_spec _ _ _ _ Hn Hr H4) as (Hb & Hle & _).
  assert (Hcap : capacityOf n = Z.min (size - 3) capacityLimit).
  { unfold capacityOf. rewrite Hr. rewrite (proj2 (Z.ltb_ge size 4)) by done. f_equal. lia. }
  assert (g <> l) as Hgl.
  { intros ->. apply negb_true_iff, Z.eqb_neq in Hne. by apply Hne, (To4_inj _ _ l). }
  rewrite Hg4, Hl4 in H. cbn [default] in H. injection H as <-.
  set (taken := list_to_set [g; l] : gset Z). set (want := Z.to_nat (capacityOf n - 1)).
  change ({[g]} ∪ ({[l]} ∪ ∅)) with taken.
  exists n, base, size, g, l, (take want (free_from base size taken 1)).
  assert (Hin : forall h, h ∈ take want (free_from base size taken 1) ->
    h ∉ taken /\ base < h < base + size - 1).
  { intros h Hh%take_elem%free_from_spec. intuition lia. }
  unfold addr4. rewrite Hg, Hl. do 6 (split; [done|]). split.
  { rewrite collect_spec; [done|lia|lia|]; cbn beta. unfold want.
    assert (base.size (taken_from base taken 1) <= base.size taken)%nat.
    { apply subseteq_size. intros h. unfold taken_from. rewrite elem_of_filter. tauto. }
    assert (base.size taken <= 2)%nat; [|lia].
    unfold taken. rewrite size_list_to_set; [cbn; lia|].
    apply NoDup_cons. split; [set_solver|apply NoDup_singleton]. }
  split.
  { apply NoDup_cons. split; [intros [Hx _]%Hin; set_solver|].
    apply NoDup_take, NoDup_free_from. }
  split.
  { rewrite elem_of_cons. intros [->|[Hx _]%Hin]; set_solver. }
  split.
  { intros h [->|[_ Hx]%Hin]%elem_of_cons; done. }
  pose proof (free_from_length base size g l Hgr Hlr Hgl) as Hfl. cbn [length].
  rewrite length_take. fold taken in Hfl. unfold want. rewrite Hcap. unfold capacityLimit. lia.
Qed.

Lemma slotAddress_lookup slot gw eligible :
  0 <= slot -> slotAddress slot gw eligible = (gw :: eligible) !! Z.to_nat slot.
Proof.
  intros Hs. unfold slotAddress. destruct (Z.eqb_spec slot 0) as [->|Hne]; [done|].
  replace (Z.to_nat slot) with (S (Z.to_nat (slot - 1))) by lia. cbn.
  rewrite (proj2 (Z.ltb_ge (slot - 1) 0)) by lia. cbn.
  destruct (Z.leb_spec (Z.of_nat (length eligible)) (slot - 1)); [|done].
  symmetry. apply lookup_ge_None. lia.
Qed.

(** C21: The address plan fits the capacity exactly. When the operator accepts a
    subnet, gateway and link address, every slot below the capacity it computed from
    the same subnet has a tunnel address; that address is a usable host of the subnet
    (never the network or broadcast address), differs from the link's, and no two
    slots share one. *)
Theorem slot_addresses_distinct subnet gw lk eligible n :
  tunnelAddresses subnet gw lk = Ok eligible ->
  ParseCIDR subnet = Some n ->
  (forall s, 0 <= s < capacity subnet ->
     exists a ip, slotAddress s gw eligible = Some a /\ ParseIP a = Some ip /\
       usableHost n ip = true /\ addr4 a <> addr4 lk) /\
  (forall s t a b, 0 <= s < capacity subnet -> 0 <= t < capacity subnet ->
     slotAddress s gw eligible = Some a -> slotAddress t gw eligible = Some b ->
     addr4 a = addr4 b -> s = t).
Proof.
  intros Ht Hn. destruct (tunnelAddresses_ok _ _ _ _ Ht)
    as (n' & base & size & g & l & hosts & Hn' & Hr & H4 & Hg & Hl & Hlr & -> & Hnd & Hnl & Hin & Hcap).
  replace n' with n in * by congruence. clear Hn'.
  destruct (networkRange_spec _ _ _ _ Hn Hr H4) as (Hb & Hle & _).
  assert (Hslot : forall s, 0 <= s < capacity subnet -> exists a h,
    slotAddress s gw (ipv4_string <$> hosts) = Some a /\ addr4 a = Some h /\
    (g :: hosts) !! Z.to_nat s = Some h).
  { intros s Hs. rewrite slotAddress_lookup by lia.
    destruct (lookup_lt_is_Some_2 (g :: hosts) (Z.to_nat s)) as [h Hh]; [lia|].
    destruct (Z.to_nat s) as [|k]; [cbn in Hh |- *; simplify_eq; eauto|].
    change ((g :: hosts) !! S k) with (hosts !! k) in *.
    change ((gw :: (ipv4_string <$> hosts)) !! S k) with ((ipv4_string <$> hosts) !! k).
    rewrite list_lookup_fmap, Hh. exists (ipv4_string h), h. split; [done|]. split; [|done].
    apply addr4_ipv4_string. specialize (Hin h). apply list_elem_of_lookup_2 in Hh.
    rewrite elem_of_cons in Hin. specialize (Hin (or_intror Hh)). lia. }
  split.
  - intros s Hs. destruct (Hslot s Hs) as (a & h & Ha & Hh & Hk).
    apply list_elem_of_lookup_2 in Hk. pose proof Hh as Hip.
    unfold addr4 in Hip. apply bind_Some in Hip as (ip & Hip & Hip4).
    exists a, ip. do 2 (split; [done|]). split.
    + apply (usableHost_spec _ _ _ _ _ Hn Hr). eauto.
    + rewrite Hh, Hl. intros [= ->]. done.
  - intros s t a b Hs Ht' Ha Hb' Heq.
    destruct (Hslot s Hs) as (a' & h & Ha' & Hh & Hk).
    destruct (Hslot t Ht') as (b' & k & Hb2 & Hh2 & Hk2).
    assert (h = k) as -> by congruence. apply Z2Nat.inj; [lia..|].
    eapply NoDup_lookup; [exact Hnd|exact Hk|exact Hk2].
Qed.

Lemma slot_addresses_distinct_witness :
  tunnelAddresses "10.99.0.0/29" "10.99.0.3" "10.99.0.1" =
    Ok ["10.99.0.2"; "10.99.0.4"; "10.99.0.5"; "10.99.0.6"] /\
  capacity "10.99.0.0/29" = 5 /\
  exists a ip, slotAddress 4 "10.99.0.3" ["10.99.0.2"; "10.99.0.4"; "10.99.0.5"; "10.99.0.6"] = Some a /\
    ParseIP a = Some ip /\ usableHost (mkIPNet 174260224 29 32) ip = true /\ addr4 a <> addr4 "10.99.0.1".
Proof.
  split; [vm_compute; reflexivity|]. split; [vm_compute; reflexivity|].
  apply (slot_addresses_distinct "10.99.0.0/29" "10.99.0.3" "10.99.0.1" _ (mkIPNet 174260224 29 32)).
  - vm_compute. reflexivity.
  - vm_compute. reflexivity.
  - split; [lia|]. vm_compute. reflexivity.
Defined.
