(* ===== verification/Discovery.v ===== *)
(** * Managed-instance discovery: internal/gcpdiscovery/client.go

    [Classify] is the classification table; [List] is one discovery pass: it walks the
    managed-instance listing, decides which instances need a detail read and issues
    those reads. The Compute API is a parameter: the listing is the sequence of
    entries or errors its iterator yields, [get] answers an instance read.

    [List_snapshot] shows that a snapshot is never partial and that a detail is only
    ever read for a present, created, non-recreating member and is that very
    instance's. *)

From S2P Require Import Prelude GoStrings GoNet.

Definition ActionNone : string := "NONE".
Definition ActionCreating : string := "CREATING".
Definition ActionCreatingWithoutRetries : string := "CREATING_WITHOUT_RETRIES".
Definition ActionRecreating : string := "RECREATING".
Definition ActionDeleting : string := "DELETING".
Definition ActionAbandoning : string := "ABANDONING".
Definition ActionRestarting : string := "RESTARTING".
Definition ActionRefreshing : string := "REFRESHING".
Definition ActionVerifying : string := "VERIFYING".

Inductive Verdict := VerdictDeparted | VerdictPending | VerdictPresent.

#[global] Instance Verdict_eq_dec : EqDecision Verdict.
Proof. solve_decision. Defined.

(** The third case of the switch has no body, and an action outside the table reaches
    the same code. *)
Definition Classify (action : string) (hasInstanceID hasRecord : bool) : Verdict :=
  if bool_decide (action = ActionDeleting) || bool_decide (action = ActionAbandoning)
  then VerdictDeparted
  else if bool_decide (action = ActionRecreating) then VerdictPresent
  else if negb hasInstanceID then if hasRecord then VerdictPresent else VerdictPending
  else VerdictPresent.

Record ListedMember := mkListedMember {
  lm_Name : string;
  lm_Action : string;
  lm_InstanceID : string;
  lm_Verdict : Verdict;
  lm_Zone : string;
  lm_TemplateRevision : string
}.

Inductive DetailReason :=
| DetailReasonNoRecordedAddress
| DetailReasonIDChanged
| DetailReasonPeriodicRefresh.

Record Detail := mkDetail {
  d_Name : string;
  d_InstanceID : string;
  d_ExternalAddress : string;
  d_Reason : DetailReason
}.

Record Recorded := mkRecorded {
  r_Name : string;
  r_ExternalAddress : string;
  r_InstanceID : string
}.

Record Snapshot := mkSnapshot {
  Members : list ListedMember;
  Details : gmap string Detail
}.

(** The API's objects, as the source reads them. *)
Record ManagedInstance := mkManagedInstance {
  mi_Name : string;
  mi_CurrentAction : string;
  mi_Id : option Z;
  mi_Instance : string;
  mi_Template : string
}.

Record Instance_ := mkInstance {
  inst_Id : Z;
  inst_AccessConfigs : list (list string)
}.

Fixpoint zone_of_segments (segments : list string) : string :=
  match segments with
  | [] => ""
  | s :: rest => if bool_decide (s = "zones")
                 then match rest with z :: _ => z | [] => "" end
                 else zone_of_segments rest
  end.

Definition zoneFromInstanceURL (url : string) : string := zone_of_segments (Split "/"%char url).

Definition templateRevision (url : string) : string :=
  if bool_decide (url = "") then "" else default "" (last (Split "/"%char url)).

Definition externalAddress (inst : Instance_) : string :=
  default "" (head (filter (fun ip => ip <> "") (concat (inst_AccessConfigs inst)))).

Record detailFetch := mkDetailFetch {
  df_name : string;
  df_zone : string;
  df_listedID : string;
  df_reason : DetailReason
}.

Inductive list_error :=
| ListingFailed (e : string)
| DetailFailed (name e : string)
| IDMismatch (name listed got : string).

(** The entry the loop appends for [mi]. *)
Definition listed_of (recorded : gmap string Recorded) (mi : ManagedInstance) : ListedMember :=
  let id := match mi_Id mi with Some v => Itoa v | None => "" end in
  let hasRecord := bool_decide (is_Some (recorded !! mi_Name mi)) in
  mkListedMember (mi_Name mi) (mi_CurrentAction mi) id
    (Classify (mi_CurrentAction mi) (negb (bool_decide (id = ""))) hasRecord)
    (zoneFromInstanceURL (mi_Instance mi)) (templateRevision (mi_Template mi)).

(** The detail read the loop queues for it, if any. A missing record is Go's zero
    [Recorded]. *)
Definition fetch_of (recorded : gmap string Recorded) (refresh : gset string) (mi : ManagedInstance)
  : option detailFetch :=
  let m := listed_of recorded mi in
  let rec := default (mkRecorded "" "" "") (recorded !! lm_Name m) in
  let fetch reason := Some (mkDetailFetch (lm_Name m) (lm_Zone m) (lm_InstanceID m) reason) in
  if negb (bool_decide (lm_Verdict m = VerdictPresent)) ||
     bool_decide (lm_Action m = ActionRecreating) || bool_decide (lm_InstanceID m = "") then None
  else if bool_decide (is_Some (recorded !! lm_Name m)) && bool_decide (r_ExternalAddress rec = "")
  then fetch DetailReasonNoRecordedAddress
  else if negb (bool_decide (lm_InstanceID m = r_InstanceID rec))
  then fetch DetailReasonIDChanged
  else if bool_decide (lm_Name m ∈ refresh) then fetch DetailReasonPeriodicRefresh
  else None.

(** The listing loop. *)
Fixpoint walk (recorded : gmap string Recorded) (refresh : gset string)
    (it : list (result string ManagedInstance)) : result list_error (list ListedMember * list detailFetch) :=
  match it with
  | [] => Ok ([], [])
  | Err e :: _ => Err (ListingFailed e)
  | Ok mi :: it =>
      r <-! walk recorded refresh it ;;
      Ok (listed_of recorded mi :: r.1, option_list (fetch_of recorded refresh mi) ++ r.2)
  end.

Section List.
Variable get : string -> string -> result string Instance_.

(** The detail loop. *)
Fixpoint read_details (fetches : list detailFetch) (details : gmap string Detail)
  : result list_error (gmap string Detail) :=
  match fetches with
  | [] => Ok details
  | f :: fetches =>
      match get (df_zone f) (df_name f) with
      | Err e => Err (DetailFailed (df_name f) e)
      | Ok inst =>
          let gotID := Itoa (inst_Id inst) in
          guard bool_decide (gotID = df_listedID f) else IDMismatch (df_name f) (df_listedID f) gotID ;;
          read_details fetches
            (<[df_name f := mkDetail (df_name f) gotID (externalAddress inst) (df_reason f)]> details)
      end
  end.

Definition recorded_by_name (recorded : list Recorded) : gmap string Recorded :=
  foldl (fun m r => <[r_Name r := r]> m) ∅ recorded.

Definition List (it : list (result string ManagedInstance)) (recorded : list Recorded)
    (refreshNames : list string) : result list_error Snapshot :=
  r <-! walk (recorded_by_name recorded) (list_to_set refreshNames) it ;;
  details <-! read_details r.2 ∅ ;;
  Ok (mkSnapshot r.1 details).
End List.

(** ** Proofs *)
Lemma walk_ok recorded refresh it ms fs :
  walk recorded refresh it = Ok (ms, fs) ->
  exists mis, it = Ok <$> mis /\ ms = listed_of recorded <$> mis /\ fs = omap (fetch_of recorded refresh) mis.
Proof.
  revert ms fs. induction it as [|[mi|e] it IH]; intros ms fs H; cbn in H; [| |done].
  - simplify_eq. by exists [].
  - apply res_bind_ok in H as ([ms' fs'] & Hw & H). injection H as <- <-.
    destruct (IH _ _ Hw) as (mis & -> & -> & ->). exists (mi :: mis). do 2 (split; [done|]).
    cbn. by destruct (fetch_of recorded refresh mi).
Qed.

Lemma fetch_of_spec recorded refresh mi f :
  fetch_of recorded refresh mi = Some f ->
  let m := listed_of recorded mi in
  df_name f = lm_Name m /\ df_zone f = lm_Zone m /\ df_listedID f = lm_InstanceID m /\
  lm_Verdict m = VerdictPresent /\ lm_Action m <> ActionRecreating /\ lm_InstanceID m <> "".
Proof.
  unfold fetch_of. cbn zeta. intros H.
  destruct (_ || _ || _) eqn:Hg in H; [done|].
  apply orb_false_iff in Hg as [[Hv Ha]%orb_false_iff Hi].
  apply negb_false_iff, bool_decide_eq_true in Hv. apply bool_decide_eq_false in Ha, Hi.
  repeat case_match; simplify_eq; done.
Qed.

Lemma read_details_ok get fs acc details n d :
  read_details get fs acc = Ok details -> details !! n = Some d ->
  acc !! n = Some d \/
  exists f inst, f ∈ fs /\ df_name f = n /\ get (df_zone f) n = Ok inst /\
    d = mkDetail n (df_listedID f) (externalAddress inst) (df_reason f) /\
    df_listedID f = Itoa (inst_Id inst).
Proof.
  revert acc. induction fs as [|f fs IH]; intros acc H Hd; cbn in H; [simplify_eq; by left|].
  destruct (get _ _) as [inst|] eqn:Hget; [|done].
  apply guard_ok in H as [Hid%bool_decide_eq_true H].
  destruct (IH _ H Hd) as [Hl|(f' & inst' & Hin & ?)];
    [|right; exists f', inst'; split; [by right|done]].
  destruct (decide (df_name f = n)) as [<-|Hne].
  - rewrite lookup_insert_eq in Hl. injection Hl as <-. right. exists f, inst.
    rewrite Hid. repeat split; [by left|done].
  - rewrite lookup_insert_ne in Hl by done. by left.
Qed.

(** A discovery snapshot is all or nothing and its details are genuine. [List]
    succeeds only when the listing had no error, and then returns exactly one member
    per entry, in order, classified by the table; every detail in the snapshot
    belongs to a listed member that is present, has an instance id and is not being
    recreated, carries that id, and is the address of the instance read in that
    member's zone. *)
Theorem List_snapshot get it recorded refreshNames snap :
  List get it recorded refreshNames = Ok snap ->
  exists mis, it = Ok <$> mis /\
    Members snap = listed_of (recorded_by_name recorded) <$> mis /\
    forall n d, Details snap !! n = Some d ->
      exists m inst, m ∈ Members snap /\ lm_Name m = n /\ lm_Verdict m = VerdictPresent /\
        lm_Action m <> ActionRecreating /\ lm_InstanceID m <> "" /\
        get (lm_Zone m) n = Ok inst /\ d_InstanceID d = lm_InstanceID m /\
        d_InstanceID d = Itoa (inst_Id inst) /\ d_ExternalAddress d = externalAddress inst.
Proof.
  unfold List. intros H. apply res_bind_ok in H as ([ms fs] & Hw & H).
  apply res_bind_ok in H as (details & Hd & H). injection H as <-.
  destruct (walk_ok _ _ _ _ _ Hw) as (mis & -> & -> & ->). exists mis. do 2 (split; [done|]).
  intros n d Hn. cbn in Hn.
  destruct (read_details_ok _ _ _ _ _ _ Hd Hn) as [H|(f & inst & Hf & Hname & Hget & -> & Hid)];
    [by rewrite lookup_empty in H|].
  apply list_elem_of_omap in Hf as (mi & Hmi & Hfetch).
  destruct (fetch_of_spec _ _ _ _ Hfetch) as (E1 & E2 & E3 & Hv & Ha & Hi).
  exists (listed_of (recorded_by_name recorded) mi), inst. cbn [Members].
  split; [apply list_elem_of_fmap; eauto|].
  rewrite E1 in Hname. rewrite E2 in Hget. cbn [d_InstanceID d_ExternalAddress].
  rewrite <- E3. repeat split; auto. by rewrite E3.
Qed.

Definition sample_mi : ManagedInstance :=
  mkManagedInstance "gw-a" "NONE" (Some 77) "https://c/projects/p/zones/us-a/instances/gw-a"
    "https://c/global/instanceTemplates/rev-3".

Lemma List_snapshot_witness :
  exists snap, List (fun _ _ => Ok (mkInstance 77 [[]; [""; "203.0.113.7"]])) [Ok sample_mi] [] [] = Ok snap /\
    Details snap !! "gw-a" = Some (mkDetail "gw-a" "77" "203.0.113.7" DetailReasonIDChanged) /\
    lm_Zone <$> Members snap = ["us-a"] /\
    exists mis, [Ok sample_mi] = (Ok <$> mis : list (result string ManagedInstance)) /\
      Members snap = listed_of (recorded_by_name []) <$> mis.
Proof.
  eexists. split; [vm_compute; reflexivity|]. split; [vm_compute; reflexivity|].
  split; [vm_compute; reflexivity|].
  destruct (List_snapshot (fun _ _ => Ok (mkInstance 77 [[]; [""; "203.0.113.7"]])) [Ok sample_mi]
    [] [] _ eq_refl) as (mis & H1 & H2 & _). exists mis. split; [exact H1|exact H2].
Defined.
