(* ===== verification/Members.v ===== *)
(** * Fleet membership: internal/gcpmembers/reconcile.go

    One [Reconcile] pass turns a discovery snapshot into slot allocations, peers and
    the composite roster, and retires departed members. Its effects go through [Deps],
    as in the source, here operations on an abstract world; a pass is a computation of
    the state-and-error monad [M], so the writes made before an error remain.
    [RecordStore] states what the pass relies on from a [Deps] implementation, in
    terms of the records it stores; [Records.v] shows the Kubernetes implementation
    provides it.

    The theorems: no two members of a Gateway ever hold the same slot; a pass releases
    a record only after its resources are confirmed gone; absence is debounced over
    three usable snapshots; the peers of a pass have distinct slots. *)

From S2P Require Import Prelude GoStrings GoNet Discovery TunnelAddresses.

(** ** Names: NameBase and NameResourceNames of records.go *)
Record ManagedResourceNames := mkManagedResourceNames {
  KubernetesSecretName : string;
  CloudSecretName : string;
  CloudSecretVersionName : string;
  CloudSecretIAMMemberName : string
}.

Definition k8sObjectNameMaxLength : nat := 253.
Definition secretManagerSecretIDMaxLen : nat := 255.

Definition alnum (c : ascii) : bool :=
  let v := byte_val c in ((97 <=? v) && (v <=? 122)) || ((48 <=? v) && (v <=? 57)).

(** [^[a-z0-9]([a-z0-9-]*[a-z0-9])?$] *)
Definition validResourceNameSegment (s : string) : bool :=
  match chars s with
  | [] => false
  | c :: l => alnum c && forallb (fun c => alnum c || bool_decide (c = "-"%char)) l &&
              match last l with Some d => alnum d | None => true end
  end.

Definition NameBase (gatewayUID project : string) : option string :=
  let base := ToLower ("gw-" +:+ gatewayUID +:+ "-" +:+ project) in
  if validResourceNameSegment base then Some base else None.

Definition NameResourceNames (gatewayUID project instanceName : string)
  : option ManagedResourceNames :=
  prefix ← NameBase gatewayUID project;
  let base := ToLower (prefix +:+ "-" +:+ instanceName) in
  if negb (validResourceNameSegment base) then None
  else if (secretManagerSecretIDMaxLen <? String.length base)%nat then None
  else if (k8sObjectNameMaxLength <? String.length base)%nat then None
  else
    let versionName := base +:+ "-version" in
    let iamName := base +:+ "-iam" in
    if existsb (fun n => k8sObjectNameMaxLength <? String.length n)%nat [versionName; iamName]
    then None
    else Some (mkManagedResourceNames base base versionName iamName).

(** ** Records *)
Record MemberRecord := mkRecord {
  UID : string;
  ResourceVersion : string;
  Name : string;
  Zone : string;
  Slot : Z;
  PrivateKey : string;
  PublicKey : string;
  TunnelAddress : string;
  SubnetPrefix : Z;
  PeerPublicKey : string;
  PeerAllowedIPs : string;
  ExternalAddress : string;
  InstanceID : string;
  Revision : string;
  DepartureCount : Z;
  PendingConfirmation : bool;
  GatewayUID : string;
  Project : string
}.

#[global] Instance MemberRecord_eq_dec : EqDecision MemberRecord.
Proof. solve_decision. Defined.

Definition labelName : string := "wgnet.dev/gcp-member-name".
Definition labelZone : string := "wgnet.dev/gcp-member-zone".
Definition labelSlot : string := "wgnet.dev/gcp-member-slot".
Definition labelInstanceID : string := "wgnet.dev/gcp-member-instance-id".
Definition labelExternalAddress : string := "wgnet.dev/gcp-member-external-address".
Definition labelProject : string := "wgnet.dev/gcp-member-project".
Definition labelRevision : string := "wgnet.dev/gcp-member-revision".
Definition labelDepartureCount : string := "wgnet.dev/gcp-member-departure-count".
Definition labelPendingConfirmation : string := "wgnet.dev/gcp-member-pending-confirmation".
Definition labelState : string := "wgnet.dev/gcp-member-state".
Definition labelGatewayUID : string := "wgnet.dev/gcp-member-gateway-uid".

Inductive MemberState := MemberPending | MemberActive | MemberRecreating | MemberDeparting | MemberDeparted.

Definition state_string (s : MemberState) : string :=
  match s with
  | MemberPending => "Pending"
  | MemberActive => "Active"
  | MemberRecreating => "Recreating"
  | MemberDeparting => "Departing"
  | MemberDeparted => "Departed"
  end.

Record MemberStatus := mkMemberStatus {
  ms_Name : string;
  ms_Zone : string;
  ms_Slot : Z;
  ms_TunnelAddress : string;
  ms_ExternalAddress : string;
  ms_InstanceID : string;
  ms_Revision : string;
  ms_State : MemberState;
  ms_Message : string
}.

Record Peer := mkPeer {
  p_Slot : Z;
  p_PublicKey : string;
  p_ExternalAddress : string;
  p_ListenPort : Z;
  p_TunnelAddress : string
}.

Record RosterEntry := mkRosterEntry {
  re_Name : string;
  re_Slot : Z;
  re_TunnelAddress : string;
  re_Names : ManagedResourceNames
}.

Record Result := mkResult {
  res_Members : list MemberStatus;
  res_TargetSize : Z;
  res_Peers : list Peer;
  res_Roster : list RosterEntry;
  res_Unusable : bool
}.

Record BundleInputs := mkBundleInputs {
  bi_SubnetPrefix : Z;
  bi_PeerPublicKey : string;
  bi_PeerAllowedIPs : string
}.

(** ** Effects *)
Inductive create_error := AlreadyExists | CreateOther (e : string).

Record Deps (W : Type) := mkDeps {
  GetRecord : W -> string -> result string (option MemberRecord);
  CreateRecord : W -> MemberRecord -> W * option create_error;
  UpdateRecordLabels : W -> string -> gmap string string -> W * option string;
  DeleteRecord : W -> string -> string -> string -> W * option string;
  ConfirmManagedResourcesAbsent : W -> ManagedResourceNames -> result string (bool * string);
  CompositeSynced : W -> result string (bool * string);
  GenerateKeypair : W -> W * result string (string * string);
  ListRecordNames : W -> result string (list string)
}.
Arguments GetRecord {W}. Arguments CreateRecord {W}. Arguments UpdateRecordLabels {W}.
Arguments DeleteRecord {W}. Arguments ConfirmManagedResourcesAbsent {W}.
Arguments CompositeSynced {W}. Arguments GenerateKeypair {W}. Arguments ListRecordNames {W}.

Inductive member_error :=
| ErrList (e : string)
| ErrGet (name e : string)
| ErrNoAddress (slot : Z)
| ErrKeypair (name e : string)
| ErrCreate (name e : string)
| ErrUpdate (name e : string)
| ErrNames (name : string).

(** The state-and-error monad of a pass. *)
Definition M (W A : Type) : Type := W -> W * result member_error A.
Definition m_ret {W A} (a : A) : M W A := fun w => (w, Ok a).
Definition m_err {W A} (e : member_error) : M W A := fun w => (w, Err e).
Definition m_bind {W A B} (m : M W A) (k : A -> M W B) : M W B :=
  fun w => match m w with
           | (w', Ok a) => k a w'
           | (w', Err e) => (w', Err e)
           end.
Notation "x <-- m ;;; k" := (m_bind m (fun x => k)) (at level 100, m at next level, right associativity).

Definition m_read {W A} (f : W -> result string A) (g : string -> member_error) : M W A :=
  fun w => match f w with Ok a => (w, Ok a) | Err e => (w, Err (g e)) end.
Definition m_write {W} (f : W -> W * option string) (g : string -> member_error) : M W unit :=
  fun w => match f w with (w', None) => (w', Ok tt) | (w', Some e) => (w', Err (g e)) end.

Definition computeTargetSize (desired capacity lastAccepted : Z) : Z :=
  if desired <=? capacity then desired else lastAccepted.

(** [for s := range capacity] *)
Fixpoint free_slot (occupied : gset Z) (slots : list Z) : option Z :=
  match slots with
  | [] => None
  | s :: slots => if bool_decide (s ∈ occupied) then free_slot occupied slots else Some s
  end.
Definition lowestFreeSlot (occupied : gset Z) (capacity : Z) : option Z :=
  free_slot occupied (seqZ 0 capacity).

Definition pendingMember (name : string) : MemberStatus :=
  mkMemberStatus name "" 0 "" "" "" "" MemberPending "".

Definition buildMemberStatus (rec : MemberRecord) (zone revision : string) (state : MemberState)
    (message : string) : MemberStatus :=
  mkMemberStatus (Name rec) zone (wrap32 (Slot rec)) (TunnelAddress rec) (ExternalAddress rec)
    (InstanceID rec) revision state message.

Definition buildPeer (rec : MemberRecord) : Peer :=
  mkPeer (Slot rec) (PublicKey rec) (ExternalAddress rec) 0 (TunnelAddress rec).

Definition buildRosterEntry {W} (rec : MemberRecord) : M W RosterEntry :=
  match NameResourceNames (GatewayUID rec) (Project rec) (Name rec) with
  | None => m_err (ErrNames (Name rec))
  | Some names => m_ret (mkRosterEntry (Name rec) (Slot rec) (TunnelAddress rec) names)
  end.

(** The observed fields of a record, which label updates rewrite. *)
Definition with_observed (r : MemberRecord) (zone ext id rev : string) (count : Z) (pending : bool)
  : MemberRecord :=
  mkRecord (UID r) (ResourceVersion r) (Name r) zone (Slot r) (PrivateKey r) (PublicKey r)
    (TunnelAddress r) (SubnetPrefix r) (PeerPublicKey r) (PeerAllowedIPs r) ext id rev count pending
    (GatewayUID r) (Project r).

Definition with_Zone (r : MemberRecord) (z : string) : MemberRecord :=
  with_observed r z (ExternalAddress r) (InstanceID r) (Revision r) (DepartureCount r) (PendingConfirmation r).
Definition with_ExternalAddress (r : MemberRecord) (a : string) : MemberRecord :=
  with_observed r (Zone r) a (InstanceID r) (Revision r) (DepartureCount r) (PendingConfirmation r).
Definition with_InstanceID (r : MemberRecord) (i : string) : MemberRecord :=
  with_observed r (Zone r) (ExternalAddress r) i (Revision r) (DepartureCount r) (PendingConfirmation r).
Definition with_Revision (r : MemberRecord) (v : string) : MemberRecord :=
  with_observed r (Zone r) (ExternalAddress r) (InstanceID r) v (DepartureCount r) (PendingConfirmation r).
Definition with_DepartureCount (r : MemberRecord) (c : Z) : MemberRecord :=
  with_observed r (Zone r) (ExternalAddress r) (InstanceID r) (Revision r) c (PendingConfirmation r).
Definition with_Pending (r : MemberRecord) (p : bool) : MemberRecord :=
  with_observed r (Zone r) (ExternalAddress r) (InstanceID r) (Revision r) (DepartureCount r) p.

(** [if v != "" && v != old { updates[label] = v; rec.field = v }] *)
Definition refresh_field (label v old : string) (set : MemberRecord -> string -> MemberRecord)
    (ur : gmap string string * MemberRecord) : gmap string string * MemberRecord :=
  if negb (bool_decide (v = "")) && negb (bool_decide (v = old))
  then (<[label := v]> ur.1, set ur.2 v) else ur.

(** The label updates of [resumeActive] and the record they leave. *)
Definition resume_updates (rec : MemberRecord) (listed : ListedMember) (snap : Snapshot)
    (pendingConfirmation : bool) (state : MemberState) : gmap string string * MemberRecord :=
  let ur := if negb (DepartureCount rec =? 0) || pendingConfirmation
            then (<[labelDepartureCount := "0"]> ∅, with_DepartureCount rec 0)
            else (∅, rec) in
  let ext := match Details snap !! Name rec with Some d => d_ExternalAddress d | None => "" end in
  let ur := refresh_field labelExternalAddress ext (ExternalAddress rec) with_ExternalAddress ur in
  let ur := refresh_field labelInstanceID (lm_InstanceID listed) (InstanceID rec) with_InstanceID ur in
  let ur := refresh_field labelZone (lm_Zone listed) (Zone rec) with_Zone ur in
  let ur := refresh_field labelRevision (lm_TemplateRevision listed) (Revision rec) with_Revision ur in
  if pendingConfirmation
  then (<[labelState := state_string state]> (<[labelPendingConfirmation := "false"]> ur.1),
        with_Pending ur.2 false)
  else ur.

Section Reconcile.
Context {W : Type}.
Variable deps : Deps W.
Variables gatewayUID project : string.

Definition resumeActive (rec : MemberRecord) (listed : ListedMember) (snap : Snapshot)
    (pendingConfirmation : bool) : M W (MemberStatus * Peer * RosterEntry) :=
  let state := if bool_decide (lm_Action listed = ActionRecreating)
               then MemberRecreating else MemberActive in
  let '(updates, rec') := resume_updates rec listed snap pendingConfirmation state in
  _ <-- (if bool_decide (updates = ∅) then m_ret tt
         else m_write (fun w => UpdateRecordLabels deps w (Name rec) updates) (ErrUpdate (Name rec))) ;;;
  entry <-- buildRosterEntry rec' ;;;
  m_ret (buildMemberStatus rec' (lm_Zone listed) (lm_TemplateRevision listed) state "",
         buildPeer rec', entry).

Definition debounceAbsence (rec : MemberRecord) : M W (MemberStatus * option (Peer * RosterEntry)) :=
  let newCount := wrap64 (DepartureCount rec + 1) in
  if 3 <=? newCount then
    _ <-- m_write (fun w => UpdateRecordLabels deps w (Name rec)
            (<[labelState := state_string MemberDeparted]>
              (<[labelPendingConfirmation := "true"]> (<[labelDepartureCount := "3"]> ∅))))
            (ErrUpdate (Name rec)) ;;;
    let rec := with_DepartureCount rec 3 in
    m_ret (buildMemberStatus rec (Zone rec) (Revision rec) MemberDeparted "", None)
  else
    _ <-- m_write (fun w => UpdateRecordLabels deps w (Name rec)
            (<[labelState := state_string MemberDeparting]>
              (<[labelDepartureCount := Itoa newCount]> ∅))) (ErrUpdate (Name rec)) ;;;
    let rec := with_DepartureCount rec newCount in
    entry <-- buildRosterEntry rec ;;;
    m_ret (buildMemberStatus rec (Zone rec) (Revision rec) MemberDeparting "",
           Some (buildPeer rec, entry)).

(** The three confirmations and the delete of [confirmOrResume]; the result is the
    message that blocks the release, if one does. *)
Definition confirm_release (rec : MemberRecord) (names : ManagedResourceNames) : M W (option string) :=
  fun w => match ConfirmManagedResourcesAbsent deps w names with
           | Err e => (w, Ok (Some e))
           | Ok (false, reason) => (w, Ok (Some reason))
           | Ok (true, _) =>
               match CompositeSynced deps w with
               | Err e => (w, Ok (Some e))
               | Ok (false, reason) => (w, Ok (Some reason))
               | Ok (true, _) =>
                   let '(w', e) := DeleteRecord deps w (Name rec) (UID rec) (ResourceVersion rec) in
                   (w', Ok e)
               end
           end.

Definition confirmOrResume (rec : MemberRecord) (listed : option ListedMember) (snap : Snapshot)
  : M W (option MemberStatus * option (Peer * RosterEntry)) :=
  match (l ← listed; if bool_decide (lm_Verdict l = VerdictPresent) then Some l else None) with
  | Some l =>
      r <-- resumeActive rec l snap true ;;;
      m_ret (Some r.1.1, Some (r.1.2, r.2))
  | None =>
      match NameResourceNames gatewayUID (Project rec) (Name rec) with
      | None => m_err (ErrNames (Name rec))
      | Some names =>
          let blockedZone := default (Zone rec) (lm_Zone <$> listed) in
          b <-- confirm_release rec names ;;;
          m_ret ((fun msg => buildMemberStatus rec blockedZone (Revision rec) MemberDeparted msg) <$> b,
                 None)
      end
  end.

Definition tryAllocate (name : string) (listed : ListedMember) (snap : Snapshot) (occupied : gset Z)
    (capacity : Z) (eligible : list string) (gatewayAddress : string) (bundle : BundleInputs)
  : M W (option MemberRecord) :=
  match lowestFreeSlot occupied capacity with
  | None => m_ret None
  | Some slot =>
      match slotAddress slot gatewayAddress eligible with
      | None => m_err (ErrNoAddress slot)
      | Some tunnelAddress => fun w =>
          match GenerateKeypair deps w with
          | (w, Err e) => (w, Err (ErrKeypair name e))
          | (w, Ok (priv, pub)) =>
              let ext := match Details snap !! name with Some d => d_ExternalAddress d | None => "" end in
              let rec := mkRecord "" "" name (lm_Zone listed) slot priv pub tunnelAddress
                (bi_SubnetPrefix bundle) (bi_PeerPublicKey bundle) (bi_PeerAllowedIPs bundle) ext
                (lm_InstanceID listed) (lm_TemplateRevision listed) 0 false gatewayUID project in
              match CreateRecord deps w rec with
              | (w, None) => (w, Ok (Some rec))
              | (w, Some AlreadyExists) => (w, Ok None)
              | (w, Some (CreateOther e)) => (w, Err (ErrCreate name e))
              end
          end
      end
  end.

(** [rec.GatewayUID != uid || rec.Project != project || rec.Name != name], negated. *)
Definition owned (name : string) (rec : MemberRecord) : bool :=
  bool_decide (GatewayUID rec = gatewayUID) && bool_decide (Project rec = project) &&
  bool_decide (Name rec = name).

(** The adoption loop. The source ranges over a map; the order decides only which read
    error is reported. *)
Fixpoint adopt_all (names : list string) (adopted : gmap string MemberRecord) (occupied : gset Z)
  : M W (gmap string MemberRecord * gset Z) :=
  match names with
  | [] => m_ret (adopted, occupied)
  | name :: names =>
      found <-- m_read (fun w => GetRecord deps w name) (ErrGet name) ;;;
      match found with
      | None => adopt_all names adopted occupied
      | Some rec => if owned name rec
                    then adopt_all names (<[name := rec]> adopted) ({[Slot rec]} ∪ occupied)
                    else adopt_all names adopted occupied
      end
  end.

Section Pass.
Variables (snap : Snapshot) (capacity : Z) (eligible : list string) (gatewayAddress : string)
  (bundle : BundleInputs).

(** [listedByName]: a repeated name keeps its last entry. *)
Definition listed_by_name : gmap string ListedMember :=
  foldl (fun m l => <[lm_Name l := l]> m) ∅ (Members snap).

(** The allocation loop over the candidates, in ascending name order. *)
Fixpoint allocate_all (candidates : list string) (adopted : gmap string MemberRecord)
    (occupied : gset Z) : M W (gmap string MemberRecord * gset Z) :=
  match candidates with
  | [] => m_ret (adopted, occupied)
  | name :: candidates =>
      match listed_by_name !! name with
      | None => allocate_all candidates adopted occupied
      | Some listed =>
          r <-- tryAllocate name listed snap occupied capacity eligible gatewayAddress bundle ;;;
          match r with
          | None => allocate_all candidates adopted occupied
          | Some rec => allocate_all candidates (<[name := rec]> adopted) ({[Slot rec]} ∪ occupied)
          end
      end
  end.

Definition candidates_of (adopted : gmap string MemberRecord) : list string :=
  merge_sort String.le (filter (fun n => adopted !! n = None)
    (fst <$> filter (fun nl => lm_Verdict nl.2 = VerdictPresent) (map_to_list listed_by_name))).

(** One iteration of the member loop: the status to report, and the peer and roster
    entry to render. *)
Definition visit (name : string) (rec : option MemberRecord)
  : M W (option MemberStatus * option (Peer * RosterEntry)) :=
  let listed := listed_by_name !! name in
  match rec with
  | None => m_ret (Some (pendingMember name), None)
  | Some rec =>
      if PendingConfirmation rec then confirmOrResume rec listed snap
      else match listed with
           | Some l =>
               match lm_Verdict l with
               | VerdictDeparted =>
                   _ <-- m_write (fun w => UpdateRecordLabels deps w name
                           (<[labelState := state_string MemberDeparted]>
                             (<[labelPendingConfirmation := "true"]> ∅))) (ErrUpdate name) ;;;
                   m_ret (Some (buildMemberStatus rec (lm_Zone l) (Revision rec) MemberDeparted ""), None)
               | VerdictPresent =>
                   r <-- resumeActive rec l snap false ;;;
                   m_ret (Some r.1.1, Some (r.1.2, r.2))
               | VerdictPending =>
                   r <-- debounceAbsence rec ;;; m_ret (Some r.1, r.2)
               end
           | None => r <-- debounceAbsence rec ;;; m_ret (Some r.1, r.2)
           end
  end.

Fixpoint visit_all (names : list string) (adopted : gmap string MemberRecord)
  : M W (list MemberStatus * list (Peer * RosterEntry)) :=
  match names with
  | [] => m_ret ([], [])
  | name :: names =>
      r <-- visit name (adopted !! name) ;;;
      rest <-- visit_all names adopted ;;;
      m_ret (option_list r.1 ++ rest.1, option_list r.2 ++ rest.2)
  end.
End Pass.

Definition Reconcile (snap : option Snapshot) (desiredReplicas capacity : Z) (eligible : list string)
    (gatewayAddress : string) (lastAcceptedTargetSize : Z) (bundle : BundleInputs) : M W Result :=
  match snap with
  | None => m_ret (mkResult [] lastAcceptedTargetSize [] [] true)
  | Some snap =>
      tracked <-- m_read (ListRecordNames deps) ErrList ;;;
      let allNames := dom (listed_by_name snap) ∪ list_to_set tracked in
      ad <-- adopt_all (elements allNames) ∅ ∅ ;;;
      al <-- allocate_all snap capacity eligible gatewayAddress bundle
               (candidates_of snap ad.1) ad.1 ad.2 ;;;
      out <-- visit_all snap (sorted_strings allNames) al.1 ;;;
      m_ret (mkResult out.1 (computeTargetSize desiredReplicas capacity lastAcceptedTargetSize)
               (fst <$> out.2) (snd <$> out.2) false)
  end.

(** [ReconcileSingle]. A failed create is reported whatever the cause. *)
Definition ReconcileSingle (instanceName tunnelAddress privateKey publicKey : string)
    (bundle : BundleInputs) : M W Result :=
  let empty := mkResult [] 0 [] [] false in
  if bool_decide (instanceName = "") then m_ret empty
  else
    found <-- m_read (fun w => GetRecord deps w instanceName) (ErrGet instanceName) ;;;
    match found with
    | Some rec =>
        if negb (owned instanceName rec) then m_ret empty
        else entry <-- buildRosterEntry rec ;;; m_ret (mkResult [] 0 [] [entry] false)
    | None =>
        let fresh := mkRecord "" "" instanceName "" 0 privateKey publicKey tunnelAddress
          (bi_SubnetPrefix bundle) (bi_PeerPublicKey bundle) (bi_PeerAllowedIPs bundle) "" "" "" 0 false
          gatewayUID project in
        _ <-- m_write (fun w => match CreateRecord deps w fresh with
                                | (w, None) => (w, None)
                                | (w, Some AlreadyExists) => (w, Some "already exists")
                                | (w, Some (CreateOther e)) => (w, Some e)
                                end) (ErrCreate instanceName) ;;;
        entry <-- buildRosterEntry fresh ;;; m_ret (mkResult [] 0 [] [entry] false)
    end.
End Reconcile.

(** ** What a pass relies on *)

(** The fields an allocation fixes; only a release ends them. *)
Definition alloc (r : MemberRecord) :=
  (Name r, Slot r, (PrivateKey r, PublicKey r), TunnelAddress r, SubnetPrefix r,
   (PeerPublicKey r, PeerAllowedIPs r), (GatewayUID r, Project r)).

Definition with_ids (r : MemberRecord) (uid rv : string) : MemberRecord :=
  mkRecord uid rv (Name r) (Zone r) (Slot r) (PrivateKey r) (PublicKey r) (TunnelAddress r)
    (SubnetPrefix r) (PeerPublicKey r) (PeerAllowedIPs r) (ExternalAddress r) (InstanceID r)
    (Revision r) (DepartureCount r) (PendingConfirmation r) (GatewayUID r) (Project r).

(** [v, _ := strconv.Atoi(s)]: 0 on a syntax error, the nearest bound on a range error. *)
Definition atoi0 (s : string) : Z :=
  match Atoi s with
  | Ok v => v
  | Err ErrSyntax => 0
  | Err ErrRange => if HasPrefix s "-" then - 2 ^ 63 else 2 ^ 63 - 1
  end.

(** A record read back after its observed labels were overwritten. *)
Definition apply_labels (labels : gmap string string) (r : MemberRecord) : MemberRecord :=
  with_observed r
    (default (Zone r) (labels !! labelZone))
    (default (ExternalAddress r) (labels !! labelExternalAddress))
    (default (InstanceID r) (labels !! labelInstanceID))
    (default (Revision r) (labels !! labelRevision))
    (match labels !! labelDepartureCount with Some s => atoi0 s | None => DepartureCount r end)
    (match labels !! labelPendingConfirmation with
     | Some s => bool_decide (s = "true")
     | None => PendingConfirmation r
     end).

Definition observed_labels : gset string :=
  {[labelZone; labelExternalAddress; labelInstanceID; labelRevision; labelDepartureCount;
    labelPendingConfirmation; labelState]}.

(** ASCII text, which JSON encodes without loss. *)
Definition plain (s : string) : Prop := Forall (fun c => byte_val c < 128) (chars s).

(** What a store must be given to read a record back: integers that print and parse,
    an address without the separator of its rendering, and text JSON keeps. *)
Record record_ok (r : MemberRecord) : Prop := {
  ro_slot : 0 <= Slot r < 2 ^ 63;
  ro_count : 0 <= DepartureCount r < 2 ^ 63;
  ro_prefix : 0 <= SubnetPrefix r < 2 ^ 63;
  ro_address : "/"%char ∉ chars (TunnelAddress r);
  ro_plain : plain (TunnelAddress r) /\ plain (PeerPublicKey r) /\ plain (PeerAllowedIPs r)
}.

(** The inputs of a pass from which every allocated record is [record_ok]. *)
Record storable_inputs (capacity : Z) (eligible : list string) (gatewayAddress : string)
    (bundle : BundleInputs) : Prop := {
  si_capacity : capacity <= 2 ^ 63;
  si_addresses : Forall (fun a => "/"%char ∉ chars a /\ plain a) (gatewayAddress :: eligible);
  si_prefix : 0 <= bi_SubnetPrefix bundle < 2 ^ 63;
  si_plain : plain (bi_PeerPublicKey bundle) /\ plain (bi_PeerAllowedIPs bundle)
}.

(** [records w n]: the record stored for instance [n], if one carrying that name is;
    [seen w n]: the one a cached read shows, which may lag behind. Reads answer from
    [seen] and writes act on [records]; a create or update that reports an unclassified
    error may still have taken effect. *)
Class RecordStore {W : Type} (deps : Deps W) (gatewayUID : string)
    (records seen : W -> string -> option MemberRecord) : Prop := {
  rs_name w n r : records w n = Some r -> Name r = n;
  rs_get w n o : GetRecord deps w n = Ok o ->
    seen w n = (r ← o; if decide (Name r = n) then Some r else None);
  rs_list w ns : ListRecordNames deps w = Ok ns ->
    forall n r, seen w n = Some r -> GatewayUID r = gatewayUID -> n ∈ ns;
  rs_keypair w w' k : GenerateKeypair deps w = (w', k) -> forall n, records w' n = records w n;
  rs_create w0 w1 w r w' e :
    GenerateKeypair deps w0 = (w1, Ok (PrivateKey r, PublicKey r)) -> record_ok r ->
    CreateRecord deps w r = (w', e) ->
    let created := records w (Name r) = None /\
      exists uid rv, forall n, records w' n = if decide (n = Name r) then Some (with_ids r uid rv)
                                              else records w n in
    match e with
    | None => created
    | Some AlreadyExists => forall n, records w' n = records w n
    | Some (CreateOther _) => (forall n, records w' n = records w n) \/ created
    end;
  rs_update w n r labels w' e :
    records w n = Some r -> dom labels ⊆ observed_labels ->
    UpdateRecordLabels deps w n labels = (w', e) ->
    let updated := exists rv, forall m,
      records w' m = if decide (m = n) then Some (with_ids (apply_labels labels r) (UID r) rv)
                     else records w m in
    match e with
    | None => updated
    | Some _ => (forall m, records w' m = records w m) \/ updated
    end;
  rs_delete w n r uid rv w' e :
    records w n = Some r -> DeleteRecord deps w n uid rv = (w', e) ->
    (forall m, m <> n -> records w' m = records w m) /\
    (records w' n = records w n \/ records w' n = None) /\
    (e = None -> records w' n = None)
}.

Lemma m_bind_inv {W A B} (m : M W A) (k : A -> M W B) w w' res :
  m_bind m k w = (w', res) ->
  (exists e, m w = (w', Err e) /\ res = Err e) \/ exists w1 a, m w = (w1, Ok a) /\ k a w1 = (w', res).
Proof. unfold m_bind. destruct (m w) as [w1 [a|e]]; [eauto 6|intros [= <- <-]; eauto]. Qed.

Lemma m_bind_ok {W A B} (m : M W A) (k : A -> M W B) w w' b :
  m_bind m k w = (w', Ok b) -> exists w1 a, m w = (w1, Ok a) /\ k a w1 = (w', Ok b).
Proof. intros [(e & _ & ?)|H]%m_bind_inv; [done|exact H]. Qed.

Lemma m_write_inv {W} (f : W -> W * option string) g w w' res :
  m_write f g w = (w', res) -> exists e, f w = (w', e) /\ (res = Ok tt <-> e = None).
Proof. unfold m_write. destruct (f w) as [w1 [e|]]; intros [= <- <-]; eexists; split; done. Qed.

Lemma m_read_inv {W A} (f : W -> result string A) g w w' (res : result member_error A) :
  m_read f g w = (w', res) -> w' = w /\ forall a, res = Ok a -> f w = Ok a.
Proof. unfold m_read. destruct (f w); intros [= <- <-]; split; try done; by intros ? [= ->]. Qed.

(** ** The writes of a pass *)
Inductive dep_step {W : Type} (deps : Deps W) : W -> W -> Prop :=
| ds_create w w' r e : CreateRecord deps w r = (w', e) -> dep_step deps w w'
| ds_update w w' n l e : UpdateRecordLabels deps w n l = (w', e) -> dep_step deps w w'
| ds_delete w w' n u v e : DeleteRecord deps w n u v = (w', e) -> dep_step deps w w'
| ds_keypair w w' k : GenerateKeypair deps w = (w', k) -> dep_step deps w w'.

Create HintDb members.

Section Reach.
Context {W : Type} (deps : Deps W) (gatewayUID project : string).

(** A computation whose writes are all made through [deps]. *)
Definition via_deps {A} (m : M W A) : Prop := forall w w' res, m w = (w', res) -> rtc (dep_step deps) w w'.

Lemma via_ret {A} (a : A) : via_deps (m_ret a).
Proof. intros w w' res [= <- <-]. apply rtc_refl. Qed.
Lemma via_err {A} e : via_deps (m_err e : M W A).
Proof. intros w w' res [= <- <-]. apply rtc_refl. Qed.
Lemma via_bind {A B} (m : M W A) (k : A -> M W B) :
  via_deps m -> (forall a, via_deps (k a)) -> via_deps (m_bind m k).
Proof.
  intros Hm Hk w w' res [(e & H & _)|(w1 & a & H1 & H2)]%m_bind_inv; [exact (Hm _ _ _ H)|].
  etrans; [exact (Hm _ _ _ H1)|exact (Hk _ _ _ _ H2)].
Qed.
Lemma via_read {A} (f : W -> result string A) g : via_deps (m_read f g).
Proof. intros w w' res [-> _]%m_read_inv. apply rtc_refl. Qed.
Lemma via_update n l g : via_deps (m_write (fun w => UpdateRecordLabels deps w n l) g).
Proof. intros w w' res (e & H & _)%m_write_inv. eapply rtc_once, ds_update, H. Qed.
Hint Resolve via_ret via_err via_bind via_read via_update : members.

Lemma via_buildRosterEntry rec : via_deps (buildRosterEntry rec : M W RosterEntry).
Proof. unfold buildRosterEntry. case_match; auto with members. Qed.
Hint Resolve via_buildRosterEntry : members.

Lemma via_resumeActive rec l snap pc : via_deps (resumeActive deps rec l snap pc).
Proof. unfold resumeActive. destruct (resume_updates _ _ _ _ _). case_match; auto 6 with members. Qed.
Lemma via_debounce rec : via_deps (debounceAbsence deps rec).
Proof. unfold debounceAbsence. case_match; auto 6 with members. Qed.
Lemma via_confirm rec names : via_deps (confirm_release deps rec names).
Proof.
  unfold confirm_release. intros w w' res H.
  destruct (ConfirmManagedResourcesAbsent deps w names) as [[[] ?]|]; [|simplify_eq; apply rtc_refl..].
  destruct (CompositeSynced deps w) as [[[] ?]|]; [|simplify_eq; apply rtc_refl..].
  destruct (DeleteRecord _ _ _ _ _) eqn:Hd. injection H as <- <-. eapply rtc_once, ds_delete, Hd.
Qed.
Hint Resolve via_resumeActive via_debounce via_confirm : members.

Lemma via_visit snap name rec : via_deps (visit deps gatewayUID snap name rec).
Proof.
  unfold visit, confirmOrResume. repeat case_match; auto 6 with members.
Qed.
Hint Resolve via_visit : members.

Lemma via_visit_all snap names adopted : via_deps (visit_all deps gatewayUID snap names adopted).
Proof. induction names; cbn; auto 8 with members. Qed.

Lemma via_tryAllocate name l snap occ cap el ga b :
  via_deps (tryAllocate deps gatewayUID project name l snap occ cap el ga b).
Proof.
  unfold tryAllocate. destruct (lowestFreeSlot occ cap) as [slot|]; [|auto with members].
  destruct (slotAddress slot ga el); [|auto with members]. intros w w' res H.
  destruct (GenerateKeypair deps w) as [w1 [[priv pub]|e]] eqn:Hk; cycle 1.
  { simplify_eq. eapply rtc_once, ds_keypair, Hk. }
  destruct (CreateRecord deps w1 _) as [w2 o] eqn:Hc.
  eapply rtc_l; [eapply ds_keypair, Hk|]. eapply rtc_once, ds_create.
  rewrite Hc. by repeat case_match; simplify_eq.
Qed.
Hint Resolve via_tryAllocate : members.

Lemma via_allocate_all snap cap el ga b cands ad occ :
  via_deps (allocate_all deps gatewayUID project snap cap el ga b cands ad occ).
Proof.
  revert ad occ. induction cands as [|c cands IH]; intros ad occ; cbn; [auto with members|].
  case_match; [|done]. apply via_bind; [auto with members|]. intros [r|]; auto.
Qed.
End Reach.

Section Proofs.
Context {W : Type} (deps : Deps W) (gatewayUID project : string)
  (records seen : W -> string -> option MemberRecord) `{!RecordStore deps gatewayUID records seen}.

(** The cache shows the store as it is: the writes of earlier passes have reached it. *)
Definition caught_up (w : W) : Prop := forall n, seen w n = records w n.

Definition mine (r : MemberRecord) : Prop := GatewayUID r = gatewayUID /\ Project r = project.

Lemma owned_spec n r : owned gatewayUID project n r = true <-> mine r /\ Name r = n.
Proof. unfold owned, mine. rewrite !andb_true_iff, !bool_decide_eq_true. tauto. Qed.

Lemma mine_alloc r r' : alloc r = alloc r' -> mine r -> mine r'.
Proof. unfold alloc, mine. intros H [? ?]. by simplify_eq. Qed.

(** Two views of one record, differing at most in the ids the server assigns. *)
Definition same_rec (r r0 : MemberRecord) : Prop := with_ids r "" "" = with_ids r0 "" "".

Lemma same_rec_alloc r r0 : same_rec r r0 -> alloc r = alloc r0.
Proof. intros H. change (alloc (with_ids r "" "") = alloc (with_ids r0 "" "")). by rewrite H. Qed.

Lemma same_rec_ids r uid rv : same_rec r (with_ids r uid rv).
Proof. done. Qed.

Lemma same_rec_labels l r r0 : same_rec r r0 -> same_rec (apply_labels l r) (apply_labels l r0).
Proof.
  intros H. change (apply_labels l (with_ids r "" "") = apply_labels l (with_ids r0 "" "")).
  by rewrite H.
Qed.

(** The only record that changes between two worlds is [n]'s. *)
Definition touches (n : string) (w w' : W) : Prop := forall m, m <> n -> records w' m = records w m.

Lemma update_effect w n r0 l g w' res :
  records w n = Some r0 -> dom l ⊆ observed_labels ->
  m_write (fun w => UpdateRecordLabels deps w n l) g w = (w', res) ->
  touches n w w' /\
  exists r', records w' n = Some r' /\ alloc r' = alloc r0 /\
    (res = Ok tt -> same_rec (apply_labels l r0) r').
Proof.
  intros Hr Hl (e & Hu & Hres)%m_write_inv.
  pose proof (rs_update _ _ _ _ _ _ Hr Hl Hu) as H. cbn in H.
  assert (Hup : (exists rv, forall m, records w' m =
      if decide (m = n) then Some (with_ids (apply_labels l r0) (UID r0) rv) else records w m) ->
    touches n w w' /\ exists r', records w' n = Some r' /\ alloc r' = alloc r0 /\
      (res = Ok tt -> same_rec (apply_labels l r0) r')).
  { intros (rv & Hm). split; [intros m ?; by rewrite Hm, decide_False|].
    exists (with_ids (apply_labels l r0) (UID r0) rv). by rewrite Hm, decide_True. }
  destruct e as [e|]; [|by apply Hup]. destruct H as [H|H]; [|by apply Hup].
  split; [intros m _; apply H|]. exists r0. rewrite H. repeat split; [done|].
  by intros ?%Hres.
Qed.

(** A label update followed by code that writes nothing. *)
Lemma update_then {A} w n r0 l g (k : unit -> M W A) w' res :
  records w n = Some r0 -> dom l ⊆ observed_labels ->
  (forall w1 w2 b, k tt w1 = (w2, b) -> w2 = w1) ->
  m_bind (m_write (fun w => UpdateRecordLabels deps w n l) g) k w = (w', res) ->
  touches n w w' /\
  exists r', records w' n = Some r' /\ alloc r' = alloc r0 /\
    forall b, res = Ok b -> same_rec (apply_labels l r0) r' /\ k tt w' = (w', Ok b).
Proof.
  intros Hr Hl Hk [(e & H & ->)|(w1 & [] & H1 & H2)]%m_bind_inv.
  - destruct (update_effect _ _ _ _ _ _ _ Hr Hl H) as (Ht & r' & Hr' & Ha & _). split; [done|].
    exists r'. by do 2 (split; [done|]).
  - destruct (update_effect _ _ _ _ _ _ _ Hr Hl H1) as (Ht & r' & Hr' & Ha & Hok).
    pose proof (Hk _ _ _ H2) as ->. split; [done|]. exists r'. do 2 (split; [done|]).
    intros b ->. auto.
Qed.

Lemma roster_then {A} rec (k : RosterEntry -> A) (w w' : W) res :
  (entry <-- buildRosterEntry rec ;;; m_ret (k entry) : M W A) w = (w', res) ->
  w' = w /\ forall b, res = Ok b -> exists e, b = k e.
Proof.
  unfold buildRosterEntry. destruct (NameResourceNames _ _ _); cbn; intros [= <- <-]; split; try done.
  intros b [= <-]. eauto.
Qed.

Lemma refresh_field_spec label v old set ur :
  label ∈ observed_labels -> (forall r v, alloc (set r v) = alloc r) ->
  dom ur.1 ⊆ observed_labels ->
  dom (refresh_field label v old set ur).1 ⊆ observed_labels /\
  alloc (refresh_field label v old set ur).2 = alloc ur.2.
Proof.
  intros Hl Hset Hd. unfold refresh_field. destruct (_ && _); [|exact (conj Hd eq_refl)]. cbn. split; [set_solver|apply Hset].
Qed.

Lemma resume_updates_spec rec l snap pc st :
  dom (resume_updates rec l snap pc st).1 ⊆ observed_labels /\
  alloc (resume_updates rec l snap pc st).2 = alloc rec.
Proof.
  unfold resume_updates.
  set (u0 := if negb (DepartureCount rec =? 0) || pc
             then (<[labelDepartureCount := "0"]> ∅, with_DepartureCount rec 0) else (∅, rec)).
  assert (H0 : dom u0.1 ⊆ observed_labels /\ alloc u0.2 = alloc rec).
  { subst u0. case_match; cbn; [|set_solver]. split; [|done].
    rewrite dom_insert, dom_empty. unfold observed_labels. set_solver. }
  do 4 (match goal with |- context [refresh_field ?lb ?v ?o ?s u0] =>
      set (u1 := refresh_field lb v o s u0);
      assert (H1 : dom u1.1 ⊆ observed_labels /\ alloc u1.2 = alloc rec) by
        (destruct (refresh_field_spec lb v o s u0) as [Hd Ha];
          [unfold observed_labels; set_solver|done|apply H0|
           split; [exact Hd|etrans; [exact Ha|apply H0]]]);
      clearbody u1; clear H0; rename H1 into H0; clear u0; rename u1 into u0
    end).
  destruct pc; [|done]. cbn. destruct H0 as [H0 H1]. split; [|exact H1].
  rewrite !dom_insert. unfold observed_labels in *. set_solver.
Qed.

Lemma resumeActive_effect w rec l snap pc w' res r0 :
  records w (Name rec) = Some r0 -> alloc r0 = alloc rec ->
  resumeActive deps rec l snap pc w = (w', res) ->
  touches (Name rec) w w' /\
  (exists r', records w' (Name rec) = Some r' /\ alloc r' = alloc rec) /\
  forall st p e, res = Ok (st, p, e) -> p_Slot p = Slot rec.
Proof.
  intros Hr Ha. unfold resumeActive.
  set (st0 := if bool_decide _ then _ else _).
  pose proof (resume_updates_spec rec l snap pc st0) as [Hd Hu].
  destruct (resume_updates rec l snap pc st0) as [u rec']. cbn in Hd, Hu. intros H.
  assert (Hslot : Slot rec' = Slot rec) by (unfold alloc in Hu; congruence).
  case_bool_decide.
  - apply roster_then in H as [-> Hb]. split; [done|]. split; [eauto|].
    intros st p e Hres. by destruct (Hb _ Hres) as [e' [= -> -> ->]].
  - apply (update_then _ _ r0) in H as (Ht & r' & Hr' & Ha' & Hok); [|done|done|].
    + split; [done|]. split; [exists r'; by rewrite Ha'|]. intros st p e Hres.
      destruct (Hok _ Hres) as [_ Hk]. apply roster_then in Hk as [_ Hb].
      by destruct (Hb _ eq_refl) as [e' [= -> -> ->]].
    + intros w1 w2 b Hk. by apply roster_then in Hk as [-> _].
Qed.

Lemma debounce_effect w rec w' res r0 :
  records w (Name rec) = Some r0 -> same_rec rec r0 ->
  debounceAbsence deps rec w = (w', res) ->
  touches (Name rec) w w' /\
  (exists r', records w' (Name rec) = Some r' /\ alloc r' = alloc rec /\
    forall st pe, res = Ok (st, pe) ->
      (pe = None <-> 3 <= wrap64 (DepartureCount rec + 1)) /\
      same_rec (apply_labels (if 3 <=? wrap64 (DepartureCount rec + 1)
        then <[labelState := state_string MemberDeparted]>
              (<[labelPendingConfirmation := "true"]> (<[labelDepartureCount := "3"]> ∅))
        else <[labelState := state_string MemberDeparting]>
              (<[labelDepartureCount := Itoa (wrap64 (DepartureCount rec + 1))]> ∅)) rec) r') /\
  forall st p e, res = Ok (st, Some (p, e)) -> p_Slot p = Slot rec.
Proof.
  intros Hr Hs. unfold debounceAbsence. pose proof (same_rec_alloc _ _ Hs) as Ha. rewrite Ha.
  destruct (Z.leb_spec 3 (wrap64 (DepartureCount rec + 1))) as [Hc|Hc]; intros H;
    apply (update_then _ _ r0) in H as (Ht & r' & Hr' & Ha' & Hok);
    try exact Hr; try (rewrite !dom_insert, dom_empty; unfold observed_labels; set_solver).
  - split; [done|]. split; [|intros st p e Hres; by destruct (Hok _ Hres) as [_ [= ]]].
    exists r'. do 2 (split; [done|]). intros st pe Hres. destruct (Hok _ Hres) as [Hsr [= <- <-]].
    split; [done|]. etrans; [apply same_rec_labels, Hs|exact Hsr].
  - by intros w1 w2 b [= <- <-].
  - split; [done|].
    assert (E : forall st pe, res = Ok (st, pe) -> exists e,
      pe = Some (buildPeer (with_DepartureCount rec (wrap64 (DepartureCount rec + 1))), e)).
    { intros st pe Hres. destruct (Hok _ Hres) as [_ Hk]. apply roster_then in Hk as [_ Hb].
      destruct (Hb _ eq_refl) as [e [= -> ->]]. eauto. }
    split; [|intros st p e Hres; by destruct (E _ _ Hres) as [e' [= -> ->]]].
    exists r'. do 2 (split; [done|]). intros st pe Hres. destruct (E _ _ Hres) as [e ->].
    destruct (Hok _ Hres) as [Hsr _]. split; [split; [done|lia]|].
    etrans; [apply same_rec_labels, Hs|exact Hsr].
  - intros w1 w2 b Hk. by apply roster_then in Hk as [-> _].
Qed.

(** The release conditions of a record, read in [w]. *)
Definition confirmed (w : W) (rec : MemberRecord) : Prop :=
  exists names a b,
    NameResourceNames gatewayUID (Project rec) (Name rec) = Some names /\
    ConfirmManagedResourcesAbsent deps w names = Ok (true, a) /\
    CompositeSynced deps w = Ok (true, b).

Definition present (snap : Snapshot) (name : string) : Prop :=
  exists l, listed_by_name snap !! name = Some l /\ lm_Verdict l = VerdictPresent.

Lemma confirm_release_effect w rec names w' b r0 :
  records w (Name rec) = Some r0 ->
  NameResourceNames gatewayUID (Project rec) (Name rec) = Some names ->
  confirm_release deps rec names w = (w', b) ->
  touches (Name rec) w w' /\
  (records w' (Name rec) = Some r0 \/ (records w' (Name rec) = None /\ confirmed w rec)).
Proof.
  intros Hr Hn. unfold confirm_release, confirmed.
  destruct (ConfirmManagedResourcesAbsent deps w names) as [[[] ?]|] eqn:Hc;
    [|intros [= <- <-]; split; [done|by left]..].
  destruct (CompositeSynced deps w) as [[[] ?]|] eqn:Hs; [|intros [= <- <-]; split; [done|by left]..].
  destruct (DeleteRecord _ _ _ _ _) as [w1 e] eqn:Hd. intros [= <- <-].
  destruct (rs_delete _ _ _ _ _ _ _ Hr Hd) as (Ht & Hor & _). split; [exact Ht|].
  destruct Hor as [->| ->]; [by left|]. right. split; [done|]. eauto 6.
Qed.

(** The visit of a member that keeps its allocation. *)
Definition stays (rec : MemberRecord) (w w' : W)
    (res : result member_error (option MemberStatus * option (Peer * RosterEntry))) : Prop :=
  touches (Name rec) w w' /\
  (exists r', records w' (Name rec) = Some r' /\ alloc r' = alloc rec) /\
  forall st p e, res = Ok (st, Some (p, e)) -> p_Slot p = Slot rec /\ is_Some (records w' (Name rec)).

Lemma resume_stays w rec l snap pc w' res r0 :
  records w (Name rec) = Some r0 -> alloc r0 = alloc rec ->
  (r <-- resumeActive deps rec l snap pc ;;; m_ret (Some r.1.1, Some (r.1.2, r.2))) w = (w', res) ->
  stays rec w w' res.
Proof.
  intros Hr Ha [(e & H & ->)|(w2 & [[st p] en] & H1 & H2)]%m_bind_inv.
  - destruct (resumeActive_effect _ _ _ _ _ _ _ _ Hr Ha H) as (Ht & Hx & _). done.
  - injection H2 as <- <-. destruct (resumeActive_effect _ _ _ _ _ _ _ _ Hr Ha H1) as (Ht & Hx & Hp).
    split; [done|]. split; [done|]. intros st' p' e' [= <- <- <-].
    split; [by eapply Hp|]. destruct Hx as (r' & -> & _). eauto.
Qed.

Lemma debounce_stays w rec w' res r0 :
  records w (Name rec) = Some r0 -> same_rec rec r0 ->
  (r <-- debounceAbsence deps rec ;;; m_ret (Some r.1, r.2)) w = (w', res) ->
  stays rec w w' res.
Proof.
  intros Hr Hs [(e & H & ->)|(w2 & [st pe] & H1 & H2)]%m_bind_inv.
  - destruct (debounce_effect _ _ _ _ _ Hr Hs H) as (Ht & (r' & Hr' & Ha' & _) & _).
    split; [done|]. split; [eauto|done].
  - injection H2 as <- <-.
    destruct (debounce_effect _ _ _ _ _ Hr Hs H1) as (Ht & (r' & Hr' & Ha' & _) & Hp).
    split; [done|]. split; [eauto|]. intros st' p' e' [= <- ->]. rewrite Hr'. eauto.
Qed.

Lemma departed_stays w rec l g w' res r0 st :
  records w (Name rec) = Some r0 -> alloc r0 = alloc rec -> dom l ⊆ observed_labels ->
  (_ <-- m_write (fun w => UpdateRecordLabels deps w (Name rec) l) g ;;; m_ret (st, None)) w = (w', res) ->
  stays rec w w' res.
Proof.
  intros Hr Ha Hd H.
  apply (update_then _ _ r0) in H as (Ht & r' & Hr' & Ha' & Hok); [|done|done|by intros w1 w2 b [= <- <-]].
  split; [done|]. split; [exists r'; by rewrite Ha', Ha|].
  intros st' p e Hx. by destruct (Hok _ Hx) as [_ [= ]].
Qed.

(** A visit keeps the member's allocation, or releases it under confirmation. *)
Lemma visit_effect w snap name rec r0 w' res :
  records w name = Some r0 -> same_rec rec r0 ->
  visit deps gatewayUID snap name (Some rec) w = (w', res) ->
  Name rec = name /\
  (stays rec w w' res \/
   touches name w w' /\ records w' name = None /\ PendingConfirmation rec = true /\
   ~ present snap name /\ confirmed w rec /\ forall st pe, res = Ok (st, pe) -> pe = None).
Proof.
  intros Hr Hs. pose proof (same_rec_alloc _ _ Hs) as Ha. pose proof (rs_name _ _ _ Hr) as Hn.
  assert (Hname : Name rec = name) by (unfold alloc in Ha; congruence). clear Hn. subst name.
  intros H. split; [done|]. revert H. symmetry in Ha.
  unfold visit. destruct (PendingConfirmation rec) eqn:Hpc.
  - unfold confirmOrResume. destruct (_ ≫= _) as [l|] eqn:Hl.
    { intros H. left. exact (resume_stays _ _ _ _ _ _ _ _ Hr Ha H). }
    assert (Hnp : ~ present snap (Name rec)).
    { intros (l & Hl' & Hv). rewrite Hl' in Hl. cbn in Hl. by rewrite bool_decide_eq_true_2 in Hl. }
    assert (Hsame : forall res, (forall st p e, res <> Ok (st, Some (p, e))) -> stays rec w w res).
    { intros res1 Hne. split; [done|]. split; [eauto|]. intros st p e Hx. by apply Hne in Hx. }
    destruct (NameResourceNames _ _ _) as [names|] eqn:Hn; [|intros [= <- <-]; left; by apply Hsame].
    intros [(e & H & ->)|(w1 & b & H1 & H2)]%m_bind_inv.
    { unfold confirm_release in H. exfalso. repeat case_match; simplify_eq. }
    injection H2 as <- <-.
    destruct (confirm_release_effect _ _ _ _ _ _ Hr Hn H1) as (Ht & [Hk|[Hk Hc]]).
    + left. split; [done|]. split; [eauto|done].
    + right. repeat split; try done. by intros st pe [= _ <-].
  - intros H. left. destruct (listed_by_name snap !! Name rec) as [l|]; [destruct (lm_Verdict l)|].
    + eapply departed_stays; [exact Hr|done| |exact H].
      rewrite !dom_insert, dom_empty. unfold observed_labels. set_solver.
    + exact (debounce_stays _ _ _ _ _ Hr Hs H).
    + exact (resume_stays _ _ _ _ _ _ _ _ Hr Ha H).
    + exact (debounce_stays _ _ _ _ _ Hr Hs H).
Qed.

(** What the member loop does to one name. *)
Definition outcome_of (snap : Snapshot) (w w' : W) (n : string) (rec : MemberRecord) : Prop :=
  (exists r', records w' n = Some r' /\ alloc r' = alloc rec) \/
  records w' n = None /\ PendingConfirmation rec = true /\ ~ present snap n /\
  exists w1, rtc (dep_step deps) w w1 /\ rtc (dep_step deps) w1 w' /\ confirmed w1 rec.

Definition peer_of (adopted : gmap string MemberRecord) (w' : W) (k : string) (pe : Peer * RosterEntry)
  : Prop :=
  exists rec, adopted !! k = Some rec /\ p_Slot pe.1 = Slot rec /\ is_Some (records w' k).

Lemma visit_opt snap n (adopted : gmap string MemberRecord) w w' res :
  (forall rec, adopted !! n = Some rec -> exists r0, records w n = Some r0 /\ same_rec rec r0) ->
  visit deps gatewayUID snap n (adopted !! n) w = (w', res) ->
  touches n w w' /\ (adopted !! n = None -> records w' n = records w n) /\
  (forall rec, adopted !! n = Some rec -> outcome_of snap w w' n rec) /\
  (forall st pe, res = Ok (st, Some pe) -> peer_of adopted w' n pe).
Proof.
  intros Had H. pose proof (via_visit deps gatewayUID snap n (adopted !! n) w w' res H) as Hrtc.
  unfold outcome_of, peer_of. destruct (adopted !! n) as [rec|] eqn:Hn.
  - destruct (Had _ eq_refl) as (r0 & Hr & Hs).
    destruct (visit_effect _ _ _ _ _ _ _ Hr Hs H) as (<- & [(Ht & Hx & Hp)|(Ht & Hx & Hpc & Hnp & Hc & Hpe)]).
    + split; [done|]. split; [done|]. split; [intros ? [= <-]; by left|].
      intros st [p e] Hres. exists rec. split; [done|]. exact (Hp _ _ _ Hres).
    + split; [done|]. split; [done|]. split.
      * intros ? [= <-]. right. repeat split; try done. exists w. repeat split; [apply rtc_refl|done|done].
      * intros st pe Hres. by apply Hpe in Hres.
  - cbn in H. injection H as <- <-. repeat split; done.
Qed.

Lemma outcome_frame snap w0 w w' w2 n rec :
  rtc (dep_step deps) w0 w -> rtc (dep_step deps) w' w2 -> records w2 n = records w' n ->
  outcome_of snap w w' n rec -> outcome_of snap w0 w2 n rec.
Proof.
  intros H1 H2 Hr. unfold outcome_of. rewrite Hr.
  intros [?|(? & ? & ? & w1 & Ha & Hb & ?)]; [by left|right]. repeat split; try done.
  exists w1. split; [etrans; [exact H1|exact Ha]|]. split; [etrans; [exact Hb|exact H2]|done].
Qed.

(** What it does to each name. *)
Lemma visit_all_effect snap names adopted w w' res :
  NoDup names ->
  (forall n rec, n ∈ names -> adopted !! n = Some rec ->
     exists r0, records w n = Some r0 /\ same_rec rec r0) ->
  visit_all deps gatewayUID snap names adopted w = (w', res) ->
  (forall n, n ∉ names \/ adopted !! n = None -> records w' n = records w n) /\
  (forall n rec, n ∈ names -> adopted !! n = Some rec -> outcome_of snap w w' n rec) /\
  (forall ms pes, res = Ok (ms, pes) ->
     exists ks, ks `sublist_of` names /\ Forall2 (peer_of adopted w') ks pes).
Proof.
  revert w res. induction names as [|n names IH]; intros w res Hnd Had H; cbn in H.
  { injection H as <- <-. split; [done|]. split; [by intros n rec ?%elem_of_nil|].
    intros ms pes [= <- <-]. exists []. split; constructor. }
  apply NoDup_cons in Hnd as [Hn Hnd].
  assert (Hin : forall rec, adopted !! n = Some rec -> exists r0, records w n = Some r0 /\ same_rec rec r0).
  { intros rec. apply Had. by left. }
  apply m_bind_inv in H as [(e & H & ->)|(w1 & [st pe] & H1 & H2)].
  { destruct (visit_opt _ _ _ _ _ _ Hin H) as (Ht & Hnone & Hout & _). split; [|split; [|done]].
    - intros m Hm. destruct (decide (m = n)) as [->|]; [|by apply Ht].
      destruct Hm as [Hm|Hm]; [exfalso; apply Hm; by left|by apply Hnone].
    - intros m rec Hm Hrec. destruct (decide (m = n)) as [->|Hne]; [by apply Hout|]. left.
      destruct (Had m rec Hm Hrec) as (r0 & Hr0 & Hs). exists r0. rewrite Ht by done.
      split; [done|]. symmetry. by apply same_rec_alloc. }
  destruct (visit_opt _ _ _ _ _ _ Hin H1) as (Ht & Hnone & Hout & Hpe).
  assert (exists res2, visit_all deps gatewayUID snap names adopted w1 = (w', res2) /\
    forall ms pes, res = Ok (ms, pes) -> exists ms2 pes2, res2 = Ok (ms2, pes2) /\
      pes = option_list pe ++ pes2) as (res2 & Hv2 & Hres2).
  { apply m_bind_inv in H2 as [(e & H & ->)|(w2 & [ms2 pes2] & H3 & H4)].
    - eexists. split; [exact H|done].
    - injection H4 as <- <-. eexists. split; [exact H3|]. intros ms pes [= <- <-]. eauto. }
  destruct (IH w1 res2 Hnd) as (Hf & Ho & Hk); [|exact Hv2|].
  { intros m rec Hm Hrec. rewrite Ht by congruence. apply Had; [by right|done]. }
  pose proof (via_visit deps gatewayUID snap n _ _ _ _ H1) as Hr1.
  pose proof (via_visit_all deps gatewayUID snap names _ _ _ _ Hv2) as Hr2.
  assert (Hn' : records w' n = records w1 n) by (apply Hf; by left).
  split; [|split].
  - intros m Hm. destruct (decide (m = n)) as [->|Hne].
    + rewrite Hn'. destruct Hm as [Hm|Hm]; [exfalso; apply Hm; by left|by apply Hnone].
    + rewrite Hf; [by apply Ht|]. destruct Hm as [Hm|Hm]; [left; set_solver|by right].
  - intros m rec [->|Hm]%elem_of_cons Hrec.
    + eapply outcome_frame; [apply rtc_refl|exact Hr2|done|by apply Hout].
    + eapply outcome_frame; [exact Hr1|apply rtc_refl|done|by apply Ho].
  - intros ms pes Hres. destruct (Hres2 _ _ Hres) as (ms2 & pes2 & E2 & ->).
    destruct (Hk _ _ E2) as (ks & Hsub & Hall). destruct pe as [pe|]; cbn.
    + exists (n :: ks). split; [by constructor|]. constructor; [|done].
      destruct (Hpe _ _ eq_refl) as (rec & ? & ? & ?). exists rec. rewrite Hn'. done.
    + exists ks. split; [by constructor|done].
Qed.

Lemma adopt_all_effect names ad occ w w' res :
  caught_up w -> NoDup names ->
  adopt_all deps gatewayUID project names ad occ w = (w', res) ->
  w' = w /\ forall ad' occ', res = Ok (ad', occ') ->
    occ ⊆ occ' /\ (forall n, n ∉ names -> ad' !! n = ad !! n) /\
    forall n, n ∈ names ->
      (forall r, records w n = Some r -> mine r -> ad' !! n = Some r /\ Slot r ∈ occ') /\
      (forall r, ad' !! n = Some r -> ad !! n = Some r \/ records w n = Some r /\ mine r).
Proof.
  intros Hcu. revert ad occ. induction names as [|m names IH]; intros ad occ Hnd H; cbn in H.
  { injection H as <- <-. split; [done|]. intros ad' occ' [= <- <-]. repeat split; try done; set_solver. }
  apply NoDup_cons in Hnd as [Hm Hnd].
  apply m_bind_inv in H as [(e & H & ->)|(w1 & o & H1 & H2)].
  { by apply m_read_inv in H as [-> _]. }
  apply m_read_inv in H1 as [-> Hget]. specialize (Hget _ eq_refl).
  pose proof (rs_get _ _ _ Hget) as Hrec. rewrite Hcu in Hrec.
  assert (Hcase : (exists r, o = Some r /\ records w m = Some r /\ mine r /\
      adopt_all deps gatewayUID project names (<[m := r]> ad) ({[Slot r]} ∪ occ) w = (w', res)) \/
    ((forall r, records w m = Some r -> ~ mine r) /\
      adopt_all deps gatewayUID project names ad occ w = (w', res))).
  { destruct o as [r|]; [|right; split; [|done]; by rewrite Hrec].
    destruct (owned gatewayUID project m r) eqn:Ho.
    - apply owned_spec in Ho as [Hmine Hname]. cbn in Hrec. rewrite decide_True in Hrec by done.
      left. eauto 6.
    - right. split; [|done]. intros r' Hr' Hmine. cbn in Hrec. rewrite Hr' in Hrec.
      case_decide as Hname; simplify_eq. assert (owned gatewayUID project (Name r) r = true)
        by (by apply owned_spec). congruence. }
  destruct Hcase as [(r & -> & Hr & Hmine & Hrest)|[Hno Hrest]];
    destruct (IH _ _ Hnd Hrest) as [-> Hok]; (split; [done|]); intros ad' occ' Hres;
    destruct (Hok _ _ Hres) as (Hocc & Hout & Hall).
  - split; [set_solver|]. split.
    { intros n Hn. rewrite Hout by set_solver. rewrite lookup_insert_ne by set_solver. done. }
    intros n [->|Hn]%elem_of_cons.
    + rewrite Hout, lookup_insert_eq by done. split.
      * intros r' Hr' _. replace r' with r by congruence. split; [done|set_solver].
      * intros r' [= <-]. by right.
    + destruct (Hall n Hn) as [Hin1 Hin2]. split; [done|]. intros r' Hr'.
      destruct (Hin2 _ Hr') as [H|H]; [|by right].
      rewrite lookup_insert_ne in H by congruence. by left.
  - split; [done|]. split; [intros n Hn; apply Hout; set_solver|].
    intros n [->|Hn]%elem_of_cons; [|by apply Hall]. split.
    + intros r' Hr' Hm'. by destruct (Hno _ Hr').
    + intros r'. rewrite Hout by done. by left.
Qed.

(** ** Slots *)
Definition unique_slots (w : W) : Prop :=
  forall n1 n2 r1 r2, records w n1 = Some r1 -> records w n2 = Some r2 -> mine r1 -> mine r2 ->
    Slot r1 = Slot r2 -> n1 = n2.

Record alloc_inv (w : W) (ad : gmap string MemberRecord) (occ : gset Z) : Prop := {
  ai_occupied n r : records w n = Some r -> mine r -> Slot r ∈ occ;
  ai_unique : unique_slots w;
  ai_adopted n r : ad !! n = Some r -> mine r /\ exists r0, records w n = Some r0 /\ same_rec r r0
}.

Lemma free_slot_spec occ slots s : free_slot occ slots = Some s -> s ∈ slots /\ s ∉ occ.
Proof.
  induction slots as [|t slots IH]; cbn; [done|]. case_bool_decide.
  - intros [? ?]%IH. split; [by right|done].
  - intros [= <-]. split; [by left|done].
Qed.

(** A store to which one record of this Gateway was added, on a slot below the
    capacity. *)
Definition allocated (capacity : Z) (occ : gset Z) (name : string) (rec : MemberRecord) (w w' : W) : Prop :=
  records w name = None /\ mine rec /\ Name rec = name /\ 0 <= Slot rec < capacity /\ Slot rec ∉ occ /\
  PendingConfirmation rec = false /\
  exists r0, same_rec rec r0 /\
    forall n, records w' n = if decide (n = name) then Some r0 else records w n.

Lemma slotAddress_in slot ga el a : slotAddress slot ga el = Some a -> a ∈ ga :: el.
Proof.
  unfold slotAddress. case_match; [intros [= <-]; by left|]. case_match; [done|].
  intros H'%list_elem_of_lookup_2. by right.
Qed.

Lemma tryAllocate_effect name l snap occ cap el ga b w w' res :
  storable_inputs cap el ga b ->
  tryAllocate deps gatewayUID project name l snap occ cap el ga b w = (w', res) ->
  ((forall n, records w' n = records w n) /\ (forall r, res <> Ok (Some r))) \/
  exists rec, allocated cap occ name rec w w' /\ forall o, res = Ok o -> o = Some rec.
Proof.
  intros Hin0. unfold tryAllocate, lowestFreeSlot. destruct (free_slot _ _) as [slot|] eqn:Hs; [|intros [= <- <-]; by left].
  apply free_slot_spec in Hs as [Hin Hocc]. apply elem_of_seqZ in Hin.
  destruct (slotAddress _ _ _) as [ta|] eqn:Hta; [|intros [= <- <-]; by left].
  destruct (GenerateKeypair deps w) as [w1 k] eqn:Hk. pose proof (rs_keypair _ _ _ Hk) as Hw1.
  destruct k as [[priv pub]|e]; [|intros [= <- <-]; by left].
  set (rec := mkRecord _ _ _ _ _ _ _ _ _ _ _ _ _ _ _ _ _ _).
  destruct (CreateRecord deps w1 rec) as [w2 e] eqn:Hc. 
  assert (Hok : record_ok rec).
  { destruct Hin0 as [Hcap Haddr Hpre Hpl]. apply slotAddress_in in Hta.
    rewrite Forall_forall in Haddr. destruct (Haddr _ Hta). split; cbn; [lia..|done|done]. }
  pose proof (rs_create w w1 w1 rec w2 e Hk Hok Hc) as Hcr.
  cbn zeta in Hcr.
  assert (Hal : records w1 (Name rec) = None /\ (exists uid rv, forall n, records w2 n =
      if decide (n = Name rec) then Some (with_ids rec uid rv) else records w1 n) ->
    allocated cap occ name rec w w2).
  { intros [Hnone (uid & rv & Hw2)]. change (Name rec) with name in *.
    split; [by rewrite <- Hw1|]. split; [done|]. split; [done|]. split; [cbn; lia|]. split; [done|].
    split; [done|]. exists (with_ids rec uid rv). split; [apply same_rec_ids|].
    intros n. by rewrite Hw2, Hw1. }
  destruct e as [[|e]|]; intros [= <- <-].
  - left. split; [|done]. intros n. by rewrite Hcr, Hw1.
  - destruct Hcr as [Hcr|Hcr]; [|right; exists rec; split; [by apply Hal|done]].
    left. split; [|done]. intros n. by rewrite Hcr, Hw1.
  - right. exists rec. split; [by apply Hal|]. by intros o [= <-].
Qed.

Lemma allocated_inv cap w ad occ name rec w' :
  alloc_inv w ad occ -> allocated cap occ name rec w w' ->
  alloc_inv w' (<[name := rec]> ad) ({[Slot rec]} ∪ occ).
Proof.
  intros [Hocc Huniq Had] (Hnone & Hmine & Hname & Hslot & Hfree & _ & r0 & Hs & Hw').
  pose proof (same_rec_alloc _ _ Hs) as Ha.
  assert (Hs0 : Slot r0 = Slot rec) by (unfold alloc in Ha; congruence). split.
  - intros n r. rewrite Hw'. case_decide; [intros [= <-] _; set_solver|].
    intros Hr Hm. specialize (Hocc _ _ Hr Hm). set_solver.
  - intros n1 n2 r1 r2. rewrite !Hw'.
    case_decide as E1; case_decide as E2; intros H1 H2 Hm1 Hm2 Heq; [congruence| | |eauto].
    + injection H1 as <-. destruct Hfree. rewrite <- Hs0, Heq. exact (Hocc _ _ H2 Hm2).
    + injection H2 as <-. destruct Hfree. rewrite <- Hs0, <- Heq. exact (Hocc _ _ H1 Hm1).
  - intros n r. destruct (decide (n = name)) as [->|Hne].
    + rewrite lookup_insert_eq. intros [= <-]. split; [done|]. exists r0. by rewrite Hw', decide_True.
    + rewrite lookup_insert_ne by congruence. intros Hr. rewrite Hw', decide_False by done. by apply Had.
Qed.

(** Records are only added, and the added one is this Gateway's, below the capacity. *)
Definition grows (cap : Z) (w w' : W) : Prop :=
  (forall n r, records w n = Some r -> records w' n = Some r) /\
  (forall n r, records w' n = Some r ->
     records w n = Some r \/ (records w n = None /\ mine r /\ 0 <= Slot r < cap)).

Lemma grows_same cap w w' : (forall n, records w' n = records w n) -> grows cap w w'.
Proof. intros H. split; intros n r; rewrite H; auto. Qed.

Lemma grows_trans cap w1 w2 w3 : grows cap w1 w2 -> grows cap w2 w3 -> grows cap w1 w3.
Proof.
  intros [A1 B1] [A2 B2]. split; [auto|]. intros n r [H|(Hn & Hm & Hs)]%B2; [by apply B1|].
  destruct (records w1 n) as [r'|] eqn:E; [|auto]. apply A1 in E. congruence.
Qed.

Lemma allocated_grows cap occ name rec w w' : allocated cap occ name rec w w' -> grows cap w w'.
Proof.
  intros (Hnone & Hmine & Hname & Hslot & Hfree & _ & r0 & Hs & Hw').
  pose proof (same_rec_alloc _ _ Hs) as Ha. split; intros n r; rewrite Hw'.
  - case_decide; [congruence|done].
  - case_decide; [|by left]. subst n. intros [= <-]. right. split; [done|].
    split; [exact (mine_alloc _ _ Ha Hmine)|]. unfold alloc in Ha. replace (Slot r0) with (Slot rec) by congruence. done.
Qed.

Lemma alloc_inv_same w w' ad occ :
  (forall n, records w' n = records w n) -> alloc_inv w ad occ -> alloc_inv w' ad occ.
Proof.
  intros H [H1 H2 H3]. split.
  - intros n r. rewrite H. apply H1.
  - intros n1 n2 r1 r2. rewrite !H. apply H2.
  - intros n r. rewrite H. apply H3.
Qed.

Lemma allocate_all_effect snap cap el ga b cands ad occ w w' res :
  storable_inputs cap el ga b ->
  alloc_inv w ad occ ->
  allocate_all deps gatewayUID project snap cap el ga b cands ad occ w = (w', res) ->
  unique_slots w' /\ grows cap w w' /\
  forall ad' occ', res = Ok (ad', occ') ->
    alloc_inv w' ad' occ' /\ (forall n r, ad !! n = Some r -> ad' !! n = Some r) /\
    (forall n, is_Some (ad' !! n) -> is_Some (ad !! n) \/ n ∈ cands).
Proof.
  intros Hst. revert w ad occ. induction cands as [|c cands IH]; intros w ad occ Hinv H; cbn in H.
  { injection H as <- <-. split; [by apply (ai_unique w ad occ)|]. split; [by apply grows_same|].
    intros ad' occ' [= <- <-]. split; [done|]. split; [done|by left]. }
  (* one iteration leaves the invariant, and the rest of the loop runs from there *)
  assert (Hgo : forall w1 ad1 occ1, alloc_inv w1 ad1 occ1 -> grows cap w w1 ->
      (forall n r, ad !! n = Some r -> ad1 !! n = Some r) ->
      (forall n, is_Some (ad1 !! n) -> is_Some (ad !! n) \/ n = c) ->
      allocate_all deps gatewayUID project snap cap el ga b cands ad1 occ1 w1 = (w', res) ->
      unique_slots w' /\ grows cap w w' /\
      forall ad' occ', res = Ok (ad', occ') ->
        alloc_inv w' ad' occ' /\ (forall n r, ad !! n = Some r -> ad' !! n = Some r) /\
        (forall n, is_Some (ad' !! n) -> is_Some (ad !! n) \/ n ∈ c :: cands)).
  { intros w1 ad1 occ1 Hi Hg Hk Hd Hrest. destruct (IH _ _ _ Hi Hrest) as (Hu & Hg' & Hok).
    split; [done|]. split; [exact (grows_trans _ _ _ _ Hg Hg')|]. intros ad' occ' Hres.
    destruct (Hok _ _ Hres) as (? & ? & Hd'). split; [done|]. split; [auto|].
    intros n [Hn|Hn]%Hd'; [destruct (Hd n Hn) as [?| ->]; [by left|right; by left]|right; by right]. }
  destruct (listed_by_name snap !! c) as [l|];
    [|apply (Hgo w ad occ); [done|by apply grows_same|done|by left|done]].
  apply m_bind_inv in H as [(e & H & ->)|(w1 & o & H1 & H2)].
  - destruct (tryAllocate_effect _ _ _ _ _ _ _ _ _ _ _ Hst H) as [[Hw _]|(rec & Hal & _)].
    + split; [by apply (ai_unique w' ad occ), (alloc_inv_same w)|]. split; [by apply grows_same|done].
    + split; [exact (ai_unique _ _ _ (allocated_inv _ _ _ _ _ _ _ Hinv Hal))|].
      split; [exact (allocated_grows _ _ _ _ _ _ Hal)|done].
  - destruct (tryAllocate_effect _ _ _ _ _ _ _ _ _ _ _ Hst H1) as [[Hw Hno]|(rec & Hal & Ho)].
    + destruct o as [r|]; [by destruct (Hno r)|].
      apply (Hgo w1 ad occ); [by apply (alloc_inv_same w)|by apply grows_same|done|by left|done].
    + specialize (Ho _ eq_refl) as ->.
      apply (Hgo w1 (<[c := rec]> ad) ({[Slot rec]} ∪ occ));
        [exact (allocated_inv _ _ _ _ _ _ _ Hinv Hal)|exact (allocated_grows _ _ _ _ _ _ Hal)| | |done].
      * intros n r Hr. destruct (decide (n = c)) as [->|]; [|by rewrite lookup_insert_ne by congruence].
        destruct (ai_adopted _ _ _ Hinv _ _ Hr) as (_ & r0 & Hr0 & _). destruct Hal as [Hnone _]. congruence.
      * intros n. destruct (decide (n = c)) as [->|]; [by right|]. rewrite lookup_insert_ne by congruence. by left.
Qed.

(** ** A whole pass *)
Definition all_names (snap : Snapshot) (tracked : list string) : gset string :=
  dom (listed_by_name snap) ∪ list_to_set tracked.

(** Adoption over every name leaves the allocation invariant, with every record of this
    Gateway adopted. *)
Lemma adoption_inv (all : gset string) w w' res :
  caught_up w -> unique_slots w -> (forall n r, records w n = Some r -> mine r -> n ∈ all) ->
  adopt_all deps gatewayUID project (elements all) ∅ ∅ w = (w', res) ->
  w' = w /\ forall ad occ, res = Ok (ad, occ) ->
    alloc_inv w ad occ /\ (forall n r, records w n = Some r -> mine r -> ad !! n = Some r) /\
    (forall n, is_Some (ad !! n) -> n ∈ all).
Proof.
  intros Hcu Hu Hin H. apply adopt_all_effect in H as [-> Hok]; [|done|apply NoDup_elements].
  split; [done|]. intros ad occ Hres. destruct (Hok _ _ Hres) as (_ & Hout & Hall).
  assert (Hdom : forall n r, ad !! n = Some r -> n ∈ all /\ records w n = Some r /\ mine r).
  { intros n r Hr. destruct (decide (n ∈ elements all)) as [Hn|Hn].
    - destruct (Hall n Hn) as [_ Hs]. split; [by apply elem_of_elements|].
      destruct (Hs _ Hr) as [?|[? ?]]; [by rewrite lookup_empty in *|done].
    - rewrite Hout, lookup_empty in Hr by done. done. }
  assert (Hmine : forall n r, records w n = Some r -> mine r -> ad !! n = Some r /\ Slot r ∈ occ).
  { intros n r Hr Hm. apply (Hall n); [by apply elem_of_elements, (Hin n r)|done|done]. }
  split; [split|split].
  - intros n r Hr Hm. by apply (Hmine n r).
  - done.
  - intros n r Hr. destruct (Hdom _ _ Hr) as (_ & ? & ?). split; [done|]. by exists r.
  - intros n r Hr Hm. by apply (Hmine n r).
  - intros n [r Hr]. by apply (Hdom n r).
Qed.

Lemma candidates_listed snap ad n : n ∈ candidates_of snap ad -> n ∈ dom (listed_by_name snap).
Proof.
  unfold candidates_of. rewrite elem_of_merge_sort, list_elem_of_filter. intros [_ Hc].
  apply list_elem_of_fmap in Hc as ([n' l] & -> & Hc).
  apply list_elem_of_filter in Hc as [_ Hc%elem_of_map_to_list]. cbn. by apply elem_of_dom_2 in Hc.
Qed.

(** A pass either stops before its member loop, having at most allocated, or runs the
    loop over every tracked and listed name with every record of this Gateway adopted. *)
Lemma Reconcile_inv snap desired cap el ga last b w w' res :
  storable_inputs cap el ga b -> caught_up w -> unique_slots w ->
  Reconcile deps gatewayUID project (Some snap) desired cap el ga last b w = (w', res) ->
  exists w1, grows cap w w1 /\ unique_slots w1 /\ rtc (dep_step deps) w w1 /\
    ((w' = w1 /\ exists e, res = Err e) \/
     exists names ad res2, NoDup names /\
       (forall n r, records w n = Some r -> mine r -> n ∈ names /\ ad !! n = Some r) /\
       (forall n rec, ad !! n = Some rec -> mine rec /\ n ∈ names /\
          exists r0, records w1 n = Some r0 /\ same_rec rec r0) /\
       visit_all deps gatewayUID snap names ad w1 = (w', res2) /\
       forall out, res = Ok out -> exists ms pes, res2 = Ok (ms, pes) /\
         res_Members out = ms /\ res_Peers out = fst <$> pes /\ res_Roster out = snd <$> pes).
Proof.
  intros Hst Hcu Hu. cbn [Reconcile].
  assert (Hstop : forall e, exists w1, grows cap w w1 /\ unique_slots w1 /\ rtc (dep_step deps) w w1 /\
    (w = w1 /\ exists e', (Err e : result member_error Result) = Err e')).
  { intros e. exists w. split; [by apply grows_same|]. split; [done|]. split; [apply rtc_refl|eauto]. }
  intros [(e & H & ->)|(w1 & tracked & H1 & H)]%m_bind_inv.
  { apply m_read_inv in H as [-> _]. destruct (Hstop e) as (w1 & ? & ? & ? & ?).
    exists w1. do 3 (split; [done|]). by left. }
  apply m_read_inv in H1 as [-> Hl]. specialize (Hl _ eq_refl).
  fold (all_names snap tracked) in H. set (all := all_names snap tracked) in *.
  assert (Hin : forall n r, records w n = Some r -> mine r -> n ∈ all).
  { intros n r Hr Hm. rewrite <- Hcu in Hr. pose proof (rs_list _ _ Hl _ _ Hr (proj1 Hm)). unfold all, all_names. set_solver. }
  apply m_bind_inv in H as [(e & H & ->)|(w1 & [ad0 occ0] & H1 & H)].
  { apply adoption_inv in H as [-> _]; [|done..]. destruct (Hstop e) as (w1 & ? & ? & ? & ?).
    exists w1. do 3 (split; [done|]). by left. }
  apply adoption_inv in H1 as [-> Hok]; [|done..].
  destruct (Hok _ _ eq_refl) as (Hinv & Had & Hdom0). cbn [fst snd] in H.
  assert (Hvia : forall w2 res2, allocate_all deps gatewayUID project snap cap el ga b
    (candidates_of snap ad0) ad0 occ0 w = (w2, res2) -> rtc (dep_step deps) w w2)
    by (intros w2 res2; apply via_allocate_all).
  apply m_bind_inv in H as [(e & H & ->)|(w1 & [ad occ] & H1 & H)].
  { destruct (allocate_all_effect _ _ _ _ _ _ _ _ _ _ _ Hst Hinv H) as (? & ? & _).
    exists w'. do 2 (split; [done|]). split; [exact (Hvia _ _ H)|left; eauto]. }
  destruct (allocate_all_effect _ _ _ _ _ _ _ _ _ _ _ Hst Hinv H1) as (Hu1 & Hg & Hok1).
  destruct (Hok1 _ _ eq_refl) as (Hinv1 & Hkeep & Hdom). exists w1. do 2 (split; [done|]).
  split; [exact (Hvia _ _ H1)|]. right. exists (sorted_strings all), ad. cbn [fst] in H.
  assert (exists res2, visit_all deps gatewayUID snap (sorted_strings all) ad w1 = (w', res2) /\
    forall out, res = Ok out -> exists ms pes, res2 = Ok (ms, pes) /\
      res_Members out = ms /\ res_Peers out = fst <$> pes /\ res_Roster out = snd <$> pes) as (res2 & Hv & Hr2).
  { apply m_bind_inv in H as [(e & H & ->)|(w2 & [ms pes] & H3 & H4)]; [eexists; split; [exact H|done]|].
    injection H4 as <- <-. eexists. split; [exact H3|]. intros out [= <-]. cbn. eauto 6. }
  exists res2. split; [apply NoDup_sorted_strings|]. split; [|split; [|done]].
  - intros n r Hr Hm. split; [by apply elem_of_sorted_strings, (Hin n r)|]. apply Hkeep. by apply Had.
  - intros n rec Hrec. destruct (ai_adopted _ _ _ Hinv1 _ _ Hrec) as (? & Hr0). split; [done|]. split; [|done].
    apply elem_of_sorted_strings. destruct (Hdom n) as [Hn|Hc%candidates_listed];
      [by rewrite Hrec|by apply Hdom0|]. unfold all, all_names. set_solver.
Qed.

Lemma NoDup_by_key {A B C} (R : A -> B -> Prop) (f : B -> C) ks bs :
  NoDup ks -> Forall2 R ks bs ->
  (forall k1 k2 b1 b2, R k1 b1 -> R k2 b2 -> f b1 = f b2 -> k1 = k2) -> NoDup (f <$> bs).
Proof.
  intros Hnd Hall Hinj. induction Hall as [|k b ks bs Hkb Hall IH]; [constructor|].
  apply NoDup_cons in Hnd as [Hk Hnd]. cbn. apply NoDup_cons. split; [|by apply IH].
  intros (b' & Heq & Hb')%list_elem_of_fmap. apply list_elem_of_lookup in Hb' as [i Hi].
  destruct (Forall2_lookup_r _ _ _ _ _ Hall Hi) as (k' & Hk' & HR).
  rewrite (Hinj _ _ _ _ Hkb HR Heq) in Hk. apply Hk. by apply list_elem_of_lookup_2 in Hk'.
Qed.

(** What the records of this Gateway become over the member loop: each that remains
    keeps its allocation. *)
Lemma visit_all_keeps snap names ad w w' res n r' :
  NoDup names ->
  (forall n rec, ad !! n = Some rec -> mine rec /\ n ∈ names /\
     exists r0, records w n = Some r0 /\ same_rec rec r0) ->
  visit_all deps gatewayUID snap names ad w = (w', res) ->
  records w' n = Some r' -> exists r, records w n = Some r /\ alloc r = alloc r'.
Proof.
  intros Hnd Had Hv Hr'.
  destruct (visit_all_effect snap names ad w w' res Hnd) as (Hf & Ho & _);
    [intros m rec _ Hrec; by apply Had|exact Hv|].
  destruct (ad !! n) as [rec|] eqn:Hn; [|exists r'; by rewrite <- Hf by (by right)].
  destruct (Had _ _ Hn) as (_ & Hin & r0 & Hr0 & Hs). exists r0. split; [done|].
  destruct (Ho _ _ Hin Hn) as [(r1 & Hr1 & Ha)|(Hnone & _)]; [|congruence].
  apply same_rec_alloc in Hs. congruence.
Qed.

(** C2: Slots are exclusive while reads keep up. If the cache the pass reads shows the
    stored records, and no two records of this Gateway share a slot before the pass,
    none do after it, whether the pass ends well or stops at an error part way;
    every record that is still there keeps the slot, keys and tunnel address it was
    created with, every new one took a slot below the capacity that no record held,
    and the peers the pass renders have pairwise distinct slots. *)
Theorem slots_stay_unique snap desired cap el ga last b w w' res :
  storable_inputs cap el ga b -> caught_up w -> unique_slots w ->
  Reconcile deps gatewayUID project snap desired cap el ga last b w = (w', res) ->
  unique_slots w' /\
  (forall n r', records w' n = Some r' ->
     (exists r, records w n = Some r /\ alloc r = alloc r') \/
     (records w n = None /\ mine r' /\ 0 <= Slot r' < cap)) /\
  (forall out, res = Ok out -> NoDup (p_Slot <$> res_Peers out)).
Proof.
  intros Hst Hcu Hu. destruct snap as [snap|]; cycle 1.
  { intros [= <- <-]. split; [done|]. split; [intros n r' Hr'; left; by exists r'|].
    intros out [= <-]. constructor. }
  intros H. destruct (Reconcile_inv _ _ _ _ _ _ _ _ _ _ Hst Hcu Hu H)
    as (w1 & [_ Hg] & Hu1 & _ & [[-> [e ->]]|(names & ad & res2 & Hnd & _ & Had & Hv & Hout)]).
  { split; [done|]. split; [|done]. intros n r' Hr'. destruct (Hg _ _ Hr'); [left; eauto|by right]. }
  pose proof (fun n r' => visit_all_keeps _ _ _ _ _ _ n r' Hnd Had Hv) as Hkeep. split; [|split].
  - intros n1 n2 r1 r2 H1 H2 Hm1 Hm2 Heq.
    destruct (Hkeep _ _ H1) as (q1 & Hq1 & Ha1). destruct (Hkeep _ _ H2) as (q2 & Hq2 & Ha2).
    symmetry in Ha1, Ha2. eapply Hu1; [exact Hq1|exact Hq2|exact (mine_alloc _ _ Ha1 Hm1)|
      exact (mine_alloc _ _ Ha2 Hm2)|]. unfold alloc in Ha1, Ha2. congruence.
  - intros n r' Hr'. destruct (Hkeep _ _ Hr') as (q & Hq & Ha).
    destruct (Hg _ _ Hq) as [?|(? & Hm & Hs)]; [left; eauto|right]. split; [done|].
    split; [exact (mine_alloc _ _ Ha Hm)|]. unfold alloc in Ha. congruence.
  - intros out Hres. destruct (Hout _ Hres) as (ms & pes & Hres2 & _ & -> & _).
    destruct (visit_all_effect snap names ad w1 w' res2 Hnd) as (_ & _ & Hk);
      [intros m rec _ Hrec; by apply Had|exact Hv|].
    destruct (Hk _ _ Hres2) as (ks & Hsub & Hall). rewrite <- list_fmap_compose.
    eapply NoDup_by_key; [exact (sublist_NoDup _ _ Hnd Hsub)|exact Hall|].
    intros k1 k2 b1 b2 (rec1 & Hr1 & Hs1 & _) (rec2 & Hr2 & Hs2 & _) Heq. cbn in Heq.
    destruct (Had _ _ Hr1) as (Hm1 & _ & q1 & Hq1 & Ha1%same_rec_alloc).
    destruct (Had _ _ Hr2) as (Hm2 & _ & q2 & Hq2 & Ha2%same_rec_alloc).
    eapply Hu1; [exact Hq1|exact Hq2|exact (mine_alloc _ _ Ha1 Hm1)|exact (mine_alloc _ _ Ha2 Hm2)|].
    unfold alloc in Ha1, Ha2. congruence.
Qed.

(** A slot is released only after the confirmations of the interface. If a
    record of this Gateway is no longer stored after a pass, then it was already
    awaiting confirmation when the pass began, its instance was not listed as present,
    and at some point of the pass the confirmation read reported every one of its
    managed resources absent and the composite synced at its current generation. *)
Lemma reconcile_release snap desired cap el ga last b w w' res n r :
  storable_inputs cap el ga b -> caught_up w -> unique_slots w ->
  Reconcile deps gatewayUID project snap desired cap el ga last b w = (w', res) ->
  records w n = Some r -> mine r -> records w' n = None ->
  PendingConfirmation r = true /\
  exists s w1, snap = Some s /\ ~ present s n /\
    rtc (dep_step deps) w w1 /\ rtc (dep_step deps) w1 w' /\ confirmed w1 r.
Proof.
  intros Hst Hcu Hu H Hr Hm Hnone. destruct snap as [snap|]; [|injection H as <- <-; congruence].
  destruct (Reconcile_inv _ _ _ _ _ _ _ _ _ _ Hst Hcu Hu H)
    as (w1 & [Hg _] & Hu1 & Hrtc & [[-> _]|(names & ad & res2 & Hnd & Hmine & Had & Hv & _)]).
  { apply Hg in Hr. congruence. }
  destruct (Hmine _ _ Hr Hm) as [Hin Hrec].
  destruct (visit_all_effect snap names ad w1 w' res2 Hnd) as (_ & Ho & _);
    [intros m rec _ Hm'; by apply Had|exact Hv|].
  destruct (Ho _ _ Hin Hrec) as [(r' & Hr' & _)|(_ & Hpc & Hnp & w2 & H1 & H2 & Hc)]; [congruence|].
  split; [done|]. exists snap, w2. split; [done|]. split; [done|].
  split; [etrans; [exact Hrtc|exact H1]|done].
Qed.

(** In a completed loop, the visit of one name: it starts from that name's record,
    leaves its final one, and contributes its peer. *)
Lemma visit_all_at snap names ad w w' ms pes n :
  NoDup names -> n ∈ names ->
  (forall n rec, ad !! n = Some rec -> exists r0, records w n = Some r0 /\ same_rec rec r0) ->
  visit_all deps gatewayUID snap names ad w = (w', Ok (ms, pes)) ->
  exists w1 w2 st pe, visit deps gatewayUID snap n (ad !! n) w1 = (w2, Ok (st, pe)) /\
    records w1 n = records w n /\ records w' n = records w2 n /\
    (forall x, pe = Some x -> x ∈ pes).
Proof.
  intros Hnd Hn Had. assert (Had' : forall m rec, m ∈ names -> ad !! m = Some rec ->
    exists r0, records w m = Some r0 /\ same_rec rec r0) by (intros; by apply Had). clear Had.
  revert w ms pes Had'. induction names as [|m names IH]; intros w ms pes Had H;
    [by apply elem_of_nil in Hn|].
  apply NoDup_cons in Hnd as [Hm Hnd]. cbn in H.
  apply m_bind_ok in H as (w1 & [st pe] & H1 & H). apply m_bind_ok in H as (w2 & [ms2 pes2] & H2 & H).
  injection H as <- _ <-. cbn [fst snd].
  destruct (visit_opt _ _ _ _ _ _ (fun rec => Had m rec (list_elem_of_here _ _)) H1) as (Ht & _).
  assert (Had2 : forall k rec, k ∈ names -> ad !! k = Some rec ->
    exists r0, records w1 k = Some r0 /\ same_rec rec r0).
  { intros k rec Hk Hrec. rewrite Ht by congruence. apply Had; [by right|done]. }
  apply elem_of_cons in Hn as [->|Hn].
  - exists w, w1, st, pe. split; [done|]. split; [done|].
    destruct (visit_all_effect _ _ _ _ _ _ Hnd Had2 H2) as (Hf & _). split; [apply Hf; by left|].
    intros x ->. set_solver.
  - destruct (IH Hnd Hn w1 ms2 pes2 Had2 H2) as (w3 & w4 & st' & pe' & Hv & Hr1 & Hr2 & Hpe).
    exists w3, w4, st', pe'. split; [done|]. rewrite Hr1, Ht by congruence. split; [done|]. split; [done|].
    intros x Hx. apply elem_of_app. right. by apply Hpe.
Qed.

Lemma debounce_labels_count r c :
  0 <= c < 2 ^ 63 -> apply_labels (<[labelState := state_string MemberDeparting]>
    (<[labelDepartureCount := Itoa c]> ∅)) r = with_DepartureCount r c.
Proof.
  intros Hc. unfold apply_labels, with_DepartureCount.
  rewrite !(lookup_insert_ne _ labelState) by done. rewrite lookup_insert_eq.
  rewrite !lookup_insert_ne, !lookup_empty by done. cbn [default].
  unfold atoi0, Atoi. rewrite ParseInt_Itoa_nonneg by lia. done.
Qed.

(** Absence is debounced. In a completed pass over a usable snapshot, a member with
    a record that is not awaiting confirmation and whose instance the snapshot does not
    show as present or departing counts one more absence and keeps its allocation; on
    the first two absences its peer stays configured, and only the third consecutive
    one marks the record for release. *)
Theorem absence_debounced snap desired cap el ga last b w w' out n r :
  storable_inputs cap el ga b -> caught_up w -> unique_slots w ->
  Reconcile deps gatewayUID project (Some snap) desired cap el ga last b w = (w', Ok out) ->
  records w n = Some r -> mine r -> PendingConfirmation r = false -> 0 <= DepartureCount r < 3 ->
  (forall l, listed_by_name snap !! n = Some l -> lm_Verdict l = VerdictPending) ->
  exists r', records w' n = Some r' /\ alloc r' = alloc r /\
    DepartureCount r' = DepartureCount r + 1 /\
    PendingConfirmation r' = bool_decide (DepartureCount r = 2) /\
    (DepartureCount r < 2 -> Slot r ∈ p_Slot <$> res_Peers out).
Proof.
  intros Hst Hcu Hu H Hr Hm Hpc Hc Hlisted. destruct (Reconcile_inv _ _ _ _ _ _ _ _ _ _ Hst Hcu Hu H)
    as (w1 & [Hg _] & _ & _ & [[_ [e Habs]]|(names & ad & res2 & Hnd & Hmine & Had & Hv & Hout)]); [done|].
  destruct (Hout _ eq_refl) as (ms & pes & -> & _ & -> & _). destruct (Hmine _ _ Hr Hm) as [Hin Hrec].
  destruct (visit_all_at _ _ _ _ _ _ _ n Hnd Hin (fun k rec Hk => proj2 (proj2 (Had k rec Hk))) Hv)
    as (w2 & w3 & st & pe & Hvis & Hr2 & Hr3 & Hpe).
  rewrite Hrec in Hvis. unfold visit in Hvis. rewrite Hpc in Hvis.
  assert (Hdeb : (x <-- debounceAbsence deps r ;;; m_ret (Some x.1, x.2)) w2 = (w3, Ok (st, pe))).
  { destruct (listed_by_name snap !! n) as [l|] eqn:Hl; [|done]. by rewrite (Hlisted l eq_refl) in Hvis. }
  apply m_bind_ok in Hdeb as (w4 & [st' pe'] & Hd & [= <- <- <-]).
  pose proof (rs_name _ _ _ Hr) as <-. rewrite (Hg _ _ Hr) in Hr2.
  destruct (debounce_effect _ _ _ _ _ Hr2 (eq_refl : same_rec r r) Hd)
    as (_ & (r' & Hr' & Ha & Hok) & Hslot). destruct (Hok _ _ eq_refl) as [Hnone Hs].
  exists r'. rewrite Hr3. split; [done|]. split; [done|].
  assert (Hw : wrap64 (DepartureCount r + 1) = DepartureCount r + 1)
    by (apply wrap64_id; unfold int64_ok; lia). rewrite Hw in *.
  assert (Hf : forall x y, same_rec x y -> DepartureCount x = DepartureCount y /\
    PendingConfirmation x = PendingConfirmation y).
  { intros x y E. change (DepartureCount x) with (DepartureCount (with_ids x "" "")).
    change (PendingConfirmation x) with (PendingConfirmation (with_ids x "" "")). by rewrite E. }
  destruct (Hf _ _ Hs) as [Hcnt Hpend]. destruct (Z.leb_spec 3 (DepartureCount r + 1)) as [H3|H3].
  - assert (DepartureCount r = 2) as E2 by lia. rewrite E2 in *. split; [by rewrite <- Hcnt|].
    split; [by rewrite <- Hpend|lia].
  - rewrite debounce_labels_count in Hcnt, Hpend by lia. split; [by rewrite <- Hcnt|].
    rewrite bool_decide_eq_false_2 by lia. split; [by rewrite <- Hpend|]. intros _.
    destruct pe' as [[p en]|]; [|exfalso; destruct Hnone as [Hn _]; specialize (Hn eq_refl); lia].
    apply list_elem_of_fmap. exists p. split; [symmetry; exact (Hslot _ _ _ eq_refl)|].
    apply list_elem_of_fmap. exists (p, en). split; [done|]. by apply Hpe.
Qed.
End Proofs.

(** ** An in-memory store *)
Record mem := mkMem { mem_records : gmap string MemberRecord; mem_next : nat }.

Definition mem_get (w : mem) (n : string) : option MemberRecord :=
  r ← mem_records w !! n; if decide (Name r = n) then Some r else None.

Definition mem_deps (uid : string) : Deps mem := {|
  GetRecord w n := Ok (mem_records w !! n);
  CreateRecord w r :=
    match mem_records w !! Name r with
    | Some _ => (w, Some AlreadyExists)
    | None => (mkMem (<[Name r := with_ids r "uid" (Itoa (Z.of_nat (mem_next w)))]> (mem_records w))
                 (S (mem_next w)), None)
    end;
  UpdateRecordLabels w n l :=
    match mem_records w !! n with
    | None => (w, Some "not found")
    | Some r => (mkMem (<[n := with_ids (apply_labels l r) (UID r) (Itoa (Z.of_nat (mem_next w)))]>
                          (mem_records w)) (S (mem_next w)), None)
    end;
  DeleteRecord w n u v :=
    match mem_records w !! n with
    | None => (w, None)
    | Some r => if decide (UID r = u /\ ResourceVersion r = v)
                then (mkMem (delete n (mem_records w)) (S (mem_next w)), None)
                else (w, Some "precondition failed")
    end;
  ConfirmManagedResourcesAbsent _ _ := Ok (true, "");
  CompositeSynced _ := Ok (true, "");
  GenerateKeypair w := (w, Ok ("priv", "pub"));
  ListRecordNames w := Ok (fst <$> map_to_list (mem_records w))
|}.

#[global] Instance mem_RecordStore uid : RecordStore (mem_deps uid) uid mem_get mem_get.
Proof.
  unfold mem_get. split; cbn.
  - intros w n r (r' & _ & H)%bind_Some. case_decide; by simplify_eq.
  - by intros w n o [= <-].
  - intros w ns [= <-] n r (r' & Hr & _)%bind_Some _. apply list_elem_of_fmap.
    exists (n, r'). split; [done|]. by apply elem_of_map_to_list.
  - by intros w w' k [= <- <-].
  - intros w0 w1 w r w' e _ _. destruct (mem_records w !! Name r) as [r'|] eqn:E; intros [= <- <-]; [done|].
    split; [done|]. eexists _, _. intros n. cbn.
    case_decide; [subst; rewrite lookup_insert_eq; cbn; by rewrite decide_True|].
    by rewrite lookup_insert_ne by congruence.
  - intros w n r l w' e (r' & Hr & Hn)%bind_Some _. rewrite Hr. intros [= <- <-].
    case_decide; simplify_eq. eexists. intros m. cbn.
    case_decide; [subst; rewrite lookup_insert_eq; cbn; by rewrite decide_True|].
    by rewrite lookup_insert_ne by congruence.
  - intros w n r u v w' e (r' & Hr & Hn)%bind_Some. rewrite Hr.
    destruct (decide (UID r' = u /\ ResourceVersion r' = v)); intros [= <- <-]; cbn.
    + split; [intros m Hm; by rewrite lookup_delete_ne by congruence|].
      rewrite lookup_delete_eq. cbn. auto.
    + split; [done|]. rewrite Hr. split; [by left|done].
Qed.

(** A fleet of three slots: [gw-a] recorded on slot 0 and absent twice, [gw-b] listed
    without a record, [gw-c] awaiting confirmation. *)
Definition sample_record (name : string) (slot count : Z) (pending : bool) : MemberRecord :=
  mkRecord "uid" "1" name "us-a" slot "priv" "pub" "10.99.0.3" 29 "linkpub" "10.99.0.1/32" "203.0.113.7"
    "77" "rev-3" count pending "u1" "p1".

Definition sample_mem (count : Z) : mem :=
  mkMem {["gw-a" := sample_record "gw-a" 0 count false; "gw-c" := sample_record "gw-c" 2 3 true]} 5.

Definition sample_snap : Snapshot :=
  mkSnapshot [mkListedMember "gw-b" "NONE" "78" VerdictPresent "us-b" "rev-3"] ∅.

Definition sample_run (count : Z) : mem * result member_error Result :=
  Reconcile (mem_deps "u1") "u1" "p1" (Some sample_snap) 2 5
    ["10.99.0.2"; "10.99.0.4"; "10.99.0.5"; "10.99.0.6"] "10.99.0.3" 1
    (mkBundleInputs 29 "linkpub" "10.99.0.1/32") (sample_mem count).

Lemma sample_records count n r :
  mem_get (sample_mem count) n = Some r ->
  n = "gw-a" /\ r = sample_record "gw-a" 0 count false \/ n = "gw-c" /\ r = sample_record "gw-c" 2 3 true.
Proof.
  unfold mem_get. intros (r' & Hr & H)%bind_Some. cbn in Hr.
  apply lookup_insert_Some in Hr as [[<- <-]|[_ Hr]]; [left|right].
  - case_decide; by simplify_eq.
  - apply lookup_singleton_Some in Hr as [<- <-]. case_decide; by simplify_eq.
Qed.

Lemma sample_storable :
  storable_inputs 5 ["10.99.0.2"; "10.99.0.4"; "10.99.0.5"; "10.99.0.6"] "10.99.0.3"
    (mkBundleInputs 29 "linkpub" "10.99.0.1/32").
Proof.
  split; cbn; [lia| |lia|split; repeat constructor]. repeat constructor; cbn; try set_solver.
Qed.

Lemma sample_unique count : unique_slots "u1" "p1" mem_get (sample_mem count).
Proof.
  intros n1 n2 r1 r2 H1%sample_records H2%sample_records _ _ Heq.
  destruct H1 as [[-> ->]|[-> ->]], H2 as [[-> ->]|[-> ->]]; done.
Qed.

Lemma slots_stay_unique_witness :
  unique_slots "u1" "p1" mem_get (sample_run 1).1 /\
  exists out, (sample_run 1).2 = Ok out /\ p_Slot <$> res_Peers out = [0; 1] /\
    NoDup (p_Slot <$> res_Peers out).
Proof.
  assert (H := slots_stay_unique (mem_deps "u1") "u1" "p1" mem_get mem_get (Some sample_snap) 2 5
    ["10.99.0.2"; "10.99.0.4"; "10.99.0.5"; "10.99.0.6"] "10.99.0.3" 1
    (mkBundleInputs 29 "linkpub" "10.99.0.1/32") (sample_mem 1) (sample_run 1).1 (sample_run 1).2
    sample_storable (fun _ => eq_refl) (sample_unique 1) (surjective_pairing _)).
  split; [apply H|]. eexists. split; [vm_compute; reflexivity|]. split; [vm_compute; reflexivity|].
  apply H. vm_compute. reflexivity.
Defined.

Definition sample_result (count : Z) : Result :=
  match (sample_run count).2 with Ok out => out | Err _ => mkResult [] 0 [] [] true end.

Lemma absence_debounced_witness :
  exists r', mem_get (sample_run 1).1 "gw-a" = Some r' /\
    alloc r' = alloc (sample_record "gw-a" 0 1 false) /\ DepartureCount r' = 1 + 1 /\
    PendingConfirmation r' = bool_decide ((1 : Z) = 2) /\
    (1 < 2 -> 0 ∈ p_Slot <$> res_Peers (sample_result 1)).
Proof.
  apply (absence_debounced (mem_deps "u1") "u1" "p1" mem_get mem_get sample_snap 2 5
    ["10.99.0.2"; "10.99.0.4"; "10.99.0.5"; "10.99.0.6"] "10.99.0.3" 1
    (mkBundleInputs 29 "linkpub" "10.99.0.1/32") (sample_mem 1) (sample_run 1).1 (sample_result 1)
    "gw-a" (sample_record "gw-a" 0 1 false)).
  - apply sample_storable.
  - done.
  - apply sample_unique.
  - vm_compute. reflexivity.
  - vm_compute. reflexivity.
  - done.
  - done.
  - cbn. lia.
  - intros l. vm_compute. discriminate.
Defined.

(** ** A lagging cache
    [caught_up] is needed: through a cache that does not show a record yet, its name
    stays a candidate, the create reports that it exists, and the slot it holds goes to
    the next candidate. The cache of [stale_deps] shows nothing. *)
Definition stale_deps : Deps mem := {|
  GetRecord _ _ := Ok None;
  CreateRecord := CreateRecord (mem_deps "u1");
  UpdateRecordLabels := UpdateRecordLabels (mem_deps "u1");
  DeleteRecord := DeleteRecord (mem_deps "u1");
  ConfirmManagedResourcesAbsent := ConfirmManagedResourcesAbsent (mem_deps "u1");
  CompositeSynced := CompositeSynced (mem_deps "u1");
  GenerateKeypair := GenerateKeypair (mem_deps "u1");
  ListRecordNames _ := Ok []
|}.

#[global] Instance stale_RecordStore : RecordStore stale_deps "u1" mem_get (fun _ _ => None).
Proof.
  destruct (mem_RecordStore "u1") as [Hn _ _ Hk Hc Hu Hd]. split; try done.
  - by intros w n o [= <-].
Qed.

Definition stale_snap : Snapshot :=
  mkSnapshot [mkListedMember "gw-a" "NONE" "77" VerdictPresent "us-a" "rev-3";
              mkListedMember "gw-b" "NONE" "78" VerdictPresent "us-b" "rev-3"] ∅.

Lemma stale_read_shares_slot :
  exists w' out r1 r2,
    Reconcile stale_deps "u1" "p1" (Some stale_snap) 2 5 ["10.99.0.2"] "10.99.0.3" 1
      (mkBundleInputs 29 "linkpub" "10.99.0.1/32") (mkMem {["gw-a" := sample_record "gw-a" 0 0 false]} 5)
      = (w', Ok out) /\
    mem_get w' "gw-a" = Some r1 /\ mem_get w' "gw-b" = Some r2 /\ Slot r1 = Slot r2.
Proof.
  eexists _, _, _, _. split; [vm_compute; reflexivity|]. split; [vm_compute; reflexivity|].
  split; [vm_compute; reflexivity|]. reflexivity.
Qed.
