(* ===== verification/Kube.v ===== *)
(** * Kubernetes objects

    The objects the operator builds are records of metadata and a body, the JSON tree of
    the remaining fields; unset fields are left out, as the API types' encodings do. *)

From S2P Require Import Prelude GoStrings.

Inductive yaml :=
| YString (s : string)
| YInt (z : Z)
| YBool (b : bool)
| YList (l : list yaml)
| YMap (fields : list (string * yaml)).

Definition ystrings (l : list string) : yaml := YList (YString <$> l).

(** A string map, in the map's canonical order. *)
Definition ylabels (m : gmap string string) : yaml :=
  YMap ((fun kv => (kv.1, YString kv.2)) <$> map_to_list m).

Record owner_ref := mkOwnerRef { ow_APIVersion : string; ow_Kind : string; ow_Name : string; ow_UID : string }.

Record object := mkObject {
  ob_Kind : string;
  ob_Namespace : string;
  ob_Name : string;
  ob_Labels : gmap string string;
  ob_Annotations : gmap string string;
  ob_Controller : option owner_ref;
  ob_Deleting : bool;
  ob_Body : list (string * yaml)
}.

Definition object_key : Type := string * string * string.
Definition ob_key (o : object) : object_key := (ob_Kind o, ob_Namespace o, ob_Name o).

#[global] Instance object_key_eq_dec : EqDecision object_key.
Proof. unfold object_key. apply _. Defined.
#[global] Instance object_key_countable : Countable object_key.
Proof. unfold object_key. apply _. Defined.

Definition set_annotation (k v : string) (o : object) : object :=
  mkObject (ob_Kind o) (ob_Namespace o) (ob_Name o) (ob_Labels o) (<[k := v]> (ob_Annotations o))
    (ob_Controller o) (ob_Deleting o) (ob_Body o).

Definition set_controller (r : option owner_ref) (o : object) : object :=
  mkObject (ob_Kind o) (ob_Namespace o) (ob_Name o) (ob_Labels o) (ob_Annotations o) r (ob_Deleting o) (ob_Body o).

(** A fresh object of the operator: no annotations, no owner yet. *)
Definition new_object (kind ns name : string) (labels : gmap string string) (body : list (string * yaml)) : object :=
  mkObject kind ns name labels ∅ None false body.

(** Field access along a path. *)
Fixpoint yfield (name : string) (fields : list (string * yaml)) : option yaml :=
  match fields with
  | [] => None
  | (k, v) :: fields => if decide (k = name) then Some v else yfield name fields
  end.

Fixpoint ypath (path : list string) (v : yaml) : option yaml :=
  match path with
  | [] => Some v
  | k :: path => match v with
                 | YMap fields => w ← yfield k fields; ypath path w
                 | _ => None
                 end
  end.

Definition ob_path (path : list string) (o : object) : option yaml := ypath path (YMap (ob_Body o)).

Lemma ob_key_set_annotation k v o : ob_key (set_annotation k v o) = ob_key o.
Proof. done. Qed.
