(* ===== verification/XrdGen.v ===== *)
(** * The type generator's input: tools/xrdgen/main.go

    The tool cuts the spec and status schemas out of the composite's definition, wraps
    them in an OpenAPI document and runs a code generator on a temporary file with it. The
    YAML and JSON codecs and the generator are parameters. [xrdgen_faithful] shows what
    the generator is run on, and that the temporary file never outlives the tool. *)

From S2P Require Import Prelude GoStrings GoText Kube.

Inductive xrd_error :=
| NotMapping (keys : list string)
| NotSequence (keys : list string)
| MissingKey (keys : list string)
| KindMissing
| NoVersions
| VersionNotMapping
| ReadFailed (e : string)
| ParseFailed (e : string)
| MarshalFailed (e : string)
| CreateFailed (e : string)
| WriteFailed (e : string)
| CloseFailed (e : string)
| CodegenFailed (e : string).

(** A document's mapping; the fields' order is a map's, which no step depends on. *)
Definition fields : Type := list (string * yaml).

(** [dig]: [seen] are the keys walked so far. *)
Fixpoint dig (cur : yaml) (seen keys : list string) : result xrd_error yaml :=
  match keys with
  | [] => Ok cur
  | k :: keys =>
      match cur with
      | YMap m => match yfield k m with
                  | Some next => dig next (seen ++ [k]) keys
                  | None => Err (MissingKey (seen ++ [k]))
                  end
      | _ => Err (NotMapping seen)
      end
  end.

Definition digMap (m : fields) (keys : list string) : result xrd_error fields :=
  v <-! dig (YMap m) [] keys ;;
  match v with YMap out => Ok out | _ => Err (NotMapping keys) end.

Definition digSlice (m : fields) (keys : list string) : result xrd_error (list yaml) :=
  v <-! dig (YMap m) [] keys ;;
  match v with YList out => Ok out | _ => Err (NotSequence keys) end.

Definition childMap (m : fields) (key : string) : result xrd_error fields :=
  match yfield key m with
  | None => Err (MissingKey [key])
  | Some (YMap out) => Ok out
  | Some _ => Err (NotMapping [key])
  end.

Section XrdGen.
Variable unmarshal : string -> result string fields.
Variable marshal : yaml -> result string string.

Definition extractSchemas (file : result string string) : result xrd_error (string * fields * fields) :=
  match file with
  | Err e => Err (ReadFailed e)
  | Ok raw =>
  match unmarshal raw with
  | Err e => Err (ParseFailed e)
  | Ok xrd =>
  names <-! digMap xrd ["spec"; "names"] ;;
  match yfield "kind" names with
  | Some (YString kind) =>
      guard negb (bool_decide (kind = "")) else KindMissing ;;
      versions <-! digSlice xrd ["spec"; "versions"] ;;
      match versions with
      | [] => Err NoVersions
      | YMap v0 :: _ =>
          props <-! digMap v0 ["schema"; "openAPIV3Schema"; "properties"] ;;
          specSchema <-! childMap props "spec" ;;
          statusSchema <-! childMap props "status" ;;
          Ok (kind, specSchema, statusSchema)
      | _ :: _ => Err VersionNotMapping
      end
  | _ => Err KindMissing
  end
  end
  end.

Definition openAPIDoc (specSchema statusSchema : fields) : yaml :=
  YMap [("openapi", YString "3.0.0");
        ("info", YMap [("title", YString "gateway"); ("version", YString "v1alpha1")]);
        ("paths", YMap []);
        ("components", YMap [("schemas", YMap [("XGatewayGCPSpec", YMap specSchema);
                                               ("XGatewayGCPStatus", YMap statusSchema)])])].

(** One run: the temporary directory's files before and after, the generator's calls
    (output file and the input's contents) and the result. [createTemp] is the new
    file's name; a failed write may leave any contents. *)
Definition xrd_run (createTemp : result string string) (write : result (string * string) unit) (close : result string unit)
    (codegen : string -> string -> option string) (file : result string string) (outDir : string)
    (tmp : gmap string string) : gmap string string * list (string * string) * result xrd_error unit :=
  match extractSchemas file with
  | Err e => (tmp, [], Err e)
  | Ok (kind, specSchema, statusSchema) =>
  match marshal (openAPIDoc specSchema statusSchema) with
  | Err e => (tmp, [], Err (MarshalFailed e))
  | Ok docJSON =>
  match createTemp with
  | Err e => (tmp, [], Err (CreateFailed e))
  | Ok name =>
  let tmp := <[name := ""]> tmp in
  match write with
  | Err (e, partial) => (delete name (<[name := partial]> tmp), [], Err (WriteFailed e))
  | Ok _ =>
  let tmp := <[name := docJSON]> tmp in
  match close with
  | Err e => (delete name tmp, [], Err (CloseFailed e))
  | Ok _ =>
  let outFile := path_Join outDir (ToLower kind +:+ ".gen.go") in
  let input := map_get "" tmp name in
  (delete name tmp, [(outFile, input)],
   match codegen outFile input with Some e => Err (CodegenFailed e) | None => Ok tt end)
  end
  end
  end
  end
  end.
End XrdGen.

(** ** Proofs *)

(** [dig] is access along a path. *)
Lemma dig_ok cur seen keys v : dig cur seen keys = Ok v <-> ypath keys cur = Some v.
Proof.
  revert cur seen. induction keys as [|k keys IH]; intros cur seen; cbn; [naive_solver|].
  destruct cur as [| | | |m]; try done. destruct (yfield k m) as [next|]; cbn; [apply IH|done].
Qed.

Lemma digMap_ok m keys out : digMap m keys = Ok out <-> ypath keys (YMap m) = Some (YMap out).
Proof.
  unfold digMap. rewrite res_bind_ok. setoid_rewrite dig_ok. split.
  - intros (v & Hv & H). destruct v; try done. by injection H as ->.
  - intros H. by exists (YMap out).
Qed.

Lemma digSlice_ok m keys out : digSlice m keys = Ok out <-> ypath keys (YMap m) = Some (YList out).
Proof.
  unfold digSlice. rewrite res_bind_ok. setoid_rewrite dig_ok. split.
  - intros (v & Hv & H). destruct v; try done. by injection H as ->.
  - intros H. by exists (YList out).
Qed.

Lemma childMap_ok m key out : childMap m key = Ok out <-> yfield key m = Some (YMap out).
Proof. unfold childMap. destruct (yfield key m) as [[]|]; naive_solver. Qed.

(** What a definition must have for its schemas to be found. *)
Definition has_schemas (xrd : fields) (kind : string) (spec status : fields) : Prop :=
  exists v0 rest props,
    ypath ["spec"; "names"; "kind"] (YMap xrd) = Some (YString kind) /\ kind <> "" /\
    ypath ["spec"; "versions"] (YMap xrd) = Some (YList (YMap v0 :: rest)) /\
    ypath ["schema"; "openAPIV3Schema"; "properties"] (YMap v0) = Some (YMap props) /\
    yfield "spec" props = Some (YMap spec) /\ yfield "status" props = Some (YMap status).

Lemma ypath_app p q v : ypath (p ++ q) v = ypath p v ≫= ypath q.
Proof.
  revert v. induction p as [|k p IH]; intros v; [done|]. cbn. destruct v as [| | | |m]; try done.
  destruct (yfield k m); [apply IH|done].
Qed.

Lemma extractSchemas_ok unmarshal file kind spec status :
  extractSchemas unmarshal file = Ok (kind, spec, status) <->
  exists raw xrd, file = Ok raw /\ unmarshal raw = Ok xrd /\ has_schemas xrd kind spec status.
Proof.
  unfold extractSchemas. destruct file as [raw|e]; [|naive_solver].
  destruct (unmarshal raw) as [xrd|e] eqn:Eu; [|split; [done|intros (? & ? & [= <-] & ? & _); congruence]]. split.
  - intros H. exists raw, xrd. split_and!; [done..|]. apply res_bind_ok in H as (names & Hn%digMap_ok & H).
    destruct (yfield "kind" names) as [[k| | | |]|] eqn:Ek; try done. apply guard_ok in H as [Hk H]. bool_prop.
    apply res_bind_ok in H as (vs & Hv%digSlice_ok & H). destruct vs as [|[| | | |v0] rest]; try done. inv_ok H.
    apply digMap_ok in Ha. apply childMap_ok in Ha0, Ha1. exists v0, rest, a. split_and!; try done.
    refine (eq_trans (ypath_app ["spec"; "names"] ["kind"] _) _). apply bind_Some. exists (YMap names).
    split; [exact Hn|]. cbn. by rewrite Ek.
  - intros (raw' & xrd' & [= <-] & E & v0 & rest & props & Hk & Hne & Hv & Hp & Hs & Ht). rewrite Eu in E. injection E as <-.
    pose proof (eq_trans (eq_sym (ypath_app ["spec"; "names"] ["kind"] _)) Hk) as Hk'. clear Hk. rename Hk' into Hk.
    apply bind_Some in Hk as (names & Hn & Hk). destruct names as [| | | |names]; try done. cbn in Hk.
    rewrite (proj2 (digMap_ok _ _ _) Hn). cbn [res_bind]. destruct (yfield "kind" names) as [w|]; [|done].
    cbn in Hk. injection Hk as ->. rewrite bool_decide_false by done. cbn [negb].
    rewrite (proj2 (digSlice_ok _ _ _) Hv). cbn [res_bind]. rewrite (proj2 (digMap_ok _ _ _) Hp). cbn [res_bind].
    rewrite (proj2 (childMap_ok _ _ _) Hs). cbn [res_bind]. by rewrite (proj2 (childMap_ok _ _ _) Ht).
Qed.

(** A run of the type generator leaves the temporary directory as it was, whichever
    step fails. When it succeeds, the generator was called once, on the JSON of a document
    whose two component schemas are the spec and status schemas of the definition's first
    version, and wrote the file named after its kind; a definition without a kind, a
    version or one of the schemas never reaches the generator. *)
Theorem xrdgen_faithful unmarshal marshal createTemp write close codegen file outDir tmp tmp' calls r :
  (forall name, createTemp = Ok name -> tmp !! name = None) ->
  xrd_run unmarshal marshal createTemp write close codegen file outDir tmp = (tmp', calls, r) ->
  tmp' = tmp /\
  (r = Ok tt -> exists kind doc json raw xrd spec status,
     calls = [(path_Join outDir (ToLower kind +:+ ".gen.go"), json)] /\ marshal doc = Ok json /\
     file = Ok raw /\ unmarshal raw = Ok xrd /\ has_schemas xrd kind spec status /\
     ypath ["components"; "schemas"; "XGatewayGCPSpec"] doc = Some (YMap spec) /\
     ypath ["components"; "schemas"; "XGatewayGCPStatus"] doc = Some (YMap status)) /\
  ((forall raw xrd kind spec status, file = Ok raw -> unmarshal raw = Ok xrd -> ~ has_schemas xrd kind spec status) ->
     calls = [] /\ is_ok r = false).
Proof.
  intros Hfresh. unfold xrd_run.
  destruct (extractSchemas unmarshal file) as [[[kind spec] status]|e] eqn:E.
  2: { by intros [= <- <- <-]. }
  apply extractSchemas_ok in E as (raw & xrd & -> & Hu & Hs).
  assert (Habs : forall P : Prop, (forall raw0 xrd0 kind spec status, Ok (E := string) raw = Ok raw0 -> unmarshal raw0 = Ok xrd0 -> ~ has_schemas xrd0 kind spec status) -> P).
  { intros P H. by destruct (H raw xrd kind spec status eq_refl Hu Hs). }
  destruct (marshal _) as [json|e] eqn:Em; [|by intros [= <- <- <-]; split_and!; [|done|apply Habs]].
  destruct createTemp as [name|e]; [|by intros [= <- <- <-]; split_and!; [|done|apply Habs]].
  pose proof (Hfresh name eq_refl) as Hn.
  assert (Hdel : forall x y, delete name (<[name := x]> (<[name := y]> tmp)) = tmp).
  { intros x y. rewrite insert_insert_eq, delete_insert_eq. by apply delete_id. }
  destruct write as [[]|[e partial]]; [|intros [= <- <- <-]; rewrite Hdel; split_and!; [done|done|apply Habs]].
  destruct close as [[]|e]; [|intros [= <- <- <-]; rewrite Hdel; split_and!; [done|done|apply Habs]].
  intros [= <- <- <-]. rewrite Hdel. split_and!; [done| |apply Habs]. intros _.
  exists kind, (openAPIDoc spec status), json, raw, xrd, spec, status.
  unfold map_get. rewrite lookup_insert_eq. split_and!; [reflexivity|exact Em|done|exact Hu|exact Hs|reflexivity..].
Qed.

(** ** A small definition *)
Definition sample_xrd : fields :=
  [("spec", YMap [("names", YMap [("kind", YString "XGatewayGCP")]);
                  ("versions", YList [YMap [("schema", YMap [("openAPIV3Schema", YMap [("properties",
                     YMap [("spec", YMap [("type", YString "object")]); ("status", YMap [])])])])]])])].

Lemma xrdgen_faithful_witness :
  exists json, (xrd_run (fun _ => Ok sample_xrd) (fun _ => Ok "{}") (Ok "/tmp/x.json") (Ok tt) (Ok tt) (fun _ _ => None) (Ok "raw")
     "internal/crossplane/gcp" ∅).1 = (∅, [("internal/crossplane/gcp/xgatewaygcp.gen.go", json)]) /\
  exists kind spec status, has_schemas sample_xrd kind spec status.
Proof.
  exists "{}". split; [vm_compute; reflexivity|].
  destruct (xrdgen_faithful (fun _ => Ok sample_xrd) (fun _ => Ok "{}") (Ok "/tmp/x.json") (Ok tt) (Ok tt) (fun _ _ => None)
    (Ok "raw") "internal/crossplane/gcp" ∅ _ _ _ (fun name _ => lookup_empty name) eq_refl) as (_ & H & _).
  destruct (H ltac:(vm_compute; reflexivity)) as (kind & doc & json & raw & xrd & spec & status & _ & _ & _ & [= <-] & Hs & _).
  by exists kind, spec, status.
Defined.
