(* ===== verification/Forwards.v ===== *)
(** * Gateways and their forwards: effective accessors of internal/controller/link.go
      and internal/controller/forwards.go

    A [Gateway] carries the fields of the API object the modelled code reads.
    [classifyForwards] partitions the spec's forwards against the cluster's namespaces
    and Services, whose reads are parameters; the warnings it emits are left out, the
    set they are about ([unresolved]) is returned. *)

From S2P Require Import Prelude GoStrings Identity Kube.

Definition ProtocolTCP : string := "TCP".
Definition ProtocolUDP : string := "UDP".
Definition PolicyCluster : string := "Cluster".
Definition PolicyLocal : string := "Local".

Record ForwardSpec := mkForwardSpec {
  f_Port : Z;
  f_Protocol : string;
  f_Service : string;
  f_Namespace : string;
  f_TargetPort : Z
}.

(** The cloud part of the spec: the provider, and spec.gcp less its project, region,
    replicas and the presence of a load balancer. *)
Record GatewayCloud := mkGatewayCloud {
  gc_Provider : string;
  gc_Zone : string;
  gc_MachineType : string;
  gc_Image : string;
  gc_DiskSizeGB : Z;
  gc_AddressType : string;
  gc_External : option (string * string);
  gc_Spot : bool;
  gc_Zones : list string;
  gc_SessionAffinity : string
}.

Record Gateway := mkGateway {
  gw_Name : string;
  gw_Namespace : string;
  gw_Annotations : gmap string string;
  gw_ListenPort : Z;
  gw_Subnet : string;
  gw_GatewayAddress : string;
  gw_LinkAddress : string;
  gw_Keepalive : Z;
  gw_MTU : Z;
  gw_TrafficPolicy : string;
  gw_HealthPort : Z;
  gw_ResponderPort : Z;
  gw_LoadBalancer : bool;
  gw_Forwards : list ForwardSpec;
  gw_LinkID : Z;
  gw_UID : string;
  gw_Generation : Z;
  gw_ProjectID : string;
  gw_Region : string;
  gw_Replicas : Z;
  gw_LinkReplicas : Z;
  gw_NodeSelector : gmap string string;
  gw_ReconcileInterval : string;
  gw_ResponderImage : string;
  gw_ResponderReplicas : Z;
  gw_ResponderResources : yaml;
  gw_Cloud : GatewayCloud;
  gw_DNSHostnames : list string
}.

Definition wgDefaultListenPort : Z := 51820.
Definition wgDefaultSubnet : string := "10.99.0.0/29".
Definition wgDefaultGatewayAddress : string := "10.99.0.1".
Definition wgDefaultLinkAddress : string := "10.99.0.2".
Definition wgDefaultKeepalive : Z := 25.
Definition wgDefaultMTU : Z := 1380.
Definition clusterHealthPort : Z := 27000.
Definition responderDefaultPort : Z := 27000.

Definition or_default (z d : Z) : Z := if z =? 0 then d else z.
Definition or_default_string (s d : string) : string := if bool_decide (s = "") then d else s.

Definition effectiveWireguardPort (gw : Gateway) : Z := or_default (gw_ListenPort gw) wgDefaultListenPort.
Definition effectiveWGSubnet (gw : Gateway) : string := or_default_string (gw_Subnet gw) wgDefaultSubnet.
Definition effectiveWGGatewayAddress (gw : Gateway) : string :=
  or_default_string (gw_GatewayAddress gw) wgDefaultGatewayAddress.
Definition effectiveWGLinkAddress (gw : Gateway) : string :=
  or_default_string (gw_LinkAddress gw) wgDefaultLinkAddress.
Definition effectiveWGKeepalive (gw : Gateway) : Z := or_default (gw_Keepalive gw) wgDefaultKeepalive.
Definition effectiveWGMTU (gw : Gateway) : Z := or_default (gw_MTU gw) wgDefaultMTU.
Definition effectiveTrafficPolicy (gw : Gateway) : string :=
  or_default_string (gw_TrafficPolicy gw) PolicyCluster.
Definition effectiveResponderPort (gw : Gateway) : Z := or_default (gw_ResponderPort gw) responderDefaultPort.

Definition gw_isLocal (gw : Gateway) : bool := bool_decide (effectiveTrafficPolicy gw = PolicyLocal).

Definition linkIdentityOf (gw : Gateway) : option GatewayIdentity :=
  if negb (gw_isLocal gw) || (gw_LinkID gw <=? 0) then None
  else Some (NewGatewayIdentity (gw_LinkID gw)).

Definition effectiveHealthPort (gw : Gateway) : Z :=
  match linkIdentityOf gw with
  | Some ident => gi_HealthPort ident
  | None => if 0 <? gw_HealthPort gw then gw_HealthPort gw else clusterHealthPort
  end.

(** ** Forwards *)
Definition effectiveForwardNamespace (f : ForwardSpec) (gw : Gateway) : string :=
  if negb (bool_decide (f_Namespace f = "")) then f_Namespace f else gw_Namespace gw.

Definition effectiveServicePort (f : ForwardSpec) : Z := or_default (f_TargetPort f) (f_Port f).

Definition forwardServiceFQDN (f : ForwardSpec) (gw : Gateway) : string :=
  f_Service f +:+ "." +:+ effectiveForwardNamespace f gw +:+ ".svc.cluster.local".

Inductive TargetPort := TargetInt (v : Z) | TargetName (s : string).

Record ServicePort := mkServicePort {
  sp_Name : string;
  sp_Port : Z;
  sp_Protocol : string;
  sp_TargetPort : TargetPort
}.

Record ServiceObj := mkServiceObj {
  svc_Type : string;
  svc_ClusterIP : string;
  svc_Ports : list ServicePort
}.

Definition ServiceTypeExternalName : string := "ExternalName".
Definition ClusterIPNone : string := "None".

Fixpoint find_port (ports : list ServicePort) (port : Z) (proto : string) : option ServicePort :=
  match ports with
  | [] => None
  | p :: ports =>
      let svcProto := or_default_string (sp_Protocol p) ProtocolTCP in
      if (sp_Port p =? port) && bool_decide (svcProto = proto) then Some p
      else find_port ports port proto
  end.
Definition servicePortFor (svc : ServiceObj) (port : Z) (proto : string) : option ServicePort :=
  find_port (svc_Ports svc) port proto.

Definition backendPortOf (sp : ServicePort) : Z :=
  match sp_TargetPort sp with TargetName _ => 0 | TargetInt v => v end.

(** [unsupportedServiceMessage]: whether there is a message. *)
Definition unsupported (svc : ServiceObj) (local : bool) : bool :=
  bool_decide (svc_Type svc = ServiceTypeExternalName) ||
  (negb local && (bool_decide (svc_ClusterIP svc = "") || bool_decide (svc_ClusterIP svc = ClusterIPNone))).

Definition crossNamespaceIngressLabel : string := "wgnet.dev/allow-gateway-ingress".
Definition crossNamespaceIngressValue : string := "true".

Inductive invalid_reason :=
| TargetNamespaceNotFound (ns : string)
| CrossNamespaceForwardDenied (ns : string)
| ServiceNotFound (svc ns : string)
| UnsupportedServiceType (svc ns : string) (externalName : bool)
| TargetPortNotListening (svc ns proto : string) (port : Z)
| ReservedHealthPort (port : Z).

(** The reason and message of a rejection. *)
Definition invalid_text (r : invalid_reason) : string * string :=
  let service svc ns := "forward backend Service " +:+ quoted svc +:+ " in namespace " +:+ quoted ns in
  match r with
  | TargetNamespaceNotFound ns =>
      ("TargetNamespaceNotFound", "forward target namespace " +:+ quoted ns +:+ " does not exist")
  | CrossNamespaceForwardDenied ns =>
      ("CrossNamespaceForwardDenied", "cross-namespace forward to " +:+ quoted ns +:+
       " denied: target namespace must carry label " +:+ crossNamespaceIngressLabel +:+ "=" +:+ crossNamespaceIngressValue)
  | ServiceNotFound svc ns => ("ServiceNotFound", service svc ns +:+ " not found yet")
  | UnsupportedServiceType svc ns true =>
      ("UnsupportedServiceType", service svc ns +:+ " has unsupported type " +:+ quoted ServiceTypeExternalName +:+
       ": an ExternalName Service publishes no endpoints to forward to")
  | UnsupportedServiceType svc ns false =>
      ("UnsupportedServiceType", service svc ns +:+ " is headless: the Cluster traffic policy requires a ClusterIP " +:+
       "to DNAT to, set spec.trafficPolicy to Local to forward to a headless Service")
  | TargetPortNotListening svc ns proto port =>
      ("TargetPortNotListening", service svc ns +:+ " does not publish " +:+ proto +:+ " port " +:+ Itoa port)
  | ReservedHealthPort port =>
      ("ReservedHealthPort", "forward TCP port " +:+ Itoa port +:+ " collides with this gateway's own health port")
  end.

Definition invalidForwardsMessage (invalid : list invalid_reason) : string :=
  Itoa (Z.of_nat (length invalid)) +:+ " forward(s) invalid: " +:+ Join ((fun r => (invalid_text r).2) <$> invalid) "; ".

Definition firstInvalidForward (invalid : list invalid_reason) : option (string * string) :=
  match invalid with
  | [] => None
  | r :: _ => Some ((invalid_text r).1, invalidForwardsMessage invalid)
  end.

Record forwardBackend := mkForwardBackend {
  fb_Forward : ForwardSpec;
  fb_BackendPort : Z;
  fb_ServicePortName : string
}.

(** A read of the API server. *)
Inductive lookup_result (A : Type) := Found (a : A) | NotFound | LookupError (e : string).
Arguments Found {A}. Arguments NotFound {A}. Arguments LookupError {A}.

Section Classify.
Variable getNamespace : string -> lookup_result (gmap string string).
Variable getService : string -> string -> lookup_result ServiceObj.

Definition namespaceAllowsIngress (ns : string) : lookup_result bool :=
  match getNamespace ns with
  | Found labels => Found (bool_decide (map_get "" labels crossNamespaceIngressLabel
                                        = crossNamespaceIngressValue))
  | NotFound => NotFound
  | LookupError e => LookupError e
  end.

(** The Service's part of one iteration: an API error, a rejection, or a backend. *)
Definition classify_backend (gw : Gateway) (f : ForwardSpec) (ns : string)
  : result string (invalid_reason + forwardBackend) :=
  match getService ns (f_Service f) with
  | NotFound => Ok (inl (ServiceNotFound (f_Service f) ns))
  | LookupError e => Err e
  | Found svc =>
      if unsupported svc (gw_isLocal gw) then Ok (inl (UnsupportedServiceType (f_Service f) ns (bool_decide (svc_Type svc = ServiceTypeExternalName))))
      else
        let port := effectiveServicePort f in
        match servicePortFor svc port (f_Protocol f) with
        | None => Ok (inl (TargetPortNotListening (f_Service f) ns (f_Protocol f) port))
        | Some sp => Ok (inr (mkForwardBackend f (backendPortOf sp) (sp_Name sp)))
        end
  end.

(** One iteration of the loop. *)
Definition classify_one (gw : Gateway) (f : ForwardSpec)
  : result string (invalid_reason + forwardBackend) :=
  let ns := effectiveForwardNamespace f gw in
  if bool_decide (ns = gw_Namespace gw) then classify_backend gw f ns
  else match namespaceAllowsIngress ns with
       | NotFound => Ok (inl (TargetNamespaceNotFound ns))
       | LookupError e => Err e
       | Found false => Ok (inl (CrossNamespaceForwardDenied ns))
       | Found true => classify_backend gw f ns
       end.

Fixpoint classify (gw : Gateway) (fs : list ForwardSpec)
  : result string (list forwardBackend * list invalid_reason) :=
  match fs with
  | [] => Ok ([], [])
  | f :: fs =>
      r <-! classify_one gw f ;;
      rest <-! classify gw fs ;;
      match r with
      | inl why => Ok (rest.1, why :: rest.2)
      | inr b => Ok (b :: rest.1, rest.2)
      end
  end.

Definition classifyForwards (gw : Gateway) : result string (list forwardBackend * list invalid_reason) :=
  classify gw (gw_Forwards gw).
End Classify.

(** The Cluster-mode backends whose targetPort is named, which the code warns about. *)
Definition unresolved (gw : Gateway) (valid : list forwardBackend) : list forwardBackend :=
  if gw_isLocal gw then [] else filter (fun b => fb_BackendPort b = 0) valid.

Definition anyTransientReason (invalid : list invalid_reason) : bool :=
  existsb (fun r => match r with ReservedHealthPort _ => false | _ => true end) invalid.

(** [rejectReservedHealthPort]. *)
Definition takes_health_port (gw : Gateway) (b : forwardBackend) : bool :=
  bool_decide (f_Protocol (fb_Forward b) = ProtocolTCP) && (f_Port (fb_Forward b) =? effectiveHealthPort gw).

Definition rejectReservedHealthPort (gw : Gateway) (valid : list forwardBackend)
    (invalid : list invalid_reason) : list forwardBackend * list invalid_reason * list ForwardSpec :=
  if negb (gw_isLocal gw) then (valid, invalid, [])
  else
    let rejected := filter (fun b => takes_health_port gw b = true) valid in
    (filter (fun b => takes_health_port gw b = false) valid,
     invalid ++ ((fun _ => ReservedHealthPort (effectiveHealthPort gw)) <$> rejected),
     fb_Forward <$> rejected).

(** ** Proofs *)

(** What a forward that passed classification was checked for. *)
Record backend_ok (getNamespace : string -> lookup_result (gmap string string))
    (getService : string -> string -> lookup_result ServiceObj) (gw : Gateway) (b : forwardBackend)
  : Prop := {
  bo_consent : effectiveForwardNamespace (fb_Forward b) gw = gw_Namespace gw \/
    exists labels, getNamespace (effectiveForwardNamespace (fb_Forward b) gw) = Found labels /\
      labels !! crossNamespaceIngressLabel = Some crossNamespaceIngressValue;
  bo_service : exists svc sp,
    getService (effectiveForwardNamespace (fb_Forward b) gw) (f_Service (fb_Forward b)) = Found svc /\
    svc_Type svc <> ServiceTypeExternalName /\
    (gw_isLocal gw = false -> svc_ClusterIP svc <> "" /\ svc_ClusterIP svc <> ClusterIPNone) /\
    sp ∈ svc_Ports svc /\ sp_Port sp = effectiveServicePort (fb_Forward b) /\
    fb_ServicePortName b = sp_Name sp /\ fb_BackendPort b = backendPortOf sp
}.

Lemma find_port_spec ports port proto sp :
  find_port ports port proto = Some sp -> sp ∈ ports /\ sp_Port sp = port.
Proof.
  induction ports as [|p ports IH]; cbn; [done|]. destruct (_ && _) eqn:E.
  - intros [= <-]. bool_prop. split; [by left|done].
  - intros [? ?]%IH. split; [by right|done].
Qed.

Lemma classify_one_ok getNS getSvc gw f b :
  classify_one getNS getSvc gw f = Ok (inr b) -> fb_Forward b = f /\ backend_ok getNS getSvc gw b.
Proof.
  unfold classify_one.
  assert (Hb : classify_backend getSvc gw f (effectiveForwardNamespace f gw) = Ok (inr b) -> fb_Forward b = f /\
    (effectiveForwardNamespace f gw = gw_Namespace gw \/
     (exists labels, getNS (effectiveForwardNamespace f gw) = Found labels /\
        labels !! crossNamespaceIngressLabel = Some crossNamespaceIngressValue) ->
     backend_ok getNS getSvc gw b)).
  { unfold classify_backend. destruct (getSvc _ _) as [svc| |e] eqn:Hs; [|done..].
    destruct (unsupported svc (gw_isLocal gw)) eqn:Hu; [done|].
    destruct (servicePortFor _ _ _) as [sp|] eqn:Hp; [|done]. intros [= <-].
    split; [done|]. intros Hc. apply find_port_spec in Hp as [Hin Hport].
    unfold unsupported in Hu. apply orb_false_iff in Hu as [Ht%bool_decide_eq_false Hh].
    split; [exact Hc|]. exists svc, sp. do 2 (split; [done|]). split; [|done].
    intros Hl. rewrite Hl in Hh. cbn in Hh.
    by apply orb_false_iff in Hh as [?%bool_decide_eq_false ?%bool_decide_eq_false]. }
  case_bool_decide as Hns.
  - intros H. destruct (Hb H) as [? Hok]. auto.
  - unfold namespaceAllowsIngress, map_get in *. destruct (getNS _) as [labels| |e] eqn:Hn; [|done..].
    destruct (bool_decide _) eqn:Hl; [|done]. apply bool_decide_eq_true in Hl.
    intros H. destruct (Hb H) as [? Hok]. split; [done|]. apply Hok. right. exists labels. split; [done|].
    destruct (labels !! crossNamespaceIngressLabel); cbn in Hl; [by subst|done].
Qed.

(** C36: Forwards are classified exhaustively, and traffic enters another namespace only
    with its consent. When classification succeeds, the accepted forwards are a
    subsequence of the spec's, each of the others was rejected with a reason, and
    every accepted one targets the Gateway's own namespace or one labelled to allow
    it, and a Service that exists, is supported by the traffic policy and publishes
    the port; its port name and backend port are that Service port's. *)
Theorem classifyForwards_spec getNS getSvc gw valid invalid :
  classifyForwards getNS getSvc gw = Ok (valid, invalid) ->
  (fb_Forward <$> valid) `sublist_of` gw_Forwards gw /\
  (length valid + length invalid = length (gw_Forwards gw))%nat /\
  Forall (backend_ok getNS getSvc gw) valid.
Proof.
  unfold classifyForwards. generalize (gw_Forwards gw). intros fs. revert valid invalid.
  induction fs as [|f fs IH]; intros valid invalid H; cbn in H.
  { injection H as <- <-. split; [constructor|]. split; [done|constructor]. }
  apply res_bind_ok in H as (r & Hr & H). apply res_bind_ok in H as ([v i] & Hrest & H).
  destruct (IH _ _ Hrest) as (Hsub & Hlen & Hall).
  destruct r as [why|b]; injection H as <- <-; cbn in *.
  - split; [by constructor|]. split; [lia|done].
  - apply classify_one_ok in Hr as [<- Hok]. split; [by constructor|]. split; [lia|by constructor].
Qed.

Definition sample_cloud : GatewayCloud :=
  mkGatewayCloud "" "us-central1-a" "e2-small" "" 0 "" None false [] "NONE".
Definition sample_gw (policy : string) (id : Z) (fs : list ForwardSpec) : Gateway :=
  mkGateway "edge" "apps" ∅ 0 "" "" "" 0 0 policy 0 0 false fs id
    "u1" 3 "p1" "us-central1" 2 0 ∅ "" "" 0 (YMap []) sample_cloud ["edge.example.org"].

Definition sample_getNS (ns : string) : lookup_result (gmap string string) :=
  if bool_decide (ns = "data") then Found {[crossNamespaceIngressLabel := "true"]} else NotFound.
Definition sample_getSvc (ns name : string) : lookup_result ServiceObj :=
  if bool_decide (name = "web")
  then Found (mkServiceObj "ClusterIP" "10.0.0.10" [mkServicePort "http" 80 "" (TargetInt 8080)])
  else NotFound.

Lemma classifyForwards_spec_witness :
  exists valid invalid,
    classifyForwards sample_getNS sample_getSvc (sample_gw "" 0
      [mkForwardSpec 80 "TCP" "web" "data" 0; mkForwardSpec 81 "TCP" "web" "other" 80;
       mkForwardSpec 82 "TCP" "gone" "" 0]) = Ok (valid, invalid) /\
    length valid = 1%nat /\ length invalid = 2%nat /\
    Forall (backend_ok sample_getNS sample_getSvc (sample_gw "" 0
      [mkForwardSpec 80 "TCP" "web" "data" 0; mkForwardSpec 81 "TCP" "web" "other" 80;
       mkForwardSpec 82 "TCP" "gone" "" 0])) valid.
Proof.
  eexists _, _. split; [vm_compute; reflexivity|]. split; [reflexivity|]. split; [reflexivity|].
  eapply (classifyForwards_spec sample_getNS sample_getSvc). vm_compute. reflexivity.
Defined.

(** In Local mode no forward that remains takes the link's health port, and none is
    lost: it is kept or reported. *)
Lemma rejectReservedHealthPort_spec gw valid invalid valid' invalid' rejected :
  rejectReservedHealthPort gw valid invalid = (valid', invalid', rejected) ->
  (gw_isLocal gw = true -> Forall (fun b => f_Protocol (fb_Forward b) = ProtocolTCP ->
     f_Port (fb_Forward b) <> effectiveHealthPort gw) valid') /\
  valid' `sublist_of` valid /\
  (length valid' + length invalid' = length valid + length invalid)%nat.
Proof.
  unfold rejectReservedHealthPort. destruct (gw_isLocal gw); cbn; intros [= <- <- <-]; [|done].
  split; [|split].
  - intros _. apply Forall_forall. intros b [Hb _]%list_elem_of_filter Hp Hport.
    unfold takes_health_port in Hb. rewrite Hp, Hport, Z.eqb_refl in Hb.
    by rewrite bool_decide_eq_true_2 in Hb by done.
  - apply sublist_filter.
  - rewrite length_app, length_fmap. induction valid as [|b valid IH]; [done|].
    rewrite !filter_cons. repeat case_decide; cbn [length] in *; [congruence|lia|lia|].
    by destruct (takes_health_port gw b).
Qed.
