(* ===== verification/LinkConfig.v ===== *)
(** * The runtime config the operator writes: fleetLinkPeers and buildLinkConfigMap of
      internal/controller/link.go, fillPeerListenPort of members.go

    The operator renders the config the link loads. [operator_config_accepted] is the
    contract between them: what the operator writes, the link's [validate] accepts
    unchanged. The rendered document is JSON; the config is what it encodes. *)

From S2P Require Import Prelude GoStrings GoNet Identity Members Forwards Config.

(** [net.JoinHostPort] *)
Definition JoinHostPort (host port : string) : string :=
  if Contains host ":" || Contains host "%" then "[" +:+ host +:+ "]:" +:+ port
  else host +:+ ":" +:+ port.

Definition fillPeerListenPort (peers : list Members.Peer) (port : Z) : list Members.Peer :=
  (fun p => Members.mkPeer (p_Slot p) (p_PublicKey p) (p_ExternalAddress p) port (p_TunnelAddress p))
    <$> peers.

Definition fleetLinkPeers (gw : Gateway) (fleetPeers : list Members.Peer) : list Peer :=
  (fun p =>
     let endpoint := if negb (bool_decide (p_ExternalAddress p = ""))
                     then JoinHostPort (p_ExternalAddress p) (Itoa (p_ListenPort p)) else "" in
     let allowedIPs := if gw_isLocal gw then ["0.0.0.0/0"] else [p_TunnelAddress p +:+ "/32"] in
     mkPeer (p_Slot p) (p_PublicKey p) endpoint allowedIPs (effectiveWGKeepalive gw)) <$> fleetPeers.

Definition linkSelectorLabels (gw : Gateway) : gmap string string :=
  {["app.kubernetes.io/name" := "wireguard-gateway-operator";
    "app.kubernetes.io/instance" := gw_Name gw;
    "app.kubernetes.io/component" := "link"]}.

Definition link_forward (gw : Gateway) (b : forwardBackend) : Forward :=
  let f := fb_Forward b in
  let proto := ToLower (f_Protocol f) in
  let name := proto +:+ "-" +:+ Itoa (f_Port f) in
  if gw_isLocal gw
  then mkForward name (f_Port f) proto "" 0 (effectiveForwardNamespace f gw) (f_Service f)
         (fb_ServicePortName b)
  else mkForward name (f_Port f) proto (forwardServiceFQDN f gw) (effectiveServicePort f) "" "" "".

(** The subnet's text after its last slash, all of it when it has none. *)
Definition subnet_suffix (subnet : string) : string := default subnet (last (Split "/"%char subnet)).

(** The config [buildLinkConfigMap] encodes. *)
Definition buildLinkConfig (gw : Gateway) (address : string) (backends : list forwardBackend)
    (ident : option GatewayIdentity) (gatewayPublicKey : string) (fleetPeers : list Peer)
    (healthPort : Z) (responders : gmap string string) (responderTarget : string) : RuntimeConfig :=
  let local := gw_isLocal gw in
  let peers :=
    if gw_LoadBalancer gw then fleetPeers
    else
      let endpoint := if negb (bool_decide (address = ""))
                      then JoinHostPort address (Itoa (effectiveWireguardPort gw)) else "" in
      [mkPeer 0 gatewayPublicKey endpoint (if local then ["0.0.0.0/0"] else [effectiveWGSubnet gw])
         (effectiveWGKeepalive gw)] in
  mkRuntimeConfig (effectiveTrafficPolicy gw) ident healthPort
    (if local then linkSelectorLabels gw else ∅) (if local then responders else ∅)
    (effectiveResponderPort gw) (if local then "" else responderTarget) address
    (mkWireGuard (effectiveWGLinkAddress gw +:+ "/" +:+ subnet_suffix (effectiveWGSubnet gw)) 0
       (effectiveWGMTU gw) peers)
    (link_forward gw <$> backends).

(** ** The contract of the config *)

(** What admission and classification guarantee of a forward. *)
Definition admitted (gw : Gateway) (b : forwardBackend) : Prop :=
  let f := fb_Forward b in
  (f_Protocol f = ProtocolTCP \/ f_Protocol f = ProtocolUDP) /\ 1 <= f_Port f <= 65535 /\
  (f_TargetPort f = 0 \/ 1 <= f_TargetPort f <= 65535) /\ f_Service f <> "" /\ gw_Namespace gw <> "".

Definition spec_key (b : forwardBackend) : Z * string := (f_Port (fb_Forward b), f_Protocol (fb_Forward b)).

Lemma link_forward_key gw b :
  forward_key (link_forward gw b) = (f_Port (fb_Forward b), ToLower (f_Protocol (fb_Forward b))).
Proof. unfold link_forward, forward_key. by destruct (gw_isLocal gw). Qed.

Lemma link_forward_ok gw b :
  admitted gw b -> forward_ok (gw_isLocal gw) (link_forward gw b) /\
  lower_forward (link_forward gw b) = link_forward gw b.
Proof.
  intros (Hp & Hport & Ht & Hs & Hn).
  assert (Hns : effectiveForwardNamespace (fb_Forward b) gw <> "").
  { unfold effectiveForwardNamespace. case_bool_decide; done. }
  unfold link_forward, forward_ok, lower_forward, with_Protocol.
  destruct (gw_isLocal gw); cbn [Protocol PublicPort Config.Namespace ServiceName Service TargetPort Name ServicePortName];
    (split; [split; [|split; [done|]]|]); try (destruct Hp as [-> | ->]; by vm_compute; auto).
  - done.
  - split.
    + unfold forwardServiceFQDN. by destruct (f_Service (fb_Forward b)).
    + unfold effectiveServicePort, or_default. destruct (Z.eqb_spec (f_TargetPort (fb_Forward b)) 0); lia.
Qed.

Lemma selector_nonempty gw : linkSelectorLabels gw <> ∅.
Proof. unfold linkSelectorLabels. apply insert_non_empty. Qed.

Lemma link_forward_keys gw backends :
  Forall (admitted gw) backends -> NoDup (spec_key <$> backends) ->
  NoDup (forward_key <$> (link_forward gw <$> backends)).
Proof.
  intros Had Hnd. induction backends as [|b bs IH]; [constructor|].
  apply Forall_cons in Had as [Hb Had]. rewrite !fmap_cons. apply NoDup_cons in Hnd as [Hni Hnd].
  apply NoDup_cons. split; [|by apply IH]. intros Hin.
  apply list_elem_of_fmap in Hin as (lf & Hkey & Hlf). apply list_elem_of_fmap in Hlf as (b' & -> & Hb').
  rewrite !link_forward_key in Hkey. injection Hkey as Hport Hproto. apply Hni.
  apply list_elem_of_fmap. exists b'. split; [|done]. unfold spec_key. rewrite Hport. f_equal.
  rewrite Forall_forall in Had. destruct Hb as (Hp & _). destruct (Had b' Hb') as (Hp' & _).
  destruct Hp as [Hp|Hp], Hp' as [Hp'|Hp']; rewrite Hp, Hp' in *; by vm_compute in Hproto.
Qed.

(** The peers of either branch. *)
Definition link_peers (gw : Gateway) (address key : string) (ps : list Members.Peer) : list Peer :=
  Peers (rc_WireGuard (buildLinkConfig gw address [] None key
    (fleetLinkPeers gw (fillPeerListenPort ps (effectiveWireguardPort gw))) 0 ∅ "")).

(** What the link needs of the peers: a key for the single Gateway VM, or a fleet whose
    members have keys and distinct slots below 256. *)
Definition peers_usable (gw : Gateway) (key : string) (ps : list Members.Peer) : Prop :=
  if gw_LoadBalancer gw
  then Forall (fun p => p_PublicKey p <> "" /\ slot_ok (p_Slot p)) ps /\ NoDup (p_Slot <$> ps)
  else key <> "".

Lemma link_peers_ok gw address key ps :
  Forall peer_ok (link_peers gw address key ps) /\ NoDup (Slot <$> link_peers gw address key ps) <->
  peers_usable gw key ps.
Proof.
  unfold link_peers, buildLinkConfig, peers_usable. cbn [rc_WireGuard Peers].
  destruct (gw_LoadBalancer gw).
  - unfold fleetLinkPeers, fillPeerListenPort. rewrite <- !list_fmap_compose.
    rewrite Forall_fmap. done.
  - rewrite Forall_singleton. split; [by intros [[? _] _]|]. intros Hk. split; [|apply NoDup_singleton].
    split; [done|]. unfold slot_ok, slotCount. cbn. lia.
Qed.

Lemma link_shape_ok gw address backends key fleet responders target :
  (effectiveTrafficPolicy gw = PolicyCluster \/ effectiveTrafficPolicy gw = PolicyLocal /\ 0 < gw_LinkID gw) ->
  let rc := buildLinkConfig gw address backends (linkIdentityOf gw) key fleet (effectiveHealthPort gw)
    responders target in
  (shape_ok rc <-> public_address_ok address) /\ isLocal rc = gw_isLocal gw.
Proof.
  intros Hpol rc. subst rc. unfold shape_ok, isLocal, buildLinkConfig, linkIdentityOf, effectiveHealthPort.
  cbn [rc_Identity rc_WireGuard Address TrafficPolicy PodSelector HealthPort Responders ResponderTarget
       ResponderPort PublicAddress].
  assert (Haddr : forall a b, a <> "" -> a +:+ b <> "") by (by intros [|] b).
  assert (Hresp : effectiveResponderPort gw <> 0).
  { unfold effectiveResponderPort, or_default. by destruct (Z.eqb_spec (gw_ResponderPort gw) 0). }
  assert (Hl : effectiveWGLinkAddress gw <> "").
  { unfold effectiveWGLinkAddress, or_default_string. by case_bool_decide. }
  destruct Hpol as [Hc|[Hloc Hid]].
  - assert (E : gw_isLocal gw = false) by (unfold gw_isLocal; by rewrite Hc). rewrite E. cbn.
    split; [|done]. split; [by intros (_ & _ & _ & ?)|]. intros Hadd.
    split; [by apply Haddr|]. rewrite Hc. split; [by right|]. done.
  - assert (E : gw_isLocal gw = true) by (unfold gw_isLocal; by rewrite Hloc, bool_decide_eq_true_2).
    unfold linkIdentityOf. rewrite E, (proj2 (Z.leb_gt _ _) Hid). cbn.
    split; [|done]. split; [by intros (_ & _ & _ & ?)|]. intros Hadd.
    split; [by apply Haddr|]. split; [|done]. split; [by rewrite Hloc|]. split; [apply selector_nonempty|done].
Qed.

(** C30: What the link requires of the operator's config beyond admission is exactly a
    usable address and usable peers. For a Gateway with a valid traffic policy (and, in
    Local mode, an allocated link id) and forwards as admission and classification leave
    them, [validate] returns the very config [buildLinkConfigMap] renders if and only if
    the address is empty or an IPv4 address other than 0.0.0.0, and the single VM has a
    key or the fleet's members have keys and distinct slots below 256. *)
Theorem operator_config_accepted gw address backends key ps responders target :
  (effectiveTrafficPolicy gw = PolicyCluster \/ effectiveTrafficPolicy gw = PolicyLocal /\ 0 < gw_LinkID gw) ->
  Forall (admitted gw) backends -> NoDup (spec_key <$> backends) ->
  let rc := buildLinkConfig gw address backends (linkIdentityOf gw) key
    (fleetLinkPeers gw (fillPeerListenPort ps (effectiveWireguardPort gw)))
    (effectiveHealthPort gw) responders target in
  validate rc = Ok rc <-> public_address_ok address /\ peers_usable gw key ps.
Proof.
  intros Hpol Had Hkeys rc. rewrite validate_iff, <- (link_peers_ok gw address).
  destruct (link_shape_ok gw address backends key
    (fleetLinkPeers gw (fillPeerListenPort ps (effectiveWireguardPort gw))) responders target Hpol)
    as [Hshape Hlocal]. fold rc in Hshape, Hlocal. rewrite <- Hshape.
  split; [by intros (_ & ? & ? & ? & _)|]. intros (Hs & Hpeers & Hslots).
  split; [|split; [exact Hs|split; [exact Hpeers|split; [exact Hslots|split]]]].
  - unfold lowered, rc, buildLinkConfig, with_Forwards. cbn. f_equal. rewrite <- list_fmap_compose.
    apply list_fmap_ext. intros i b Hb%list_elem_of_lookup_2. rewrite Forall_forall in Had.
    symmetry. by apply link_forward_ok, Had.
  - rewrite Hlocal. unfold rc, buildLinkConfig. cbn [Forwards]. apply Forall_fmap.
    eapply Forall_impl; [exact Had|]. intros b Hb. by apply link_forward_ok.
  - by apply link_forward_keys.
Qed.

Definition sample_members : list Members.Peer :=
  [Members.mkPeer 0 "pub0" "203.0.113.7" 0 "10.99.0.1"; Members.mkPeer 1 "pub1" "" 0 "10.99.0.3"].

Definition sample_backends : list forwardBackend :=
  [mkForwardBackend (mkForwardSpec 443 "TCP" "web" "" 8443) 8443 "https";
   mkForwardBackend (mkForwardSpec 443 "UDP" "web" "" 0) 443 "quic"].

Lemma operator_config_accepted_witness :
  validate (buildLinkConfig (sample_gw "Local" 5 []) "203.0.113.9" sample_backends
      (Some (NewGatewayIdentity 5)) "key"
      (fleetLinkPeers (sample_gw "Local" 5 []) (fillPeerListenPort sample_members 51820)) 27005
      {["n1" := "10.0.0.7"]} "")
    = Ok (buildLinkConfig (sample_gw "Local" 5 []) "203.0.113.9" sample_backends
      (Some (NewGatewayIdentity 5)) "key"
      (fleetLinkPeers (sample_gw "Local" 5 []) (fillPeerListenPort sample_members 51820)) 27005
      {["n1" := "10.0.0.7"]} "").
Proof.
  apply (operator_config_accepted (sample_gw "Local" 5 []) "203.0.113.9" sample_backends "key"
    sample_members {["n1" := "10.0.0.7"]} "").
  - right. split; [reflexivity|]. cbn. lia.
  - repeat constructor; cbn; auto; try lia; discriminate.
  - apply (bool_decide_unpack _). vm_compute. exact I.
  - split; [|discriminate]. right. exists 3405803785. split; [discriminate|]. vm_compute. reflexivity.
Defined.

(** The address 0.0.0.0 passes the pattern of spec.address.external.ip and reaches the
    config as the Gateway's address; the link refuses every config that carries it. *)
Lemma zero_address_refused rc : PublicAddress rc = "0.0.0.0" -> validate rc <> Ok rc.
Proof.
  intros Ha [_ ((_ & _ & _ & Hp) & _)]%validate_iff. rewrite Ha in Hp.
  destruct Hp as [?|(v & Hv & Hparse)]; [done|]. vm_compute in Hparse. by injection Hparse as <-.
Qed.
