(* ===== verification/Status.v ===== *)
(** * The Gateway's status: linkStatusOf of internal/controller/link.go, Ready
      precedence and the dirty tracker of gateway_controller.go

    The operator reads the link's state from its Lease and the holder pod, and turns it,
    with the pass's other findings, into one Ready condition. [link_status_fault]
    follows a fault from the link's [leaderFault] through the Lease annotations to the
    status a pass works with. *)

From S2P Require Import Prelude GoStrings Endpoints Apply Fault Readiness Reload Forwards.

Definition reasonProvisioning : string := "Provisioning".
Definition reasonReady : string := "Ready".
Definition reasonInvalidTunnelAddresses : string := "InvalidTunnelAddresses".
Definition reasonInsufficientTunnelAddresses : string := "InsufficientTunnelAddresses".
Definition reasonMemberDiscoveryFailed : string := "MemberDiscoveryFailed".
Definition reasonMembersNotReady : string := "MembersNotReady".

(** The operator's own copy of the link's bound: the same limit, marker and cut. *)
Definition truncateFaultMessage (msg : string) : string :=
  if (length (chars msg) <=? maxFaultMessageBytes)%nat then msg
  else
    let cut := cut_back (chars msg) (maxFaultMessageBytes - String.length faultMessageTruncationMarker) in
    of_chars (take cut (chars msg)) +:+ faultMessageTruncationMarker.

Record linkStatus := mkLinkStatus {
  ls_Active : bool;
  ls_PodReady : bool;
  ls_Node : string;
  ls_FaultReason : string;
  ls_FaultMessage : string
}.

Definition linkStatus_zero : linkStatus := mkLinkStatus false false "" "" "".

(** [linkStatusOf], over the Lease and the holder pod the API server returns. *)
Definition linkStatusOf (lease : lookup_result lease_obj) (getPod : string -> lookup_result Pod)
  : result string linkStatus :=
  match lease with
  | NotFound => Ok linkStatus_zero
  | LookupError e => Err e
  | Found l =>
      let holder := default "" (lo_holder l) in
      if bool_decide (holder = "") then Ok linkStatus_zero
      else
        let reason := map_get "" (lo_annotations l) LeaseFaultAnnotation in
        let known := bool_decide (reason ∈ knownFaults) in
        let message := truncateFaultMessage (map_get "" (lo_annotations l) LeaseFaultMessageAnnotation) in
        let fr := if known then reason else "" in
        let fm := if known then or_default_string message ("link reported " +:+ reason) else "" in
        match getPod holder with
        | NotFound => Ok (mkLinkStatus false false "" fr fm)
        | LookupError e => Err e
        | Found pod =>
            let ready := podReady pod in
            Ok (mkLinkStatus (ready && bool_decide (map_get "" (lo_annotations l)
                                          LeaseTunnelReadyAnnotation = "true"))
                  ready (pod_NodeName pod) fr fm)
        end
  end.

Record readySignals := mkReadySignals {
  InvalidTunnelAddresses : bool;
  InvalidTunnelMessage : string;
  InvalidForward : option (string * string);
  LinkFaultReason : string;
  LinkFaultMessage : string;
  LoadBalanced : bool;
  InsufficientCapacity : bool;
  CapacityMessage : string;
  DiscoveryFailed : bool;
  DiscoveryMessage : string;
  PeerCount : Z;
  MembersNotReady : bool;
  ProvisionAddress : string;
  ProvisionMessage : string
}.

Definition readyPrecedence (s : readySignals) : string * string * bool :=
  if InvalidTunnelAddresses s then (reasonInvalidTunnelAddresses, InvalidTunnelMessage s, false)
  else match InvalidForward s with
  | Some inv => (inv.1, inv.2, false)
  | None =>
  if negb (bool_decide (LinkFaultReason s = "")) then (LinkFaultReason s, LinkFaultMessage s, false)
  else if LoadBalanced s && InsufficientCapacity s
  then (reasonInsufficientTunnelAddresses, CapacityMessage s, false)
  else if DiscoveryFailed s then (reasonMemberDiscoveryFailed, DiscoveryMessage s, false)
  else if LoadBalanced s && (PeerCount s =? 0)
  then (reasonMembersNotReady, "no fleet member observed yet", false)
  else if LoadBalanced s && MembersNotReady s
  then (reasonMembersNotReady, "no fleet member has a live wireguard session", false)
  else if negb (bool_decide (ProvisionAddress s = ""))
  then (reasonReady, "gateway address provisioned and active link tunnel up", true)
  else
    let message := "waiting for gateway address and active link tunnel" in
    let m := truncateFaultMessage (ProvisionMessage s) in
    (reasonProvisioning, if negb (bool_decide (m = "")) then message +:+ ": " +:+ m else message, false)
  end.

Definition steadyRequeue (discoveryInterval requeueInterval : Z) (loadBalanced : bool) : Z :=
  if loadBalanced && (requeueInterval <? discoveryInterval) then discoveryInterval else requeueInterval.

(** ** The dirty tracker; a nil map reads as the empty one. *)
Definition dirtyTracker : Type := gmap (string * string) bool.

Definition dirty_mark (d : dirtyTracker) (key : string * string) : dirtyTracker := <[key := true]> d.
Definition dirty_take (d : dirtyTracker) (key : string * string) : dirtyTracker * bool :=
  (<[key := false]> d, match d !! key with Some dirty => dirty | None => true end).
Definition dirty_forget (d : dirtyTracker) (key : string * string) : dirtyTracker := delete key d.

Inductive dirty_op := OpMark (k : string * string) | OpTake (k : string * string) | OpForget (k : string * string).

Definition dirty_run (d : dirtyTracker) (op : dirty_op) : dirtyTracker :=
  match op with
  | OpMark k => dirty_mark d k
  | OpTake k => (dirty_take d k).1
  | OpForget k => dirty_forget d k
  end.

Definition op_key (op : dirty_op) : string * string :=
  match op with OpMark k | OpTake k | OpForget k => k end.

(** ** Proofs *)

(** The flag a key shows depends on the last operation on that key alone: clean only
    when that was a [take]. *)
Lemma dirty_last ops k :
  (dirty_take (foldl dirty_run ∅ ops) k).2 =
    match last (filter (fun op => op_key op = k) ops) with
    | Some (OpTake _) => false
    | _ => true
    end.
Proof.
  induction ops as [|op ops IH] using rev_ind; [done|].
  rewrite foldl_app, filter_app. cbn [foldl]. set (d := foldl dirty_run ∅ ops) in *.
  rewrite filter_cons, filter_nil. destruct (decide (op_key op = k)) as [<-|Hne].
  - rewrite last_snoc. unfold dirty_take. destruct op; cbn [dirty_run op_key snd];
      unfold dirty_mark, dirty_take, dirty_forget, dirtyTracker in *; cbn [fst];
      first [by rewrite lookup_insert_eq|by rewrite lookup_delete_eq].
  - rewrite app_nil_r, <- IH. unfold dirty_take. cbn [snd].
    destruct op; cbn [dirty_run op_key] in *; unfold dirty_mark, dirty_take, dirty_forget, dirtyTracker in *; cbn [fst];
      first [by rewrite lookup_insert_ne by congruence|by rewrite lookup_delete_ne by congruence].
Qed.

Lemma truncate_bound msg : truncateFaultMessage msg = boundMessage msg.
Proof. reflexivity. Qed.

Lemma string_app_nonempty a m : m <> "" -> a +:+ m <> "".
Proof. by destruct a. Qed.

Lemma truncate_nonempty msg : msg <> "" -> truncateFaultMessage msg <> "".
Proof.
  unfold truncateFaultMessage. intros Hm. destruct (_ <=? _)%nat; [done|].
  by apply string_app_nonempty.
Qed.

(** What the link publishes is a reason the operator knows, with a message. *)
Lemma leaderFault_known node applyErr us :
  let '(reason, message) := leaderFault node applyErr us in
  (reason = "" /\ message = "" /\ applyErr = None /\ us = []) \/
  (reason ∈ knownFaults /\ reason <> "" /\ message <> "" /\ ~ (applyErr = None /\ us = [])).
Proof.
  unfold leaderFault. destruct applyErr as [e|].
  - right. split; [unfold knownFaults; set_solver|]. split; [done|]. split; [|by intros []].
    rewrite <- truncate_bound.
    apply truncate_nonempty. unfold nodeMessage. case_bool_decide; [done|]. by destruct node.
  - destruct us as [|u us]; [by left|right].
    split; [unfold knownFaults; set_solver|]. split; [done|]. split; [|by intros []].
    unfold nodeMessage. case_bool_decide; [done|]. by destruct node.
Qed.

Lemma or_default_string_nonempty m d : m <> "" -> or_default_string m d = m.
Proof. unfold or_default_string. by case_bool_decide. Qed.

(** With a holder, the status carries a known fault of the Lease, whatever the pod read
    answers. *)
Lemma linkStatusOf_fault l getPod ls :
  default "" (lo_holder l) <> "" -> linkStatusOf (Found l) getPod = Ok ls ->
  let reason := map_get "" (lo_annotations l) LeaseFaultAnnotation in
  let message := truncateFaultMessage (map_get "" (lo_annotations l) LeaseFaultMessageAnnotation) in
  if bool_decide (reason ∈ knownFaults)
  then ls_FaultReason ls = reason /\
       ls_FaultMessage ls = or_default_string message ("link reported " +:+ reason)
  else ls_FaultReason ls = "" /\ ls_FaultMessage ls = "".
Proof.
  intros Hh. unfold linkStatusOf. rewrite bool_decide_false by done. cbv zeta.
  destruct (bool_decide (_ ∈ knownFaults)), (getPod _) as [pod| |e]; by intros [= <-].
Qed.

Lemma unknown_empty : "" ∉ knownFaults.
Proof. unfold knownFaults. set_solver. Qed.

(** The operator reads the fault a link's Lease shows: none for none, and otherwise the
    reason with the bounded message. *)
Lemma link_status_fault node applyErr us l getPod ls :
  let f := leaderFault node applyErr us in
  shows_fault f.1 f.2 l -> default "" (lo_holder l) <> "" ->
  linkStatusOf (Found l) getPod = Ok ls ->
  (f.1 = "" <-> applyErr = None /\ us = []) /\ ls_FaultReason ls = f.1 /\
  (f.1 <> "" -> f.1 ∈ knownFaults /\ ls_FaultMessage ls = truncateFaultMessage f.2).
Proof.
  cbv zeta. intros Hs Hh Hok.
  pose proof (linkStatusOf_fault l getPod ls Hh Hok) as Hls. cbv zeta in Hls.
  pose proof (leaderFault_known node applyErr us) as Hk. unfold shows_fault in Hs.
  destruct (leaderFault node applyErr us) as [reason message]. cbn [fst snd] in *.
  destruct Hk as [(-> & -> & -> & ->)|(Hin & Hne & Hmsg & Hno)].
  - rewrite bool_decide_true in Hs by done.
    rewrite bool_decide_false in Hls by (unfold map_get; rewrite Hs; apply unknown_empty).
    by destruct Hls as [-> _].
  - rewrite bool_decide_false in Hs by done. destruct Hs as [Hs1 Hs2].
    rewrite Hs1, Hs2, bool_decide_true in Hls by done. destruct Hls as [Hl1 Hl2].
    rewrite or_default_string_nonempty in Hl2 by (by apply truncate_nonempty).
    split; [|done]. split; [done|]. intros H. by destruct (Hno H).
Qed.

Definition sample_pod : Pod := mkPod "p1" "n1" [(PodReady, ConditionTrue)].

Definition sample_fault_lease : lease_obj :=
  mkLeaseObj 7 (Some "p1")
    (<[LeaseFaultAnnotation := FaultApplyFailed]>
     (<[LeaseFaultMessageAnnotation := "n1: apply: nft"]> {[LeaseTunnelReadyAnnotation := "true"]})).
