(* ===== verification/Records.v ===== *)
(** * Member records as Secrets: internal/gcpmembers/records.go

    A member's allocation is one Kubernetes Secret: a write-once JSON bundle the VM
    reads, and labels the operator rewrites. This file models the encoding and
    [kubernetesDeps], the implementation of the Deps interface, over an abstract API
    client whose Secret reads come from a cache that may lag. [kube_RecordStore] shows
    that such a client makes [kubernetesDeps] a [RecordStore], so the membership theorems
    hold of the program's own store. *)

From S2P Require Import Prelude GoStrings Discovery Members Forwards.

(** ** The Secret and its encoding *)
Record OwnerReference := mkOwnerReference {
  or_APIVersion : string;
  or_Kind : string;
  or_Name : string;
  or_UID : string;
  or_Controller : bool;
  or_BlockOwnerDeletion : bool
}.

Record Secret := mkSecret {
  sec_Namespace : string;
  sec_Name : string;
  sec_UID : string;
  sec_ResourceVersion : string;
  sec_Labels : gmap string string;
  sec_Owners : list OwnerReference;
  sec_Data : gmap string string
}.

Definition BundleKey : string := "bundle".
Definition GroupVersion : string := "wgnet.dev/v1alpha1".

Record bundlePayload := mkBundlePayload {
  bp_PrivateKey : string;
  bp_Address : string;
  bp_Slot : string;
  bp_PeerPublicKey : string;
  bp_PeerAllowedIPs : string
}.

Definition payload_zero : bundlePayload := mkBundlePayload "" "" "" "" "".

Definition payloadFromRecord (rec : MemberRecord) : bundlePayload :=
  mkBundlePayload (PrivateKey rec) (TunnelAddress rec +:+ "/" +:+ Itoa (SubnetPrefix rec))
    (Itoa (Slot rec)) (PeerPublicKey rec) (PeerAllowedIPs rec).


Definition recordLabels (rec : MemberRecord) : gmap string string :=
  list_to_map [
    (labelName, Name rec);
    (labelZone, Zone rec);
    (labelSlot, Itoa (Slot rec));
    (labelInstanceID, InstanceID rec);
    (labelExternalAddress, ExternalAddress rec);
    (labelProject, Project rec);
    (labelRevision, Revision rec);
    (labelDepartureCount, Itoa (DepartureCount rec));
    (labelPendingConfirmation, FormatBool (PendingConfirmation rec));
    (labelGatewayUID, GatewayUID rec)].

Inductive record_error :=
| ErrBundle (e : string)
| ErrPrivateKey (e : string)
| ErrNotCIDR (address : string)
| ErrPrefix (address : string) (e : num_error)
| ErrEncode (e : string)
| ErrResourceName
| ErrApi (e : string).

Definition splitCIDR (address : string) : result record_error (string * Z) :=
  if bool_decide (address = "") then Ok ("", 0)
  else match Cut "/"%char address with
       | None => Err (ErrNotCIDR address)
       | Some (host, prefix) =>
           match Atoi prefix with
           | Err e => Err (ErrPrefix address e)
           | Ok ones => Ok (host, ones)
           end
       end.

Section Encoding.
(** encoding/json on the payload, and wgtypes' parse of a private key followed by the
    derivation of its public key. *)
Variable marshal : bundlePayload -> result string string.
Variable unmarshal : string -> result string bundlePayload.
Variable derive : string -> result string string.

Definition publicKeyOf (privateKey : string) : result record_error string :=
  if bool_decide (privateKey = "") then Ok ""
  else match derive privateKey with Ok k => Ok k | Err e => Err (ErrPrivateKey e) end.

Definition bundle_of (data : gmap string string) : result record_error bundlePayload :=
  match data !! BundleKey with
  | Some raw => if bool_decide (raw = "") then Ok payload_zero
                else match unmarshal raw with Ok p => Ok p | Err e => Err (ErrBundle e) end
  | None => Ok payload_zero
  end.

Definition recordFromSecret (s : Secret) : result record_error MemberRecord :=
  bundle <-! bundle_of (sec_Data s) ;;
  let label := map_get "" (sec_Labels s) in
  let slot := atoi0 (label labelSlot) in
  let departureCount := atoi0 (label labelDepartureCount) in
  publicKey <-! publicKeyOf (bp_PrivateKey bundle) ;;
  cidr <-! splitCIDR (bp_Address bundle) ;;
  Ok (mkRecord (sec_UID s) (sec_ResourceVersion s) (label labelName) (label labelZone) slot
        (bp_PrivateKey bundle) publicKey cidr.1 cidr.2 (bp_PeerPublicKey bundle)
        (bp_PeerAllowedIPs bundle) (label labelExternalAddress) (label labelInstanceID)
        (label labelRevision) departureCount
        (bool_decide (label labelPendingConfirmation = "true")) (label labelGatewayUID)
        (label labelProject)).

Definition secretFromRecord (gatewayNamespace gatewayName secretName : string) (rec : MemberRecord)
  : result record_error Secret :=
  match marshal (payloadFromRecord rec) with
  | Err e => Err (ErrEncode e)
  | Ok data =>
      Ok (mkSecret gatewayNamespace secretName "" "" (recordLabels rec)
            [mkOwnerReference GroupVersion "Gateway" gatewayName (GatewayUID rec) true true]
            {[BundleKey := data]})
  end.
End Encoding.

(** ** The API client *)
Inductive delete_error := DeleteNotFound | DeleteOther (e : string).

(** The JSON values the program looks at; a float64 is [m * 2 ^ e]. *)
Inductive jval := JString (s : string) | JInt (z : Z) | JFloat (m e : Z) | JOther.

(** The composite: its generation and status.conditions, an error when that field is
    not a list; an entry that is not an object is [None]. *)
Record composite := mkComposite {
  xg_Generation : Z;
  xg_Conditions : result string (list (option (gmap string jval)))
}.

Inductive managed_kind := SecretManagerSecret | SecretManagerSecretVersion | SecretManagerSecretIAMMember.

Record Client (K : Type) := mkClient {
  c_Get : K -> string -> string -> lookup_result Secret;
  c_Create : K -> Secret -> K * option create_error;
  c_Update : K -> Secret -> K * option string;
  c_Delete : K -> string -> string -> string -> string -> K * option delete_error;
  c_List : K -> string -> string -> string -> result string (list Secret);
  u_GetManaged : K -> managed_kind -> string -> lookup_result unit;
  u_GetComposite : K -> string -> string -> lookup_result composite;
  wg_GenerateKeypair : K -> K * result string (string * string)
}.
Arguments c_Get {K}. Arguments c_Create {K}. Arguments c_Update {K}. Arguments c_Delete {K}.
Arguments c_List {K}. Arguments u_GetManaged {K}. Arguments u_GetComposite {K}.
Arguments wg_GenerateKeypair {K}.

Definition kind_label (k : managed_kind) : string :=
  match k with
  | SecretManagerSecret => "Secret Manager Secret"
  | SecretManagerSecretVersion => "Secret Manager SecretVersion"
  | SecretManagerSecretIAMMember => "Secret Manager SecretIAMMember"
  end.

(** [int64(v)] of a float64: truncation towards zero. *)
Definition float_int64 (m e : Z) : Z :=
  wrap64 (if 0 <=? e then m * 2 ^ e else Z.quot m (2 ^ - e)).

Definition conditionObservedGeneration (cond : gmap string jval) : option Z :=
  match cond !! "observedGeneration" with
  | Some (JInt v) => Some v
  | Some (JFloat m e) => Some (float_int64 m e)
  | _ => None
  end.

Definition json_string (v : option jval) : string :=
  match v with Some (JString s) => s | _ => "" end.

Definition is_synced (cond : gmap string jval) : bool :=
  match cond !! "type" with Some (JString s) => bool_decide (s = "Synced") | _ => false end.

(** The loop of [CompositeSynced]: the first Synced condition decides. *)
Fixpoint synced_scan (generation : Z) (conditions : list (option (gmap string jval))) : bool * string :=
  match conditions with
  | [] => (false, "composite has no Synced condition")
  | None :: cs => synced_scan generation cs
  | Some cond :: cs =>
      if negb (is_synced cond) then synced_scan generation cs
      else if negb (bool_decide (json_string (cond !! "status") = "True"))
      then (false, "composite Synced condition is not True")
      else match conditionObservedGeneration cond with
           | Some observed => if observed =? generation then (true, "")
                              else (false, "composite Synced condition has a stale observedGeneration")
           | None => (false, "composite Synced condition has a stale observedGeneration")
           end
  end.

(** The loop of [ConfirmManagedResourcesAbsent]: every name is read; [blocked] is the
    first one found present. *)
Fixpoint confirm_checks (get : managed_kind -> string -> lookup_result unit) (blocked : string)
    (checks : list (managed_kind * string)) : result string (bool * string) :=
  match checks with
  | [] => if negb (bool_decide (blocked = "")) then Ok (false, blocked) else Ok (true, "")
  | (kind, name) :: checks =>
      match get kind name with
      | Found _ => confirm_checks get
                     (or_default_string blocked (kind_label kind +:+ " " +:+ quoted name +:+ " still present")) checks
      | NotFound => confirm_checks get blocked checks
      | LookupError e => Err e
      end
  end.

Definition with_meta (s : Secret) (uid rv : string) : Secret :=
  mkSecret (sec_Namespace s) (sec_Name s) uid rv (sec_Labels s) (sec_Owners s) (sec_Data s).

(** [maps.Copy(secret.Labels, labels)] *)
Definition copy_labels (s : Secret) (labels : gmap string string) : Secret :=
  mkSecret (sec_Namespace s) (sec_Name s) (sec_UID s) (sec_ResourceVersion s) (labels ∪ sec_Labels s)
    (sec_Owners s) (sec_Data s).

Section KubernetesDeps.
Context {K : Type} (c : Client K).
Variable marshal : bundlePayload -> result string string.
Variable unmarshal : string -> result string bundlePayload.
Variable derive : string -> result string string.
(** The text of an error, which the membership pass only passes on. *)
Variable error_text : record_error -> string.
Variables gatewayNamespace gatewayName gatewayUID project : string.

Definition resolveNames (name : string) : option ManagedResourceNames :=
  NameResourceNames gatewayUID project name.

Definition kube_GetRecord (k : K) (name : string) : result string (option MemberRecord) :=
  match resolveNames name with
  | None => Err (error_text ErrResourceName)
  | Some names =>
      match c_Get c k gatewayNamespace (KubernetesSecretName names) with
      | NotFound => Ok None
      | LookupError e => Err (error_text (ErrApi e))
      | Found secret =>
          match recordFromSecret unmarshal derive secret with
          | Ok rec => Ok (Some rec)
          | Err e => Err (error_text e)
          end
      end
  end.

Definition kube_CreateRecord (k : K) (rec : MemberRecord) : K * option create_error :=
  match resolveNames (Name rec) with
  | None => (k, Some (CreateOther (error_text ErrResourceName)))
  | Some names =>
      match secretFromRecord marshal gatewayNamespace gatewayName (KubernetesSecretName names) rec with
      | Err e => (k, Some (CreateOther (error_text e)))
      | Ok secret => c_Create c k secret
      end
  end.

Definition kube_UpdateRecordLabels (k : K) (name : string) (labels : gmap string string)
  : K * option string :=
  match resolveNames name with
  | None => (k, Some (error_text ErrResourceName))
  | Some names =>
      match c_Get c k gatewayNamespace (KubernetesSecretName names) with
      | NotFound => (k, Some (error_text (ErrApi "not found")))
      | LookupError e => (k, Some (error_text (ErrApi e)))
      | Found secret => c_Update c k (copy_labels secret labels)
      end
  end.

Definition kube_DeleteRecord (k : K) (name uid resourceVersion : string) : K * option string :=
  match resolveNames name with
  | None => (k, Some (error_text ErrResourceName))
  | Some names =>
      match c_Delete c k gatewayNamespace (KubernetesSecretName names) uid resourceVersion with
      | (k', None) => (k', None)
      | (k', Some DeleteNotFound) => (k', None)
      | (k', Some (DeleteOther e)) => (k', Some (error_text (ErrApi e)))
      end
  end.

Definition kube_ListRecordNames (k : K) : result string (list string) :=
  match c_List c k gatewayNamespace labelGatewayUID gatewayUID with
  | Err e => Err (error_text (ErrApi e))
  | Ok secrets => Ok (filter (fun n => n <> "")
                        ((fun s => map_get "" (sec_Labels s) labelName) <$> secrets))
  end.

Definition kube_ConfirmManagedResourcesAbsent (k : K) (names : ManagedResourceNames)
  : result string (bool * string) :=
  confirm_checks (u_GetManaged c k) ""
    [(SecretManagerSecret, CloudSecretName names);
     (SecretManagerSecretVersion, CloudSecretVersionName names);
     (SecretManagerSecretIAMMember, CloudSecretIAMMemberName names)].

Definition kube_CompositeSynced (k : K) : result string (bool * string) :=
  match u_GetComposite c k gatewayNamespace gatewayName with
  | NotFound => Ok (false, "composite not found")
  | LookupError e => Err (error_text (ErrApi e))
  | Found obj =>
      match xg_Conditions obj with
      | Err e => Err (error_text (ErrApi e))
      | Ok conditions => Ok (synced_scan (xg_Generation obj) conditions)
      end
  end.

Definition kubernetesDeps : Deps K := {|
  GetRecord := kube_GetRecord;
  CreateRecord := kube_CreateRecord;
  UpdateRecordLabels := kube_UpdateRecordLabels;
  DeleteRecord := kube_DeleteRecord;
  ConfirmManagedResourcesAbsent := kube_ConfirmManagedResourcesAbsent;
  CompositeSynced := kube_CompositeSynced;
  GenerateKeypair := wg_GenerateKeypair c;
  ListRecordNames := kube_ListRecordNames
|}.
End KubernetesDeps.

(** ** What the program relies on *)

(** encoding/json keeps a payload of ASCII text. *)
Class BundleCodec (marshal : bundlePayload -> result string string)
    (unmarshal : string -> result string bundlePayload) : Prop :=
  bundle_codec p :
    Forall plain [bp_PrivateKey p; bp_Address p; bp_Slot p; bp_PeerPublicKey p; bp_PeerAllowedIPs p] ->
    exists raw, marshal p = Ok raw /\ raw <> "" /\ unmarshal raw = Ok p.

(** The documented behaviour of the manager's client on Secrets. Reads answer from a
    cache ([cached]) that may be behind the server ([stored]); a resourceVersion names
    one version of an object. Writes go to the server: a create needs the name to be
    free, an update the resourceVersion that was read, a delete its preconditions; a call
    that fails for another reason may still have taken effect. Generated private keys
    are base64 text whose public key is the generated one. *)
Class ApiServer {K : Type} (c : Client K) (derive : string -> result string string)
    (stored cached : K -> gmap (string * string) Secret) : Prop := {
  api_get k ns n :
    match c_Get c k ns n with
    | Found s => cached k !! (ns, n) = Some s /\ (sec_Namespace s, sec_Name s) = (ns, n)
    | NotFound => cached k !! (ns, n) = None
    | LookupError _ => True
    end;
  api_version k key s cur : cached k !! key = Some s -> stored k !! key = Some cur ->
    sec_ResourceVersion s = sec_ResourceVersion cur -> s = cur;
  api_list k ns key v l : c_List c k ns key v = Ok l ->
    forall s, s ∈ l <-> exists n, cached k !! (ns, n) = Some s /\ sec_Labels s !! key = Some v;
  api_create k s k' e : c_Create c k s = (k', e) ->
    let created := stored k !! (sec_Namespace s, sec_Name s) = None /\
      exists uid rv, stored k' = <[(sec_Namespace s, sec_Name s) := with_meta s uid rv]> (stored k) in
    match e with
    | None => created
    | Some AlreadyExists => stored k' = stored k
    | Some (CreateOther _) => stored k' = stored k \/ created
    end;
  api_update k s k' e : c_Update c k s = (k', e) ->
    let updated := exists cur rv, stored k !! (sec_Namespace s, sec_Name s) = Some cur /\
      sec_ResourceVersion s = sec_ResourceVersion cur /\
      stored k' = <[(sec_Namespace s, sec_Name s) := with_meta s (sec_UID cur) rv]> (stored k) in
    match e with
    | None => updated
    | Some _ => stored k' = stored k \/ updated
    end;
  api_delete k ns n uid rv k' e : c_Delete c k ns n uid rv = (k', e) ->
    match e with
    | None => (exists cur, stored k !! (ns, n) = Some cur /\ sec_UID cur = uid /\
                 sec_ResourceVersion cur = rv) /\ stored k' = delete (ns, n) (stored k)
    | Some DeleteNotFound => stored k !! (ns, n) = None /\ stored k' = stored k
    | Some (DeleteOther _) => stored k' = stored k \/ stored k' = delete (ns, n) (stored k)
    end;
  api_keypair k k' r : wg_GenerateKeypair c k = (k', r) -> stored k' = stored k /\
    forall priv pub, r = Ok (priv, pub) -> priv <> "" /\ plain priv /\ derive priv = Ok pub
}.

(** ** Proofs *)
Lemma plain_app s t : plain (s +:+ t) <-> plain s /\ plain t.
Proof. unfold plain. rewrite chars_app. apply Forall_app. Qed.

Lemma plain_Itoa n : 0 <= n -> plain (Itoa n).
Proof.
  intros Hn. rewrite Itoa_nonneg by done. apply Forall_forall.
  intros x (d & Hd & ->)%digit_char_of_fmt; [|lia..]. unfold digit_char.
  destruct (Z.ltb_spec d 10); [rewrite byte_val_of; lia|lia].
Qed.

Lemma splitCIDR_render address prefix :
  "/"%char ∉ chars address -> 0 <= prefix < 2 ^ 63 ->
  splitCIDR (address +:+ "/" +:+ Itoa prefix) = Ok (address, prefix).
Proof.
  intros Ha Hp. unfold splitCIDR. rewrite bool_decide_false by (by destruct address).
  change ("/" +:+ Itoa prefix) with (String "/" (Itoa prefix)).
  rewrite Cut_app by done. unfold Atoi.
  by rewrite ParseInt_Itoa_nonneg by lia.
Qed.

Lemma atoi0_Itoa n : 0 <= n < 2 ^ 63 -> atoi0 (Itoa n) = n.
Proof. intros Hn. unfold atoi0, Atoi. by rewrite ParseInt_Itoa_nonneg by lia. Qed.

(** Overwriting observed labels is [apply_labels] on the decoded record. *)
Lemma relabel_decode unmarshal derive s r labels uid rv :
  dom labels ⊆ observed_labels -> recordFromSecret unmarshal derive s = Ok r ->
  recordFromSecret unmarshal derive (with_meta (copy_labels s labels) uid rv) =
    Ok (with_ids (apply_labels labels r) uid rv).
Proof.
  intros Hd. unfold recordFromSecret. cbn [with_meta copy_labels sec_Data sec_Labels sec_UID sec_ResourceVersion].
  destruct (bundle_of _ _) as [p|]; [|done]. cbn [res_bind].
  destruct (publicKeyOf _ _) as [pub|]; [|done]. cbn [res_bind].
  destruct (splitCIDR _) as [cidr|]; [|done]. cbn [res_bind]. intros [= <-].
  assert (Hget : forall k, map_get "" (labels ∪ sec_Labels s) k =
    default (map_get "" (sec_Labels s) k) (labels !! k)).
  { intros k. unfold map_get. rewrite lookup_union. by destruct (labels !! k), (sec_Labels s !! k). }
  assert (Hno : forall k, k ∉ observed_labels -> labels !! k = None).
  { intros k Hk. apply not_elem_of_dom. set_solver. }
  rewrite !Hget, !(Hno labelName), !(Hno labelSlot), !(Hno labelGatewayUID), !(Hno labelProject)
    by (unfold observed_labels; set_solver).
  unfold with_ids, apply_labels, with_observed. cbn.
  do 2 f_equal; by destruct (labels !! _).
Qed.
Section Codec.
Context marshal unmarshal (derive : string -> result string string)
  `{!BundleCodec marshal unmarshal}.

(** What a fresh record adds to [record_ok]: keys that came from a keypair. *)
Definition keys_ok (r : MemberRecord) : Prop :=
  PrivateKey r <> "" /\ plain (PrivateKey r) /\ derive (PrivateKey r) = Ok (PublicKey r).

Lemma payload_plain r : record_ok r -> keys_ok r ->
  let p := payloadFromRecord r in
  Forall plain [bp_PrivateKey p; bp_Address p; bp_Slot p; bp_PeerPublicKey p; bp_PeerAllowedIPs p].
Proof.
  intros [Hs _ Hp _ (Ha & Hk & Hi)] (_ & Hpriv & _). cbn.
  repeat apply List.Forall_cons; try done; [|apply plain_Itoa; lia].
  apply plain_app. split; [done|]. apply plain_app. split; [repeat constructor|apply plain_Itoa; lia].
Qed.

(** A label of a literal label map. *)
Ltac label_lookup :=
  unfold map_get, recordLabels; cbn [list_to_map foldr uncurry fst snd];
  repeat first [rewrite lookup_insert_eq | rewrite lookup_insert_ne by done]; reflexivity.

Lemma recordLabels_fields r :
  let label := map_get "" (recordLabels r) in
  (label labelName = Name r /\ label labelZone = Zone r /\ label labelSlot = Itoa (Slot r) /\
   label labelInstanceID = InstanceID r /\ label labelExternalAddress = ExternalAddress r) /\
  label labelProject = Project r /\ label labelRevision = Revision r /\
  label labelDepartureCount = Itoa (DepartureCount r) /\
  label labelPendingConfirmation = FormatBool (PendingConfirmation r) /\
  label labelGatewayUID = GatewayUID r.
Proof. cbv zeta. repeat split; label_lookup. Qed.

(** C38: A member record survives its encoding. The Secret built from a record that a
    pass may create exists, carries the owner reference that ties it to the Gateway,
    and decodes to the record itself, whatever UID and resourceVersion the API server
    assigns; so the slot, keys and addresses in the write-once bundle and the labels
    are never lost or confused. *)
Theorem record_roundtrip r ns gw name uid rv :
  record_ok r -> keys_ok r ->
  exists s, secretFromRecord marshal ns gw name r = Ok s /\
    (sec_Namespace s, sec_Name s) = (ns, name) /\
    sec_Owners s = [mkOwnerReference GroupVersion "Gateway" gw (GatewayUID r) true true] /\
    recordFromSecret unmarshal derive (with_meta s uid rv) = Ok (with_ids r uid rv).
Proof.
  intros Hok Hkeys. destruct (bundle_codec _ (payload_plain r Hok Hkeys)) as (raw & Hm & Hne & Hu).
  unfold secretFromRecord. rewrite Hm. eexists. do 3 (split; [reflexivity|]).
  unfold recordFromSecret, bundle_of. cbn [with_meta sec_Data sec_Labels sec_UID sec_ResourceVersion].
  rewrite lookup_singleton_eq, bool_decide_false, Hu by done. cbn [res_bind].
  destruct Hkeys as (Hk & _ & Hd). unfold publicKeyOf. cbn [payloadFromRecord bp_PrivateKey bp_Address].
  rewrite bool_decide_false, Hd by done. cbn [res_bind].
  destruct Hok as [Hs Hc Hp Ha _]. rewrite splitCIDR_render by done. cbn [res_bind].
  destruct (recordLabels_fields r) as [(-> & -> & -> & -> & ->) (-> & -> & -> & -> & ->)].
  rewrite !atoi0_Itoa by done. unfold with_ids. cbn [fst snd bp_PeerPublicKey bp_PeerAllowedIPs].
  do 2 f_equal. by destruct (PendingConfirmation r).
Qed.
End Codec.

Lemma NameResourceNames_empty uid project names : NameResourceNames uid project "" <> Some names.
Proof.
  unfold NameResourceNames. destruct (NameBase uid project) as [prefix|]; [|done].
  cbn [mbind option_bind].
  assert (Hv : validResourceNameSegment (ToLower (prefix +:+ "-" +:+ "")) = false).
  { unfold validResourceNameSegment, ToLower. rewrite chars_of_chars, chars_app, fmap_app.
    destruct (lower_char <$> chars prefix) as [|a l]; [done|].
    cbn [app]. change (lower_char <$> chars ("-" +:+ "")) with ["-"%char].
    rewrite last_snoc. change (alnum "-") with false. apply andb_false_r. }
  by rewrite Hv.
Qed.

Section Store.
Context {K : Type} (c : Client K) (marshal : bundlePayload -> result string string)
  (unmarshal : string -> result string bundlePayload) (derive : string -> result string string)
  (error_text : record_error -> string) (ns gw uid project : string)
  (stored cached : K -> gmap (string * string) Secret)
  `{!BundleCodec marshal unmarshal, !ApiServer c derive stored cached}.
Abbreviation decode := (recordFromSecret unmarshal derive).
Abbreviation deps := (kubernetesDeps c marshal unmarshal derive error_text ns gw uid project).

(** The record a Secret holds for [n]. *)
Definition held_for (n : string) (s : Secret) : option MemberRecord :=
  match decode s with Ok r => if decide (Name r = n) then Some r else None | Err _ => None end.

Definition secret_key (n : string) : option (string * string) :=
  (fun names => (ns, KubernetesSecretName names)) <$> resolveNames uid project n.

(** One record per instance name, behind the Secret its name resolves to. *)
Definition secret_records (secrets : gmap (string * string) Secret) (n : string) : option MemberRecord :=
  key ← secret_key n; s ← secrets !! key; held_for n s.

(** The abstract store, and what its cached reads show. *)
Definition kube_records (k : K) : string -> option MemberRecord := secret_records (stored k).
Definition kube_seen (k : K) : string -> option MemberRecord := secret_records (cached k).

Lemma held_for_some n s r : held_for n s = Some r <-> decode s = Ok r /\ Name r = n.
Proof.
  unfold held_for. destruct (decode s) as [r0|]; [|split; [done|by intros [? _]]].
  case_decide; split; [by intros [= <-]|by intros [[= ->] _]|done|by intros [[= ->] ?]].
Qed.

(** A write to the Secret of [n] that leaves the name label [n] shows at [n] alone. *)
Lemma records_insert k k' n key s r :
  secret_key n = Some key -> decode s = Ok r -> Name r = n ->
  (forall s0 r0, stored k !! key = Some s0 -> decode s0 = Ok r0 -> Name r0 = n) ->
  stored k' = <[key := s]> (stored k) ->
  forall m, kube_records k' m = if decide (m = n) then Some r else kube_records k m.
Proof.
  intros Hkey Hd Hn Hold Hst m. unfold kube_records, secret_records. rewrite Hst. case_decide as Hm.
  - subst m. rewrite Hkey. cbn. rewrite lookup_insert_eq. cbn. by apply held_for_some.
  - destruct (secret_key m) as [key'|]; [|done]. cbn.
    destruct (decide (key = key')) as [->|Hne]; [|by rewrite lookup_insert_ne].
    rewrite lookup_insert_eq. cbn. unfold held_for at 1. rewrite Hd, decide_False by congruence.
    destruct (stored k !! key') as [s0|] eqn:E; [|done]. cbn. unfold held_for.
    destruct (decode s0) as [r0|] eqn:E0; [|done]. rewrite decide_False; [done|].
    rewrite (Hold _ _ eq_refl E0). congruence.
Qed.

Lemma records_delete k k' n key s r :
  secret_key n = Some key -> stored k !! key = Some s -> decode s = Ok r -> Name r = n ->
  stored k' = delete key (stored k) ->
  forall m, kube_records k' m = if decide (m = n) then None else kube_records k m.
Proof.
  intros Hkey Hs Hd Hn Hst m. unfold kube_records, secret_records. rewrite Hst. case_decide as Hm.
  - subst m. rewrite Hkey. cbn. by rewrite lookup_delete_eq.
  - destruct (secret_key m) as [key'|]; [|done]. cbn.
    destruct (decide (key = key')) as [->|Hne]; [|by rewrite lookup_delete_ne].
    rewrite lookup_delete_eq, Hs. cbn. unfold held_for. by rewrite Hd, decide_False by congruence.
Qed.

Lemma records_same k k' : stored k' = stored k -> forall m, kube_records k' m = kube_records k m.
Proof. intros H m. unfold kube_records, secret_records. by rewrite H. Qed.

Lemma secret_records_inv secrets n r :
  secret_records secrets n = Some r ->
  exists names s, resolveNames uid project n = Some names /\
    secrets !! (ns, KubernetesSecretName names) = Some s /\ decode s = Ok r /\ Name r = n.
Proof.
  unfold secret_records, secret_key. intros (key & Hk & H)%bind_Some.
  apply fmap_Some in Hk as (names & Hn & ->). apply bind_Some in H as (s & Hs & H%held_for_some).
  destruct H as [Hd Hname]. exists names, s. split; [exact Hn|]. split; [exact Hs|]. by split.
Qed.

Lemma deps_create k r k' e :
  record_ok r -> keys_ok derive r -> CreateRecord deps k r = (k', e) ->
  let created := kube_records k (Name r) = None /\
    exists uid' rv, forall n, kube_records k' n =
      if decide (n = Name r) then Some (with_ids r uid' rv) else kube_records k n in
  match e with
  | None => created
  | Some AlreadyExists => forall n, kube_records k' n = kube_records k n
  | Some (CreateOther _) => (forall n, kube_records k' n = kube_records k n) \/ created
  end.
Proof.
  intros Hok Hkeys. cbn [CreateRecord kubernetesDeps]. unfold kube_CreateRecord.
  destruct (resolveNames uid project (Name r)) as [names|] eqn:Hn; [|intros [= <- <-]; by left].
  destruct (record_roundtrip marshal unmarshal derive r ns gw (KubernetesSecretName names) "" "" Hok Hkeys)
    as (s & Hs & Hkey & _). rewrite Hs. intros Hc. apply api_create in Hc. cbn zeta in *.
  rewrite Hkey in Hc. assert (Hk : secret_key (Name r) = Some (ns, KubernetesSecretName names))
    by (unfold secret_key; by rewrite Hn).
  assert (Hcr : stored k !! (ns, KubernetesSecretName names) = None /\ (exists uid rv,
      stored k' = <[(ns, KubernetesSecretName names) := with_meta s uid rv]> (stored k)) ->
    kube_records k (Name r) = None /\ exists uid' rv, forall n, kube_records k' n =
      if decide (n = Name r) then Some (with_ids r uid' rv) else kube_records k n).
  { intros [Hnone (uid' & rv & Hst)]. split; [unfold kube_records, secret_records; rewrite Hk; cbn; by rewrite Hnone|].
    exists uid', rv. destruct (record_roundtrip marshal unmarshal derive r ns gw
      (KubernetesSecretName names) uid' rv Hok Hkeys) as (s' & Hs' & _ & _ & Hdec).
    apply (records_insert _ _ _ _ (with_meta s uid' rv) _ Hk); [congruence|done|congruence|done]. }
  destruct e as [[|e]|]; [by apply records_same| |by apply Hcr].
  destruct Hc as [Hc|Hc]; [left; by apply records_same|right; by apply Hcr].
Qed.

Lemma deps_update k n r labels k' e :
  kube_records k n = Some r -> dom labels ⊆ observed_labels ->
  UpdateRecordLabels deps k n labels = (k', e) ->
  let updated := exists rv, forall m, kube_records k' m =
    if decide (m = n) then Some (with_ids (apply_labels labels r) (UID r) rv) else kube_records k m in
  match e with
  | None => updated
  | Some _ => (forall m, kube_records k' m = kube_records k m) \/ updated
  end.
Proof.
  intros (names & cur & Hn & Hs & Hd & Hname)%secret_records_inv Hl.
  cbn [UpdateRecordLabels kubernetesDeps]. unfold kube_UpdateRecordLabels. rewrite Hn.
  pose proof (api_get k ns (KubernetesSecretName names)) as Hg.
  destruct (c_Get _ _ _ _) as [s| |e']; [|intros [= <- <-]; by left..].
  destruct Hg as [Hg Hkey]. intros Hu. apply api_update in Hu. cbn zeta in *.
  cbn [copy_labels sec_Namespace sec_Name sec_ResourceVersion] in Hu. rewrite Hkey in Hu.
  assert (Huid' : sec_UID cur = UID r).
  { unfold recordFromSecret in Hd. apply res_bind_ok in Hd as (? & _ & Hd).
    apply res_bind_ok in Hd as (? & _ & Hd). by apply res_bind_ok in Hd as (? & _ & [= <-]). }
  assert (Hup : (exists cur rv, stored k !! (ns, KubernetesSecretName names) = Some cur /\
      sec_ResourceVersion s = sec_ResourceVersion cur /\
      stored k' = <[(ns, KubernetesSecretName names) :=
                      with_meta (copy_labels s labels) (sec_UID cur) rv]> (stored k)) ->
    exists rv, forall m, kube_records k' m =
      if decide (m = n) then Some (with_ids (apply_labels labels r) (UID r) rv) else kube_records k m).
  { intros (cur' & rv & Hcur & Hrv & Hst). exists rv.
    assert (s = cur') as -> by exact (api_version _ _ _ _ Hg Hcur Hrv). assert (cur' = cur) as -> by congruence.
    rewrite Huid' in Hst.
    apply (records_insert _ _ n (ns, KubernetesSecretName names) _ _
      ltac:(unfold secret_key; by rewrite Hn) (relabel_decode unmarshal derive cur r labels _ rv Hl Hd));
      [done|intros s0 r0; congruence|done]. }
  destruct e; [destruct Hu as [Hu|Hu]; [left; by apply records_same|right; by apply Hup]|by apply Hup].
Qed.

(** A UID the API server assigns is not empty. *)
Hypothesis Huid : uid <> "".

(** The store laws, one case per operation. *)
Lemma kube_store : RecordStore deps uid kube_records kube_seen.
Proof.
  split.
  - intros k n r (? & ? & _ & _ & _ & ?)%secret_records_inv. done.
  - intros k n o. cbn. unfold kube_GetRecord, kube_seen, secret_records, secret_key.
    destruct (resolveNames uid project n) as [names|]; cbn; [|done].
    pose proof (api_get k ns (KubernetesSecretName names)) as Hg.
    destruct (c_Get _ _ _ _) as [s| |]; [destruct Hg as [Hg _]|by intros [= <-]; rewrite Hg|done]. rewrite Hg. cbn.
    unfold held_for. destruct (decode s); [by intros [= <-]|done].
  - intros k l. cbn. unfold kube_ListRecordNames. destruct (c_List _ _ _ _ _) as [secrets|] eqn:Hl; [|done].
    intros [= <-] n r (names & s & Hn & Hs & Hd & Hname)%secret_records_inv Hg.
    assert (Hlab : map_get "" (sec_Labels s) labelName = n /\ map_get "" (sec_Labels s) labelGatewayUID = uid).
    { unfold recordFromSecret in Hd. apply res_bind_ok in Hd as (? & _ & Hd).
      apply res_bind_ok in Hd as (? & _ & Hd). apply res_bind_ok in Hd as (? & _ & [= <-]). done. }
    destruct Hlab as [Hlab Hu]. apply list_elem_of_filter. split.
    + intros ->. exact (NameResourceNames_empty _ _ _ Hn).
    + apply list_elem_of_fmap. exists s. split; [done|]. apply (api_list _ _ _ _ _ Hl).
      exists (KubernetesSecretName names). split; [done|]. unfold map_get in Hu.
      destruct (sec_Labels s !! labelGatewayUID); cbn in Hu; [by subst|congruence].
  - intros k k' r [Hst _]%api_keypair. by apply records_same.
  - intros k0 k1 k r k' e [_ Hk]%api_keypair Hok Hc. exact (deps_create k r k' e Hok (Hk _ _ eq_refl) Hc).
  - exact deps_update.
  - intros k n r uid' rv k' e (names & s & Hn & Hs & Hd & Hname)%secret_records_inv.
    cbn. unfold kube_DeleteRecord. rewrite Hn.
    destruct (c_Delete _ _ _ _ _ _) as [k1 e1] eqn:Hdel. apply api_delete in Hdel.
    assert (Hsame : stored k1 = stored k \/ stored k1 = delete (ns, KubernetesSecretName names) (stored k) ->
      (forall m, m <> n -> kube_records k1 m = kube_records k m) /\
      (kube_records k1 n = kube_records k n \/ kube_records k1 n = None)).
    { intros [Hst|Hst]; [split; [|left]; intros; by apply records_same|].
      pose proof (records_delete k k1 n _ s r ltac:(unfold secret_key; by rewrite Hn) Hs Hd Hname Hst) as Hr.
      split; [intros m Hm|right]; rewrite Hr; [by rewrite decide_False|by rewrite decide_True]. }
    destruct e1 as [[|e1]|]; intros [= <- <-].
    + destruct Hdel. congruence.
    + destruct (Hsame Hdel). done.
    + destruct Hdel as [_ Hst]. destruct (Hsame (or_intror Hst)) as [? ?]. split; [done|]. split; [done|].
      intros _. pose proof (records_delete k k1 n _ s r ltac:(unfold secret_key; by rewrite Hn) Hs Hd Hname Hst n) as Hr.
      by rewrite decide_True in Hr.
Qed.

(** C9: The program's record store keeps the contract the membership pass is proved
    against, over a client whose reads come from a cache that may lag behind the server.
    [kubernetesDeps] reads and lists exactly the records the cache holds; it creates only
    where the server has none, updates labels without touching the write-once allocation
    and never from a version the server has replaced, and deletes only the named record;
    instance names that collide on one Secret never show each other's record. *)
Theorem kube_RecordStore : RecordStore deps uid kube_records kube_seen.
Proof. exact kube_store. Qed.

(** ** Confirmation reads *)

Lemma confirm_checks_absent get blocked checks m :
  confirm_checks get blocked checks = Ok (true, m) ->
  blocked = "" /\ forall kind name, (kind, name) ∈ checks -> get kind name = NotFound.
Proof.
  revert blocked. induction checks as [|[kind name] checks IH]; intros blocked; cbn.
  { destruct (bool_decide (blocked = "")) eqn:E; cbn; [|done]. apply bool_decide_eq_true in E.
    intros _. split; [done|]. intros ? ? H%elem_of_nil. done. }
  destruct (get kind name) as [[]| |] eqn:E; [| |done].
  - intros [H _]%IH. unfold or_default_string in H. by case_bool_decide; destruct kind.
  - intros [-> H]%IH. split; [done|]. intros k n [[= -> ->]|Hin]%elem_of_cons; [done|auto].
Qed.

(** The first Synced condition is True at the current generation. *)
Definition synced_at (generation : Z) (conditions : list (option (gmap string jval))) : Prop :=
  exists pre cond post, conditions = pre ++ Some cond :: post /\
    Forall (fun o => forall c, o = Some c -> is_synced c = false) pre /\ is_synced cond = true /\
    cond !! "status" = Some (JString "True") /\ conditionObservedGeneration cond = Some generation.

Lemma synced_scan_true generation conditions m :
  synced_scan generation conditions = (true, m) -> synced_at generation conditions.
Proof.
  induction conditions as [|o cs IH]; cbn; [done|].
  assert (Hskip : (forall c, o = Some c -> is_synced c = false) -> synced_at generation cs ->
    synced_at generation (o :: cs)).
  { intros Ho (pre & cond & post & -> & Hpre & H). exists (o :: pre), cond, post.
    split; [done|]. split; [by constructor|done]. }
  destruct o as [cond|]; [|by intros ?%IH; apply Hskip].
  destruct (is_synced cond) eqn:Hs; cbn; [|intros ?%IH; apply Hskip; [by intros ? [= <-]|done]].
  destruct (bool_decide (json_string (cond !! "status") = "True")) eqn:Ht; cbn; [|done].
  apply bool_decide_eq_true in Ht.
  destruct (conditionObservedGeneration cond) as [g|] eqn:Hg; [|done].
  destruct (Z.eqb_spec g generation) as [->|]; [|done]. intros _.
  exists [], cond, cs. split; [done|]. split; [constructor|]. split; [done|]. split; [|done].
  unfold json_string in Ht. destruct (cond !! "status") as [[]|]; by subst.
Qed.

(** Every cloud resource of [names] is gone and the composite has seen the current
    generation, read in [k]. *)
Definition resources_gone (k : K) (names : ManagedResourceNames) : Prop :=
  u_GetManaged c k SecretManagerSecret (CloudSecretName names) = NotFound /\
  u_GetManaged c k SecretManagerSecretVersion (CloudSecretVersionName names) = NotFound /\
  u_GetManaged c k SecretManagerSecretIAMMember (CloudSecretIAMMemberName names) = NotFound /\
  exists obj conditions, u_GetComposite c k ns gw = Found obj /\
    xg_Conditions obj = Ok conditions /\ synced_at (xg_Generation obj) conditions.

Lemma confirmed_gone k r :
  confirmed deps uid k r ->
  exists names, NameResourceNames uid (Project r) (Name r) = Some names /\ resources_gone k names.
Proof.
  intros (names & a & b & Hn & Ha & Hs). exists names. split; [done|].
  cbn [ConfirmManagedResourcesAbsent CompositeSynced kubernetesDeps] in Ha, Hs.
  unfold kube_ConfirmManagedResourcesAbsent in Ha. apply confirm_checks_absent in Ha as [_ Ha].
  unfold kube_CompositeSynced in Hs.
  destruct (u_GetComposite c k ns gw) as [obj| |] eqn:Hc; [|done..].
  destruct (xg_Conditions obj) as [conds|] eqn:Ho; [|done]. injection Hs as Hs.
  apply synced_scan_true in Hs. unfold resources_gone. rewrite Hc.
  repeat (split; [apply Ha; set_solver|]). eauto.
Qed.

(** C7: A slot is released only after its cloud resources are confirmed gone. If a
    record of this Gateway is no longer stored after a pass over Kubernetes that began
    with distinct slots and whose cached reads show the stored records, then it was
    already awaiting confirmation when the pass began, its instance was not listed
    as present, and at some point of the pass uncached reads found none of its three
    Secret Manager resources, and the composite with its first Synced condition True
    at the current generation. *)
Theorem release_confirmed snap desired cap el ga last b k k' res n r :
  storable_inputs cap el ga b -> caught_up kube_records kube_seen k ->
  unique_slots uid project kube_records k ->
  Reconcile deps uid project snap desired cap el ga last b k = (k', res) ->
  kube_records k n = Some r -> mine uid project r -> kube_records k' n = None ->
  PendingConfirmation r = true /\
  exists s k1 names, snap = Some s /\ ~ present s n /\
    rtc (dep_step deps) k k1 /\ rtc (dep_step deps) k1 k' /\
    NameResourceNames uid project n = Some names /\ resources_gone k1 names.
Proof.
  intros Hst Hcu Hu H Hr Hm Hnone.
  destruct (reconcile_release deps uid project kube_records kube_seen (RecordStore0 := kube_store)
    snap desired cap el ga last b k k' res n r Hst Hcu Hu H Hr Hm Hnone)
    as (Hp & s & k1 & -> & Hnp & H1 & H2 & Hc). split; [done|].
  destruct (confirmed_gone _ _ Hc) as (names & Hn & Hg). exists s, k1, names.
  destruct Hm as [_ Hproj]. apply secret_records_inv in Hr as (_ & _ & _ & _ & _ & Hname).
  rewrite Hproj, Hname in Hn. by do 5 (split; [done|]).
Qed.
End Store.

(** ** An API server in memory, with a text codec *)

(** Each byte marked with a one, the end of a field with a zero. *)
Fixpoint enc_field (l rest : list ascii) : list ascii :=
  match l with
  | [] => "0"%char :: rest
  | c :: l => "1"%char :: c :: enc_field l rest
  end.

Fixpoint dec_field (acc l : list ascii) : option (string * list ascii) :=
  match l with
  | "1"%char :: c :: l => dec_field (c :: acc) l
  | "0"%char :: l => Some (of_chars (rev acc), l)
  | _ => None
  end.

Lemma dec_enc_field l acc rest : dec_field acc (enc_field l rest) = Some (of_chars (rev acc ++ l), rest).
Proof.
  revert acc. induction l as [|c l IH]; intros acc; cbn; [by rewrite app_nil_r|].
  rewrite IH. cbn. by rewrite <- app_assoc.
Qed.

Definition mem_marshal (p : bundlePayload) : result string string :=
  Ok (of_chars (enc_field (chars (bp_PrivateKey p)) (enc_field (chars (bp_Address p))
        (enc_field (chars (bp_Slot p)) (enc_field (chars (bp_PeerPublicKey p))
          (enc_field (chars (bp_PeerAllowedIPs p)) [])))))).

Definition mem_unmarshal (raw : string) : result string bundlePayload :=
  match (a ← dec_field [] (chars raw); b ← dec_field [] a.2; c ← dec_field [] b.2;
         d ← dec_field [] c.2; e ← dec_field [] d.2;
         Some (mkBundlePayload a.1 b.1 c.1 d.1 e.1)) with
  | Some p => Ok p
  | None => Err "bad bundle"
  end.

#[global] Instance mem_codec : BundleCodec mem_marshal mem_unmarshal.
Proof.
  intros p _. eexists. split; [reflexivity|]. split.
  - by destruct (chars (bp_PrivateKey p)).
  - unfold mem_unmarshal. rewrite chars_of_chars.
    repeat (rewrite dec_enc_field; cbn [mbind option_bind fst snd rev app]).
    rewrite !of_chars_chars. by destruct p.
Qed.

Definition mem_derive (priv : string) : result string string := Ok ("pub-" +:+ priv).

(** The Secrets stored, and the created ones the cache does not show yet. *)
Record kmem := mkKmem {
  km_secrets : gmap (string * string) Secret;
  km_hidden : gset (string * string);
  km_next : nat
}.

Definition km_cached (w : kmem) : gmap (string * string) Secret :=
  filter (fun kv => kv.1 ∉ km_hidden w) (km_secrets w).

(** The cache catches up. *)
Definition km_sync (w : kmem) : kmem := mkKmem (km_secrets w) ∅ (km_next w).

Definition km_version (w : kmem) : string := Itoa (Z.of_nat (km_next w)).

Definition synced_composite : composite :=
  mkComposite 4 (Ok [None; Some {["type" := JString "Ready"]};
    Some (<["type" := JString "Synced"]> (<["status" := JString "True"]>
      {["observedGeneration" := JFloat 8 (-1)]}))]).

Definition mem_client : Client kmem := {|
  c_Get w ns n := match km_cached w !! (ns, n) with
                  | Some s => if decide ((sec_Namespace s, sec_Name s) = (ns, n)) then Found s
                              else LookupError "misfiled"
                  | None => NotFound
                  end;
  c_Create w s :=
    match km_secrets w !! (sec_Namespace s, sec_Name s) with
    | Some _ => (w, Some AlreadyExists)
    | None => (mkKmem (<[(sec_Namespace s, sec_Name s) := with_meta s "uid" (km_version w)]>
                         (km_secrets w)) ({[(sec_Namespace s, sec_Name s)]} ∪ km_hidden w) (S (km_next w)), None)
    end;
  c_Update w s :=
    match km_secrets w !! (sec_Namespace s, sec_Name s) with
    | None => (w, Some "not found")
    | Some cur =>
        if decide (sec_ResourceVersion s = sec_ResourceVersion cur)
        then (mkKmem (<[(sec_Namespace s, sec_Name s) := with_meta s (sec_UID cur) (km_version w)]>
                         (km_secrets w)) (km_hidden w) (S (km_next w)), None)
        else (w, Some "conflict")
    end;
  c_Delete w ns n uid rv :=
    match km_secrets w !! (ns, n) with
    | None => (w, Some DeleteNotFound)
    | Some cur =>
        if decide (sec_UID cur = uid /\ sec_ResourceVersion cur = rv)
        then (mkKmem (delete (ns, n) (km_secrets w)) (km_hidden w) (S (km_next w)), None)
        else (w, Some (DeleteOther "conflict"))
    end;
  c_List w ns key v :=
    Ok (snd <$> filter (fun kv => kv.1.1 = ns /\ sec_Labels kv.2 !! key = Some v)
                  (map_to_list (km_cached w)));
  u_GetManaged _ _ _ := NotFound;
  u_GetComposite _ _ _ := Found synced_composite;
  wg_GenerateKeypair w := (w, Ok ("key", "pub-key"))
|}.

#[global] Instance mem_api : ApiServer mem_client mem_derive km_secrets km_cached.
Proof.
  split; cbn.
  - intros k ns n. destruct (km_cached k !! (ns, n)) eqn:E; [|done]. by case_decide.
  - intros k key s cur [Hs _]%map_lookup_filter_Some Hc _. congruence.
  - intros k ns key v l [= <-] s. rewrite list_elem_of_fmap. split.
    + intros ([[ns' n] s'] & -> & [[Hns Hl] Hin%elem_of_map_to_list]%list_elem_of_filter).
      cbn in *. subst. eauto.
    + intros (n & Hn & Hl). exists ((ns, n), s). split; [done|]. apply list_elem_of_filter.
      split; [done|]. by apply elem_of_map_to_list.
  - intros k s k' e. destruct (km_secrets k !! _) eqn:E; intros [= <- <-]; [done|]. eauto.
  - intros k s k' e. destruct (km_secrets k !! _) as [cur|] eqn:E; [case_decide|];
      intros [= <- <-]; [|by left..]. exists cur, (km_version k). done.
  - intros k ns n uid rv k' e. destruct (km_secrets k !! _) as [cur|] eqn:E; [case_decide|];
      intros [= <- <-]; [|by left|done]. split; [|done]. by exists cur.
  - intros k k' r [= <- <-]. split; [done|]. intros priv pub [= <- <-].
    split; [done|]. split; [repeat constructor|done].
Qed.

Abbreviation mem_kube := (kubernetesDeps mem_client mem_marshal mem_unmarshal mem_derive
  (fun _ => "error") "apps" "edge" "u1" "p1").
Abbreviation mem_view := (kube_records mem_unmarshal mem_derive "apps" "u1" "p1" km_secrets).
Abbreviation mem_seen := (kube_seen mem_unmarshal mem_derive "apps" "u1" "p1" km_cached).

(** A store with [gw-a] active on slot 0 and [gw-c] awaiting confirmation on slot 2. *)
Definition fresh_record (name : string) (slot count : Z) (pending : bool) : MemberRecord :=
  mkRecord "" "" name "us-a" slot "key" "pub-key" "10.99.0.3" 29 "linkpub" "10.99.0.1/32" "203.0.113.7"
    "77" "rev-3" count pending "u1" "p1".

Definition lagging_kmem : kmem :=
  (CreateRecord mem_kube (CreateRecord mem_kube (mkKmem ∅ ∅ 1) (fresh_record "gw-a" 0 0 false)).1
     (fresh_record "gw-c" 2 3 true)).1.
Definition sample_kmem : kmem := km_sync lagging_kmem.

Lemma fresh_record_ok name slot count pending :
  0 <= slot < 2 ^ 63 -> 0 <= count < 2 ^ 63 ->
  record_ok (fresh_record name slot count pending) /\
  keys_ok mem_derive (fresh_record name slot count pending).
Proof.
  intros Hs Hc. split; split; cbn; try done; try lia; [|split; [|split]|split; [|done]];
    try (repeat constructor; fail). set_solver.
Qed.

Lemma record_roundtrip_witness :
  exists s, secretFromRecord mem_marshal "apps" "edge" "gw-x" (fresh_record "gw-a" 3 1 true) = Ok s /\
    recordFromSecret mem_unmarshal mem_derive (with_meta s "uid" "9") =
      Ok (with_ids (fresh_record "gw-a" 3 1 true) "uid" "9").
Proof.
  destruct (record_roundtrip mem_marshal mem_unmarshal mem_derive (fresh_record "gw-a" 3 1 true)
    "apps" "edge" "gw-x" "uid" "9") as (s & H1 & _ & _ & H2);
    [by apply fresh_record_ok|by apply fresh_record_ok|]. by exists s.
Defined.

Lemma kube_RecordStore_witness :
  RecordStore mem_kube "u1" mem_view mem_seen /\
  (exists r, mem_view sample_kmem "gw-a" = Some r /\ Slot r = 0 /\ PublicKey r = "pub-key") /\
  GetRecord mem_kube lagging_kmem "gw-a" = Ok None /\
  (CreateRecord mem_kube lagging_kmem (fresh_record "gw-a" 1 0 false)).2 = Some AlreadyExists /\
  ListRecordNames mem_kube sample_kmem = Ok ["gw-c"; "gw-a"].
Proof.
  split; [exact (kube_RecordStore mem_client mem_marshal mem_unmarshal mem_derive
    (fun _ => "error") "apps" "edge" "u1" "p1" km_secrets km_cached ltac:(discriminate))|].
  split; [eexists; vm_compute; done|]. split_and!; vm_compute; reflexivity.
Defined.

(** A stored Secret that decodes to one of the two records. *)
Definition sample_secret_known (s : Secret) : bool :=
  match recordFromSecret mem_unmarshal mem_derive s with
  | Ok r => bool_decide (Name r = "gw-a") && (Slot r =? 0) || bool_decide (Name r = "gw-c") && (Slot r =? 2)
  | Err _ => true
  end.

Lemma sample_kmem_records n r :
  mem_view sample_kmem n = Some r -> n = "gw-a" /\ Slot r = 0 \/ n = "gw-c" /\ Slot r = 2.
Proof.
  intros (names & s & _ & Hs%elem_of_map_to_list & Hd & <-)%secret_records_inv.
  assert (Hall : forallb (fun ks => sample_secret_known ks.2) (map_to_list (km_secrets sample_kmem)) = true)
    by (vm_compute; reflexivity).
  rewrite forallb_forall in Hall. specialize (Hall _ (proj1 (list_elem_of_In _ _) Hs)). cbn in Hall.
  unfold sample_secret_known in Hall. rewrite Hd in Hall. bool_prop. destruct Hall; bool_prop; auto.
Qed.

Definition sample_kpass : kmem * result member_error Result :=
  Reconcile mem_kube "u1" "p1" (Some sample_snap) 2 5
    ["10.99.0.2"; "10.99.0.4"; "10.99.0.5"; "10.99.0.6"] "10.99.0.3" 1
    (mkBundleInputs 29 "linkpub" "10.99.0.1/32") sample_kmem.

Lemma release_confirmed_witness :
  exists r, mem_view sample_kmem "gw-c" = Some r /\ mem_view sample_kpass.1 "gw-c" = None /\
    PendingConfirmation r = true.
Proof.
  eexists. split; [vm_compute; reflexivity|]. split; [vm_compute; reflexivity|].
  eapply (release_confirmed mem_client mem_marshal mem_unmarshal mem_derive (fun _ => "error")
    "apps" "edge" "u1" "p1" km_secrets km_cached ltac:(discriminate) (Some sample_snap) 2 5
    ["10.99.0.2"; "10.99.0.4"; "10.99.0.5"; "10.99.0.6"] "10.99.0.3" 1
    (mkBundleInputs 29 "linkpub" "10.99.0.1/32") sample_kmem sample_kpass.1 sample_kpass.2 "gw-c").
  - apply sample_storable.
  - intros n. unfold kube_seen, kube_records. by f_equal.
  - intros n1 n2 r1 r2 H1%sample_kmem_records H2%sample_kmem_records _ _ Heq.
    destruct H1 as [[-> E1]|[-> E1]], H2 as [[-> E2]|[-> E2]]; try done; exfalso; lia.
  - apply surjective_pairing.
  - vm_compute. reflexivity.
  - done.
  - vm_compute. reflexivity.
Defined.
