(* ===== verification/LinkID.v ===== *)
(** * Link id allocation: ensureLinkID of internal/controller/link.go

    Every Local Gateway of the cluster gets an id in 1..250 from which all of its
    node-global names derive. The id lives in the Gateway's status and in an annotation
    that outlives a restore which drops the status. The operator lists all Gateways,
    chooses an id and writes it with optimistic concurrency, while users create, edit
    and delete Gateways; this file models the choice as functions and the protocol as
    a transition system over the API server's Gateways. *)

From S2P Require Import Prelude GoStrings Identity.

Definition linkIDAnnotation : string := "wgnet.dev/link-id".

(** The part of a Gateway the allocation reads and writes. *)
Record gateway_obj := mkGatewayObj {
  go_version : nat;
  go_local : bool;
  go_id : Z;
  go_annotations : gmap string string
}.

Abbreviation gkey := (string * string)%type.

(** ** The choice *)
Definition parseLinkID (raw : string) : option Z :=
  match ParseInt (TrimSpace raw) 32 with
  | Err _ => None
  | Ok parsed => if (parsed <? 1) || (MaxLinkID <? parsed) then None else Some (wrap32 parsed)
  end.

Definition annotated_id (o : gateway_obj) : option Z :=
  raw ← go_annotations o !! linkIDAnnotation; parseLinkID raw.

(** One iteration of [linkIDHolders]: a Gateway's status id and annotated id are both
    reserved. *)
Definition hold (self : gkey) (holders : gmap Z gkey) (g : gkey * gateway_obj) : gmap Z gkey :=
  let '(key, o) := g in
  if decide (key = self) then holders
  else
    let holders := if 0 <? go_id o then <[go_id o := key]> holders else holders in
    match annotated_id o with
    | Some id => <[id := key]> holders
    | None => holders
    end.

Definition linkIDHolders (gateways : list (gkey * gateway_obj)) (self : gkey) : gmap Z gkey :=
  foldl (hold self) ∅ gateways.

(** [for id := 1; id <= MaxLinkID; id++] *)
Fixpoint first_free (taken : gmap Z gkey) (ids : list Z) : option Z :=
  match ids with
  | [] => None
  | id :: ids => if decide (is_Some (taken !! id)) then first_free taken ids else Some id
  end.

Definition lowestFreeLinkID (gateways : list (gkey * gateway_obj)) (self : gkey) : option Z :=
  first_free (linkIDHolders gateways self) (seqZ 1 MaxLinkID).

(** [annotations] are the cached Gateway's. *)
Definition adoptableLinkID (annotations : gmap string string) (gateways : list (gkey * gateway_obj))
    (self : gkey) : option Z :=
  raw ← annotations !! linkIDAnnotation;
  claimed ← parseLinkID raw;
  if decide (is_Some (linkIDHolders gateways self !! claimed)) then None else Some claimed.

Definition choose_id (annotations : gmap string string) (gateways : list (gkey * gateway_obj))
    (self : gkey) : option Z :=
  match adoptableLinkID annotations gateways self with
  | Some id => Some id
  | None => lowestFreeLinkID gateways self
  end.

(** ** The protocol *)

(** Where the one active operator is: idle; with an id chosen for a Gateway; having
    read that Gateway without an id at a version; or recording the id in the
    annotation, before and after the read. *)
Inductive alloc_pc :=
| Idle
| Chosen (self : gkey) (id : Z)
| ReadFresh (self : gkey) (id : Z) (version : nat)
| Persist (self : gkey) (id : Z)
| ReadAnnotation (self : gkey) (id : Z) (version : nat).

(** The API server's Gateways, its next resourceVersion, and the operator. *)
Record cluster := mkCluster {
  cl_gateways : gmap gkey gateway_obj;
  cl_next : nat;
  cl_pc : alloc_pc
}.

Definition at_pc (pc : alloc_pc) (s : cluster) : cluster := mkCluster (cl_gateways s) (cl_next s) pc.

(** A write of [o] at [key], at a fresh resourceVersion. *)
Definition write (key : gkey) (o : gateway_obj) (pc : alloc_pc) (s : cluster) : cluster :=
  mkCluster (<[key := mkGatewayObj (cl_next s) (go_local o) (go_id o) (go_annotations o)]> (cl_gateways s))
    (S (cl_next s)) pc.

Definition with_id (o : gateway_obj) (id : Z) : gateway_obj :=
  mkGatewayObj (go_version o) (go_local o) id (go_annotations o).
Definition with_annotation (o : gateway_obj) (id : Z) : gateway_obj :=
  mkGatewayObj (go_version o) (go_local o) (go_id o) (<[linkIDAnnotation := Itoa id]> (go_annotations o)).

(** The operator's steps: [ensureLinkID] and [persistLinkIDAnnotation], one step per
    API call. [cached] is the operator's copy of the Gateway, which may be stale in
    everything; a status id it shows is only copied to the annotation. *)
Inductive op_step : cluster -> cluster -> Prop :=
| op_has_id s self cached :
    cl_pc s = Idle -> go_local cached = true -> 0 < go_id cached ->
    op_step s (at_pc (Persist self (go_id cached)) s)
| op_choose s self cached id :
    cl_pc s = Idle -> go_local cached = true -> go_id cached <= 0 ->
    choose_id (go_annotations cached) (map_to_list (cl_gateways s)) self = Some id ->
    op_step s (at_pc (Chosen self id) s)
| op_read_has_id s self id o :
    cl_pc s = Chosen self id -> cl_gateways s !! self = Some o -> 0 < go_id o ->
    op_step s (at_pc (Persist self (go_id o)) s)
| op_read s self id o :
    cl_pc s = Chosen self id -> cl_gateways s !! self = Some o -> go_id o <= 0 ->
    op_step s (at_pc (ReadFresh self id (go_version o)) s)
| op_update s self id v o :
    cl_pc s = ReadFresh self id v -> cl_gateways s !! self = Some o -> go_version o = v ->
    op_step s (write self (with_id o id) (Persist self id) s)
| op_update_lost s self id v o :
    cl_pc s = ReadFresh self id v -> cl_gateways s !! self = Some o -> go_version o = v ->
    op_step s (write self (with_id o id) Idle s)
| op_update_conflict s self id v :
    cl_pc s = ReadFresh self id v -> op_step s (at_pc (Chosen self id) s)
| op_annotated s self id o :
    cl_pc s = Persist self id -> cl_gateways s !! self = Some o ->
    go_annotations o !! linkIDAnnotation = Some (Itoa id) ->
    op_step s (at_pc Idle s)
| op_read_annotation s self id o :
    cl_pc s = Persist self id -> cl_gateways s !! self = Some o ->
    op_step s (at_pc (ReadAnnotation self id (go_version o)) s)
| op_annotate s self id v o :
    cl_pc s = ReadAnnotation self id v -> cl_gateways s !! self = Some o -> go_version o = v ->
    op_step s (write self (with_annotation o id) Idle s)
| op_annotate_conflict s self id v :
    cl_pc s = ReadAnnotation self id v -> op_step s (at_pc (Persist self id) s)
| op_abandon s : op_step s (at_pc Idle s).

(** Everyone else: a Gateway is created without a status, edited in everything but its
    status, loses its status in a restore, or is deleted. *)
Inductive env_step : cluster -> cluster -> Prop :=
| env_create s key o :
    cl_gateways s !! key = None -> go_id o = 0 -> env_step s (write key o (cl_pc s) s)
| env_edit s key o o' :
    cl_gateways s !! key = Some o -> go_id o' = go_id o -> env_step s (write key o' (cl_pc s) s)
| env_restore s key o o' :
    cl_gateways s !! key = Some o -> go_id o' = 0 -> env_step s (write key o' (cl_pc s) s)
| env_delete s key :
    env_step s (mkCluster (delete key (cl_gateways s)) (cl_next s) (cl_pc s)).

Definition cluster_step (s s' : cluster) : Prop := op_step s s' \/ env_step s s'.

(** A cluster in which no Gateway has been allocated an id yet. *)
Definition unallocated (s : cluster) : Prop :=
  cl_pc s = Idle /\ map_Forall (fun _ o => go_id o = 0) (cl_gateways s).

(** ** Proofs: the choice *)

Lemma parseLinkID_ok raw id : parseLinkID raw = Some id -> gateway_id_ok id.
Proof.
  unfold parseLinkID, gateway_id_ok. destruct (ParseInt _ _) as [z|]; [|done].
  destruct (z <? 1) eqn:E1, (MaxLinkID <? z) eqn:E2; cbn; try done.
  apply Z.ltb_ge in E1, E2. intros [= <-]. unfold MaxLinkID in *.
  rewrite wrap32_id; [lia|unfold int32_ok; lia].
Qed.

Lemma digit_char_not_space d : 0 <= d < 10 -> is_space (digit_char d) = false.
Proof.
  intros Hd. unfold is_space, digit_char. rewrite (proj2 (Z.ltb_lt d 10)) by lia.
  rewrite byte_val_of by lia. rewrite !orb_false_iff, !andb_false_iff. lia.
Qed.

Lemma drop_spaces_id l : Forall (fun c => is_space c = false) l -> drop_spaces l = l.
Proof. destruct 1 as [|c l Hc _]; [done|]. cbn. by rewrite Hc. Qed.

Lemma TrimSpace_Itoa n : 0 <= n -> TrimSpace (Itoa n) = Itoa n.
Proof.
  intros Hn. assert (Hall : Forall (fun c => is_space c = false) (chars (Itoa n))).
  { apply Forall_forall. intros c. rewrite Itoa_nonneg by done.
    intros (d & Hd & ->)%digit_char_of_fmt; [|lia..]. by apply digit_char_not_space. }
  unfold TrimSpace. rewrite (drop_spaces_id (chars _)) by done.
  rewrite drop_spaces_id by (by apply Forall_rev).
  by rewrite rev_involutive, of_chars_chars.
Qed.

Lemma parseLinkID_Itoa id : gateway_id_ok id -> parseLinkID (Itoa id) = Some id.
Proof.
  unfold gateway_id_ok, MaxLinkID. intros Hid. unfold parseLinkID, MaxLinkID.
  rewrite TrimSpace_Itoa, ParseInt_Itoa_nonneg by lia.
  rewrite (proj2 (Z.ltb_ge id 1)), (proj2 (Z.ltb_ge 250 id)) by lia. cbn [orb].
  by rewrite wrap32_id by (unfold int32_ok; lia).
Qed.

(** An id a Gateway reserves, by status or by annotation. *)
Definition reserves (o : gateway_obj) (id : Z) : Prop :=
  0 < go_id o /\ go_id o = id \/ annotated_id o = Some id.

Definition reserved (gateways : list (gkey * gateway_obj)) (self : gkey) (id : Z) : Prop :=
  exists key o, (key, o) ∈ gateways /\ key <> self /\ reserves o id.

Lemma hold_spec self holders key o id :
  is_Some (hold self holders (key, o) !! id) <->
  is_Some (holders !! id) \/ (key <> self /\ reserves o id).
Proof.
  unfold hold, reserves. destruct (decide (key = self)) as [->|Hne]; [tauto|].
  assert (Hins : forall (m : gmap Z gkey) j, is_Some (<[j := key]> m !! id) <-> is_Some (m !! id) \/ j = id).
  { intros m j. rewrite lookup_insert_is_Some'. tauto. }
  destruct (annotated_id o) as [a|]; destruct (Z.ltb_spec 0 (go_id o)); rewrite ?Hins; intuition (congruence || lia).
Qed.

Lemma linkIDHolders_spec gateways self id :
  is_Some (linkIDHolders gateways self !! id) <-> reserved gateways self id.
Proof.
  unfold linkIDHolders. induction gateways as [|[key o] gws IH] using rev_ind.
  { cbn. rewrite lookup_empty. split; [by intros []|]. intros (k & o & H%elem_of_nil & _). done. }
  rewrite foldl_app. cbn [foldl]. rewrite hold_spec, IH. unfold reserved. split.
  - intros [(k & o' & Hin & Hk & Hr)|[Hk Hr]];
      [exists k, o' | exists key, o]; (split; [set_solver|done]).
  - intros (k & o' & [Hin|[= -> ->]%list_elem_of_singleton]%elem_of_app & Hk & Hr); [left|by right].
    by exists k, o'.
Qed.

Lemma first_free_spec taken ids :
  match first_free taken ids with
  | Some id => id ∈ ids /\ taken !! id = None
  | None => forall id, id ∈ ids -> is_Some (taken !! id)
  end.
Proof.
  induction ids as [|i ids IH]; cbn; [by intros id ?%elem_of_nil|].
  destruct (decide (is_Some (taken !! i))) as [Hi|Hi].
  - destruct (first_free taken ids); [set_solver|]. intros id [->|?]%elem_of_cons; auto.
  - split; [by left|]. by apply eq_None_not_Some.
Qed.

Lemma chosen_free annotations gateways self :
  match choose_id annotations gateways self with
  | Some id => gateway_id_ok id /\ ~ reserved gateways self id
  | None => forall id, gateway_id_ok id -> reserved gateways self id
  end.
Proof.
  unfold choose_id. destruct (adoptableLinkID _ _ _) as [id|] eqn:Ha.
  + unfold adoptableLinkID in Ha. apply bind_Some in Ha as (raw & _ & Ha).
    apply bind_Some in Ha as (claimed & Hp & Ha). case_decide as Hh; simplify_eq.
    split; [exact (parseLinkID_ok _ _ Hp)|]. by rewrite <- linkIDHolders_spec.
  + unfold lowestFreeLinkID.
    pose proof (first_free_spec (linkIDHolders gateways self) (seqZ 1 MaxLinkID)) as Hf.
    destruct (first_free _ _) as [id|].
    * destruct Hf as [Hin%elem_of_seqZ Hn]. split; [unfold gateway_id_ok; lia|].
      rewrite <- linkIDHolders_spec, Hn. by intros [].
    * intros id Hid. apply linkIDHolders_spec, Hf, elem_of_seqZ. unfold gateway_id_ok in Hid. lia.
Qed.

(** The choice of a link id. A chosen id lies in 1..250 and no other Gateway reserves
    it, by status or by annotation; there is no choice only when every id of the range
    is reserved by others; and a Gateway that carries an id in its annotation, as
    after a restore that dropped its status, gets that very id back when nobody else
    reserves it. *)
Theorem choose_id_spec annotations gateways self :
  match choose_id annotations gateways self with
  | Some id => gateway_id_ok id /\ ~ reserved gateways self id
  | None => forall id, gateway_id_ok id -> reserved gateways self id
  end /\
  (forall id, gateway_id_ok id -> annotations !! linkIDAnnotation = Some (Itoa id) ->
     ~ reserved gateways self id -> choose_id annotations gateways self = Some id).
Proof.
  split.
  - apply chosen_free.
  - intros id Hid Ha Hr. unfold choose_id, adoptableLinkID. rewrite Ha. cbn.
    rewrite parseLinkID_Itoa by done. cbn.
    rewrite decide_False by (by rewrite linkIDHolders_spec). done.
Qed.

(** ** Proofs: the protocol *)

Definition id_free_for (gws : gmap gkey gateway_obj) (self : gkey) (id : Z) : Prop :=
  forall key o, gws !! key = Some o -> key <> self -> go_id o <> id.

(** What holds of every reachable state. *)
Record alloc_ok (s : cluster) : Prop := {
  ao_range key o : cl_gateways s !! key = Some o -> go_id o = 0 \/ gateway_id_ok (go_id o);
  ao_unique k1 k2 o1 o2 : cl_gateways s !! k1 = Some o1 -> cl_gateways s !! k2 = Some o2 ->
    0 < go_id o1 -> go_id o1 = go_id o2 -> k1 = k2;
  ao_pc : match cl_pc s with
          | Chosen self id | ReadFresh self id _ =>
              gateway_id_ok id /\ id_free_for (cl_gateways s) self id
          | _ => True
          end
}.

(** The status id a key shows, 0 without the Gateway: a write that sets [key]'s id to
    0, keeps it, or sets a free one keeps the ids in range and distinct. *)
Lemma write_ok s key o pc :
  alloc_ok s ->
  (go_id o = 0 \/ (exists o0, cl_gateways s !! key = Some o0 /\ go_id o0 = go_id o) \/
   (gateway_id_ok (go_id o) /\ id_free_for (cl_gateways s) key (go_id o))) ->
  match pc with
  | Chosen self id | ReadFresh self id _ =>
      gateway_id_ok id /\ id_free_for (cl_gateways s) self id /\ (key = self \/ go_id o <> id)
  | _ => True
  end ->
  alloc_ok (write key o pc s).
Proof.
  intros [Hr Hu _] Ho Hpc.
  assert (Hfree : 0 < go_id o -> id_free_for (cl_gateways s) key (go_id o)).
  { intros Hpos. destruct Ho as [?|[(o0 & H0 & He)|[_ ?]]]; [lia| |done].
    intros k o' Hk Hne Heq. apply Hne. symmetry. apply (Hu key k o0 o'); [done|done|lia|lia]. }
  split; cbn.
  - intros k o'. destruct (decide (k = key)) as [->|Hne].
    + rewrite lookup_insert_eq. intros [= <-]. cbn.
      destruct Ho as [?|[(o0 & H0 & <-)|[? _]]]; [by left|by apply (Hr key)|by right].
    + rewrite lookup_insert_ne by congruence. apply Hr.
  - intros k1 k2 o1 o2. destruct (decide (k1 = key)) as [->|H1], (decide (k2 = key)) as [->|H2];
      rewrite ?lookup_insert_eq, ?lookup_insert_ne by congruence; [done|..|by apply Hu].
    + intros [= <-] Hk2 Hpos Heq. cbn in *. by destruct (Hfree Hpos k2 o2 Hk2 H2).
    + intros Hk1 [= <-] Hpos Heq. cbn in *. by destruct (Hfree ltac:(lia) k1 o1 Hk1 H1).
  - destruct pc; try done; destruct Hpc as (Hid & Hf & Hk); (split; [done|]); intros k o' Hk' Hne;
      (destruct (decide (k = key)) as [->|Hne'];
       [rewrite lookup_insert_eq in Hk'; injection Hk' as <-; cbn; by destruct Hk
       |rewrite lookup_insert_ne in Hk' by congruence; exact (Hf _ _ Hk' Hne)]).
Qed.

Lemma at_pc_ok s pc :
  alloc_ok s ->
  match pc with
  | Chosen self id | ReadFresh self id _ =>
      gateway_id_ok id /\ id_free_for (cl_gateways s) self id
  | _ => True
  end -> alloc_ok (at_pc pc s).
Proof. intros [Hr Hu _] Hpc. by split. Qed.

Lemma op_step_ok s s' : alloc_ok s -> op_step s s' -> alloc_ok s'.
Proof.
  intros Hok Hstep. pose proof (ao_pc s Hok) as Hpc. destruct Hstep as
    [s self cached Hs|s self cached id Hs _ _ Hc|s self id o Hs Ho _|s self id o Hs Ho _
    |s self id v o Hs Ho _|s self id v o Hs Ho _|s self id v Hs|s self id o Hs|s self id o Hs
    |s self id v o Hs Ho _|s self id v Hs|s]; rewrite ?Hs in Hpc;
    try (by apply at_pc_ok).
  - apply at_pc_ok; [done|].
    pose proof (chosen_free (go_annotations cached) (map_to_list (cl_gateways s)) self) as Hf.
    rewrite Hc in Hf. destruct Hf as [Hid Hf]. split; [done|]. intros k o Hk Hne Heq. apply Hf.
    exists k, o. split; [by apply elem_of_map_to_list|]. split; [done|]. left.
    unfold gateway_id_ok in Hid. lia.
  - apply write_ok; [done| |done]. right; right. done.
  - apply write_ok; [done| |done]. right; right. done.
  - apply write_ok; [done| |done]. right; left. by exists o.
Qed.

Lemma env_step_ok s s' : alloc_ok s -> env_step s s' -> alloc_ok s'.
Proof.
  intros Hok Hstep. pose proof (ao_pc s Hok) as Hpc. pose proof Hok as [Hr Hu _].
  assert (Hkeep : forall key o, go_id o = 0 \/ (exists o0, cl_gateways s !! key = Some o0 /\ go_id o0 = go_id o) ->
    alloc_ok (write key o (cl_pc s) s)).
  { intros key o Ho. apply write_ok; [done|destruct Ho; auto|].
    destruct (cl_pc s) as [|self id|self id v|self id|self id v]; try done;
      destruct Hpc as [Hid Hf]; (do 2 (split; [done|]));
      (destruct (decide (key = self)) as [->|Hne]; [by left|right]);
      (destruct Ho as [->|(o0 & H0 & <-)]; [unfold gateway_id_ok in Hid; lia|exact (Hf _ _ H0 Hne)]). }
  destruct Hstep as [s key o Hn H0|s key o o' Ho He|s key o o' Ho H0|s key].
  - apply Hkeep. by left.
  - apply Hkeep. right. by exists o.
  - apply Hkeep. by left.
  - split; cbn.
    + intros k o [_ Hk]%lookup_delete_Some. by apply (Hr k).
    + intros k1 k2 o1 o2 [_ H1]%lookup_delete_Some [_ H2]%lookup_delete_Some. by apply Hu.
    + destruct (cl_pc s); try done; destruct Hpc as [Hid Hf]; (split; [done|]);
        intros k o [_ Hk]%lookup_delete_Some; exact (Hf _ _ Hk).
Qed.

Lemma reachable_ok s0 s : unallocated s0 -> rtc cluster_step s0 s -> alloc_ok s.
Proof.
  intros [Hpc H0] Hsteps.
  assert (Hinit : alloc_ok s0).
  { split; [intros k o Hk; left; exact (H0 k o Hk)| |by rewrite Hpc].
    intros k1 k2 o1 o2 Hk1 _ Hpos. specialize (H0 k1 o1 Hk1). cbn in H0. lia. }
  clear Hpc H0. induction Hsteps as [|s s1 s2 [Hop|Henv] _ IH]; [done|apply IH..];
    [exact (op_step_ok _ _ Hinit Hop)|exact (env_step_ok _ _ Hinit Henv)].
Qed.

(** C8: No two Local Gateways of a cluster ever share a node-global name. Whatever users
    create, edit, restore and delete between the operator's API calls, and wherever a
    pass stops, in every reachable cluster the allocated ids lie in 1..250, no two
    Gateways hold the same one, and therefore no interface, firewall mark, routing
    table or health port of one is ever one of the other's. *)
Theorem link_ids_unique s0 s k1 k2 o1 o2 :
  unallocated s0 -> rtc cluster_step s0 s ->
  cl_gateways s !! k1 = Some o1 -> cl_gateways s !! k2 = Some o2 -> k1 <> k2 ->
  0 < go_id o1 -> 0 < go_id o2 ->
  gateway_id_ok (go_id o1) /\ go_id o1 <> go_id o2 /\
  gi_HealthPort (NewGatewayIdentity (go_id o1)) <> gi_HealthPort (NewGatewayIdentity (go_id o2)) /\
  forall t1 t2, slot_ok t1 -> slot_ok t2 ->
    Interface (NewSlotIdentity (go_id o1) t1) <> Interface (NewSlotIdentity (go_id o2) t2) /\
    Mark (NewSlotIdentity (go_id o1) t1) <> Mark (NewSlotIdentity (go_id o2) t2) /\
    RouteTable (NewSlotIdentity (go_id o1) t1) <> RouteTable (NewSlotIdentity (go_id o2) t2).
Proof.
  intros H0 Hs Hk1 Hk2 Hne Hp1 Hp2. pose proof (reachable_ok _ _ H0 Hs) as [Hr Hu _].
  assert (Hid : forall k o, cl_gateways s !! k = Some o -> 0 < go_id o -> gateway_id_ok (go_id o)).
  { intros k o Hk Hp. destruct (Hr _ _ Hk); [lia|done]. }
  pose proof (Hid _ _ Hk1 Hp1) as Hi1. pose proof (Hid _ _ Hk2 Hp2) as Hi2.
  assert (Hd : go_id o1 <> go_id o2) by (intros He; exact (Hne (Hu _ _ _ _ Hk1 Hk2 Hp1 He))).
  split; [done|]. split; [done|]. split.
  - cbn. unfold gateway_id_ok, MaxLinkID in *. unfold healthPortBase.
    rewrite !wrap64_id by (unfold int64_ok; lia). lia.
  - intros t1 t2 Ht1 Ht2. repeat split; intros He;
      (destruct (slot_identity_inj _ _ _ _ Hi1 Ht1 Hi2 Ht2) as [? _]; [auto|done]).
Qed.

(** A run: two Local Gateways appear, the operator allocates to both, and the second one
    carries the first one's id in a copied annotation. *)
Definition local_gw (annotations : gmap string string) : gateway_obj := mkGatewayObj 0 true 0 annotations.

Definition run0 : cluster := mkCluster ∅ 1 Idle.
Definition run1 : cluster := write ("apps", "a") (local_gw ∅) Idle run0.
Definition run2 : cluster := at_pc (Chosen ("apps", "a") 1) run1.
Definition run3 : cluster := at_pc (ReadFresh ("apps", "a") 1 1) run2.
Definition run4 : cluster := write ("apps", "a") (mkGatewayObj 1 true 1 ∅) Idle run3.
Definition run5 : cluster := write ("apps", "b") (local_gw {[linkIDAnnotation := " 1"]}) Idle run4.
Definition run6 : cluster := at_pc (Chosen ("apps", "b") 2) run5.
Definition run7 : cluster := at_pc (ReadFresh ("apps", "b") 2 3) run6.
Definition run8 : cluster :=
  write ("apps", "b") (mkGatewayObj 3 true 2 {[linkIDAnnotation := " 1"]}) (Persist ("apps", "b") 2) run7.

Lemma run8_reachable : rtc cluster_step run0 run8.
Proof.
  apply (rtc_l _ _ run1); [right; by apply env_create|].
  apply (rtc_l _ _ run2); [left; apply (op_choose run1 ("apps", "a") (local_gw ∅)); vm_compute; done|].
  apply (rtc_l _ _ run3); [left; by apply (op_read run2 ("apps", "a") 1 (mkGatewayObj 1 true 0 ∅))|].
  apply (rtc_l _ _ run4);
    [left; by apply (op_update_lost run3 ("apps", "a") 1 1 (mkGatewayObj 1 true 0 ∅))|].
  apply (rtc_l _ _ run5); [right; by apply env_create|].
  apply (rtc_l _ _ run6);
    [left; apply (op_choose run5 ("apps", "b") (local_gw {[linkIDAnnotation := " 1"]})); vm_compute; done|].
  apply (rtc_l _ _ run7);
    [left; by apply (op_read run6 ("apps", "b") 2 (mkGatewayObj 3 true 0 {[linkIDAnnotation := " 1"]}))|].
  apply (rtc_l _ _ run8); [left|apply rtc_refl]. unfold run8.
  change (mkGatewayObj 3 true 2 ?a) with (with_id (mkGatewayObj 3 true 0 a) 2).
  by apply (op_update run7 ("apps", "b") 2 3).
Qed.

Lemma link_ids_unique_witness :
  exists o1 o2, cl_gateways run8 !! ("apps", "a") = Some o1 /\ cl_gateways run8 !! ("apps", "b") = Some o2 /\
    go_id o1 = 1 /\ go_id o2 = 2 /\
    Interface (NewSlotIdentity (go_id o1) 0) <> Interface (NewSlotIdentity (go_id o2) 0).
Proof.
  eexists _, _. split; [vm_compute; reflexivity|]. split; [vm_compute; reflexivity|].
  split; [reflexivity|]. split; [reflexivity|].
  eapply (link_ids_unique run0 run8 ("apps", "a") ("apps", "b")); try (vm_compute; done).
  exact run8_reachable.
Defined.
