(* ===== verification/Effects.v ===== *)
(** * The operator's handlers as computations over a state

    A controller handler makes API calls in order and returns at the first error. It is
    a function from the state it acts on to a state and a result; what was done before
    an error stays done. Each call may fail, and a write that fails may still have
    taken effect: that is the oracle [call_fault], one answer per call of a pass. *)

From S2P Require Import Prelude.

Definition st (S A : Type) : Type := S -> S * result string A.

Definition st_ret {S A} (a : A) : st S A := fun s => (s, Ok a).
(** A result that came without the state. *)
Definition st_lift {S A} (r : result string A) : st S A := fun s => (s, r).
Definition st_err {S A} (e : string) : st S A := fun s => (s, Err e).
Definition st_bind {S A B} (m : st S A) (k : A -> st S B) : st S B :=
  fun s => match m s with
           | (s', Ok a) => k a s'
           | (s', Err e) => (s', Err e)
           end.

Notation "'let!' x := m 'in' k" := (st_bind m (fun x => k))
  (at level 200, x name, m at level 100, k at level 200, right associativity).
Notation "m ';!' k" := (st_bind m (fun _ => k)) (at level 100, k at level 200, right associativity).

(** [None]: the call succeeds. [Some (e, took_effect)]: it reports [e]. *)
Definition call_fault : Type := option (string * bool).

(** A read, failing by its fault. *)
Definition st_read {S A} (f : call_fault) (read : S -> A) : st S A :=
  fun s => match f with
           | Some (e, _) => (s, Err e)
           | None => (s, Ok (read s))
           end.

(** A write. *)
Definition st_write {S} (f : call_fault) (w : S -> S) : st S unit :=
  fun s => match f with
           | Some (e, effect) => (if effect : bool then w s else s, Err e)
           | None => (w s, Ok tt)
           end.

Lemma st_bind_ok {S A B} (m : st S A) (k : A -> st S B) s s' b :
  st_bind m k s = (s', Ok b) <-> exists s1 a, m s = (s1, Ok a) /\ k a s1 = (s', Ok b).
Proof.
  unfold st_bind. destruct (m s) as [s1 [a|e]]; split.
  - eauto.
  - by intros (? & ? & [= <- <-] & ?).
  - done.
  - by intros (? & ? & ? & _).
Qed.

Lemma st_read_ok {S A} f (read : S -> A) s s' a :
  st_read f read s = (s', Ok a) <-> f = None /\ s' = s /\ a = read s.
Proof. unfold st_read. destruct f as [[]|]; naive_solver. Qed.

Lemma st_write_ok {S} f (w : S -> S) s s' a :
  st_write f w s = (s', Ok a) <-> f = None /\ s' = w s.
Proof. unfold st_write. destruct a, f as [[]|]; naive_solver. Qed.

(** An outcome known by its result alone. *)
Lemma outcome_eq {S A} (p : S * A) a : p.2 = a -> p = (p.1, a).
Proof. by destruct p as [? ?]; intros [= ->]. Qed.

(** A relation every step of a computation respects, whatever fails. *)
Definition st_keeps {S A} (R : S -> S -> Prop) (m : st S A) : Prop :=
  forall s s' r, m s = (s', r) -> R s s'.

Create HintDb effects.

Section Keeps.
Context {S : Type} (R : S -> S -> Prop) `{!PreOrder R}.

Lemma keeps_ret {A} (a : A) : st_keeps R (st_ret a).
Proof. intros s s' r [= <- <-]. reflexivity. Qed.

Lemma keeps_err {A} e : st_keeps R (st_err (A := A) e).
Proof. intros s s' r [= <- <-]. reflexivity. Qed.

Lemma keeps_bind {A B} (m : st S A) (k : A -> st S B) :
  st_keeps R m -> (forall a, st_keeps R (k a)) -> st_keeps R (st_bind m k).
Proof.
  intros Hm Hk s s' r. unfold st_bind. destruct (m s) as [s1 [a|e]] eqn:E.
  - intros H. transitivity s1; [exact (Hm _ _ _ E)|exact (Hk _ _ _ _ H)].
  - intros [= <- <-]. exact (Hm _ _ _ E).
Qed.

Lemma keeps_read {A} f (read : S -> A) : st_keeps R (st_read f read).
Proof. intros s s' r. unfold st_read. destruct f as [[]|]; intros [= <- <-]; reflexivity. Qed.

Lemma keeps_write f (w : S -> S) : (forall s, R s (w s)) -> st_keeps R (st_write f w).
Proof.
  intros Hw s s' r. unfold st_write. destruct f as [[e []]|]; intros [= <- <-]; [apply Hw|reflexivity|apply Hw].
Qed.
End Keeps.

#[export] Hint Resolve keeps_ret keeps_err keeps_bind keeps_read keeps_write : effects.
