(* ===== verification/ProviderCRDs.v ===== *)
(** * Fetching the provider's CRDs: tools/providercrds/main.go

    The tool reads package references out of a values file, downloads each package from
    its registry and writes the wanted CRDs. HTTP, gzip, tar, YAML, JSON and URL parsing are
    parameters; what the tool sends is recorded. Ranging over a map is an arbitrary order:
    of a mapping's fields in the values file, and of the packages to fetch.
    [crds_all_or_nothing] shows that nothing is written before everything was found and
    what a run that returns has written; [collect_order] and [prepare_order] that the
    orders do not matter; [token_stays] where the registry's token goes. *)

From S2P Require Import Prelude GoStrings GoText Kube Effects.

Definition packagePrefix : string := "xpkg.upbound.io/upbound/provider-".

Record packageRef := mkPackageRef { pr_registry : string; pr_repository : string; pr_tag : string }.
#[global] Instance packageRef_eq_dec : EqDecision packageRef.
Proof. solve_decision. Defined.

Record descriptor := mkDescriptor { de_MediaType : string; de_Digest : string; de_OS : string; de_Architecture : string }.
Record manifest := mkManifest { mf_Manifests : list descriptor; mf_Layers : list descriptor }.

(** ** References in the values file *)

(** The reference a string is, if it is one. *)
Definition ref_of (v : string) : option packageRef :=
  if negb (HasPrefix v packagePrefix) then None
  else match Cut slash v with
       | None => None
       | Some (registry, repoTag) =>
           match cut_last ":"%char repoTag with
           | None => None
           | Some (repository, tag) => Some (mkPackageRef registry repository tag)
           end
       end.

Fixpoint collectStrings (value : yaml) : list packageRef :=
  match value with
  | YString v => option_list (ref_of v)
  | YMap m => flat_map (fun kv => collectStrings kv.2) m
  | YList l => flat_map collectStrings l
  | _ => []
  end.

Definition package_key (ref : packageRef) : string := TrimPrefix (pr_repository ref) "upbound/".

Definition packages_of (refs : list packageRef) : gmap string packageRef :=
  foldl (fun m ref => <[package_key ref := ref]> m) ∅ refs.

Definition packages_from (refs : list packageRef) : result string (gmap string packageRef * string) :=
  match refs with
  | [] => Err "no provider package references found"
  | first :: _ =>
      match find (fun ref => negb (bool_decide (pr_tag ref = pr_tag first))) refs with
      | Some ref => Err ("provider package tags differ: " +:+ pr_tag first +:+ " and " +:+ pr_tag ref)
      | None => Ok (packages_of refs, pr_tag first)
      end
  end.

Definition collectPackages (ctxErr : option string) (file : result string string) (unmarshal : string -> result string yaml)
  : result string (gmap string packageRef * string) :=
  match ctxErr with
  | Some e => Err e
  | None => data <-! file ;; value <-! unmarshal data ;; packages_from (collectStrings value)
  end.

Definition packageForCRD (name : string) : result string string :=
  match Split "."%char name with
  | [_; pkg; g; m; u; i] =>
      if bool_decide (g = "gcp") && bool_decide (m = "m") && bool_decide (u = "upbound") && bool_decide (i = "io")
      then Ok ("provider-gcp-" +:+ pkg)
      else Err ("CRD " +:+ quoted name +:+ " does not have a supported GCP group")
  | _ => Err ("CRD " +:+ quoted name +:+ " does not have a supported GCP group")
  end.

(** ** Documents *)
Definition newline : ascii := "010"%char.
Definition blank (s : string) : bool := bool_decide (TrimSpace s = "").
Definition separator (line : string) : bool := bool_decide (TrimSpace line = "---").

Fixpoint split_docs (docs : list string) (current : string) (lines : list string) : list string :=
  match lines with
  | [] => if negb (blank current) then docs ++ [current] else docs
  | line :: lines =>
      if separator line then split_docs (if negb (blank current) then docs ++ [current] else docs) "" lines
      else split_docs docs (current +:+ line) lines
  end.

Definition splitDocuments (data : string) : list string := split_docs [] "" (SplitAfter newline data).

Section Tool.
(** The kind and name of a document. *)
Variable header_of : string -> result string (string * string).

Fixpoint select_docs (want : gset string) (found : gmap string string) (docs : list string) : result string (gmap string string) :=
  match docs with
  | [] => Ok found
  | doc :: docs =>
      obj <-! header_of doc ;;
      if negb (bool_decide (obj.1 = "CustomResourceDefinition")) || negb (bool_decide (obj.2 ∈ want))
      then select_docs want found docs
      else match found !! obj.2 with
           | Some _ => Err ("CRD " +:+ obj.2 +:+ " appears twice")
           | None => select_docs want (<[obj.2 := doc]> found) docs
           end
  end.

Definition selectCRDs (docs wanted : list string) : result string (gmap string string) :=
  found <-! select_docs (list_to_set wanted) ∅ docs ;;
  match find (fun name => bool_decide (found !! name = None)) wanted with
  | Some name => Err ("CRD " +:+ name +:+ " missing from package")
  | None => Ok found
  end.

(** ** The registry *)
Record http_request := mkRequest { rq_url : string; rq_accept : string; rq_token : string }.
Record response := mkResponse {
  rp_StatusCode : Z;
  rp_Status : string;
  rp_challenge : string;
  rp_body : result string string;
  rp_close : option string
}.

Variable do_request : http_request -> result string response.
Variable ctxErr : option string.
(** The realm with the service and scope added to its query. *)
Variable realm_url : string -> string -> string -> result string string.
(** The fields token and access_token of a response. *)
Variable token_of : string -> result string (string * string).
Variable parse_manifest : string -> result string manifest.
(** A gzip stream: its header, its contents, and what closing it reports. *)
Variable gunzip : string -> result string (result string string * option string).
(** An archive's entries up to its end or an error. *)
Variable untar : string -> list (string * result string string) * option string.

(** A deferred close whose error joins the result's. *)
Definition with_close {A} (close : option string) (r : result string A) : result string A :=
  match close, r with
  | None, r => r
  | Some e, Ok _ => Err ("close response body: " +:+ e)
  | Some e, Err e' => Err (e' +:+ String newline "" +:+ "close response body: " +:+ e)
  end.

(** Requests sent so far, with a result. *)
Definition net (A : Type) : Type := list http_request * result string A.
Definition send (r : http_request) : net response := ([r], do_request r).
Definition net_ret {A} (r : result string A) : net A := ([], r).
Definition net_bind {A B} (m : net A) (k : A -> net B) : net B :=
  match m.2 with
  | Ok a => (m.1 ++ (k a).1, (k a).2)
  | Err e => (m.1, Err e)
  end.
Definition net_map {A B} (f : result string A -> result string B) (m : net A) : net B := (m.1, f m.2).

Definition unauthorizedChallenge (resp : response) : result string string :=
  match ctxErr with
  | Some e => Err e
  | None => with_close (rp_close resp) (Ok (rp_challenge resp))
  end.

Definition challenge_fields (challenge : string) : gmap string string :=
  foldl (fun m part => match Cut "="%char (TrimSpace part) with
                       | Some (key, value) => <[key := Trim value (String "034"%char "")]> m
                       | None => m
                       end) ∅ (Split ","%char (TrimPrefix challenge "Bearer ")).

Definition bearerToken (challenge : string) : net string :=
  if negb (HasPrefix challenge "Bearer ") then net_ret (Err ("unsupported authentication challenge " +:+ quoted challenge))
  else
    let fields := challenge_fields challenge in
    let realm := map_get "" fields "realm" in
    if bool_decide (realm = "") then net_ret (Err "bearer challenge has no realm")
    else match realm_url realm (map_get "" fields "service") (map_get "" fields "scope") with
         | Err e => net_ret (Err e)
         | Ok u =>
             net_bind (send (mkRequest u "" "")) (fun resp => net_ret (with_close (rp_close resp) (
               if negb (rp_StatusCode resp =? 200) then Err ("GET " +:+ u +:+ ": " +:+ rp_Status resp)
               else
                 text <-! rp_body resp ;;
                 body <-! token_of text ;;
                 if negb (bool_decide (body.1 = "")) then Ok body.1
                 else if negb (bool_decide (body.2 = "")) then Ok body.2
                 else Err "bearer token response has no token")))
         end.

Definition endpoint (ref : packageRef) (suffix : string) : string :=
  "https://" +:+ pr_registry ref +:+ "/v2/" +:+ pr_repository ref +:+ "/" +:+ suffix.

(** The response a fetch settles on, with the token it then holds. *)
Definition authorized (ref : packageRef) (suffix token accept : string) : net (response * string) :=
  let url := endpoint ref suffix in
  net_bind (send (mkRequest url accept token)) (fun resp =>
    if (rp_StatusCode resp =? 401) && bool_decide (token = "") then
      net_bind (net_ret (unauthorizedChallenge resp)) (fun challenge =>
      net_bind (bearerToken challenge) (fun token =>
      net_bind (send (mkRequest url accept token)) (fun resp => net_ret (Ok (resp, token)))))
    else net_ret (Ok (resp, token))).

Definition fetch (ref : packageRef) (suffix token accept : string) : net (string * string) :=
  net_bind (authorized ref suffix token accept) (fun rt => net_ret (with_close (rp_close rt.1) (
    if negb (rp_StatusCode rt.1 =? 200) then Err ("GET " +:+ endpoint ref suffix +:+ ": " +:+ rp_Status rt.1)
    else data <-! rp_body rt.1 ;; Ok (data, rt.2)))).

Definition manifest_types : string :=
  "application/vnd.oci.image.manifest.v1+json, application/vnd.oci.image.index.v1+json, application/vnd.docker.distribution.manifest.v2+json, application/vnd.docker.distribution.manifest.list.v2+json".

Definition fetchManifest (ref : packageRef) (refName token : string) : net (manifest * string) :=
  net_bind (fetch ref ("manifests/" +:+ refName) token manifest_types) (fun dt =>
    net_ret (m <-! parse_manifest dt.1 ;; Ok (m, dt.2))).

Definition is_linux (d : descriptor) : bool :=
  bool_decide (de_OS d = "linux") && bool_decide (de_Architecture d = "amd64").

(** The package's file in an archive, if it comes before the archive's end or error. *)
Fixpoint find_package (entries : list (string * result string string)) (last : option string)
  : option (result string (list string)) :=
  match entries with
  | [] => Err <$> last
  | (name, content) :: entries =>
      if bool_decide (TrimLeft name "./" = "package.yaml")
      then Some (data <-! content ;; Ok (splitDocuments data))
      else find_package entries last
  end.

(** A gzip layer's close error goes to a variable of the loop's body and is lost. *)
Definition layer_data (mediaType data : string) : result string string :=
  if Contains mediaType "gzip" then (z <-! gunzip data ;; z.1) else Ok data.

Fixpoint fetch_layers (ref : packageRef) (token : string) (layers : list descriptor) : net (list string) :=
  match layers with
  | [] => net_ret (Err ("package " +:+ pr_repository ref +:+ " has no package.yaml"))
  | layer :: layers =>
      net_bind (fetch ref ("blobs/" +:+ de_Digest layer) token "") (fun dt =>
      net_bind (net_ret (layer_data (de_MediaType layer) dt.1)) (fun data =>
        let '(entries, last) := untar data in
        match find_package entries last with
        | Some docs => net_ret docs
        | None => fetch_layers ref dt.2 layers
        end))
  end.

Definition fetchPackage (ref : packageRef) : net (list string) :=
  net_bind (fetchManifest ref (pr_tag ref) "") (fun mt =>
    let '(m, token) := mt in
    match mf_Manifests m with
    | [] => fetch_layers ref token (mf_Layers m)
    | first :: rest =>
        let entry := default first (list_find (fun d => is_linux d = true) (first :: rest) ≫= fun x => Some x.2) in
        net_bind (fetchManifest ref (de_Digest entry) token) (fun mt => fetch_layers ref mt.2 (mf_Layers mt.1))
    end).

(** ** The run *)

(** The wanted names by package, in their order. *)
Fixpoint group_wanted (byPackage : gmap string (list string)) (wanted : list string) : result string (gmap string (list string)) :=
  match wanted with
  | [] => Ok byPackage
  | name :: wanted =>
      pkg <-! packageForCRD name ;;
      group_wanted (<[pkg := default [] (byPackage !! pkg) ++ [name]]> byPackage) wanted
  end.

Fixpoint select_packages (refs : gmap string packageRef) (byPackage : gmap string (list string)) (order : list string)
    (selected : gmap string string) : net (gmap string string) :=
  match order with
  | [] => net_ret (Ok selected)
  | pkg :: order =>
      match refs !! pkg with
      | None => net_ret (Err ("no package reference for " +:+ pkg))
      | Some ref =>
          net_bind (fetchPackage ref) (fun docs =>
          net_bind (net_ret (selectCRDs docs (default [] (byPackage !! pkg)))) (fun crds =>
          select_packages refs byPackage order (crds ∪ selected)))
      end
  end.

(** [order]: how the ranging over the packages goes, given them. *)
Definition prepare (packages : result string (gmap string packageRef * string)) (order : list string -> list string)
    (wanted : list string) : net (gmap string string * string) :=
  match packages with
  | Err e => net_ret (Err e)
  | Ok (refs, tag) =>
      match group_wanted ∅ wanted with
      | Err e => net_ret (Err e)
      | Ok byPackage =>
          net_map (fun r => sel <-! r ;; Ok (sel, tag))
            (select_packages refs byPackage (order (map_to_list byPackage).*1) ∅)
      end
  end.

Definition with_newline (doc : string) : string :=
  if HasSuffix doc (String newline "") then doc else doc +:+ String newline "".

Definition files : Type := gmap string string.

(** [os.WriteFile]: a write that fails may leave the file as it was (it was not opened) or
    truncated and written up to some byte. *)
Definition write_fault : Type := option (string * option nat).
Definition first_bytes (n : nat) (content : string) : string := of_chars (take n (chars content)).
Definition write_file (fault : string -> write_fault) (path content : string) : st files unit :=
  fun fs =>
    match fault path with
    | None => (<[path := content]> fs : gmap string string, Ok tt)
    | Some (e, None) => (fs, Err e)
    | Some (e, Some n) => (<[path := first_bytes n content]> fs, Err e)
    end.

Fixpoint write_crds (fault : string -> write_fault) (out : string) (selected : gmap string string) (wanted : list string)
  : st files unit :=
  match wanted with
  | [] => st_ret tt
  | name :: wanted =>
      write_file fault (path_Join out (name +:+ ".yaml")) (with_newline (map_get "" selected name)) ;!
      write_crds fault out selected wanted
  end.

Definition crds_run (packages : result string (gmap string packageRef * string)) (order : list string -> list string)
    (mkdir : result string unit) (fault : string -> write_fault) (out : string) (wanted : list string) : st files unit :=
  fun fs =>
    match (prepare packages order wanted).2 with
    | Err e => (fs, Err e)
    | Ok (selected, tag) =>
        match mkdir with
        | Err e => (fs, Err e)
        | Ok _ => (write_crds fault out selected wanted ;!
                   write_file fault (path_Join out "VERSION") (tag +:+ String newline "")) fs
        end
    end.
End Tool.

(** ** Proofs: references *)

(** A reference the tool accepts points at the provider packages of one registry. *)
Definition good_ref (ref : packageRef) : Prop :=
  pr_registry ref = "xpkg.upbound.io" /\ exists t, pr_repository ref = "upbound/provider-" +:+ t.

Lemma prefix_before_sep (p r tag t : list ascii) (sep : ascii) :
  p ++ t = r ++ sep :: tag -> sep ∉ p -> exists k, r = p ++ k.
Proof.
  intros H Hp. apply app_eq_inv in H as [(k & Hk & Ht)|(k & -> & _)]; [|by exists k].
  destruct k as [|c k]; [exists []; by rewrite app_nil_r, Hk, app_nil_r|]. cbn in Ht. injection Ht as <- _. set_solver.
Qed.

Lemma ref_of_good v ref : ref_of v = Some ref -> good_ref ref.
Proof.
  unfold ref_of. destruct (HasPrefix v packagePrefix) eqn:E; [|done]. apply HasPrefix_inv in E as [t ->]. cbn [negb].
  change (packagePrefix +:+ t) with ("xpkg.upbound.io" +:+ String slash ("upbound/provider-" +:+ t)).
  rewrite Cut_app by (apply (bool_decide_unpack _); vm_compute; exact I).
  destruct (cut_last _ _) as [[repo tag]|] eqn:Ec; [|done]. intros [= <-]. apply cut_last_spec in Ec as [Ec _]. split; [done|]. cbn.
  apply (f_equal chars) in Ec. rewrite !chars_app in Ec. cbn [chars] in Ec.
  destruct (prefix_before_sep (chars "upbound/provider-") (chars repo) (chars tag) (chars t) ":"%char) as [k Hk].
  - exact Ec.
  - apply (bool_decide_unpack _). vm_compute. exact I.
  - exists (of_chars k). apply chars_inj. by rewrite chars_app, chars_of_chars.
Qed.

Lemma collect_good v : Forall good_ref (collectStrings v).
Proof.
  revert v. fix IH 1. intros [s|z|b|l|m]; cbn; try constructor.
  - destruct (ref_of s) as [ref|] eqn:E; cbn; [|constructor]. repeat constructor; apply (ref_of_good _ _ E).
  - induction l as [|v l IHl]; [constructor|]. cbn. apply Forall_app. split; [apply IH|apply IHl].
  - induction m as [|[k v] m IHm]; [constructor|]. cbn. apply Forall_app. split; [apply IH|apply IHm].
Qed.

(** Among references of one tag the package name decides. *)
Lemma package_key_inj r1 r2 :
  good_ref r1 -> good_ref r2 -> pr_tag r1 = pr_tag r2 -> package_key r1 = package_key r2 -> r1 = r2.
Proof.
  destruct r1 as [g1 p1 t1], r2 as [g2 p2 t2]. intros [Hg1 [a Ha]] [Hg2 [b Hb]]. cbn in *. subst.
  unfold package_key. cbn [pr_repository].
  change ("upbound/provider-" +:+ a) with ("upbound/" +:+ ("provider-" +:+ a)).
  change ("upbound/provider-" +:+ b) with ("upbound/" +:+ ("provider-" +:+ b)).
  rewrite !TrimPrefix_app. intros -> E%string_app_inj_l. congruence.
Qed.

Lemma packages_of_snoc refs r : packages_of (refs ++ [r]) = <[package_key r := r]> (packages_of refs).
Proof. unfold packages_of. by rewrite foldl_app. Qed.

Lemma packages_of_lookup refs k ref :
  (forall r1 r2, r1 ∈ refs -> r2 ∈ refs -> package_key r1 = package_key r2 -> r1 = r2) ->
  packages_of refs !! k = Some ref <-> ref ∈ refs /\ package_key ref = k.
Proof.
  induction refs as [|r refs IH] using rev_ind; intros Hinj.
  - change (packages_of []) with (∅ : gmap string packageRef). rewrite lookup_empty. split; [done|]. intros [H _]. by apply elem_of_nil in H.
  - rewrite packages_of_snoc, lookup_insert_Some, IH by (intros; apply Hinj; set_solver). split.
    + intros [[<- <-]|[_ [H1 H2]]]; set_solver.
    + intros [[H| ->%list_elem_of_singleton]%elem_of_app Hk]; [|by left].
      destruct (decide (package_key r = k)) as [E|E]; [left|by right]. split; [done|]. apply Hinj; [set_solver..|congruence].
Qed.

Lemma find_none {A} (p : A -> bool) l : find p l = None <-> forall x, x ∈ l -> p x = false.
Proof.
  split; [intros H x Hx; apply (find_none _ _ H), list_elem_of_In, Hx|]. induction l as [|y l IH]; intros H; [done|].
  cbn. rewrite (H y) by (by left). apply IH. intros x Hx. apply H. by right.
Qed.

(** Success depends on the references as a set. *)
Lemma packages_from_ok refs m tag :
  Forall good_ref refs ->
  packages_from refs = Ok (m, tag) <->
  refs <> [] /\ (forall r, r ∈ refs -> pr_tag r = tag) /\
  (forall k ref, m !! k = Some ref <-> ref ∈ refs /\ package_key ref = k).
Proof.
  intros Hgood. destruct refs as [|r refs]; [split; [done|by intros [[] _]]|]. unfold packages_from.
  assert (Hinj : (forall r', r' ∈ r :: refs -> pr_tag r' = pr_tag r) -> forall k ref,
    packages_of (r :: refs) !! k = Some ref <-> ref ∈ r :: refs /\ package_key ref = k).
  { intros Ht k ref. apply packages_of_lookup. intros r1 r2 H1 H2. rewrite Forall_forall in Hgood.
    apply package_key_inj; [by apply Hgood..|]. by rewrite (Ht r1 H1), (Ht r2 H2). }
  destruct (find _ _) as [bad|] eqn:E.
  - split; [done|]. intros (_ & Ht & _). apply find_some in E as [Hin Hb]. apply list_elem_of_In in Hin.
    rewrite (Ht bad Hin), (Ht r) in Hb by (by left). by rewrite bool_decide_true in Hb.
  - rewrite find_none in E. assert (Htag : forall r', r' ∈ r :: refs -> pr_tag r' = pr_tag r).
    { intros r' Hr. specialize (E r' Hr). by bool_prop. }
    split.
    + intros [= <- <-]. split_and!; [done|done|by apply Hinj].
    + intros (_ & Ht & Hm). rewrite (Ht r) by (by left). do 2 f_equal. apply map_eq. intros k. apply option_eq. intros ref.
      by rewrite (Hinj Htag), Hm.
Qed.

(** *** The order of a mapping's fields *)
Fixpoint same_fields (v w : yaml) {struct v} : Prop :=
  match v, w with
  | YMap m, YMap n => exists m', n ≡ₚ m' /\
      (fix go (m m' : list (string * yaml)) : Prop :=
         match m, m' with
         | [], [] => True
         | a :: m, b :: m' => a.1 = b.1 /\ same_fields a.2 b.2 /\ go m m'
         | _, _ => False
         end) m m'
  | YList l, YList l' =>
      (fix go (l l' : list yaml) : Prop :=
         match l, l' with
         | [], [] => True
         | a :: l, b :: l' => same_fields a b /\ go l l'
         | _, _ => False
         end) l l'
  | _, _ => v = w
  end.

Lemma flat_map_perm {A B} (f : A -> list B) l k : l ≡ₚ k -> flat_map f l ≡ₚ flat_map f k.
Proof.
  induction 1 as [|x l k _ IH|x y l|l k j _ IH1 _ IH2]; cbn; [done|by rewrite IH| |by rewrite IH1].
  rewrite !app_assoc. by rewrite (Permutation_app_comm (f y) (f x)).
Qed.

Lemma collectStrings_perm v w : same_fields v w -> collectStrings v ≡ₚ collectStrings w.
Proof.
  revert v w. fix IH 1. intros [s|z|b|l|m] w; cbn; try by intros <-.
  - destruct w as [| | |l'|]; try done. revert l'. induction l as [|a l IHl]; intros [|b l']; try done.
    intros [Hab Hl]. cbn. by rewrite (IH a b Hab), (IHl l' Hl).
  - destruct w as [| | | |n]; try done. intros (m' & Hn & Hgo). cbn. rewrite (flat_map_perm _ _ _ Hn). clear Hn n.
    revert m' Hgo. induction m as [|[k a] m IHm]; intros [|[k' b] m']; try done.
    intros (_ & Hab & Hm). cbn. by rewrite (IH a b Hab), (IHm m' Hm).
Qed.

(** The order in which the values file's mappings are ranged over does not matter. *)
Lemma collect_order v w m tag :
  same_fields v w -> packages_from (collectStrings v) = Ok (m, tag) -> packages_from (collectStrings w) = Ok (m, tag).
Proof.
  intros Hs%collectStrings_perm. rewrite !packages_from_ok by apply collect_good. intros (Hne & Ht & Hm). split_and!.
  - intros E. rewrite E in Hs. by apply Permutation_nil_r in Hs.
  - intros r Hr. apply Ht. by rewrite Hs.
  - intros k ref. rewrite Hm. by rewrite Hs.
Qed.

(** ** Proofs: documents *)

Lemma split_docs_lines docs cur ls rest :
  Forall (fun l => separator l = false) ls ->
  split_docs docs cur (ls ++ rest) = split_docs docs (cur +:+ concat_text ls) rest.
Proof.
  revert cur. induction ls as [|l ls IH]; intros cur Hs; cbn.
  - f_equal. apply chars_inj. by rewrite chars_app, app_nil_r.
  - inversion_clear Hs as [|? ? H1 H2]. rewrite H1, IH by done. f_equal. apply chars_inj. by rewrite !chars_app, app_assoc.
Qed.

(** A terminated line that separates nothing. *)
Definition doc_line (l : string) : Prop :=
  separator l = false /\ exists p, l = p +:+ String newline "" /\ newline ∉ chars p.

Lemma string_app_assoc a b c : (a +:+ b) +:+ c = a +:+ (b +:+ c).
Proof. apply chars_inj. by rewrite !chars_app, app_assoc. Qed.

Lemma SplitAfter_lines ls t :
  Forall doc_line ls -> SplitAfter newline (concat_text ls +:+ t) = ls ++ SplitAfter newline t.
Proof.
  induction 1 as [|l ls [_ (p & -> & Hp)] _ IH]; [done|]. cbn [concat_text app]. rewrite !string_app_assoc. cbn [String.app].
  change (String newline "" +:+ (concat_text ls +:+ t)) with (String newline (concat_text ls +:+ t)).
  by rewrite SplitAfter_line, IH.
Qed.

(** Documents joined by separator lines, the last one unterminated by any. *)
Fixpoint join_docs (docs : list (list string)) : string :=
  match docs with
  | [] => ""
  | [d] => concat_text d
  | d :: docs => concat_text d +:+ ("---" +:+ String newline (join_docs docs))
  end.

Lemma string_app_empty_r s : s +:+ "" = s.
Proof. apply chars_inj. by rewrite chars_app, app_nil_r. Qed.

(** Splitting takes joined documents apart again. *)
Lemma splitDocuments_join docs :
  Forall (fun d => Forall doc_line d /\ blank (concat_text d) = false) docs ->
  splitDocuments (join_docs docs) = concat_text <$> docs.
Proof.
  unfold splitDocuments. intros Hd.
  enough (H : forall acc, split_docs acc "" (SplitAfter newline (join_docs docs)) = acc ++ (concat_text <$> docs)) by apply H.
  assert (Hsep : forall d, Forall doc_line d -> Forall (fun l => separator l = false) d).
  { intros d Hld. apply (Forall_impl _ _ _ Hld). by intros l []. }
  induction Hd as [|d docs [Hl Hb] _ IH]; intros acc; [by rewrite app_nil_r|]. cbn [join_docs fmap list_fmap].
  assert (Hone : split_docs acc "" (SplitAfter newline (concat_text d)) = acc ++ [concat_text d]).
  { rewrite <- (string_app_empty_r (concat_text d)) at 1. rewrite SplitAfter_lines by done.
    rewrite split_docs_lines by auto. change (SplitAfter newline "") with [""]. cbn [split_docs].
    change (separator "") with false. cbv iota. change ("" +:+ concat_text d) with (concat_text d). by rewrite string_app_empty_r, Hb. }
  destruct docs as [|d' docs]; [exact Hone|].
  rewrite SplitAfter_lines by done. rewrite split_docs_lines by auto.
  rewrite SplitAfter_line by (apply (bool_decide_unpack _); vm_compute; exact I).
  change ("" +:+ concat_text d) with (concat_text d). cbn [split_docs].
  change (separator ("---" +:+ String newline "")) with true. cbv iota. rewrite Hb. cbn [negb].
  rewrite IH, <- app_assoc. done.
Qed.

Section Select.
Context (header_of : string -> result string (string * string)).

Definition is_crd (name doc : string) : Prop := header_of doc = Ok ("CustomResourceDefinition", name).

Lemma select_docs_ok want found docs found' :
  select_docs header_of want found docs = Ok found' ->
  (forall name doc, found' !! name = Some doc ->
     found !! name = Some doc \/ (name ∈ want /\ doc ∈ docs /\ is_crd name doc)).
Proof.
  revert found. induction docs as [|d docs IH]; intros found H; cbn in H; [injection H as <-; auto|].
  apply res_bind_ok in H as ([kind nm] & Hh & H). cbn [fst snd] in H. destruct (_ || _) eqn:E.
  - intros name doc Hd. destruct (IH _ H name doc Hd) as [?|(? & ? & ?)]; [by left|right]. split_and!; [done|by right|done].
  - bool_prop. destruct (found !! nm); [done|]. intros name doc Hd.
    destruct (IH _ H name doc Hd) as [Hi|(? & ? & ?)]; [|right; split_and!; [done|by right|done]].
    apply lookup_insert_Some in Hi as [[<- <-]|[_ Hi]]; [right|by left]. split_and!; [done|by left|]. unfold is_crd. congruence.
Qed.

(** A selection holds exactly the wanted names, each with its document. *)
Lemma selectCRDs_ok docs wanted found :
  selectCRDs header_of docs wanted = Ok found ->
  (forall name, is_Some (found !! name) <-> name ∈ wanted) /\
  (forall name doc, found !! name = Some doc -> doc ∈ docs /\ is_crd name doc).
Proof.
  unfold selectCRDs. intros (f & Hf & H)%res_bind_ok. destruct (find _ _) eqn:E; [done|]. injection H as <-.
  rewrite find_none in E.
  assert (Hsel : forall name doc, f !! name = Some doc -> name ∈ wanted /\ doc ∈ docs /\ is_crd name doc).
  { intros name doc Hd. destruct (select_docs_ok _ _ _ _ Hf name doc Hd) as [Hx|(Hw & ? & ?)]; [done|].
    split_and!; [|done|done]. by apply elem_of_list_to_set in Hw. }
  split.
  - intros name. split.
    + intros [doc Hd]. by apply (Hsel _ _ Hd).
    + intros Hw. specialize (E name Hw). bool_prop. by apply not_eq_None_Some.
  - intros name doc Hd. by apply (Hsel _ _ Hd).
Qed.
End Select.

(** *** Grouping by package *)
Lemma group_wanted_ok bp wanted bp' :
  group_wanted bp wanted = Ok bp' ->
  (forall pkg n, (n ∈ default [] (bp' !! pkg)) <-> n ∈ default [] (bp !! pkg) \/ (n ∈ wanted /\ packageForCRD n = Ok pkg)) /\
  (forall n, n ∈ wanted -> exists pkg, packageForCRD n = Ok pkg /\ is_Some (bp' !! pkg)) /\
  (forall pkg, is_Some (bp !! pkg) -> is_Some (bp' !! pkg)).
Proof.
  revert bp. induction wanted as [|w wanted IH]; intros bp H; cbn in H.
  - injection H as <-. split_and!; [|intros n Hn; by apply elem_of_nil in Hn|done]. intros pkg n.
    rewrite elem_of_nil. naive_solver.
  - apply res_bind_ok in H as (pk & Hp & H). destruct (IH _ H) as (H1 & H2 & H3). split_and!.
    + intros pkg n. rewrite H1, elem_of_cons. destruct (decide (pk = pkg)) as [->|Hne].
      * rewrite lookup_insert_eq. simpl. rewrite elem_of_app, list_elem_of_singleton. naive_solver.
      * rewrite lookup_insert_ne by done. split; [naive_solver|]. intros [?|[[->|?] Hpk]]; [auto| |auto]. congruence.
    + intros n [->|Hn]%elem_of_cons; [|auto]. exists pk. split; [done|]. apply H3. rewrite lookup_insert_eq. eauto.
    + intros pkg Hs. apply H3. rewrite lookup_insert. case_decide; [eauto|done].
Qed.

(** ** Proofs: the run *)
Section Run.
Context (header_of : string -> result string (string * string)) (do_request : http_request -> result string response).
Context (ctxErr : option string) (realm_url : string -> string -> string -> result string string).
Context (token_of : string -> result string (string * string)) (parse_manifest : string -> result string manifest).
Context (gunzip : string -> result string (result string string * option string)).
Context (untar : string -> list (string * result string string) * option string).

Abbreviation fetchPackage_ := (fetchPackage do_request ctxErr realm_url token_of parse_manifest gunzip untar).
Abbreviation select_ := (select_packages header_of do_request ctxErr realm_url token_of parse_manifest gunzip untar).
Abbreviation prepare_ := (prepare header_of do_request ctxErr realm_url token_of parse_manifest gunzip untar).
Abbreviation run_ := (crds_run header_of do_request ctxErr realm_url token_of parse_manifest gunzip untar).

(** The CRDs one package contributes. *)
Definition package_crds (refs : gmap string packageRef) (bp : gmap string (list string)) (pkg : string) (crds : gmap string string)
  : Prop :=
  exists ref docs, refs !! pkg = Some ref /\ (fetchPackage_ ref).2 = Ok docs /\
    selectCRDs header_of docs (default [] (bp !! pkg)) = Ok crds.

Lemma net_bind_ok {A B} (m : net A) (k : A -> net B) b :
  (net_bind m k).2 = Ok b <-> exists a, m.2 = Ok a /\ (k a).2 = Ok b.
Proof. unfold net_bind. destruct m as [l [a|e]]; naive_solver. Qed.

Lemma select_ok refs bp order sel res :
  (select_ refs bp order sel).2 = Ok res <->
  exists cs, Forall2 (package_crds refs bp) order cs /\ res = foldl (fun s c => c ∪ s) sel cs.
Proof.
  revert sel. induction order as [|pkg order IH]; intros sel; cbn [select_packages].
  - split; [intros [= <-]; by exists []|]. intros (cs & ->%Forall2_nil_inv_l & ->). done.
  - destruct (refs !! pkg) as [ref|] eqn:Er.
    + rewrite net_bind_ok. split.
      * intros (docs & Hd & H). rewrite net_bind_ok in H. destruct H as (crds & Hc & H). apply IH in H as (cs & Hcs & ->).
        exists (crds :: cs). split; [|done]. constructor; [exists ref, docs; split_and!; [exact Er|exact Hd|exact Hc]|exact Hcs].
      * intros (cs & Hcs & ->). inversion Hcs as [|? c ? cs' (ref' & docs & Hr & Hd & Hs) Hcs' E1 E2]. subst.
        rewrite Er in Hr. injection Hr as <-. exists docs. split; [done|]. rewrite net_bind_ok. exists c. split; [exact Hs|].
        apply IH. by exists cs'.
    + split; [done|]. intros (cs & Hcs & _). inversion Hcs as [|? c ? cs' (ref' & docs & Hr & _) Hcs' E1 E2]. congruence.
Qed.

(** Which names a package contributes is fixed by the names themselves. *)
Lemma package_crds_names wanted bp refs pkg crds n doc :
  group_wanted ∅ wanted = Ok bp -> package_crds refs bp pkg crds -> crds !! n = Some doc ->
  n ∈ wanted /\ packageForCRD n = Ok pkg.
Proof.
  intros Hg (ref & docs & _ & _ & Hs) Hn. apply selectCRDs_ok in Hs as [Hdom _].
  pose proof (proj1 (Hdom n) (ex_intro _ doc Hn)) as Hin. apply group_wanted_ok in Hg as [Hg _].
  apply Hg in Hin as [Hin|Hin]; [|done]. rewrite lookup_empty in Hin. by apply elem_of_nil in Hin.
Qed.

Lemma selected_lookup wanted bp refs order cs sel n doc :
  group_wanted ∅ wanted = Ok bp -> Forall2 (package_crds refs bp) order cs -> NoDup order ->
  (forall pkg d, pkg ∈ order -> packageForCRD n = Ok pkg -> sel !! n = Some d -> False) ->
  foldl (fun s c => c ∪ s) sel cs !! n = Some doc <->
  sel !! n = Some doc \/ exists pkg c, pkg ∈ order /\ package_crds refs bp pkg c /\ c !! n = Some doc.
Proof.
  intros Hg Hcs. revert sel. induction Hcs as [|pkg c order cs Hc Hcs IH]; intros sel Hnd Hsel; cbn [foldl].
  { split; [by left|]. intros [?|(pkg & c & Hp & _)]; [done|]. by apply elem_of_nil in Hp. }
  apply NoDup_cons in Hnd as [Hpkg Hnd]. rewrite IH; [|done|].
  - rewrite lookup_union_Some_raw. split.
    + intros [[Hl|[_ Hr]]|(p & c' & Hp & Hpc & Hd)].
      * right. exists pkg, c. split; [by left|done].
      * by left.
      * right. exists p, c'. split; [by right|done].
    + intros [Hs|(p & c' & [->|Hp]%elem_of_cons & Hpc & Hd)].
      * left. right. split; [|done]. destruct (c !! n) as [d|] eqn:E; [|done]. exfalso.
        destruct (package_crds_names _ _ _ _ _ _ _ Hg Hc E) as [_ Hpn]. exact (Hsel pkg doc (list_elem_of_here _ _) Hpn Hs).
      * destruct Hc as (r1 & d1 & A1 & A2 & A3), Hpc as (r2 & d2 & B1 & B2 & B3).
        assert (c' = c) as -> by congruence. left. by left.
      * right. by exists p, c'.
  - intros p d Hp Hpn Hd. apply lookup_union_Some_raw in Hd as [Hd|[_ Hd]].
    + destruct (package_crds_names _ _ _ _ _ _ _ Hg Hc Hd) as [_ Hpn']. rewrite Hpn in Hpn'. injection Hpn' as ->. done.
    + refine (Hsel p d _ Hpn Hd). by right.
Qed.

(** What a successful preparation has found. *)
Lemma prepare_ok packages order wanted sel tag :
  (forall l, order l ≡ₚ l) -> (prepare_ packages order wanted).2 = Ok (sel, tag) ->
  exists refs bp, packages = Ok (refs, tag) /\ group_wanted ∅ wanted = Ok bp /\
    (forall pkg, is_Some (bp !! pkg) -> exists c, package_crds refs bp pkg c) /\
    forall n doc, sel !! n = Some doc <-> exists pkg c, is_Some (bp !! pkg) /\ package_crds refs bp pkg c /\ c !! n = Some doc.
Proof.
  intros Hord. unfold prepare. destruct packages as [[refs tg]|e]; [|done]. destruct (group_wanted ∅ wanted) as [bp|e] eqn:Hg; [|done].
  cbn [net_map snd]. intros (sl & Hs & [= -> ->])%res_bind_ok. apply select_ok in Hs as (cs & Hcs & ->).
  assert (Hin : forall pkg, pkg ∈ order (map_to_list bp).*1 <-> is_Some (bp !! pkg)).
  { intros pkg. rewrite Hord. rewrite list_elem_of_fmap. split.
    - intros ([k v] & -> & Hkv%elem_of_map_to_list). cbn. eauto.
    - intros [v Hv]. exists (pkg, v). split; [done|]. by apply elem_of_map_to_list. }
  exists refs, bp. split_and!; [done|done| |].
  - intros pkg Hp%Hin. apply list_elem_of_lookup_1 in Hp as [i Hi].
    destruct (Forall2_lookup_l _ _ _ _ _ Hcs Hi) as (c & _ & Hc). by exists c.
  - intros n doc. rewrite (selected_lookup wanted bp refs _ cs ∅ n doc Hg Hcs).
    + setoid_rewrite Hin. split; [|by right]. intros [H|H]; [by rewrite lookup_empty in H|done].
    + rewrite Hord. apply NoDup_fst_map_to_list.
    + intros pkg d _ _ H. by rewrite lookup_empty in H.
Qed.

Lemma Forall2_choose {A B} (P : A -> B -> Prop) l : (forall x, x ∈ l -> exists y, P x y) -> exists ys, Forall2 P l ys.
Proof.
  induction l as [|x l IH]; intros H; [exists []; constructor|].
  destruct (H x (list_elem_of_here _ _)) as [y Hy]. destruct IH as [ys Hys]; [intros; apply H; by right|].
  exists (y :: ys). by constructor.
Qed.

(** The order in which the packages are fetched does not matter. *)
Lemma prepare_order packages order order' wanted x :
  (forall l, order l ≡ₚ l) -> (forall l, order' l ≡ₚ l) ->
  (prepare_ packages order wanted).2 = Ok x -> (prepare_ packages order' wanted).2 = Ok x.
Proof.
  intros Ho Ho'. destruct x as [sel tag]. intros H.
  destruct (prepare_ok _ _ _ _ _ Ho H) as (refs & bp & -> & Hg & Hall & Hsel). clear H.
  assert (H' : exists sel', (prepare_ (Ok (refs, tag)) order' wanted).2 = Ok (sel', tag)).
  { unfold prepare. rewrite Hg. cbn [net_map snd].
    destruct (Forall2_choose (package_crds refs bp) (order' (map_to_list bp).*1)) as [cs Hcs].
    { intros pkg. rewrite Ho', list_elem_of_fmap. intros ([k v] & -> & Hkv%elem_of_map_to_list). apply Hall. cbn. eauto. }
    exists (foldl (fun s c => c ∪ s) ∅ cs). apply res_bind_ok. eexists. split; [apply select_ok; by exists cs|done]. }
  destruct H' as [sel' H']. destruct (prepare_ok _ _ _ _ _ Ho' H') as (refs' & bp' & [= <-] & Hg' & _ & Hsel').
  rewrite Hg in Hg'. injection Hg' as <-. rewrite H'. do 2 f_equal. apply map_eq. intros n. apply option_eq. intros doc.
  by rewrite Hsel, Hsel'.
Qed.

(** *** Where the token goes *)
Definition token_kept (ref : packageRef) (q : http_request) : Prop :=
  rq_token q = "" \/ exists suffix, rq_url q = endpoint ref suffix.

Lemma net_bind_sent {A B} (P : http_request -> Prop) (m : net A) (k : A -> net B) :
  Forall P m.1 -> (forall a, Forall P (k a).1) -> Forall P (net_bind m k).1.
Proof. intros Hm Hk. unfold net_bind. destruct m.2; [|done]. apply Forall_app. split; [done|apply Hk]. Qed.

Lemma fetch_sent ref suffix token accept :
  Forall (token_kept ref) (fetch do_request ctxErr realm_url token_of ref suffix token accept).1.
Proof.
  assert (Hsend : forall acc tok, Forall (token_kept ref) (send do_request (mkRequest (endpoint ref suffix) acc tok)).1).
  { intros acc tok. apply Forall_cons. split; [right; by exists suffix|constructor]. }
  unfold fetch, authorized. apply net_bind_sent; [|intros; constructor]. apply net_bind_sent; [apply Hsend|]. intros resp.
  destruct (_ && _); [|constructor]. apply net_bind_sent; [constructor|]. intros challenge.
  apply net_bind_sent; [|intros tok; apply net_bind_sent; [apply Hsend|intros; constructor]].
  unfold bearerToken. destruct (negb _); [constructor|]. cbv zeta. destruct (bool_decide _); [constructor|].
  destruct (realm_url _ _ _); [|constructor]. apply net_bind_sent; [|intros; constructor].
  apply Forall_cons. split; [by left|constructor].
Qed.

(** The registry's token is sent to that package's endpoints only, never to the realm that
    issued it or to another package. *)
Lemma token_stays ref : Forall (token_kept ref) (fetchPackage_ ref).1.
Proof.
  assert (Hman : forall name tok, Forall (token_kept ref)
    (fetchManifest do_request ctxErr realm_url token_of parse_manifest ref name tok).1).
  { intros name tok. apply net_bind_sent; [apply fetch_sent|intros; constructor]. }
  assert (Hlay : forall layers tok, Forall (token_kept ref)
    (fetch_layers do_request ctxErr realm_url token_of gunzip untar ref tok layers).1).
  { induction layers as [|layer layers IH]; intros tok; [constructor|]. cbn [fetch_layers].
    apply net_bind_sent; [apply fetch_sent|]. intros dt. apply net_bind_sent; [constructor|]. intros data.
    destruct (untar data) as [entries last]. destruct (find_package _ _); [constructor|apply IH]. }
  unfold fetchPackage. apply net_bind_sent; [apply Hman|]. intros [m tok]. destruct (mf_Manifests m); [apply Hlay|].
  apply net_bind_sent; [apply Hman|]. intros [m' tok']. apply Hlay.
Qed.

(** *** What is written *)
Section Write.
Context (fault : string -> write_fault) (out : string).
Abbreviation crd_path := (fun name => path_Join out (name +:+ ".yaml")).

Lemma crd_file_name name : slash ∉ chars name -> file_name (name +:+ ".yaml").
Proof.
  intros Hs. split_and!; [|intros H%(f_equal String.length); rewrite string_length_app in H; cbn in H; lia..].
  rewrite chars_app, not_elem_of_app. split; [done|]. apply (bool_decide_unpack _). vm_compute. exact I.
Qed.

Lemma crd_path_inj n1 n2 : slash ∉ chars n1 -> slash ∉ chars n2 -> crd_path n1 = crd_path n2 -> n1 = n2.
Proof.
  intros H1%crd_file_name H2%crd_file_name. destruct (path_Join_prefix out) as [pre Hp]. rewrite !Hp by done.
  intros E%string_app_inj_l. apply (f_equal chars) in E. rewrite !chars_app in E. apply chars_inj.
  by apply app_inv_tail in E.
Qed.

Lemma crd_path_version name : slash ∉ chars name -> crd_path name <> path_Join out "VERSION".
Proof.
  intros H%crd_file_name. destruct (path_Join_prefix out) as [pre Hp]. rewrite !Hp; [|apply (bool_decide_unpack _); vm_compute; exact I|done].
  intros E%string_app_inj_l. apply (f_equal (fun s => last (chars s))) in E. rewrite chars_app in E.
  change (chars ".yaml") with (chars ".yam" ++ ["l"%char]) in E. rewrite app_assoc, last_snoc in E. by vm_compute in E.
Qed.

(** What a write leaves: the file as it was, or a beginning of the content, all of it when
    the write succeeds; no other file changes. *)
Lemma write_file_inv path content (fs fs' : gmap string string) r :
  write_file fault path content fs = (fs', r) ->
  (fs' = fs /\ exists e, r = Err e) \/
  exists n, fs' = <[path := first_bytes n content]> fs /\ (r = Ok tt -> first_bytes n content = content).
Proof.
  unfold write_file. destruct (fault path) as [[e [n|]]|]; intros [= <- <-]; [right|left; by eauto|right].
  - by exists n.
  - exists (length (chars content)). unfold first_bytes. by rewrite take_ge, of_chars_chars by done.
Qed.

Lemma write_file_ok path content (fs fs' : gmap string string) :
  write_file fault path content fs = (fs', Ok tt) -> fs' = <[path := content]> fs.
Proof. intros [[_ [e ?]]|(n & -> & H)]%write_file_inv; [done|]. by rewrite (H eq_refl). Qed.

Lemma write_crds_ok sel wanted fs fs' :
  Forall (fun n => slash ∉ chars n) wanted -> write_crds fault out sel wanted fs = (fs', Ok tt) ->
  (forall n, n ∈ wanted -> fs' !! crd_path n = Some (with_newline (map_get "" sel n))) /\
  (forall p, (forall n, n ∈ wanted -> p <> crd_path n) -> fs' !! p = fs !! p).
Proof.
  intros Hw. revert fs. induction Hw as [|name wanted Hn Hw IH]; intros fs; cbn [write_crds].
  { intros [= <-]. split; [intros n Hin; by apply elem_of_nil in Hin|done]. }
  intros (fs1 & [] & H1 & H2)%st_bind_ok. apply write_file_ok in H1 as ->. destruct (IH _ H2) as [HA HB]. split.
  - intros n [->|Hin]%elem_of_cons; [|by apply HA]. destruct (decide (name ∈ wanted)) as [Hi|Hi]; [by apply HA|].
    rewrite HB; [apply lookup_insert_eq|]. intros n' Hn' E. apply crd_path_inj in E; [congruence|done|].
    rewrite Forall_forall in Hw. by apply Hw.
  - intros p Hp. rewrite HB by (intros n Hin; apply Hp; by right). apply lookup_insert_ne. intros E.
    exact (Hp name (list_elem_of_here _ _) (eq_sym E)).
Qed.
(** Whatever fails, a path holds what it held or a beginning of its CRD. *)
Lemma write_crds_any sel wanted fs fs' r :
  write_crds fault out sel wanted fs = (fs', r) ->
  forall p, fs' !! p = fs !! p \/ exists n k, n ∈ wanted /\ p = crd_path n /\ fs' !! p = Some (first_bytes k (with_newline (map_get "" sel n))).
Proof.
  revert fs. induction wanted as [|name wanted IH]; intros fs; cbn [write_crds]; [intros [= <- _]; by left|].
  unfold st_bind. destruct (write_file _ _ _ _) as [fs1 r1] eqn:E1.
  assert (Hstop : forall p, fs1 !! p = fs !! p \/ exists n k, n ∈ name :: wanted /\ p = crd_path n /\
    fs1 !! p = Some (first_bytes k (with_newline (map_get "" sel n)))).
  { intros p. destruct (write_file_inv _ _ _ _ _ E1) as [[-> _]|(k & -> & _)]; [by left|].
    destruct (decide (p = crd_path name)) as [->|Hne]; [right|left; apply lookup_insert_ne; congruence].
    exists name, k. split; [by left|]. split; [done|apply lookup_insert_eq]. }
  destruct r1 as [[]|e]; [|intros [= <- _]; exact Hstop].
  intros H p. destruct (IH _ H p) as [E|(n & k & Hn & Hp & E)]; [|right; exists n, k; split; [by right|done]].
  rewrite E. apply Hstop.
Qed.
End Write.

(** The document found for a name: a CRD of that name in the package the name belongs to. *)
Definition crd_found (refs : gmap string packageRef) (n doc : string) : Prop :=
  exists pkg ref docs, packageForCRD n = Ok pkg /\ refs !! pkg = Some ref /\ (fetchPackage_ ref).2 = Ok docs /\
    doc ∈ docs /\ is_crd header_of n doc.

Lemma prepare_found packages order wanted sel tag :
  (forall l, order l ≡ₚ l) -> (prepare_ packages order wanted).2 = Ok (sel, tag) ->
  exists refs, packages = Ok (refs, tag) /\
    forall n, n ∈ wanted -> exists doc, sel !! n = Some doc /\ crd_found refs n doc.
Proof.
  intros Hord H. destruct (prepare_ok _ _ _ _ _ Hord H) as (refs & bp & Hp & Hg & Hall & Hsel).
  exists refs. split; [done|]. intros n Hn. destruct (group_wanted_ok _ _ _ Hg) as (Hin & Hpk & _).
  destruct (Hpk n Hn) as (pkg & Hpn & Hbp). destruct (Hall pkg Hbp) as [c Hc]. pose proof Hc as (ref & docs & Hr & Hd & Hs).
  destruct (selectCRDs_ok _ _ _ _ Hs) as [Hdom Hdocs].
  destruct (proj2 (Hdom n)) as [doc Hdoc]; [apply Hin; by right|].
  destruct (Hdocs n doc Hdoc) as [Hdi Hcrd]. exists doc. split; [apply Hsel; by exists pkg, c|].
  by exists pkg, ref, docs.
Qed.

(** C40: A run that changes any file, or succeeds, has found every wanted CRD first: a
    document of that kind and name in the package its name points to. What changed is then
    a CRD's file, holding its document with a final newline, or VERSION, holding the one
    tag of the packages, in whole or, where the write failed midway, up to some byte;
    VERSION changes only after all the CRDs are in place in whole; and a run that succeeds
    has written all of it. *)
Theorem crds_all_or_nothing packages order mkdir fault out wanted fs fs' r :
  (forall l, order l ≡ₚ l) -> Forall (fun n => slash ∉ chars n) wanted ->
  run_ packages order mkdir fault out wanted fs = (fs', r) -> fs' <> fs \/ r = Ok tt ->
  let crd_path n := path_Join out (n +:+ ".yaml") in
  let version := path_Join out "VERSION" in
  exists refs tag (doc_of : gmap string string),
    packages = Ok (refs, tag) /\
    (forall n, n ∈ wanted -> exists doc, doc_of !! n = Some doc /\ crd_found refs n doc) /\
    (forall p, fs' !! p = fs !! p \/ exists k,
       (p = version /\ fs' !! p = Some (first_bytes k (tag +:+ String newline ""))) \/
       exists n doc, n ∈ wanted /\ p = crd_path n /\ doc_of !! n = Some doc /\
         fs' !! p = Some (first_bytes k (with_newline doc))) /\
    (r = Ok tt \/ fs' !! version <> fs !! version ->
       forall n, n ∈ wanted -> exists doc, doc_of !! n = Some doc /\ fs' !! crd_path n = Some (with_newline doc)) /\
    (r = Ok tt -> fs' !! version = Some (tag +:+ String newline "")).
Proof.
  intros Hord Hw Hrun Hch crd_path version. unfold crds_run in Hrun.
  destruct (prepare _ _ _ _ _ _ _ _ packages order wanted).2 as [[sel tag]|e] eqn:Hp; [|exfalso; injection Hrun as <- <-; naive_solver].
  destruct mkdir as [[]|e]; [|exfalso; injection Hrun as <- <-; naive_solver].
  destruct (prepare_found _ _ _ _ _ Hord Hp) as (refs & Hrefs & Hfound). exists refs, tag, sel.
  assert (Hget : forall n, n ∈ wanted -> sel !! n = Some (map_get "" sel n)).
  { intros n Hn. destruct (Hfound n Hn) as (doc & Hd & _). unfold map_get. by rewrite Hd. }
  unfold st_bind in Hrun. destruct (write_crds fault out sel wanted fs) as [fs1 r1] eqn:E1.
  assert (Hany : forall p, fs1 !! p = fs !! p \/ exists k n doc, n ∈ wanted /\ p = crd_path n /\
     sel !! n = Some doc /\ fs1 !! p = Some (first_bytes k (with_newline doc))).
  { intros p. destruct (write_crds_any _ _ _ _ _ _ _ E1 p) as [?|(n & k & Hn & -> & Hc)]; [by left|right].
    exists k, n, (map_get "" sel n). split_and!; [done|done|by apply Hget|done]. }
  assert (Hver : forall n, n ∈ wanted -> crd_path n <> version).
  { intros n Hn. rewrite Forall_forall in Hw. by apply crd_path_version, Hw. }
  destruct r1 as [[]|e].
  - destruct (write_crds_ok _ _ _ _ _ _ Hw E1) as [Hall _].
    unfold files in *.
    assert (Hcrd : forall n, n ∈ wanted -> exists doc, sel !! n = Some doc /\ fs' !! crd_path n = Some (with_newline doc)).
    { intros n Hn. exists (map_get "" sel n). split; [by apply Hget|].
      destruct (write_file_inv _ _ _ _ _ _ Hrun) as [[-> _]|(k & -> & _)]; [by apply Hall|].
      rewrite lookup_insert_ne by (apply not_eq_sym, Hver, Hn). by apply Hall. }
    split_and!; [done|done| |done|].
    + intros p. destruct (write_file_inv _ _ _ _ _ _ Hrun) as [[-> _]|(k & -> & _)];
        [destruct (Hany p) as [?|(k & ?)]; eauto|]. destruct (decide (p = version)) as [->|Hne].
      * right. exists k. left. split; [done|apply lookup_insert_eq].
      * rewrite lookup_insert_ne by (by apply not_eq_sym). destruct (Hany p) as [?|(k' & ?)]; eauto.
    + intros ->. apply write_file_ok in Hrun as ->. apply lookup_insert_eq.
  - injection Hrun as <- <-. split_and!; [done|done|intros p; destruct (Hany p) as [?|(k & ?)]; eauto| |done].
    intros [?|Hv]; [done|]. exfalso.
    destruct (Hany version) as [?|(k & n & doc & Hn & Hx & _)]; [done|]. by apply (Hver n Hn).
Qed.
End Run.

(** ** A concrete run *)
Module CrdsExample.
Definition name : string := "addresses.compute.gcp.m.upbound.io".
Definition ref : packageRef := mkPackageRef "xpkg.upbound.io" "upbound/provider-gcp-compute" "v1".
Definition header_of (doc : string) : result string (string * string) := Ok ("CustomResourceDefinition", doc).
Definition do_request (q : http_request) : result string response :=
  Ok (if bool_decide (rq_token q = "") && HasPrefix (rq_url q) "https://xpkg."
      then mkResponse 401 "401 Unauthorized" ("Bearer realm=" +:+ quoted "auth") (Ok "") None
      else mkResponse 200 "200 OK" "" (Ok (rq_url q)) None).
Definition parse_manifest (text : string) : result string manifest :=
  Ok (mkManifest [] [mkDescriptor "tar+gzip" "sha" "" ""]).
Definition gunzip (data : string) : result string (result string string * option string) := Ok (Ok data, None).
Definition untar (data : string) : list (string * result string string) * option string := ([("./package.yaml", Ok name)], None).
Definition sample_run : st files unit :=
  crds_run header_of do_request None (fun realm _ _ => Ok realm) (fun text => Ok (text, "")) parse_manifest gunzip untar
    (Ok ({[ "provider-gcp-compute" := ref ]}, "v1")) (fun l => l) (Ok tt) (fun _ => None) "crds" [name].

Lemma crds_all_or_nothing_witness :
  exists fs', sample_run ∅ = (fs', Ok tt) /\
    fs' !! path_Join "crds" "VERSION" = Some ("v1" +:+ String newline "") /\
    exists doc, fs' !! path_Join "crds" (name +:+ ".yaml") = Some (with_newline doc).
Proof.
  assert (H : sample_run ∅ = ((sample_run ∅).1, Ok tt)) by (apply outcome_eq; vm_compute; reflexivity).
  assert (Hw : Forall (fun n => slash ∉ chars n) [name]) by (apply (bool_decide_unpack _); vm_compute; exact I).
  exists (sample_run ∅).1. split; [exact H|].
  destruct (crds_all_or_nothing header_of do_request None (fun realm _ _ => Ok realm) (fun text => Ok (text, ""))
    parse_manifest gunzip untar _ _ _ _ _ [name] _ _ _ (fun l => reflexivity l)
    Hw H (or_intror eq_refl))
    as (refs & tag & doc_of & Hp & _ & _ & Hall & Hv).
  injection Hp as <- <-. split; [exact (Hv eq_refl)|].
  destruct (Hall (or_introl eq_refl) name (list_elem_of_here _ _)) as (doc & _ & Hd). exists doc. exact Hd.
Defined.
End CrdsExample.

(** ** Two losses *)

(** What closing a gzip reader reports never reaches the caller. *)
Lemma gzip_close_lost do_request ctxErr realm_url token_of parse_manifest gunzip gunzip' untar ref :
  (forall data, (fst <$> match gunzip data with Ok z => Some z | Err _ => None end) =
                (fst <$> match gunzip' data with Ok z => Some z | Err _ => None end)) ->
  (forall data e, gunzip data = Err e <-> gunzip' data = Err e) ->
  fetchPackage do_request ctxErr realm_url token_of parse_manifest gunzip untar ref =
  fetchPackage do_request ctxErr realm_url token_of parse_manifest gunzip' untar ref.
Proof.
  intros Hok Herr.
  assert (Hl : forall mt data, layer_data gunzip mt data = layer_data gunzip' mt data).
  { intros mt data. unfold layer_data. destruct (Contains _ _); [|done]. specialize (Hok data). pose proof (Herr data) as He.
    destruct (gunzip data) as [z|e], (gunzip' data) as [z'|e']; cbn in *; [congruence|done|done|].
    by injection (proj1 (He e) eq_refl) as ->. }
  assert (Hf : forall layers tok, fetch_layers do_request ctxErr realm_url token_of gunzip untar ref tok layers =
    fetch_layers do_request ctxErr realm_url token_of gunzip' untar ref tok layers).
  { induction layers as [|layer layers IH]; intros tok; [done|]. cbn [fetch_layers]. unfold net_bind. destruct (_.2); [|done].
    rewrite Hl. destruct (net_ret _).2; [|done]. destruct (untar _) as [entries last]. destruct (find_package _ _); [done|].
    by rewrite IH. }
  unfold fetchPackage, net_bind. destruct (_.2) as [[m tok]|]; [|done]. destruct (mf_Manifests m); [by rewrite Hf|].
  destruct (_.2); [|done]. by rewrite Hf.
Qed.

(** A quoted value is cut at its comma: the scope asked for is not the scope challenged. *)
Lemma challenge_cut_at_comma :
  challenge_fields ("Bearer realm=" +:+ quoted "r" +:+ ",scope=" +:+ quoted "repository:a:pull,push") !! "scope"
  = Some "repository:a:pull".
Proof. vm_compute. reflexivity. Qed.
