(* ===== verification/Warnings.v ===== *)
(** * Warning events and their suppression

    The operator warns about states that persist over many passes: unresolved backend
    ports (forwards.go), a reserved health port, invalid or insufficient tunnel
    addresses (link.go), blocked member cleanups (members.go) and missing responders
    (responder.go). One map, shared by all of them and by all Gateways, holds the last
    warned signature per kind and Gateway, so that an event is emitted only when the
    state changed. *)

From S2P Require Import Prelude GoStrings Discovery Members Forwards.

Definition reasonUnresolvedBackendPort : string := "UnresolvedBackendPort".
Definition reasonReservedHealthPort : string := "ReservedHealthPort".
Definition reasonMemberCleanupBlocked : string := "MemberCleanupBlocked".
Definition reasonNoResponderOnNode : string := "NoResponderOnNode".
Definition reasonNoResponderRunning : string := "NoResponderRunning".

Definition blockedCleanupWarnKeyPrefix : string := "member-cleanup/".
Definition invalidTunnelWarnKeyPrefix : string := "tunnel/".
Definition capacityWarnKeyPrefix : string := "capacity/".
Definition reservedHealthPortWarnKeyPrefix : string := "health-port/".
Definition responderMissingWarnKeyPrefix : string := "responder-missing/".

Record gateway_id := mkGatewayId { gid_Namespace : string; gid_Name : string; gid_UID : string }.

#[global] Instance gateway_id_eq_dec : EqDecision gateway_id.
Proof. solve_decision. Defined.

Definition unresolvedWarnKey (g : gateway_id) : string :=
  gid_Namespace g +:+ "/" +:+ gid_Name g +:+ "/" +:+ gid_UID g.

(** [unresolvedWarned], a sync.Map. *)
Definition warned : Type := gmap string string.

Record event := mkEvent { ev_Reason : string; ev_Message : string }.

(** The shared pattern: [None] clears the entry, [Some (signature, events)] emits the
    events unless that signature was the last one warned. *)
Definition warn_gate (key : string) (input : option (string * list event)) (m : warned)
  : warned * list event :=
  match input with
  | None => (delete key m, [])
  | Some (signature, events) =>
      if decide (m !! key = Some signature) then (m, []) else (<[key := signature]> m, events)
  end.

(** A [*GatewayReconciler] without a Recorder neither warns nor records. *)
Definition with_recorder (recorder : bool) (f : warned -> warned * list event) (m : warned)
  : warned * list event := if recorder then f m else (m, []).

(** ** The helpers *)
Record unresolvedBackend := mkUnresolvedBackend {
  ub_service : string;
  ub_namespace : string;
  ub_targetPort : string;
  ub_protocol : string
}.

(** fmt's %v of a slice of structs. *)
Definition fmt_struct (fields : list string) : string := "{" +:+ Join fields " " +:+ "}".
Definition fmt_slice {A} (f : A -> list string) (l : list A) : string :=
  "[" +:+ Join (fmt_struct ∘ f <$> l) " " +:+ "]".

Section Helpers.
Variable recorder : bool.
Variable gw : gateway_id.

Definition warnUnresolvedBackendPorts (unresolved : list unresolvedBackend) : warned -> warned * list event :=
  with_recorder recorder (warn_gate (unresolvedWarnKey gw)
    (match unresolved with
     | [] => None
     | _ => Some (fmt_slice (fun u => [ub_service u; ub_namespace u; ub_targetPort u; ub_protocol u]) unresolved,
       (fun u => mkEvent reasonUnresolvedBackendPort
          ("forward backend Service " +:+ quoted (ub_service u) +:+ " in namespace " +:+
           quoted (ub_namespace u) +:+ " names its targetPort " +:+ quoted (ub_targetPort u) +:+
           ": the link's egress policy allows every " +:+ ub_protocol u +:+
           " port to the backend rather than that one")) <$> unresolved)
     end)).

Definition warnReservedHealthPort (rejected : list ForwardSpec) : warned -> warned * list event :=
  with_recorder recorder (warn_gate (reservedHealthPortWarnKeyPrefix +:+ unresolvedWarnKey gw)
    (match rejected with
     | [] => None
     | _ => Some (fmt_slice (fun f => [Itoa (f_Port f); f_Protocol f; f_Service f; f_Namespace f;
                                       Itoa (f_TargetPort f)]) rejected,
         (fun f => mkEvent reasonReservedHealthPort
            ("forward " +:+ ToLower (f_Protocol f) +:+ " port " +:+ Itoa (f_Port f) +:+ " to Service " +:+
             quoted (f_Service f) +:+ " collides with this gateway's own health port")) <$> rejected)
     end)).

(** These two are cleared by the reconcile itself once the state has passed. *)
Definition warnInvalidTunnelAddresses (reason : string) : warned -> warned * list event :=
  with_recorder recorder (warn_gate (invalidTunnelWarnKeyPrefix +:+ unresolvedWarnKey gw)
    (Some (reason, [mkEvent "InvalidTunnelAddresses" reason]))).

Definition warnInsufficientTunnelAddresses (message : string) : warned -> warned * list event :=
  with_recorder recorder (warn_gate (capacityWarnKeyPrefix +:+ unresolvedWarnKey gw)
    (Some (message, [mkEvent "InsufficientTunnelAddresses" message]))).

Definition clear_tunnel_warning (m : warned) : warned :=
  delete (invalidTunnelWarnKeyPrefix +:+ unresolvedWarnKey gw) m.
Definition clear_capacity_warning (m : warned) : warned :=
  delete (capacityWarnKeyPrefix +:+ unresolvedWarnKey gw) m.

Definition blockedCleanupSignature (blocked : list MemberStatus) : string :=
  Join ((fun m => ms_Name m +:+ "=" +:+ ms_Message m) <$> blocked) ",".

Definition warnBlockedMemberCleanup (blocked : list MemberStatus) : warned -> warned * list event :=
  with_recorder recorder (warn_gate (blockedCleanupWarnKeyPrefix +:+ unresolvedWarnKey gw)
    (match blocked with
     | [] => None
     | _ => Some (blockedCleanupSignature blocked,
         (fun m => mkEvent reasonMemberCleanupBlocked
            ("member " +:+ quoted (ms_Name m) +:+ " has departed but its cleanup cannot complete: " +:+
             ms_Message m)) <$> blocked)
     end)).

Definition dropWarnSuppression (m : warned) : warned :=
  let key := unresolvedWarnKey gw in
  foldl (fun m k => delete k m) m
    [key; blockedCleanupWarnKeyPrefix +:+ key; invalidTunnelWarnKeyPrefix +:+ key;
     capacityWarnKeyPrefix +:+ key; reservedHealthPortWarnKeyPrefix +:+ key;
     responderMissingWarnKeyPrefix +:+ key].
End Helpers.

#[global] Instance MemberState_eq_dec : EqDecision MemberState.
Proof. solve_decision. Defined.

(** [blockedMemberCleanups] of members.go: departed members whose release is blocked. *)
Definition blockedMemberCleanups (result : option Result) : list MemberStatus :=
  match result with
  | None => []
  | Some r => filter (fun m => ms_State m = MemberDeparted /\ ms_Message m <> "") (res_Members r)
  end.

(** ** Proofs *)

(** The six kinds of entry in the shared map. *)
Inductive warn_kind := WUnresolved | WHealthPort | WTunnel | WCapacity | WCleanup | WResponder.

#[global] Instance warn_kind_eq_dec : EqDecision warn_kind.
Proof. solve_decision. Defined.

Definition warn_key (k : warn_kind) (g : gateway_id) : string :=
  match k with
  | WUnresolved => unresolvedWarnKey g
  | WHealthPort => reservedHealthPortWarnKeyPrefix +:+ unresolvedWarnKey g
  | WTunnel => invalidTunnelWarnKeyPrefix +:+ unresolvedWarnKey g
  | WCapacity => capacityWarnKeyPrefix +:+ unresolvedWarnKey g
  | WCleanup => blockedCleanupWarnKeyPrefix +:+ unresolvedWarnKey g
  | WResponder => responderMissingWarnKeyPrefix +:+ unresolvedWarnKey g
  end.

(** Kubernetes names and UIDs contain no slash. *)
Definition slash_free (g : gateway_id) : Prop :=
  "/"%char ∉ chars (gid_Namespace g) /\ "/"%char ∉ chars (gid_Name g) /\ "/"%char ∉ chars (gid_UID g).

Definition slashes (s : string) : nat := length (filter (fun c => c = "/"%char) (chars s)).

Lemma slashes_app s t : slashes (s +:+ t) = (slashes s + slashes t)%nat.
Proof. unfold slashes. by rewrite chars_app, filter_app, length_app. Qed.

Lemma slashes_free s : "/"%char ∉ chars s -> slashes s = 0%nat.
Proof.
  unfold slashes. intros Hs. induction (chars s) as [|c l IH]; [done|].
  rewrite filter_cons_False by set_solver. apply IH. set_solver.
Qed.

Lemma sep_inj a1 b1 a2 b2 :
  "/"%char ∉ chars a1 -> "/"%char ∉ chars a2 -> a1 +:+ "/" +:+ b1 = a2 +:+ "/" +:+ b2 ->
  a1 = a2 /\ b1 = b2.
Proof.
  intros H1 H2 Heq. pose proof (Cut_app "/"%char a1 b1 H1) as E1.
  pose proof (Cut_app "/"%char a2 b2 H2) as E2.
  change (String "/" b1) with ("/" +:+ b1) in E1. change (String "/" b2) with ("/" +:+ b2) in E2.
  rewrite Heq, E2 in E1. by injection E1 as <- <-.
Qed.

Lemma unresolvedWarnKey_inj g1 g2 :
  slash_free g1 -> slash_free g2 -> unresolvedWarnKey g1 = unresolvedWarnKey g2 -> g1 = g2.
Proof.
  destruct g1, g2. unfold slash_free, unresolvedWarnKey. cbn.
  intros (? & ? & _) (? & ? & _) [-> Hrest]%sep_inj; [|done..]. apply sep_inj in Hrest as [-> ->]; done.
Qed.

Lemma unresolvedWarnKey_slashes g : slash_free g -> slashes (unresolvedWarnKey g) = 2%nat.
Proof.
  intros (H1 & H2 & H3). unfold unresolvedWarnKey.
  by rewrite !slashes_app, (slashes_free (gid_Namespace g)), (slashes_free (gid_Name g)),
    (slashes_free (gid_UID g)) by done.
Qed.

Definition kind_stem (k : warn_kind) : string :=
  match k with
  | WUnresolved => ""
  | WHealthPort => "health-port"
  | WTunnel => "tunnel"
  | WCapacity => "capacity"
  | WCleanup => "member-cleanup"
  | WResponder => "responder-missing"
  end.

Lemma warn_key_stem k g :
  k <> WUnresolved -> warn_key k g = kind_stem k +:+ "/" +:+ unresolvedWarnKey g.
Proof. by destruct k. Qed.

Lemma kind_stem_plain k : "/"%char ∉ chars (kind_stem k).
Proof. destruct k; cbn; set_solver. Qed.

Lemma warn_key_slashes k g :
  slash_free g -> slashes (warn_key k g) = if decide (k = WUnresolved) then 2%nat else 3%nat.
Proof.
  intros Hg. pose proof (unresolvedWarnKey_slashes g Hg) as E. case_decide as Hk; [by subst|].
  by rewrite warn_key_stem, !slashes_app, E, (slashes_free (kind_stem k)) by (done || apply kind_stem_plain).
Qed.

(** Entries of different kinds or Gateways never meet in the shared map. *)
Lemma warn_key_inj k1 g1 k2 g2 :
  slash_free g1 -> slash_free g2 -> warn_key k1 g1 = warn_key k2 g2 -> k1 = k2 /\ g1 = g2.
Proof.
  intros H1 H2 Heq. pose proof (f_equal slashes Heq) as Hs. rewrite !warn_key_slashes in Hs by done.
  destruct (decide (k1 = WUnresolved)) as [->|N1], (decide (k2 = WUnresolved)) as [->|N2]; try done.
  - split; [done|]. by apply unresolvedWarnKey_inj.
  - rewrite !warn_key_stem in Heq by done. apply sep_inj in Heq as [Hk Hg]; [|apply kind_stem_plain..].
    split; [by destruct k1, k2|by apply unresolvedWarnKey_inj].
Qed.

(** One call of a helper: its kind, its Gateway and what it found. *)
Record warn_call := mkWarnCall {
  wc_kind : warn_kind;
  wc_gateway : gateway_id;
  wc_input : option (string * list event)
}.

Definition run_call (m : warned) (c : warn_call) : warned :=
  (warn_gate (warn_key (wc_kind c) (wc_gateway c)) (wc_input c) m).1.

Definition same_entry (c d : warn_call) : Prop :=
  wc_kind d = wc_kind c /\ wc_gateway d = wc_gateway c.

#[global] Instance same_entry_dec c d : Decision (same_entry c d).
Proof. unfold same_entry. apply _. Defined.

(** The entry of a call after a history is the signature its last like call found. *)
Lemma entry_after calls c :
  Forall (fun d => slash_free (wc_gateway d)) calls -> slash_free (wc_gateway c) ->
  foldl run_call ∅ calls !! warn_key (wc_kind c) (wc_gateway c) =
    (d ← last (filter (same_entry c) calls); fst <$> wc_input d).
Proof.
  intros Hall Hc. induction calls as [|d calls IH] using rev_ind; [done|].
  apply Forall_app in Hall as [Hall Hd]. apply Forall_cons in Hd as [Hd _].
  rewrite foldl_app, filter_app. cbn [foldl]. rewrite filter_cons, filter_nil.
  specialize (IH Hall). unfold run_call at 1, warn_gate. case_decide as Hs.
  - rewrite last_snoc. cbn [mbind option_bind]. destruct Hs as [-> ->].
    destruct (wc_input d) as [[sig evs]|]; cbn; [|apply lookup_delete_eq].
    case_decide as Hm; [exact Hm|]. apply lookup_insert_eq.
  - rewrite app_nil_r, <- IH.
    assert (Hne : warn_key (wc_kind d) (wc_gateway d) <> warn_key (wc_kind c) (wc_gateway c)).
    { intros [? ?]%warn_key_inj; [|done..]. by apply Hs. }
    destruct (wc_input d) as [[sig evs]|]; cbn; [|by apply lookup_delete_ne].
    case_decide; [done|]. by apply lookup_insert_ne.
Qed.

(** Warnings are edge-triggered, per kind and per Gateway. After any history of calls
    of the six helpers for any Gateways, a call emits its events exactly when the last
    call of the same kind for the same Gateway found something else or nothing: the
    shared map never mixes two kinds or two Gateways, a steady state warns once, and a
    state that went away warns again. *)
Theorem warnings_edge_triggered calls c :
  Forall (fun d => slash_free (wc_gateway d)) calls -> slash_free (wc_gateway c) ->
  (warn_gate (warn_key (wc_kind c) (wc_gateway c)) (wc_input c) (foldl run_call ∅ calls)).2 =
    match wc_input c with
    | None => []
    | Some (signature, events) =>
        if decide ((d ← last (filter (same_entry c) calls); fst <$> wc_input d) = Some signature)
        then [] else events
    end.
Proof.
  intros Hall Hc. unfold warn_gate. rewrite entry_after by done.
  destruct (wc_input c) as [[sig evs]|]; [|done]. by case_decide.
Qed.

(** Deleting a Gateway forgets its own entries and no other's. *)
Lemma dropWarnSuppression_spec g m k g' :
  slash_free g -> slash_free g' ->
  dropWarnSuppression g m !! warn_key k g' = if decide (g = g') then None else m !! warn_key k g'.
Proof.
  intros Hg Hg'. unfold warned in *.
  change (dropWarnSuppression g m) with (foldl (fun m k => delete k m) m
    ((fun k => warn_key k g) <$> [WUnresolved; WCleanup; WTunnel; WCapacity; WHealthPort; WResponder])).
  assert (Hfold : forall l (m : gmap string string), foldl (fun m k => delete k m) m ((fun k => warn_key k g) <$> l)
      !! warn_key k g' = if decide (g = g' /\ k ∈ l) then None else m !! warn_key k g').
  { induction l as [|j l IH]; intros m0; [rewrite decide_False by set_solver; done|].
    cbn. rewrite IH. destruct (decide (warn_key j g = warn_key k g')) as [E|E].
    - rewrite E, lookup_delete_eq. apply warn_key_inj in E as [-> ->]; [|done..].
      rewrite (decide_True (P := g' = g' /\ k ∈ k :: l)) by set_solver. by case_decide.
    - rewrite lookup_delete_ne by done.
      destruct (decide (g = g' /\ k ∈ l)) as [[-> ?]|N]; [by rewrite decide_True by set_solver|].
      rewrite decide_False; [done|]. intros [-> [->|?]%elem_of_cons]; [by apply E|by apply N]. }
  rewrite Hfold. destruct (decide (g = g')) as [->|N]; [|by rewrite decide_False by tauto].
  rewrite decide_True; [done|]. split; [done|]. destruct k; set_solver.
Qed.

Definition sample_gid : gateway_id := mkGatewayId "apps" "edge" "u1".
Definition tunnel_call (g : gateway_id) (reason : option string) : warn_call :=
  mkWarnCall WTunnel g ((fun r => (r, [mkEvent "InvalidTunnelAddresses" r])) <$> reason).

Lemma warnings_edge_triggered_witness :
  let again := tunnel_call sample_gid (Some "bad subnet") in
  let m := foldl run_call ∅ [again; tunnel_call (mkGatewayId "apps" "other" "u2") (Some "bad subnet");
             tunnel_call sample_gid None] in
  (warn_gate (warn_key WTunnel sample_gid) (wc_input again) m).2 =
    [mkEvent "InvalidTunnelAddresses" "bad subnet"].
Proof.
  intros again m.
  exact (warnings_edge_triggered
    [again; tunnel_call (mkGatewayId "apps" "other" "u2") (Some "bad subnet");
     tunnel_call sample_gid None] again
    ltac:(repeat constructor; cbn; set_solver) ltac:(repeat split; cbn; set_solver)).
Defined.
