(* ===== verification/Deletion.v ===== *)
(** * Deleting a Gateway: reconcileDelete, releaseAfterSharedNetwork and
      releaseFinalizer of internal/controller/gateway_controller.go

    A finalizer holds a Gateway's deletion until Crossplane has drained its cloud
    resources, the shared network is gone if this was the last Gateway, and the link's
    pods have exited, so that no live elector re-creates the Lease that nothing else
    reaps. One pass of the controller is a computation over the objects it reads and
    deletes; every API call may fail. *)

From S2P Require Import Prelude GoStrings Effects Warnings.

Definition gatewayFinalizer : string := "wgnet.dev/gateway-teardown".
Definition conditionReady : string := "Ready".
Definition reasonTerminating : string := "Terminating".
Definition validationRequeueAfter : Z := 10 * second.
Definition linkTeardownRequeueAfter : Z := 2 * second.
Definition linkTeardownSlack : Z := 30 * second.
Definition DefaultTerminationGracePeriodSeconds : Z := 30.

(** ** Link pods *)
Record linkPod := mkLinkPod {
  lp_Name : string;
  lp_DeletionTimestamp : option Z;
  lp_GraceSeconds : option Z
}.

(** Not deleted, or deleted no longer ago than its grace period and the slack. *)
Definition pod_holding (now : Z) (p : linkPod) : bool :=
  match lp_DeletionTimestamp p with
  | None => true
  | Some deletedAt =>
      let grace := default DefaultTerminationGracePeriodSeconds (lp_GraceSeconds p) in
      time_sub now deletedAt <=? wrap64 (wrap64 (grace * second) + linkTeardownSlack)
  end.

Definition partitionTerminatingLinkPods (now : Z) (pods : list linkPod) : list string * list string :=
  (merge_sort String.le (lp_Name <$> filter (fun p => pod_holding now p = true) pods),
   merge_sort String.le (lp_Name <$> filter (fun p => pod_holding now p = false) pods)).

(** ** The state of a deletion *)
Record Condition := mkCondition {
  cond_Type : string;
  cond_Status : bool;
  cond_Reason : string;
  cond_Message : string;
  cond_ObservedGeneration : Z
}.

(** The Gateway's finalizers and conditions; the composite and the shared network,
    [Some true] once marked for deletion; the deletion marks of all Gateways; the link
    objects; and the operator's own memory of warnings and address refreshes. *)
Record dstate := mkDState {
  ds_finalizers : list string;
  ds_conditions : list Condition;
  ds_composite : option bool;
  ds_network : option bool;
  ds_gateways : list bool;
  ds_deployment : bool;
  ds_daemonset : bool;
  ds_pods : list linkPod;
  ds_lease : bool;
  ds_crb : bool;
  ds_warned : gmap string string;
  ds_refreshed : gmap string Z
}.

Inductive dcall :=
| GetComposite | DeleteComposite | UpdateStatus | ListGateways | GetNetwork | DeleteNetwork
| DeleteWorkload | ListPods | DeleteLease | DeleteClusterRoleBinding | UpdateGateway.

Definition set_conditions (cs : list Condition) (s : dstate) : dstate :=
  mkDState (ds_finalizers s) cs (ds_composite s) (ds_network s) (ds_gateways s) (ds_deployment s)
    (ds_daemonset s) (ds_pods s) (ds_lease s) (ds_crb s) (ds_warned s) (ds_refreshed s).
Definition mark_composite (s : dstate) : dstate :=
  mkDState (ds_finalizers s) (ds_conditions s) ((fun _ => true) <$> ds_composite s) (ds_network s) (ds_gateways s)
    (ds_deployment s) (ds_daemonset s) (ds_pods s) (ds_lease s) (ds_crb s) (ds_warned s) (ds_refreshed s).
Definition mark_network (s : dstate) : dstate :=
  mkDState (ds_finalizers s) (ds_conditions s) (ds_composite s) ((fun _ => true) <$> ds_network s) (ds_gateways s)
    (ds_deployment s) (ds_daemonset s) (ds_pods s) (ds_lease s) (ds_crb s) (ds_warned s) (ds_refreshed s).
Definition drop_workload (local : bool) (s : dstate) : dstate :=
  mkDState (ds_finalizers s) (ds_conditions s) (ds_composite s) (ds_network s) (ds_gateways s)
    (if local then ds_deployment s else false) (if local then false else ds_daemonset s)
    (ds_pods s) (ds_lease s) (ds_crb s) (ds_warned s) (ds_refreshed s).
Definition drop_lease (s : dstate) : dstate :=
  mkDState (ds_finalizers s) (ds_conditions s) (ds_composite s) (ds_network s) (ds_gateways s)
    (ds_deployment s) (ds_daemonset s) (ds_pods s) false (ds_crb s) (ds_warned s) (ds_refreshed s).
Definition drop_crb (s : dstate) : dstate :=
  mkDState (ds_finalizers s) (ds_conditions s) (ds_composite s) (ds_network s) (ds_gateways s)
    (ds_deployment s) (ds_daemonset s) (ds_pods s) (ds_lease s) false (ds_warned s) (ds_refreshed s).
Definition drop_finalizer (s : dstate) : dstate :=
  mkDState (filter (fun f => f <> gatewayFinalizer) (ds_finalizers s)) (ds_conditions s) (ds_composite s)
    (ds_network s) (ds_gateways s) (ds_deployment s) (ds_daemonset s) (ds_pods s) (ds_lease s) (ds_crb s)
    (ds_warned s) (ds_refreshed s).
Definition set_memory (warned : gmap string string) (refreshed : gmap string Z) (s : dstate) : dstate :=
  mkDState (ds_finalizers s) (ds_conditions s) (ds_composite s) (ds_network s) (ds_gateways s)
    (ds_deployment s) (ds_daemonset s) (ds_pods s) (ds_lease s) (ds_crb s) warned refreshed.

Definition gatewayRefreshKey (gw : gateway_id) : string := gid_Namespace gw +:+ "/" +:+ gid_Name gw.

(** ** One pass *)
Section Pass.
(** Which calls of the pass fail. *)
Variable fault : dcall -> call_fault.
(** apimachinery's SetStatusCondition: the new list and whether it changed. *)
Variable SetStatusCondition : list Condition -> Condition -> list Condition * bool.
Variable now : Z.
Variables (gw : gateway_id) (local : bool) (generation : Z).
(** The composite as the cached client shows it; the other reads are uncached. *)
Variable seen_composite : option bool.

(** Set the Ready condition and write the status if that changed anything. *)
Definition write_terminating (message : string) : st dstate unit :=
  fun s =>
    let '(cs, changed) := SetStatusCondition (ds_conditions s)
      (mkCondition conditionReady false reasonTerminating message generation) in
    if changed : bool then st_write (fault UpdateStatus) (set_conditions cs) s else (s, Ok tt).

Definition markTerminatingOnLinkPods (pods : list string) : st dstate unit :=
  write_terminating ("waiting for link pods to exit: " +:+ Join pods ", ").

Definition deleteLinkLease : st dstate unit := st_write (fault DeleteLease) drop_lease.

(** The result is the delay before the next pass, 0 for none. *)
Definition releaseFinalizer : st dstate Z :=
  st_write (fault DeleteWorkload) (drop_workload local) ;!
  let! pods := st_read (fault ListPods) ds_pods in
  let '(holding, stuck) := partitionTerminatingLinkPods now pods in
  match holding with
  | _ :: _ => markTerminatingOnLinkPods holding ;! st_ret linkTeardownRequeueAfter
  | [] =>
      deleteLinkLease ;!
      st_write (fault DeleteClusterRoleBinding) drop_crb ;!
      st_write (fault UpdateGateway) drop_finalizer ;!
      fun s => (set_memory (dropWarnSuppression gw (ds_warned s))
                  (delete (gatewayRefreshKey gw) (ds_refreshed s)) s, Ok 0)
  end.

Definition releaseAfterSharedNetwork : st dstate Z :=
  let! gateways := st_read (fault ListGateways) ds_gateways in
  let remaining := length (filter (fun deleting : bool => deleting = false) gateways) in
  if (0 <? remaining)%nat then releaseFinalizer
  else
    let! net := st_read (fault GetNetwork) ds_network in
    match net with
    | None => releaseFinalizer
    | Some deleting =>
        (if negb deleting
         then st_write (fault DeleteNetwork) mark_network ;!
              write_terminating "waiting for shared network to finish draining cloud resources"
         else st_ret tt) ;!
        st_ret validationRequeueAfter
    end.

Definition reconcileDelete : st dstate Z :=
  fun s =>
    if negb (bool_decide (gatewayFinalizer ∈ ds_finalizers s)) then (s, Ok 0)
    else
      (let! xg := st_read (fault GetComposite) (fun _ => seen_composite) in
       match xg with
       | None => releaseAfterSharedNetwork
       | Some deleting =>
           (if negb deleting then st_write (fault DeleteComposite) mark_composite else st_ret tt) ;!
           write_terminating "waiting for xgatewaygcp to finish draining cloud resources" ;!
           st_ret validationRequeueAfter
       end) s.
End Pass.

(** ** Proofs *)

Lemma drop_finalizer_spec s : gatewayFinalizer ∉ ds_finalizers (drop_finalizer s).
Proof. cbn. intros [? _]%list_elem_of_filter. done. Qed.

Lemma merge_sort_nil {A} (R : relation A) `{!RelDecision R} l : merge_sort R l = [] <-> l = [].
Proof.
  split; [|by intros ->]. intros H'. pose proof (merge_sort_Permutation R l) as Hp. rewrite H' in Hp.
  by apply Permutation_nil_l in Hp.
Qed.

(** No pod holds the teardown. *)
Lemma holding_nil now pods :
  (partitionTerminatingLinkPods now pods).1 = [] <-> Forall (fun p => pod_holding now p = false) pods.
Proof.
  unfold partitionTerminatingLinkPods. cbn [fst]. rewrite merge_sort_nil. split.
  - intros Hf%fmap_nil_inv. apply Forall_forall. intros p Hp. destruct (pod_holding now p) eqn:E; [|done].
    assert (Hin : p ∈ filter (fun p => pod_holding now p = true) pods) by (by apply list_elem_of_filter).
    rewrite Hf in Hin. by apply elem_of_nil in Hin.
  - intros Hall. rewrite Forall_forall in Hall.
    destruct (filter _ _) as [|p l] eqn:E; [done|].
    assert (Hin : p ∈ filter (fun p => pod_holding now p = true) pods) by (rewrite E; by left).
    apply list_elem_of_filter in Hin as [Ht Hin%Hall]. congruence.
Qed.

(** What a released deletion leaves behind. *)
Record released (now : Z) (gw : gateway_id) (local : bool) (s s' : dstate) : Prop := {
  rel_pods : Forall (fun p => pod_holding now p = false) (ds_pods s) /\ ds_pods s' = ds_pods s;
  rel_lease : ds_lease s' = false;
  rel_crb : ds_crb s' = false;
  rel_workload : (if local then ds_daemonset s' else ds_deployment s') = false;
  rel_finalizer : gatewayFinalizer ∉ ds_finalizers s';
  rel_cloud : ds_composite s' = ds_composite s /\ ds_network s' = ds_network s;
  rel_other : if local then ds_deployment s' = ds_deployment s else ds_daemonset s' = ds_daemonset s
}.

Section Pass_proofs.
Context (fault : dcall -> call_fault) (ssc : list Condition -> Condition -> list Condition * bool)
  (now : Z) (gw : gateway_id) (local : bool) (generation : Z).

(** A step that leaves the finalizers alone. *)
Definition keeps_finalizers (s s' : dstate) : Prop := ds_finalizers s' = ds_finalizers s.

#[local] Instance keeps_finalizers_preorder : PreOrder keeps_finalizers.
Proof. split; [done|]. intros s1 s2 s3 H1 H2. unfold keeps_finalizers in *. congruence. Qed.

Lemma write_terminating_keeps m : st_keeps keeps_finalizers (write_terminating fault ssc generation m).
Proof.
  intros s s' r. unfold write_terminating. destruct (ssc _ _) as [cs []]; [|by intros [= <- <-]].
  by apply (keeps_write keeps_finalizers).
Qed.

Lemma st_write_cases {S} f (w : S -> S) s s' r :
  st_write f w s = (s', r) -> (f = None /\ s' = w s /\ r = Ok tt) \/ ((s' = w s \/ s' = s) /\ exists e, r = Err e).
Proof.
  unfold st_write. destruct f as [[e []]|]; intros [= <- <-]; [right; eauto..|by left].
Qed.

Lemma releaseFinalizer_inv s s' r :
  releaseFinalizer fault ssc now gw local generation s = (s', r) ->
  keeps_finalizers s s' \/ released now gw local s s'.
Proof.
  unfold releaseFinalizer, st_bind at 1.
  destruct (st_write _ _ s) as [s1 r1] eqn:E1. apply st_write_cases in E1 as [(_ & -> & ->)|[Hs [e ->]]];
    [|intros [= <- <-]; left; by destruct Hs as [->| ->]].
  unfold st_bind at 1, st_read. destruct (fault ListPods) as [[e ?]|]; [intros [= <- <-]; by left|].
  destruct (partitionTerminatingLinkPods now _) as [holding stuck] eqn:Hp.
  destruct holding as [|h hs].
  2:{ intros Hr. left. revert Hr. unfold st_bind.
      destruct (markTerminatingOnLinkPods _ _ _ _ _) as [s2 [[]|e]] eqn:Em;
        apply write_terminating_keeps in Em; intros [= <- <-]; exact Em. }
  assert (Hpods : Forall (fun p => pod_holding now p = false) (ds_pods s))
    by (apply holding_nil; change (ds_pods s) with (ds_pods (drop_workload local s)); by rewrite Hp).
  unfold st_bind, deleteLinkLease.
  destruct (st_write (fault DeleteLease) _ _) as [s2 r2] eqn:E2.
  apply st_write_cases in E2 as [(_ & -> & ->)|[Hs [e ->]]];
    [|intros [= <- <-]; left; by destruct Hs as [->| ->]].
  destruct (st_write (fault DeleteClusterRoleBinding) _ _) as [s3 r3] eqn:E3.
  apply st_write_cases in E3 as [(_ & -> & ->)|[Hs [e ->]]];
    [|intros [= <- <-]; left; by destruct Hs as [->| ->]].
  destruct (st_write (fault UpdateGateway) _ _) as [s4 r4] eqn:E4.
  assert (Hrel : forall s5, ds_finalizers s5 = ds_finalizers (drop_finalizer (drop_crb (drop_lease (drop_workload local s)))) ->
    ds_pods s5 = ds_pods s -> ds_lease s5 = false -> ds_crb s5 = false ->
    (if local then ds_daemonset s5 else ds_deployment s5) = false -> ds_composite s5 = ds_composite s ->
    ds_network s5 = ds_network s -> (if local then ds_deployment s5 = ds_deployment s else ds_daemonset s5 = ds_daemonset s) ->
    released now gw local s s5).
  { intros s5 Hf Hpo Hl Hc Hw Hcm Hnt Hot. split; try done. rewrite Hf. apply drop_finalizer_spec. }
  apply st_write_cases in E4 as [(_ & -> & ->)|[Hs [e ->]]]; intros [= <- <-].
  - right. apply Hrel; by destruct local.
  - destruct Hs as [->| ->]; [right; apply Hrel; by destruct local|by left].
Qed.

(** A pass that ends early or waits leaves the finalizer; one that released found the
    cloud side gone. *)
Lemma reconcileDelete_inv seen s s' r :
  reconcileDelete fault ssc now gw local generation seen s = (s', r) ->
  keeps_finalizers s s' \/
  (seen = None /\ (false ∈ ds_gateways s \/ ds_network s = None) /\ released now gw local s s').
Proof.
  unfold reconcileDelete. destruct (negb _); [intros [= <- <-]; by left|].
  unfold st_bind at 1, st_read. destruct (fault GetComposite) as [[e ?]|]; [intros [= <- <-]; by left|].
  destruct seen as [deleting|].
  { intros Hr. left. revert Hr.
    match goal with |- ?m s = _ -> _ => enough (st_keeps keeps_finalizers m) as Hk by (exact (Hk _ _ _)) end.
    apply (keeps_bind keeps_finalizers); [destruct deleting; cbn [negb]; [apply (keeps_ret keeps_finalizers)|by apply (keeps_write keeps_finalizers)]|].
    intros []. apply (keeps_bind keeps_finalizers); [apply write_terminating_keeps|intros []; apply (keeps_ret keeps_finalizers)]. }
  unfold releaseAfterSharedNetwork, st_bind at 1, st_read at 1.
  destruct (fault ListGateways) as [[e ?]|]; [intros [= <- <-]; by left|].
  destruct (Nat.ltb_spec 0 (length (filter (fun b : bool => b = false) (ds_gateways s)))) as [Hg|Hg].
  { intros [Hk|Hrel]%releaseFinalizer_inv; [by left|right]. split; [done|]. split; [left|done].
    destruct (filter _ _) as [|b l] eqn:E; [cbn in Hg; lia|].
    assert (Hin : b ∈ filter (fun b : bool => b = false) (ds_gateways s)) by (rewrite E; by left).
    apply list_elem_of_filter in Hin as [-> Hin]. done. }
  unfold st_bind at 1. destruct (st_read _ _ _) as [s1 [net|e]] eqn:E;
    [|unfold st_read in E; destruct (fault GetNetwork) as [[]|]; [|done];
      injection E as <- <-; intros [= <- <-]; by left].
  apply st_read_ok in E as (_ & -> & ->). destruct (ds_network s) as [deleting|] eqn:Hn.
  - intros Hr. left. revert Hr.
    match goal with |- ?m s = _ -> _ => enough (st_keeps keeps_finalizers m) as Hk by (exact (Hk _ _ _)) end.
    apply (keeps_bind keeps_finalizers); [destruct deleting; cbn [negb]; [apply (keeps_ret keeps_finalizers)|]|intros []; apply (keeps_ret keeps_finalizers)].
    apply (keeps_bind keeps_finalizers); [by apply (keeps_write keeps_finalizers)|intros []; apply write_terminating_keeps].
  - intros [Hk|Hrel]%releaseFinalizer_inv; [by left|right]. auto.
Qed.

(** The Lease and the pods stay. *)
Definition keeps_lease (s s' : dstate) : Prop := ds_lease s' = ds_lease s /\ ds_pods s' = ds_pods s.

#[local] Instance keeps_lease_preorder : PreOrder keeps_lease.
Proof. split; [done|]. intros s1 s2 s3 [H1 H2] [H3 H4]. split; congruence. Qed.

Lemma write_terminating_lease m : st_keeps keeps_lease (write_terminating fault ssc generation m).
Proof.
  intros s s' r. unfold write_terminating. destruct (ssc _ _) as [cs []]; [|by intros [= <- <-]].
  by apply (keeps_write keeps_lease).
Qed.

(** While a pod holds the teardown no pass touches the Lease, whichever calls fail. *)
Lemma lease_after_pods seen s s' r :
  reconcileDelete fault ssc now gw local generation seen s = (s', r) ->
  ds_lease s' = ds_lease s \/ Forall (fun p => pod_holding now p = false) (ds_pods s).
Proof.
  intros H. destruct (decide (Forall (fun p => pod_holding now p = false) (ds_pods s))) as [|Hp]; [by right|left].
  assert (Hrel : forall s' r, releaseFinalizer fault ssc now gw local generation s = (s', r) -> keeps_lease s s').
  { clear s' r H. intros s' r. unfold releaseFinalizer, st_bind at 1.
    destruct (st_write _ _ s) as [s1 r1] eqn:E1. apply st_write_cases in E1 as [(_ & -> & ->)|[Hs [e ->]]];
      [|intros [= <- <-]; by destruct Hs as [->| ->]].
    unfold st_bind at 1, st_read. destruct (fault ListPods) as [[e ?]|]; [by intros [= <- <-]|].
    rewrite <- holding_nil in Hp. change (ds_pods (drop_workload local s)) with (ds_pods s).
    destruct (partitionTerminatingLinkPods now (ds_pods s)) as [[|h hs] stuck]; [done|]. unfold st_bind.
    destruct (markTerminatingOnLinkPods _ _ _ _ _) as [s2 [[]|e]] eqn:Em;
      apply write_terminating_lease in Em; intros [= <- <-]; exact Em. }
  enough (Hk : keeps_lease s s') by (by apply Hk). revert H.
  unfold reconcileDelete. destruct (negb _); [by intros [= <- <-]|].
  unfold st_bind at 1, st_read. destruct (fault GetComposite) as [[e ?]|]; [by intros [= <- <-]|]. destruct seen as [deleting|].
  { refine ((_ : st_keeps keeps_lease _) s s' r).
    apply (keeps_bind keeps_lease); [destruct deleting; cbn [negb]; [apply (keeps_ret keeps_lease)|by apply (keeps_write keeps_lease)]|].
    intros []. apply (keeps_bind keeps_lease); [apply write_terminating_lease|intros []; apply (keeps_ret keeps_lease)]. }
  unfold releaseAfterSharedNetwork, st_bind at 1, st_read at 1.
  destruct (fault ListGateways) as [[e ?]|]; [by intros [= <- <-]|]. destruct (0 <? _)%nat; [exact (Hrel s' r)|].
  unfold st_bind at 1, st_read. destruct (fault GetNetwork) as [[e ?]|]; [by intros [= <- <-]|].
  destruct (ds_network s) as [deleting|]; [|exact (Hrel s' r)]. refine ((_ : st_keeps keeps_lease _) s s' r).
  apply (keeps_bind keeps_lease); [destruct deleting; cbn [negb]; [apply (keeps_ret keeps_lease)|]|intros []; apply (keeps_ret keeps_lease)].
  apply (keeps_bind keeps_lease); [by apply (keeps_write keeps_lease)|intros []; apply write_terminating_lease].
Qed.
End Pass_proofs.

(** With no failing call and everything drained, one pass releases. *)
Lemma reconcileDelete_drained fault ssc now gw local generation s :
  (forall c, fault c = None) -> gatewayFinalizer ∈ ds_finalizers s ->
  (false ∈ ds_gateways s \/ ds_network s = None) ->
  Forall (fun p => pod_holding now p = false) (ds_pods s) ->
  let out := reconcileDelete fault ssc now gw local generation None s in
  out.2 = Ok 0 /\ gatewayFinalizer ∉ ds_finalizers out.1.
Proof.
  intros Hf Hfin Hcloud Hpods. cbv zeta. unfold reconcileDelete. rewrite bool_decide_true by done. cbn [negb].
  assert (Hrel : let out := releaseFinalizer fault ssc now gw local generation s in
    out.2 = Ok 0 /\ gatewayFinalizer ∉ ds_finalizers out.1).
  { cbv zeta. unfold releaseFinalizer, deleteLinkLease, st_bind, st_write, st_read. rewrite !Hf.
    destruct (partitionTerminatingLinkPods now _) as [holding stuck] eqn:Hp.
    apply holding_nil in Hpods. change (ds_pods (drop_workload local s)) with (ds_pods s) in Hp.
    rewrite Hp in Hpods. cbn in Hpods. subst holding. split; [done|]. apply drop_finalizer_spec. }
  unfold releaseAfterSharedNetwork, st_bind, st_read. rewrite !Hf.
  destruct (Nat.ltb_spec 0 (length (filter (fun b : bool => b = false) (ds_gateways s)))) as [Hg|Hg]; [done|].
  destruct Hcloud as [Hlive|Hnet]; [|by rewrite Hnet]. exfalso.
  assert (Hin : false ∈ filter (fun b : bool => b = false) (ds_gateways s)) by (by apply list_elem_of_filter).
  destruct (filter _ _); [by apply elem_of_nil in Hin|cbn in Hg; lia].
Qed.

(** A Gateway's deletion is held until nothing is left behind. Whichever API calls
    fail, a pass removes the finalizer only when the composite was gone, another
    Gateway still lives or the shared network is gone, and no link pod is left except
    ones deleted longer ago than their grace period and slack, so none can re-create
    the Lease; by then the link workload, its Lease and its cluster role binding are
    deleted. And when all that holds and no call fails, one pass does remove it. *)
Theorem finalizer_held_until_drained fault ssc now gw local generation seen s s' r :
  reconcileDelete fault ssc now gw local generation seen s = (s', r) ->
  gatewayFinalizer ∈ ds_finalizers s ->
  (gatewayFinalizer ∉ ds_finalizers s' ->
     seen = None /\ (false ∈ ds_gateways s \/ ds_network s = None) /\ released now gw local s s') /\
  ((forall c, fault c = None) -> seen = None -> (false ∈ ds_gateways s \/ ds_network s = None) ->
     Forall (fun p => pod_holding now p = false) (ds_pods s) ->
     r = Ok 0 /\ gatewayFinalizer ∉ ds_finalizers s').
Proof.
  intros Hr Hfin. split.
  - intros Hno. destruct (reconcileDelete_inv _ _ _ _ _ _ _ _ _ _ Hr) as [Hk|H]; [|exact H].
    unfold keeps_finalizers in Hk. by rewrite Hk in Hno.
  - intros Hf -> Hcloud Hpods.
    pose proof (reconcileDelete_drained fault ssc now gw local generation s Hf Hfin Hcloud Hpods) as H.
    by rewrite Hr in H.
Qed.

Definition sample_ssc (cs : list Condition) (c : Condition) : list Condition * bool := (c :: cs, true).

(** The last Gateway, its composite and network gone, one pod stuck for two minutes. *)
Definition sample_deletion : dstate :=
  mkDState ["example.com/other"; gatewayFinalizer] [] None None [true] true true
    [mkLinkPod "edge-link-x" (Some 0) (Some 30)] true true {["apps/edge/u1" := "old"]} ∅.

Definition sample_release : dstate * result string Z :=
  reconcileDelete (fun _ => None) sample_ssc (120 * second) sample_gid true 3 None sample_deletion.

Lemma finalizer_held_until_drained_witness :
  ds_finalizers sample_release.1 = ["example.com/other"] /\
  released (120 * second) sample_gid true sample_deletion sample_release.1 /\
  sample_release.2 = Ok 0.
Proof.
  split; [vm_compute; reflexivity|].
  destruct (finalizer_held_until_drained (fun _ => None) sample_ssc (120 * second) sample_gid true 3 None
    sample_deletion sample_release.1 sample_release.2 (surjective_pairing _)) as [Hs Hl];
    [right; left|].
  destruct Hl as [Hr Hn]; [done|done|by right|by repeat constructor|].
  split; [by apply Hs|exact Hr].
Defined.
