(* ===== verification/LinkObjects.v ===== *)
(** * The link's Kubernetes objects: the builders of internal/controller/link.go

    One builder per object, in the mode's shape: a Deployment with its NetworkPolicy and
    disruption budget in Cluster mode, a host-network DaemonSet and a cluster role
    binding in Local mode. SHA-256 with base32 and the JSON encoding of the runtime
    config are parameters. [link_objects_refer] shows that the objects refer to
    each other: selectors select the workload's pods, bindings grant to the account the
    pods run as; [link_egress_exact] is the meaning of the network policy. *)

From S2P Require Import Prelude GoStrings Identity Config Apply Kube Forwards LinkConfig.

Record OperatorConfig := mkOperatorConfig {
  oc_LinkImage : string;
  oc_LinkImagePullPolicy : string;
  oc_UserData : string;
  oc_EnableOSLogin : bool;
  oc_RequeueInterval : Z;
  oc_SharedNetworkName : string;
  oc_ProviderConfigName : string;
  oc_PodNamespace : string;
  oc_GCPCredentialsSecret : string;
  oc_GCPCredentialsKey : string;
  oc_GCPDiscoveryInterval : Z;
  oc_GCPAddressRefreshInterval : Z;
  oc_ResponderImage : string
}.

Definition linkConfigKey : string := "config.json".
Definition componentLink : string := "link".
Definition linkNameSuffix : string := "-link".
Definition linkEndpointSliceClusterRole : string := "gateway-link-endpointslice-reader".
Definition linkClusterRoleBindingPrefix : string := "gateway-link-".
Definition linkClusterRoleBindingMaxLen : nat := String.length linkClusterRoleBindingPrefix + 27.
Definition ownerNamespaceLabel : string := "wgnet.dev/gateway-namespace".
Definition ownerNameLabel : string := "wgnet.dev/gateway-name".
Definition wgDefaultReconcileInterval : string := "10s".
Definition linkDefaultReplicas : Z := 1.
Definition LinkPrivateKey : string := "private".
Definition LinkPeerPublicKey : string := "peerPublicKey".

Definition bundleSecretName (gw : Gateway) : string := gw_Name gw +:+ "-bundle".
Definition linkSecretName (gw : Gateway) : string := gw_Name gw +:+ "-link".
Definition linkComponentName (gw : Gateway) : string := gw_Name gw +:+ linkNameSuffix.
Definition effectiveLinkReplicas (gw : Gateway) : Z := or_default (gw_LinkReplicas gw) linkDefaultReplicas.
Definition effectiveWGReconcileInterval (gw : Gateway) : string :=
  or_default_string (gw_ReconcileInterval gw) wgDefaultReconcileInterval.

Definition commonLabels (gw : Gateway) (component : string) : gmap string string :=
  {["app.kubernetes.io/name" := "wireguard-gateway-operator";
    "app.kubernetes.io/instance" := gw_Name gw;
    "app.kubernetes.io/component" := component;
    "app.kubernetes.io/managed-by" := "gateway-operator"]}.

(** A namespaced child of [gw] under the link's common name. *)
Definition link_object (kind : string) (gw : Gateway) (body : list (string * yaml)) : object :=
  new_object kind (gw_Namespace gw) (linkComponentName gw) (commonLabels gw componentLink) body.

Definition match_labels (m : gmap string string) : yaml := YMap [("matchLabels", ylabels m)].

(** ** Network policy *)
Definition corev1ProtocolOf (p : string) : string := if bool_decide (p = ProtocolUDP) then "UDP" else "TCP".

(** A NetworkPolicyPort: protocol, and a port unless every port is meant. *)
Record policy_port := mkPolicyPort { pp_Protocol : string; pp_Port : option Z }.
Definition y_port (p : policy_port) : yaml :=
  YMap (("protocol", YString (pp_Protocol p)) ::
        match pp_Port p with Some z => [("port", YInt z)] | None => [] end).

Definition backendEgressPorts (b : forwardBackend) : list policy_port :=
  let proto := corev1ProtocolOf (f_Protocol (fb_Forward b)) in
  if fb_BackendPort b =? 0 then [mkPolicyPort proto None]
  else
    let svcPort := effectiveServicePort (fb_Forward b) in
    mkPolicyPort proto (Some svcPort) ::
    (if fb_BackendPort b =? svcPort then [] else [mkPolicyPort proto (Some (fb_BackendPort b))]).

Definition responderEgressPorts (gw : Gateway) : list policy_port :=
  [mkPolicyPort "TCP" (Some (effectiveResponderPort gw))].

(** An egress rule: its peers, none meaning any, and its ports. *)
Record egress_rule := mkEgressRule { er_To : list yaml; er_Ports : list policy_port }.
Definition anywhere : list yaml := [YMap [("ipBlock", YMap [("cidr", YString "0.0.0.0/0")])]].
Definition dns_peer : list yaml :=
  [YMap [("namespaceSelector", match_labels {["kubernetes.io/metadata.name" := "kube-system"]});
         ("podSelector", match_labels {["k8s-app" := "kube-dns"]})]].
Definition y_rule (r : egress_rule) : yaml :=
  YMap ((match er_To r with [] => [] | _ => [("to", YList (er_To r))] end) ++
        [("ports", YList (y_port <$> er_Ports r))]).

Definition link_egress (gw : Gateway) (backends : list forwardBackend) : list egress_rule :=
  [mkEgressRule dns_peer [mkPolicyPort "UDP" (Some 53); mkPolicyPort "TCP" (Some 53)];
   mkEgressRule anywhere [mkPolicyPort "UDP" (Some (effectiveWireguardPort gw))];
   mkEgressRule [] [mkPolicyPort "TCP" (Some 443); mkPolicyPort "TCP" (Some 6443)];
   mkEgressRule anywhere (responderEgressPorts gw)] ++
  ((fun b => mkEgressRule anywhere (backendEgressPorts b)) <$> backends).

Definition buildLinkNetworkPolicy (gw : Gateway) (backends : list forwardBackend) : object :=
  link_object "NetworkPolicy" gw
    [("spec", YMap [("podSelector", match_labels (linkSelectorLabels gw));
                    ("policyTypes", ystrings ["Egress"]);
                    ("egress", YList (y_rule <$> link_egress gw backends))])].

(** ** Pods *)
Definition env_value (name value : string) : yaml := YMap [("name", YString name); ("value", YString value)].
Definition env_field (name path : string) : yaml :=
  YMap [("name", YString name);
        ("valueFrom", YMap [("fieldRef", YMap [("fieldPath", YString path)])])].

Definition link_env (gw : Gateway) (ident : option GatewayIdentity) : list yaml :=
  let healthAddr := match ident with
                    | Some i => "127.0.0.1:" +:+ Itoa (gi_HealthPort i)
                    | None => ":" +:+ Itoa (effectiveHealthPort gw)
                    end in
  [env_value "GATEWAY_CONFIG_PATH" ("/etc/gateway/config/" +:+ linkConfigKey);
   env_value "GATEWAY_WG_KEY_PATH" ("/etc/gateway/wg/" +:+ LinkPrivateKey);
   env_value "GATEWAY_WG_PEER_PUBKEY_PATH" ("/etc/gateway/wg/" +:+ LinkPeerPublicKey);
   env_value "GATEWAY_HEALTH_ADDR" healthAddr;
   env_value "GATEWAY_RECONCILE_INTERVAL" (effectiveWGReconcileInterval gw);
   env_field "POD_NAMESPACE" "metadata.namespace";
   env_field "POD_NAME" "metadata.name";
   env_value "GATEWAY_LEASE_NAME" (linkComponentName gw)] ++
  match ident with Some _ => [env_field "NODE_NAME" "spec.nodeName"] | None => [] end.

Definition y_mount (name path : string) (readOnly : bool) : yaml :=
  YMap ([("name", YString name); ("mountPath", YString path)] ++
        if readOnly then [("readOnly", YBool true)] else []).

Definition link_volumes (gw : Gateway) (ident : option GatewayIdentity) : list yaml :=
  [YMap [("name", YString "config"); ("configMap", YMap [("name", YString (linkComponentName gw))])];
   YMap [("name", YString "wg-keys"); ("secret", YMap [("secretName", YString (linkSecretName gw))])]] ++
  match ident with
  | Some _ => [YMap [("name", YString "host-proc-sys-net");
                     ("hostPath", YMap [("path", YString "/proc/sys/net"); ("type", YString "Directory")])]]
  | None => []
  end.

Definition anti_affinity (selector : gmap string string) : yaml :=
  YMap [("podAntiAffinity", YMap [("preferredDuringSchedulingIgnoredDuringExecution",
    YList [YMap [("weight", YInt 100);
                 ("podAffinityTerm", YMap [("topologyKey", YString "kubernetes.io/hostname");
                                           ("labelSelector", match_labels selector)])]])])].

Definition y_node_selector (gw : Gateway) : list (string * yaml) :=
  if decide (gw_NodeSelector gw = ∅) then [] else [("nodeSelector", ylabels (gw_NodeSelector gw))].

Definition linkPodSpec (gw : Gateway) (cfg : OperatorConfig) (ident : option GatewayIdentity) : yaml :=
  let healthPort := effectiveHealthPort gw in
  let mounts := [y_mount "config" "/etc/gateway/config" true; y_mount "wg-keys" "/etc/gateway/wg" true] ++
    match ident with Some _ => [y_mount "host-proc-sys-net" HostProcSysNetPath false] | None => [] end in
  let probe := match ident with
    | Some i => [("path", YString "/healthz"); ("host", YString "127.0.0.1");
                 ("port", YInt (wrap32 (gi_HealthPort i)))]
    | None => [("path", YString "/healthz"); ("port", YString "health")]
    end in
  let container := YMap ([
    ("name", YString componentLink);
    ("image", YString (oc_LinkImage cfg));
    ("imagePullPolicy", YString (oc_LinkImagePullPolicy cfg));
    ("command", ystrings ["gateway-link"]);
    ("securityContext", YMap [("runAsUser", YInt 0); ("allowPrivilegeEscalation", YBool false);
       ("capabilities", YMap [("add", ystrings ["NET_ADMIN"])])]);
    ("env", YList (link_env gw ident))] ++
    match ident with
    | Some _ => []
    | None => [("ports", YList [YMap [("name", YString "health"); ("containerPort", YInt (wrap32 healthPort));
                                      ("protocol", YString "TCP")]])]
    end ++
    [("readinessProbe", YMap [("httpGet", YMap probe); ("initialDelaySeconds", YInt 3);
       ("periodSeconds", YInt 5); ("timeoutSeconds", YInt 2)]);
     ("volumeMounts", YList mounts)]) in
  YMap ([
    ("serviceAccountName", YString (linkComponentName gw));
    ("automountServiceAccountToken", YBool true);
    ("terminationGracePeriodSeconds", YInt 30)] ++
    y_node_selector gw ++
    match ident with
    | Some _ => [("hostNetwork", YBool true); ("dnsPolicy", YString "ClusterFirstWithHostNet")]
    | None => [("affinity", anti_affinity (linkSelectorLabels gw));
               ("initContainers", YList [YMap [
                  ("name", YString "enable-ip-forward");
                  ("image", YString (oc_LinkImage cfg));
                  ("imagePullPolicy", YString (oc_LinkImagePullPolicy cfg));
                  ("command", ystrings ["sh"; "-c"; "echo 1 > /proc/sys/net/ipv4/ip_forward"]);
                  ("securityContext", YMap [("runAsUser", YInt 0); ("privileged", YBool true)])]])]
    end ++
    [("containers", YList [container]); ("volumes", YList (link_volumes gw ident))]).

Definition pod_template (labels : gmap string string) (spec : yaml) : yaml :=
  YMap [("metadata", YMap [("labels", ylabels labels)]); ("spec", spec)].

Definition buildLinkDeployment (gw : Gateway) (cfg : OperatorConfig) : object :=
  let selector := linkSelectorLabels gw in
  link_object "Deployment" gw
    [("spec", YMap [("replicas", YInt (effectiveLinkReplicas gw));
                    ("selector", match_labels selector);
                    ("strategy", YMap [("type", YString "RollingUpdate");
                       ("rollingUpdate", YMap [("maxSurge", YInt 1); ("maxUnavailable", YInt 0)])]);
                    ("template", pod_template selector (linkPodSpec gw cfg None))])].

Definition buildLinkDaemonSet (gw : Gateway) (cfg : OperatorConfig) (ident : option GatewayIdentity) : object :=
  let selector := linkSelectorLabels gw in
  link_object "DaemonSet" gw
    [("spec", YMap [("selector", match_labels selector);
                    ("template", pod_template selector (linkPodSpec gw cfg ident))])].

(** ** Accounts and roles *)
Definition buildLinkServiceAccount (gw : Gateway) : object := link_object "ServiceAccount" gw [].

Definition policy_rule (groups resources verbs : list string) : yaml :=
  YMap [("apiGroups", ystrings groups); ("resources", ystrings resources); ("verbs", ystrings verbs)].

Definition buildLinkRole (gw : Gateway) : object :=
  link_object "Role" gw
    [("rules", YList (policy_rule ["coordination.k8s.io"] ["leases"] ["get"; "list"; "watch"; "create"; "update"] ::
        if gw_isLocal gw then [policy_rule [""] ["pods"] ["get"; "list"; "watch"]] else []))].

Definition role_ref (kind name : string) : yaml :=
  YMap [("apiGroup", YString "rbac.authorization.k8s.io"); ("kind", YString kind); ("name", YString name)].
Definition link_subject (gw : Gateway) : yaml :=
  YMap [("kind", YString "ServiceAccount"); ("name", YString (linkComponentName gw));
        ("namespace", YString (gw_Namespace gw))].

Definition buildLinkRoleBinding (gw : Gateway) : object :=
  link_object "RoleBinding" gw
    [("roleRef", role_ref "Role" (linkComponentName gw)); ("subjects", YList [link_subject gw])].

Section Hashed.
(** Lower-case unpadded base32 of the SHA-256 digest. *)
Variable digest32 : string -> string.

Definition hashedName (prefix namespace name : string) (maxLen : nat) : string :=
  let id := prefix +:+ digest32 (namespace +:+ "/" +:+ name) in
  if (maxLen <? String.length id)%nat then of_chars (take maxLen (chars id)) else id.

Definition linkClusterRoleBindingName (gw : Gateway) : string :=
  hashedName linkClusterRoleBindingPrefix (gw_Namespace gw) (gw_Name gw) linkClusterRoleBindingMaxLen.

Definition buildLinkClusterRoleBinding (gw : Gateway) : object :=
  new_object "ClusterRoleBinding" "" (linkClusterRoleBindingName gw)
    (<[ownerNamespaceLabel := gw_Namespace gw]> (<[ownerNameLabel := gw_Name gw]> (commonLabels gw componentLink)))
    [("roleRef", role_ref "ClusterRole" linkEndpointSliceClusterRole); ("subjects", YList [link_subject gw])].
End Hashed.

Definition buildLinkPodDisruptionBudget (gw : Gateway) : object :=
  link_object "PodDisruptionBudget" gw
    [("spec", YMap [("minAvailable", YInt 1);
                    ("selector", match_labels (linkSelectorLabels gw));
                    ("unhealthyPodEvictionPolicy", YString "AlwaysAllow")])].

Definition buildLinkConfigMap (encode : RuntimeConfig -> string) (gw : Gateway) (rc : RuntimeConfig) : object :=
  link_object "ConfigMap" gw [("data", YMap [(linkConfigKey, YString (encode rc))])].

(** ** Proofs *)

(** The objects of one link refer to each other. *)
Lemma link_objects_refer gw cfg ident digest32 :
  let labels := Some (ylabels (linkSelectorLabels gw)) in
  (ob_path ["spec"; "selector"; "matchLabels"] (buildLinkDeployment gw cfg) = labels /\
   ob_path ["spec"; "template"; "metadata"; "labels"] (buildLinkDeployment gw cfg) = labels /\
   ob_path ["spec"; "template"; "metadata"; "labels"] (buildLinkDaemonSet gw cfg ident) = labels /\
   ob_path ["spec"; "podSelector"; "matchLabels"] (buildLinkNetworkPolicy gw []) = labels /\
   ob_path ["spec"; "selector"; "matchLabels"] (buildLinkPodDisruptionBudget gw) = labels) /\
  ob_path ["spec"; "template"; "spec"; "serviceAccountName"] (buildLinkDaemonSet gw cfg ident) =
    Some (YString (ob_Name (buildLinkServiceAccount gw))) /\
  ob_path ["roleRef"; "name"] (buildLinkRoleBinding gw) = Some (YString (ob_Name (buildLinkRole gw))) /\
  ob_path ["subjects"] (buildLinkClusterRoleBinding digest32 gw) = ob_path ["subjects"] (buildLinkRoleBinding gw).
Proof. by destruct ident. Qed.

(** A port of a rule matches one of the traffic's. *)
Definition port_allows (p : policy_port) (proto : string) (port : Z) : Prop :=
  pp_Protocol p = proto /\ (pp_Port p = None \/ pp_Port p = Some port).

Definition rule_allows (r : egress_rule) (proto : string) (port : Z) : Prop :=
  Exists (fun p => port_allows p proto port) (er_Ports r).

Lemma backend_ports_allow b proto port :
  Exists (fun p => port_allows p proto port) (backendEgressPorts b) <->
  proto = corev1ProtocolOf (f_Protocol (fb_Forward b)) /\
  (fb_BackendPort b = 0 \/ port = effectiveServicePort (fb_Forward b) \/ port = fb_BackendPort b).
Proof.
  unfold backendEgressPorts, port_allows. destruct (Z.eqb_spec (fb_BackendPort b) 0) as [E|E].
  - rewrite Exists_cons, Exists_nil. cbn. intuition congruence.
  - destruct (Z.eqb_spec (fb_BackendPort b) (effectiveServicePort (fb_Forward b))) as [E'|E'];
      rewrite !Exists_cons, Exists_nil; cbn; intuition congruence.
Qed.

(** The link's network policy allows what the link needs and nothing else. To an
    arbitrary address it lets out UDP to the WireGuard port, TCP to the API server's
    ports and the responder's port, and for each accepted forward the Service port and
    the pod port behind it in the forward's protocol, every port only when the Service
    names its target port; all other egress except cluster DNS is denied. *)
Theorem link_egress_exact gw backends proto port :
  Exists (fun r => er_To r <> dns_peer /\ rule_allows r proto port) (link_egress gw backends) <->
  (proto = "UDP" /\ port = effectiveWireguardPort gw) \/
  (proto = "TCP" /\ (port = 443 \/ port = 6443 \/ port = effectiveResponderPort gw)) \/
  Exists (fun b => proto = corev1ProtocolOf (f_Protocol (fb_Forward b)) /\
    (fb_BackendPort b = 0 \/ port = effectiveServicePort (fb_Forward b) \/ port = fb_BackendPort b)) backends.
Proof.
  assert (Hne : anywhere <> dns_peer) by (unfold anywhere, dns_peer; congruence).
  assert (Hne0 : [] <> dns_peer) by done.
  assert (Hback : Exists (fun r => er_To r <> dns_peer /\ rule_allows r proto port)
      ((fun b => mkEgressRule anywhere (backendEgressPorts b)) <$> backends) <->
    Exists (fun b => proto = corev1ProtocolOf (f_Protocol (fb_Forward b)) /\
      (fb_BackendPort b = 0 \/ port = effectiveServicePort (fb_Forward b) \/ port = fb_BackendPort b)) backends).
  { rewrite Exists_fmap, !Exists_exists.
    split; intros (b & Hb & H'); exists b; (split; [done|]);
      [apply backend_ports_allow; exact (proj2 H')|split; [exact Hne|by apply backend_ports_allow]]. }
  unfold link_egress. cbn [app]. rewrite !Exists_cons, Hback. clear Hback.
  unfold rule_allows, responderEgressPorts. cbn [er_To er_Ports].
  rewrite !Exists_cons, !Exists_nil. unfold port_allows. cbn [pp_Protocol pp_Port].
  intuition (first [congruence | left; split; congruence | right; left; split; [congruence|]; intuition congruence
    | idtac]).
Qed.
