(* ===== verification/Responder.v ===== *)
(** * The health responder: internal/controller/responder.go and internal/responder

    The responder answers the cloud health check the link DNATs to: a Deployment behind a
    Service in Cluster mode, a DaemonSet next to the link in Local mode. This file holds
    its objects, the choice of the pods a link may send probes to, and the
    ResponderMissing condition. *)

From S2P Require Import Prelude GoStrings Kube Endpoints Forwards LinkObjects Warnings.

Definition nginxConfKey : string := "nginx.conf".
Definition responderNameSuffix : string := "-responder".
Definition componentResponder : string := "responder".
Definition configHashAnnotation : string := "wgnet.dev/config-hash".
Definition HealthPath : string := "/forwarded-healthz".
Definition responderDefaultReplicas : Z := 2.

(** nginx.conf.tmpl with its two verbs filled in. *)
Definition newline : string := of_chars [byte_of 10].
Definition NginxConf (port : Z) : string :=
  Join ["worker_processes 1;"; "pid /tmp/nginx.pid;"; "events {}"; "http {"; "  access_log off;";
    "  error_log /dev/stderr warn;"; "  client_body_temp_path /tmp/client_temp;";
    "  proxy_temp_path /tmp/proxy_temp;"; "  fastcgi_temp_path /tmp/fastcgi_temp;";
    "  uwsgi_temp_path /tmp/uwsgi_temp;"; "  scgi_temp_path /tmp/scgi_temp;"; ""; "  server {";
    "    listen " +:+ Itoa port +:+ ";"; ""; "    location = " +:+ HealthPath +:+ " {"; "      return 200;";
    "    }"; ""; "    location / {"; "      return 404;"; "    }"; "  }"; "}"; ""] newline.

Definition responderComponentName (gw : Gateway) : string := gw_Name gw +:+ responderNameSuffix.

Definition responderSelectorLabels (gw : Gateway) : gmap string string :=
  {["app.kubernetes.io/name" := "wireguard-gateway-operator";
    "app.kubernetes.io/instance" := gw_Name gw;
    "app.kubernetes.io/component" := componentResponder]}.

Definition effectiveResponderImage (cfg : OperatorConfig) (gw : Gateway) : string :=
  if negb (bool_decide (gw_ResponderImage gw = "")) then gw_ResponderImage gw else oc_ResponderImage cfg.
Definition effectiveResponderReplicas (gw : Gateway) : Z :=
  or_default (gw_ResponderReplicas gw) responderDefaultReplicas.

Definition responder_object (kind : string) (gw : Gateway) (body : list (string * yaml)) : object :=
  new_object kind (gw_Namespace gw) (responderComponentName gw) (commonLabels gw componentResponder) body.

Definition buildResponderConfigMap (gw : Gateway) : object :=
  responder_object "ConfigMap" gw [("data", YMap [(nginxConfKey, YString (NginxConf (effectiveResponderPort gw)))])].

Definition buildResponderService (gw : Gateway) : object :=
  responder_object "Service" gw
    [("spec", YMap [("type", YString "ClusterIP");
                    ("selector", ylabels (responderSelectorLabels gw));
                    ("ports", YList [YMap [("name", YString "http"); ("port", YInt (effectiveResponderPort gw));
                                           ("targetPort", YString "http")]])])].

Section Template.
(** Hexadecimal SHA-256. *)
Variable sha256 : string -> string.
Variable cfg : OperatorConfig.

Definition responderConfigHash (gw : Gateway) : string := sha256 (NginxConf (effectiveResponderPort gw)).

(** The pod template, with the caller's mode-specific fields of the pod spec. *)
Definition responderPodTemplate (gw : Gateway) (extra : list (string * yaml)) : yaml :=
  YMap [
    ("metadata", YMap [("labels", ylabels (responderSelectorLabels gw));
                       ("annotations", ylabels {[configHashAnnotation := responderConfigHash gw]})]);
    ("spec", YMap ([
      ("automountServiceAccountToken", YBool false);
      ("securityContext", YMap [("runAsNonRoot", YBool true);
                                ("seccompProfile", YMap [("type", YString "RuntimeDefault")])]);
      ("containers", YList [YMap [
        ("name", YString "nginx");
        ("image", YString (effectiveResponderImage cfg gw));
        ("ports", YList [YMap [("name", YString "http"); ("containerPort", YInt (effectiveResponderPort gw));
                               ("protocol", YString "TCP")]]);
        ("readinessProbe", YMap [("httpGet", YMap [("path", YString HealthPath); ("port", YString "http")])]);
        ("securityContext", YMap [("allowPrivilegeEscalation", YBool false);
           ("readOnlyRootFilesystem", YBool true); ("capabilities", YMap [("drop", ystrings ["ALL"])])]);
        ("volumeMounts", YList [y_mount "tmp" "/tmp" false;
           YMap [("name", YString "config"); ("mountPath", YString "/etc/nginx/nginx.conf");
                 ("subPath", YString nginxConfKey); ("readOnly", YBool true)]]);
        ("resources", gw_ResponderResources gw)]]);
      ("volumes", YList [YMap [("name", YString "tmp"); ("emptyDir", YMap [])];
         YMap [("name", YString "config"); ("configMap", YMap [("name", YString (responderComponentName gw))])]])]
      ++ extra))].

Definition buildResponderDeployment (gw : Gateway) : object :=
  responder_object "Deployment" gw
    [("spec", YMap [("replicas", YInt (effectiveResponderReplicas gw));
                    ("selector", match_labels (responderSelectorLabels gw));
                    ("template", responderPodTemplate gw
                       [("affinity", anti_affinity (responderSelectorLabels gw))])])].

Definition buildResponderDaemonSet (gw : Gateway) : object :=
  responder_object "DaemonSet" gw
    [("spec", YMap [("selector", match_labels (responderSelectorLabels gw));
                    ("template", responderPodTemplate gw (y_node_selector gw));
                    ("updateStrategy", YMap [("type", YString "RollingUpdate")])])].
End Template.

Definition buildResponderPodDisruptionBudget (gw : Gateway) : object :=
  responder_object "PodDisruptionBudget" gw
    [("spec", YMap [("minAvailable", YInt 1);
                    ("selector", match_labels (responderSelectorLabels gw));
                    ("unhealthyPodEvictionPolicy", YString "AlwaysAllow")])].

(** ** Pods *)
Record k8sPod := mkK8sPod {
  kp_pod : Pod;
  kp_Deleting : bool;
  kp_Phase : string;
  kp_PodIP : string
}.

Definition PodRunning : string := "Running".

Definition pod_running (p : k8sPod) : bool := negb (kp_Deleting p) && bool_decide (kp_Phase p = PodRunning).

(** A pod a link may send probes to; later pods of a node replace earlier ones. *)
Definition responderPods (pods : list k8sPod) : gmap string string :=
  foldl (fun m p =>
      if negb (pod_running p) || bool_decide (kp_PodIP p = "") || negb (podReady (kp_pod p)) then m
      else <[pod_NodeName (kp_pod p) := kp_PodIP p]> m) ∅ pods.

(** The loop of [responderMissingNodes]. *)
Fixpoint missing_scan (linkPods : list k8sPod) (responders : gmap string string) (seen : gset string)
  : list string :=
  match linkPods with
  | [] => []
  | p :: linkPods =>
      let node := pod_NodeName (kp_pod p) in
      if negb (pod_running p) || bool_decide (node = "") || bool_decide (node ∈ seen)
      then missing_scan linkPods responders seen
      else match responders !! node with
           | Some _ => missing_scan linkPods responders ({[node]} ∪ seen)
           | None => node :: missing_scan linkPods responders ({[node]} ∪ seen)
           end
  end.

Definition responderMissingNodes (linkPods : list k8sPod) (responders : gmap string string) : list string :=
  merge_sort String.le (missing_scan linkPods responders ∅).

(** ** The condition *)
Definition conditionResponderMissing : string := "ResponderMissing".
Definition reasonResponderPresent : string := "ResponderPresent".

Record responderMissingStatus := mkResponderMissingStatus {
  rm_local : bool;
  rm_missing : list string;
  rm_present : bool
}.

(** The condition's status, reason and message. *)
Definition responder_condition (s : responderMissingStatus) (gw : Gateway) : bool * string * string :=
  let where_ := responderComponentName gw +:+ " in namespace " +:+ gw_Namespace gw in
  if rm_local s then
    match rm_missing s with
    | _ :: _ => (true, reasonNoResponderOnNode, "no responder pod on node(s): " +:+ Join (rm_missing s) ", ")
    | [] => (false, reasonResponderPresent, "every link pod's node has a responder")
    end
  else if negb (rm_present s) then (true, reasonNoResponderRunning, "no ready responder pod for " +:+ where_)
  else (false, reasonResponderPresent, "a ready responder pod exists for " +:+ where_).

Definition warnResponderMissing (recorder : bool) (g : gateway_id) (gw : Gateway)
    (status : option responderMissingStatus) (m : warned) : warned * list event :=
  match status with
  | None => (m, [])
  | Some s =>
      with_recorder recorder (warn_gate (responderMissingWarnKeyPrefix +:+ unresolvedWarnKey g)
        (if rm_local s then
           match rm_missing s with
           | [] => None
           | _ => Some (Join (rm_missing s) ",",
                    (fun node => mkEvent reasonNoResponderOnNode ("no responder pod on node " +:+ node)) <$> rm_missing s)
           end
         else if rm_present s then None
         else Some ("no-running-responder",
                [mkEvent reasonNoResponderRunning ("no ready responder pod for " +:+ responderComponentName gw)]))) m
  end.

(** The status a pass computes from the two pod lists. *)
Definition responder_status (gw : Gateway) (linkPods responderList : list k8sPod) : responderMissingStatus :=
  let responders := responderPods responderList in
  mkResponderMissingStatus (gw_isLocal gw)
    (if gw_isLocal gw then responderMissingNodes linkPods responders else [])
    (negb (bool_decide (responders = ∅))).

(** ** Proofs *)

(** A responder pod that answers. *)
Definition answers (p : k8sPod) : Prop :=
  pod_running p = true /\ kp_PodIP p <> "" /\ podReady (kp_pod p) = true.

Lemma answers_guard p :
  negb (pod_running p) || bool_decide (kp_PodIP p = "") || negb (podReady (kp_pod p)) = false <-> answers p.
Proof.
  unfold answers. rewrite !orb_false_iff, !negb_false_iff, bool_decide_eq_false. tauto.
Qed.

Lemma responderPods_spec pods node ip :
  (responderPods pods !! node = Some ip ->
     exists p, p ∈ pods /\ answers p /\ pod_NodeName (kp_pod p) = node /\ kp_PodIP p = ip) /\
  (is_Some (responderPods pods !! node) <->
     exists p, p ∈ pods /\ answers p /\ pod_NodeName (kp_pod p) = node).
Proof.
  unfold responderPods. induction pods as [|p pods [IH1 IH2]] using rev_ind.
  { cbn. rewrite lookup_empty. split; [done|]. split; [by intros []|]. by intros (p & ?%elem_of_nil & _). }
  rewrite foldl_app. cbn [foldl]. destruct (negb _ || _ || _) eqn:E.
  - split.
    + intros (q & Hq & H')%IH1. exists q. split; [set_solver|done].
    + rewrite IH2. split; intros (q & Hq & Ha & Hn); exists q; (split; [|done]); [set_solver|].
      apply elem_of_app in Hq as [Hq|Hq]; [done|]. apply list_elem_of_singleton in Hq as ->.
      apply answers_guard in Ha. congruence.
  - apply answers_guard in E. destruct (decide (pod_NodeName (kp_pod p) = node)) as [<-|Hne].
    + rewrite lookup_insert_eq. split.
      * intros [= <-]. exists p. split; [set_solver|done].
      * split; [|done]. intros _. exists p. split; [set_solver|done].
    + rewrite lookup_insert_ne by done. split.
      * intros (q & Hq & H')%IH1. exists q. split; [set_solver|done].
      * rewrite IH2. split; intros (q & Hq & Ha & Hn); exists q; (split; [|done]); [set_solver|].
        apply elem_of_app in Hq as [Hq|Hq]; [done|]. by apply list_elem_of_singleton in Hq as ->.
Qed.

Lemma missing_scan_spec linkPods responders seen :
  (forall node, node ∈ missing_scan linkPods responders seen <->
     node ∉ seen /\ node <> "" /\ responders !! node = None /\
     exists p, p ∈ linkPods /\ pod_running p = true /\ pod_NodeName (kp_pod p) = node) /\
  NoDup (missing_scan linkPods responders seen).
Proof.
  revert seen. induction linkPods as [|p pods IH]; intros seen; cbn.
  { split; [|constructor]. intros node. rewrite elem_of_nil. split; [done|].
    by intros (_ & _ & _ & q & ?%elem_of_nil & _). }
  set (n := pod_NodeName (kp_pod p)).
  destruct (negb (pod_running p) || bool_decide (n = "") || bool_decide (n ∈ seen)) eqn:E.
  - destruct (IH seen) as [H1 H2]. split; [|done]. intros node. rewrite H1.
    split; intros (Hs & Hn & Hr & q & Hq & Hrun & Hnode); (do 3 (split; [done|])); exists q;
      (split; [|done]); [by right|]. apply elem_of_cons in Hq as [->|?]; [exfalso|done].
    fold n in Hnode. rewrite Hrun, Hnode in E. cbn in E.
    rewrite (bool_decide_false (node = "")), (bool_decide_false (node ∈ seen)) in E by done. done.
  - rewrite !orb_false_iff, negb_false_iff, !bool_decide_eq_false in E. destruct E as [[Hrun Hn] Hseen].
    destruct (IH ({[n]} ∪ seen)) as [H1 H2]. destruct (responders !! n) as [ip|] eqn:Hr.
    + split; [|done]. intros node. rewrite H1. split.
      * intros (Hs & ? & ? & q & Hq & ?). split; [set_solver|]. do 2 (split; [done|]). exists q.
        split; [by right|done].
      * intros (Hs & ? & Hr' & q & Hq & Hrun' & Hnode). split; [set_unfold; intros [->|]; [congruence|done]|].
        do 2 (split; [done|]). exists q. split; [|done].
        apply elem_of_cons in Hq as [->|?]; [|done]. fold n in Hnode. congruence.
    + split.
      * intros node. rewrite elem_of_cons, H1. split.
        -- intros [->|(Hs & ? & ? & q & Hq & ?)];
             [do 3 (split; [done|]); exists p; split; [by left|done]|].
           split; [set_solver|]. do 2 (split; [done|]). exists q. split; [by right|done].
        -- intros (Hs & ? & Hr' & q & Hq & Hrun' & Hnode). destruct (decide (node = n)) as [->|Hne]; [by left|right].
           split; [set_solver|]. do 2 (split; [done|]). exists q. split; [|done].
           apply elem_of_cons in Hq as [->|?]; [|done]. by destruct Hne.
      * apply NoDup_cons. split; [|done]. rewrite H1. set_solver.
Qed.

(** ResponderMissing is raised exactly when the health probe has nowhere to go. In
    Local mode the condition is True exactly when some node runs a live link pod and no
    responder pod that is running, ready, addressed and not terminating, and its
    message lists those nodes, sorted and without repeats; in Cluster mode exactly
    when no such responder pod exists at all. *)
Theorem responder_missing_exact gw linkPods responderList :
  let status := responder_status gw linkPods responderList in
  let missing node := node <> "" /\
    (exists p, p ∈ linkPods /\ pod_running p = true /\ pod_NodeName (kp_pod p) = node) /\
    ~ exists q, q ∈ responderList /\ answers q /\ pod_NodeName (kp_pod q) = node in
  (gw_isLocal gw = true ->
     (forall node, node ∈ rm_missing status <-> missing node) /\ NoDup (rm_missing status) /\
     StronglySorted String.le (rm_missing status) /\
     ((responder_condition status gw).1.1 = true <-> exists node, missing node)) /\
  (gw_isLocal gw = false ->
     ((responder_condition status gw).1.1 = true <-> ~ exists q, q ∈ responderList /\ answers q)).
Proof.
  intros status missing. subst status missing. unfold responder_status. split; intros Hl; rewrite Hl.
  - cbn [rm_missing]. destruct (missing_scan_spec linkPods (responderPods responderList) ∅) as [H1 H2].
    assert (Hin : forall node, node ∈ responderMissingNodes linkPods (responderPods responderList) <->
      node <> "" /\ (exists p, p ∈ linkPods /\ pod_running p = true /\ pod_NodeName (kp_pod p) = node) /\
      ~ exists q, q ∈ responderList /\ answers q /\ pod_NodeName (kp_pod q) = node).
    { intros node. unfold responderMissingNodes. rewrite elem_of_merge_sort, H1.
      rewrite eq_None_not_Some, (proj2 (responderPods_spec responderList node "")). set_solver. }
    split; [exact Hin|]. split.
    { unfold responderMissingNodes. by rewrite merge_sort_Permutation. }
    split; [apply (StronglySorted_merge_sort _)|].
    unfold responder_condition. cbn [rm_local rm_missing].
    destruct (responderMissingNodes _ _) as [|n l]; cbn; split; try done.
    + intros (node & Hn%Hin). by apply elem_of_nil in Hn.
    + intros _. exists n. apply Hin. by left.
  - unfold responder_condition. cbn. destruct (bool_decide _) eqn:E; cbn; split; try done.
    + apply bool_decide_eq_true in E. intros _ (q & Hq & Ha).
      destruct (proj2 (responderPods_spec responderList (pod_NodeName (kp_pod q)) "")) as [_ Hs].
      destruct Hs as [ip Hip]; [by exists q|]. by rewrite E, lookup_empty in Hip.
    + apply bool_decide_eq_false in E. intros Hno. exfalso.
      apply map_choose in E as (node & ip & Hip).
      apply (responderPods_spec responderList node ip) in Hip as (p & Hp & Ha & _). apply Hno. by exists p.
Qed.
