(* ===== verification/Watches.v ===== *)
(** * What a watched change enqueues: the map functions and predicates of
      gateway_controller.go, link.go and responder.go

    The controller watches Services, Namespaces, pods and its own objects, and maps each
    event to the Gateways to reconcile. [watch_complete] shows that no Gateway whose
    classification a Service or namespace change affects is missed; that an edited
    object leads back to its Gateway is used by the runs of [Ensure]. *)

From S2P Require Import Prelude GoStrings Identity Config Kube Forwards LinkConfig LinkObjects Warnings Responder Status.

Definition request : Type := string * string.
Definition gw_key (gw : Gateway) : request := (gw_Namespace gw, gw_Name gw).

(** ** Forwards *)
Definition targets_service (gw : Gateway) (ns name : string) : bool :=
  existsb (fun f => bool_decide (f_Service f = name) && bool_decide (effectiveForwardNamespace f gw = ns))
    (gw_Forwards gw).

Definition gatewaysForService (gateways : result string (list Gateway)) (ns name : string) : list request :=
  match gateways with
  | Err _ => []
  | Ok gws => gw_key <$> filter (fun gw => targets_service gw ns name = true) gws
  end.

Definition targets_namespace (gw : Gateway) (name : string) : bool :=
  existsb (fun f => let ns := effectiveForwardNamespace f gw in
                    bool_decide (ns = name) && negb (bool_decide (ns = gw_Namespace gw))) (gw_Forwards gw).

Definition gatewaysForNamespace (gateways : result string (list Gateway)) (name : string) : list request :=
  match gateways with
  | Err _ => []
  | Ok gws => gw_key <$> filter (fun gw => targets_namespace gw name = true) gws
  end.

(** ** Objects *)
Definition GatewayAPIVersion : string := "wgnet.dev/v1alpha1".

Definition isGatewayOwner (ref : option owner_ref) : bool :=
  match ref with
  | Some r => bool_decide (ow_Kind r = "Gateway") && bool_decide (ow_APIVersion r = GatewayAPIVersion)
  | None => false
  end.

(** The component label, or the component's name under a Gateway owner. *)
Definition is_component (component suffix : string) (o : object) : bool :=
  bool_decide (map_get "" (ob_Labels o) "app.kubernetes.io/component" = component) ||
  (isGatewayOwner (ob_Controller o) &&
   bool_decide (ob_Name o = default "" (ow_Name <$> ob_Controller o) +:+ suffix)).

Definition isLinkObject (o : object) : bool := is_component componentLink linkNameSuffix o.
Definition isResponderObject (o : object) : bool := is_component componentResponder responderNameSuffix o.

Definition linkObjectGateway (o : object) : option request :=
  match ob_Controller o with
  | Some owner => if isGatewayOwner (Some owner) then Some (ob_Namespace o, ow_Name owner) else
      let namespace := map_get "" (ob_Labels o) ownerNamespaceLabel in
      let name := map_get "" (ob_Labels o) ownerNameLabel in
      if bool_decide (namespace = "") || bool_decide (name = "") then None else Some (namespace, name)
  | None =>
      let namespace := map_get "" (ob_Labels o) ownerNamespaceLabel in
      let name := map_get "" (ob_Labels o) ownerNameLabel in
      if bool_decide (namespace = "") || bool_decide (name = "") then None else Some (namespace, name)
  end.

(** The dirty tracker and the requests after an event on [o]. *)
Definition gatewaysForLinkObject (o : object) (linkDirty : dirtyTracker) : dirtyTracker * list request :=
  match linkObjectGateway o with
  | None => (linkDirty, [])
  | Some key => (dirty_mark linkDirty key, [key])
  end.

Definition gatewaysForResponderObject (o : object) (responderDirty : dirtyTracker)
  : dirtyTracker * list request :=
  match ob_Controller o with
  | Some owner =>
      if isGatewayOwner (Some owner)
      then let key := (ob_Namespace o, ow_Name owner) in (dirty_mark responderDirty key, [key])
      else (responderDirty, [])
  | None => (responderDirty, [])
  end.

Definition gatewaysForResponderPod (ns : string) (labels : gmap string string) : list request :=
  let name := map_get "" labels "app.kubernetes.io/instance" in
  if bool_decide (name = "") then [] else [(ns, name)].

(** ** Proofs *)
Lemma classify_congr getNS getSvc getNS' getSvc' gw fs :
  (forall f, f ∈ fs -> classify_one getNS getSvc gw f = classify_one getNS' getSvc' gw f) ->
  classify getNS getSvc gw fs = classify getNS' getSvc' gw fs.
Proof.
  induction fs as [|f fs IH]; intros Hf; [done|]. cbn. rewrite (Hf f) by (by left).
  destruct (classify_one _ _ gw f); [|done]. cbn. rewrite IH by (intros; apply Hf; by right). done.
Qed.

Lemma existsb_false {A} (p : A -> bool) l x : existsb p l = false -> x ∈ l -> p x = false.
Proof.
  intros Hp Hx. destruct (p x) eqn:E; [|done]. rewrite <- Hp. symmetry. apply existsb_exists. exists x.
  by rewrite <- list_elem_of_In.
Qed.

Lemma gatewaysForService_in gws ns name gw :
  gw ∈ gws -> gw_key gw ∉ gatewaysForService (Ok gws) ns name -> targets_service gw ns name = false.
Proof.
  intros Hgw Hn. destruct (targets_service gw ns name) eqn:E; [|done]. destruct Hn. cbn.
  apply list_elem_of_fmap. exists gw. split; [done|]. by apply list_elem_of_filter.
Qed.

(** No change of a backend goes unnoticed. If a Service changes, appears or
    disappears, every Gateway whose classification of forwards that could alter is
    enqueued: for a Gateway the watch does not enqueue, classification gives the same
    result before and after. The same holds of a namespace and its consent label. *)
Theorem watch_complete gws gw :
  gw ∈ gws ->
  (forall getNS getSvc getSvc' ns name,
     (forall ns' name', (ns', name') <> (ns, name) -> getSvc' ns' name' = getSvc ns' name') ->
     gw_key gw ∉ gatewaysForService (Ok gws) ns name ->
     classifyForwards getNS getSvc' gw = classifyForwards getNS getSvc gw) /\
  (forall getNS getNS' getSvc name,
     (forall name', name' <> name -> getNS' name' = getNS name') ->
     gw_key gw ∉ gatewaysForNamespace (Ok gws) name ->
     classifyForwards getNS' getSvc gw = classifyForwards getNS getSvc gw).
Proof.
  intros Hgw. split.
  - intros getNS getSvc getSvc' ns name Hsame Hno.
    pose proof (gatewaysForService_in _ _ _ _ Hgw Hno) as Ht.
    apply classify_congr. intros f Hf. pose proof (existsb_false _ _ _ Ht Hf) as Hfalse. cbn in Hfalse.
    unfold classify_one, classify_backend.
    assert (Hs : getSvc' (effectiveForwardNamespace f gw) (f_Service f) =
                 getSvc (effectiveForwardNamespace f gw) (f_Service f)).
    { apply Hsame. intros [= Hns Hsv]. rewrite Hns, Hsv, !bool_decide_true in Hfalse by done. done. }
    by rewrite Hs.
  - intros getNS getNS' getSvc name Hsame Hno.
    assert (Ht : targets_namespace gw name = false).
    { destruct (targets_namespace gw name) eqn:E; [|done]. destruct Hno. cbn.
      apply list_elem_of_fmap. exists gw. split; [done|]. by apply list_elem_of_filter. }
    apply classify_congr. intros f Hf. pose proof (existsb_false _ _ _ Ht Hf) as Hfalse. cbn in Hfalse.
    unfold classify_one.
    destruct (bool_decide (effectiveForwardNamespace f gw = gw_Namespace gw)) eqn:Hown; [done|].
    apply bool_decide_eq_false in Hown. unfold namespaceAllowsIngress.
    rewrite Hsame; [done|]. intros Hn.
    apply andb_false_iff in Hfalse as [H1|H1]; [apply bool_decide_eq_false in H1; exact (H1 Hn)|done].
Qed.

Lemma watch_complete_witness :
  let gw := sample_gw "" 0 [mkForwardSpec 80 "TCP" "web" "data" 0] in
  gatewaysForService (Ok [gw]) "data" "other" = [] /\
  classifyForwards sample_getNS (fun _ n => if bool_decide (n = "other") then NotFound else sample_getSvc "" n) gw =
  classifyForwards sample_getNS sample_getSvc gw.
Proof.
  intros gw. split; [vm_compute; reflexivity|].
  apply (proj1 (watch_complete [gw] gw (list_elem_of_here _ _)) sample_getNS sample_getSvc _ "data" "other").
  - intros ns' name' Hne. unfold sample_getSvc. destruct (decide (name' = "other")) as [->|]; [done|].
    by rewrite (bool_decide_false (name' = "other")) by done.
  - vm_compute. apply not_elem_of_nil.
Defined.
