(* ===== verification/Setup.v ===== *)
(** * The registered watches: SetupWithManager of gateway_controller.go, the drift
      predicates of link.go and responder.go, and cacheOptions of cmd/gateway-operator

    The table of watches with their predicates and handlers, and what one event of the API
    server does through it: which trackers it marks and which Gateways it enqueues. The
    predicates and handlers of controller-runtime and the cache's label selection are the
    record [event_lib], with what is documented of them as the class [EventLib].
    [deliver_exact] says exactly which events mark a Gateway dirty; [Ensure] uses it for
    the edits of its runs. *)

From S2P Require Import Prelude GoStrings Identity Config Kube Forwards LinkConfig LinkObjects Warnings Responder Status Watches.

(** ** Events *)

(** [generation]: whether the update changed metadata.generation. *)
Inductive kube_event :=
| Created (o : object)
| Updated (old new : object) (generation : bool)
| Deleted (o : object).

(** The object a predicate on one object is asked about, and the objects of an event. *)
Definition subject (e : kube_event) : object :=
  match e with Created o => o | Updated _ new _ => new | Deleted o => o end.
Definition involved (e : kube_event) : list object :=
  match e with Created o => [o] | Updated old new _ => [old; new] | Deleted o => [o] end.
Definition event_kind (e : kube_event) : string := ob_Kind (subject e).

(** An update as a watch limited by [sel] reports it. *)
Definition selected (sel : object -> bool) (e : kube_event) : option kube_event :=
  match e with
  | Created o | Deleted o => if sel o then Some e else None
  | Updated old new _ =>
      match sel old, sel new with
      | true, true => Some e
      | true, false => Some (Deleted old)
      | false, true => Some (Created new)
      | false, false => None
      end
  end.

Record event_lib := mkEventLib {
  NewPredicateFuncs : (object -> bool) -> kube_event -> bool;
  GenerationChangedPredicate : kube_event -> bool;
  LabelChangedPredicate : kube_event -> bool;
  AnnotationChangedPredicate : kube_event -> bool;
  (** The objects a map function is given. *)
  MapFuncObjects : kube_event -> list object;
  (** The requests for the controller owner of a kind. *)
  EnqueueRequestForOwner : kube_event -> list request;
  ByLabel : (object -> bool) -> kube_event -> option kube_event
}.

Class EventLib (L : event_lib) : Prop := {
  funcs_spec p e : NewPredicateFuncs L p e = p (subject e);
  generation_spec old new g : GenerationChangedPredicate L (Updated old new g) = g;
  label_spec old new g : LabelChangedPredicate L (Updated old new g) = negb (bool_decide (ob_Labels new = ob_Labels old));
  annotation_spec old new g :
    AnnotationChangedPredicate L (Updated old new g) = negb (bool_decide (ob_Annotations new = ob_Annotations old));
  generation_other e : (forall old new g, e <> Updated old new g) -> GenerationChangedPredicate L e = true;
  mapped_spec e : MapFuncObjects L e = involved e;
  owner_spec e o owner : o ∈ involved e -> ob_Controller o = Some owner -> isGatewayOwner (Some owner) = true ->
    (ob_Namespace o, ow_Name owner) ∈ EnqueueRequestForOwner L e;
  selected_spec sel e : ByLabel L sel e = selected sel e
}.

(** ** The cache *)
Definition LinkCacheSelector (labels : gmap string string) : bool :=
  bool_decide (labels !! "app.kubernetes.io/component" = Some componentLink).

(** The kinds cached only as link children. *)
Definition cacheOptions : list string := ["ServiceAccount"; "Role"; "RoleBinding"; "ClusterRoleBinding"].

(** What the cached client shows of the server's objects. *)
Definition cache_view (objects : gmap object_key object) (k : object_key) : option object :=
  match objects !! k with
  | Some o => if bool_decide (k.1.1 ∈ cacheOptions) && negb (LinkCacheSelector (ob_Labels o)) then None else Some o
  | None => None
  end.

(** ** Watches *)
Record trackers := mkTrackers { tr_link : dirtyTracker; tr_responder : dirtyTracker }.
Definition set_link (d : dirtyTracker) (t : trackers) : trackers := mkTrackers d (tr_responder t).
Definition set_responder (d : dirtyTracker) (t : trackers) : trackers := mkTrackers (tr_link t) d.

Definition event_handler : Type := kube_event -> trackers -> trackers * list request.
Record watch := mkWatch { wa_kind : string; wa_handler : event_handler; wa_predicate : kube_event -> bool }.

Definition XGatewayGCPGVK : string := "XGatewayGCP".

Section Setup.
Variable L : event_lib.
(** What a list of the Gateways returns while an event is mapped. *)
Variable gateways : result string (list Gateway).

Definition linkWorkloadPredicate (e : kube_event) : bool :=
  NewPredicateFuncs L isLinkObject e &&
  (GenerationChangedPredicate L e || LabelChangedPredicate L e || AnnotationChangedPredicate L e).

Definition responderWorkloadPredicate (e : kube_event) : bool :=
  NewPredicateFuncs L isResponderObject e &&
  (GenerationChangedPredicate L e || LabelChangedPredicate L e || AnnotationChangedPredicate L e).

(** A map function over the objects of an event, one after the other. *)
Fixpoint mapped_over (f : object -> trackers -> trackers * list request) (l : list object) (t : trackers)
  : trackers * list request :=
  match l with
  | [] => (t, [])
  | o :: l => let '(t, r) := f o t in let '(t, r') := mapped_over f l t in (t, r ++ r')
  end.

Definition EnqueueRequestsFromMapFunc (f : object -> trackers -> trackers * list request) : event_handler :=
  fun e t => mapped_over f (MapFuncObjects L e) t.

Definition always (e : kube_event) : bool := true.
Definition Owns (kind : string) (p : kube_event -> bool) : watch := mkWatch kind (fun e t => (t, EnqueueRequestForOwner L e)) p.
Definition For (kind : string) : watch :=
  mkWatch kind (EnqueueRequestsFromMapFunc (fun o t => (t, [(ob_Namespace o, ob_Name o)]))) always.

Definition responderObjectEvents : event_handler := EnqueueRequestsFromMapFunc (fun o t =>
  let '(d, r) := gatewaysForResponderObject o (tr_responder t) in (set_responder d t, r)).
Definition linkObjectEvents : event_handler := EnqueueRequestsFromMapFunc (fun o t =>
  let '(d, r) := gatewaysForLinkObject o (tr_link t) in (set_link d t, r)).

Definition SetupWithManager : list watch :=
  let responderObjectPredicate := NewPredicateFuncs L isResponderObject in
  let linkObjectPredicate := NewPredicateFuncs L isLinkObject in
  [For "Gateway";
   Owns "Deployment" always;
   Owns "DaemonSet" always;
   Owns "ConfigMap" always;
   Owns "Secret" always;
   Owns "Service" always;
   Owns "PodDisruptionBudget" always;
   Owns "NetworkPolicy" (GenerationChangedPredicate L);
   Owns XGatewayGCPGVK always;
   mkWatch "Service" (EnqueueRequestsFromMapFunc (fun o t => (t, gatewaysForService gateways (ob_Namespace o) (ob_Name o)))) always;
   mkWatch "Namespace" (EnqueueRequestsFromMapFunc (fun o t => (t, gatewaysForNamespace gateways (ob_Name o)))) always;
   mkWatch "Pod" (EnqueueRequestsFromMapFunc (fun o t => (t, gatewaysForResponderPod (ob_Namespace o) (ob_Labels o))))
     (NewPredicateFuncs L isResponderObject);
   mkWatch "ConfigMap" responderObjectEvents responderObjectPredicate;
   mkWatch "Service" responderObjectEvents responderObjectPredicate;
   mkWatch "Deployment" responderObjectEvents responderWorkloadPredicate;
   mkWatch "DaemonSet" responderObjectEvents responderWorkloadPredicate;
   mkWatch "PodDisruptionBudget" responderObjectEvents responderWorkloadPredicate;
   mkWatch "ServiceAccount" linkObjectEvents linkObjectPredicate;
   mkWatch "Role" linkObjectEvents linkObjectPredicate;
   mkWatch "RoleBinding" linkObjectEvents linkObjectPredicate;
   mkWatch "ClusterRoleBinding" linkObjectEvents linkObjectPredicate;
   mkWatch "ConfigMap" linkObjectEvents linkObjectPredicate;
   mkWatch "Deployment" linkObjectEvents linkWorkloadPredicate;
   mkWatch "DaemonSet" linkObjectEvents linkWorkloadPredicate;
   mkWatch "NetworkPolicy" linkObjectEvents linkWorkloadPredicate;
   mkWatch "PodDisruptionBudget" linkObjectEvents linkWorkloadPredicate].

(** One event through the watches of its kind. *)
Fixpoint dispatch (ws : list watch) (e : kube_event) (t : trackers) : trackers * list request :=
  match ws with
  | [] => (t, [])
  | w :: ws =>
      let '(t, r) := if bool_decide (wa_kind w = event_kind e) && wa_predicate w e then wa_handler w e t else (t, []) in
      let '(t, r') := dispatch ws e t in (t, r ++ r')
  end.

(** A change on the server: as the cache of its kind reports it, then through the watches. *)
Definition cached (e : kube_event) : option kube_event :=
  if bool_decide (event_kind e ∈ cacheOptions) then ByLabel L (fun o => LinkCacheSelector (ob_Labels o)) e else Some e.
Definition deliver (e : kube_event) (t : trackers) : trackers * list request :=
  match cached e with
  | Some e => dispatch SetupWithManager e t
  | None => (t, [])
  end.
End Setup.

(** ** Proofs: the cache *)
Lemma cache_view_some (m : gmap object_key object) (k : object_key) o : cache_view m k = Some o -> m !! k = Some o.
Proof. unfold cache_view. destruct (m !! k); [|done]. by destruct (_ && _). Qed.

Lemma cache_view_other (m : gmap object_key object) (k : object_key) : k.1.1 ∉ cacheOptions -> cache_view m k = m !! k.
Proof. intros Hk. unfold cache_view. destruct (m !! k) as [o|]; [|done]. by rewrite bool_decide_false. Qed.

(** ** Proofs: the table *)
Ltac dest_if t r :=
  match goal with |- context [if ?b then ?x else ?y] => destruct (if b then x else y) as [t r] end.

(** The drift watches: a kind, and whether its status writes are filtered out. *)
Definition link_table : list (string * bool) :=
  [("ServiceAccount", false); ("Role", false); ("RoleBinding", false); ("ClusterRoleBinding", false);
   ("ConfigMap", false); ("Deployment", true); ("DaemonSet", true); ("NetworkPolicy", true); ("PodDisruptionBudget", true)].
Definition responder_table : list (string * bool) :=
  [("ConfigMap", false); ("Service", false); ("Deployment", true); ("DaemonSet", true); ("PodDisruptionBudget", true)].

Definition kind_entry (table : list (string * bool)) (kind : string) : option bool :=
  snd <$> find (fun kw => bool_decide (kw.1 = kind)) table.

Section TableProofs.
Context (L : event_lib) `{!EventLib L} (gateways : result string (list Gateway)).

(** An event an update predicate lets through. *)
Definition changed (e : kube_event) : bool :=
  GenerationChangedPredicate L e || LabelChangedPredicate L e || AnnotationChangedPredicate L e.

(** Whether a drift watch of [table] on the objects of [p] fires. *)
Definition fires (p : object -> bool) (table : list (string * bool)) (e : kube_event) : bool :=
  match kind_entry table (event_kind e) with
  | Some workload => p (subject e) && (negb workload || changed e)
  | None => false
  end.

Definition drift_watch (h : event_handler) (p : object -> bool) (kw : string * bool) : watch :=
  mkWatch kw.1 h (fun e => NewPredicateFuncs L p e && (negb kw.2 || changed e)).

Lemma dispatch_app ws ws' e t :
  dispatch (ws ++ ws') e t =
  let '(t1, r1) := dispatch ws e t in let '(t2, r2) := dispatch ws' e t1 in (t2, r1 ++ r2).
Proof.
  revert t. induction ws as [|w ws IH]; intros t; cbn [dispatch app]; [by destruct (dispatch ws' e t)|].
  dest_if t0 r0. rewrite IH. destruct (dispatch ws e t0) as [t1 r1].
  destruct (dispatch ws' e t1). by rewrite app_assoc.
Qed.

Lemma dispatch_keeps ws e t :
  Forall (fun w => forall e t, (wa_handler w e t).1 = t) ws -> (dispatch ws e t).1 = t.
Proof.
  induction 1 as [|w ws Hw _ IH] in t |- *; cbn [dispatch]; [done|].
  assert (H0 : (if bool_decide (wa_kind w = event_kind e) && wa_predicate w e then wa_handler w e t else (t, [])).1 = t).
  { destruct (_ && _); [apply Hw|done]. }
  revert H0. dest_if t0 r0. intros H0. cbn in H0. subst t0. specialize (IH t). by destruct (dispatch ws e t).
Qed.

Lemma dispatch_other ws e t :
  Forall (fun w => wa_kind w <> event_kind e) ws -> dispatch ws e t = (t, []).
Proof. induction 1 as [|w ws Hw _ IH]; cbn [dispatch]; [done|]. rewrite bool_decide_false by done. cbn. by rewrite IH. Qed.

(** Drift watches of distinct kinds: at most one of them fires. *)
Lemma dispatch_table h p table e t :
  NoDup table.*1 ->
  dispatch (drift_watch h p <$> table) e t = if fires p table e then h e t else (t, []).
Proof.
  unfold fires, kind_entry. induction table as [|[k w] table IH]; intros Hnd; [done|].
  cbn in Hnd. apply NoDup_cons in Hnd as [Hk Hnd]. rewrite fmap_cons. cbn [dispatch drift_watch wa_kind fst snd find].
  destruct (decide (k = event_kind e)) as [E|E].
  - rewrite bool_decide_true by done. cbn [andb snd fmap option_fmap option_map].
    change (wa_predicate (drift_watch h p (k, w)) e) with (NewPredicateFuncs L p e && (negb w || changed e)).
    change (wa_handler (drift_watch h p (k, w))) with h. rewrite funcs_spec.
    assert (Ho : forall t', dispatch (drift_watch h p <$> table) e t' = (t', [])).
    { intros t'. apply dispatch_other, Forall_fmap, Forall_forall. intros [k' w'] Hin. cbn. intros E'. apply Hk.
      rewrite E, <- E'. apply list_elem_of_fmap. by exists (k', w'). }
    destruct (_ && _); [destruct (h e t)|]; by rewrite Ho, ?app_nil_r.
  - rewrite bool_decide_false by done. cbn [andb]. rewrite IH by done. by dest_if tx rx.
Qed.

(** The table in three parts: watches that mark nothing, the responder's and the link's. *)
Lemma Setup_parts :
  exists quiet, Forall (fun w => forall e t, (wa_handler w e t).1 = t) quiet /\
    forall e t, dispatch (SetupWithManager L gateways) e t =
      dispatch (quiet ++ (drift_watch (responderObjectEvents L) isResponderObject <$> responder_table) ++
                (drift_watch (linkObjectEvents L) isLinkObject <$> link_table)) e t.
Proof.
  exists (take 12 (SetupWithManager L gateways)). split.
  - assert (Hm : forall (f : object -> list request) l t, (mapped_over (fun o t => (t, f o)) l t).1 = t).
    { intros f l t. induction l as [|o l IH]; [done|]. cbn. by destruct (mapped_over _ l t). }
    cbn [take SetupWithManager]. repeat (apply Forall_cons; split; [intros e t; first [reflexivity|apply Hm]|]). constructor.
  - intros e t.
    assert (Hd : forall ws ws', Forall2 (fun w w' => wa_kind w = wa_kind w' /\ wa_handler w = wa_handler w' /\
      wa_predicate w e = wa_predicate w' e) ws ws' -> forall t, dispatch ws e t = dispatch ws' e t).
    { induction 1 as [|w w' ws ws' (E1 & E2 & E3) _ IH]; intros t'; [done|]. cbn [dispatch]. rewrite E1, E2, E3.
      dest_if tx rx. by rewrite IH. }
    apply Hd. rewrite <- (take_drop 12 (SetupWithManager L gateways)) at 1. apply Forall2_app.
    + apply Forall_Forall2_diag, Forall_forall. done.
    + cbn [drop SetupWithManager fmap list_fmap responder_table link_table app drift_watch fst snd].
      repeat (apply Forall2_cons; split; [split_and!; [reflexivity|reflexivity|
        first [reflexivity|exact (eq_sym (andb_true_r _))]]|]). constructor.
Qed.

Lemma dispatch_setup e t :
  exists r0, dispatch (SetupWithManager L gateways) e t =
    let '(t1, r1) := if fires isResponderObject responder_table e then responderObjectEvents L e t else (t, []) in
    let '(t2, r2) := if fires isLinkObject link_table e then linkObjectEvents L e t1 else (t1, []) in
    (t2, r0 ++ r1 ++ r2).
Proof.
  destruct Setup_parts as (quiet & Hq & ->). rewrite dispatch_app.
  pose proof (dispatch_keeps quiet e t Hq) as H0. destruct (dispatch quiet e t) as [t0 r0]. cbn in H0. subst t0. exists r0.
  rewrite dispatch_app, dispatch_table by (apply (bool_decide_unpack _); vm_compute; exact I). dest_if t1 r1.
  rewrite dispatch_table by (apply (bool_decide_unpack _); vm_compute; exact I). by dest_if t2 r2.
Qed.

Definition link_marks (l : list object) (d : dirtyTracker) : dirtyTracker := foldl (fun d o => (gatewaysForLinkObject o d).1) d l.
Definition responder_marks (l : list object) (d : dirtyTracker) : dirtyTracker :=
  foldl (fun d o => (gatewaysForResponderObject o d).1) d l.

Lemma mapped_link l t :
  mapped_over (fun o t => let '(d, r) := gatewaysForLinkObject o (tr_link t) in (set_link d t, r)) l t =
  (set_link (link_marks l (tr_link t)) t, flat_map (fun o => (gatewaysForLinkObject o ∅).2) l).
Proof.
  revert t. induction l as [|o l IH]; intros t; [by destruct t|]. cbn [mapped_over flat_map link_marks foldl].
  assert (Hr : (gatewaysForLinkObject o (tr_link t)).2 = (gatewaysForLinkObject o ∅).2).
  { unfold gatewaysForLinkObject. by destruct (linkObjectGateway o). }
  destruct (gatewaysForLinkObject o (tr_link t)) as [d r]. cbn in Hr. subst r. by rewrite IH.
Qed.

Lemma mapped_responder l t :
  mapped_over (fun o t => let '(d, r) := gatewaysForResponderObject o (tr_responder t) in (set_responder d t, r)) l t =
  (set_responder (responder_marks l (tr_responder t)) t, flat_map (fun o => (gatewaysForResponderObject o ∅).2) l).
Proof.
  revert t. induction l as [|o l IH]; intros t; [by destruct t|]. cbn [mapped_over flat_map responder_marks foldl].
  assert (Hr : (gatewaysForResponderObject o (tr_responder t)).2 = (gatewaysForResponderObject o ∅).2).
  { unfold gatewaysForResponderObject. destruct (ob_Controller o) as [w|]; [|done]. by destruct (isGatewayOwner (Some w)). }
  destruct (gatewaysForResponderObject o (tr_responder t)) as [d r]. cbn in Hr. subst r. by rewrite IH.
Qed.

Lemma link_requested l o key :
  o ∈ l -> linkObjectGateway o = Some key -> key ∈ flat_map (fun o => (gatewaysForLinkObject o ∅).2) l.
Proof.
  intros Ho Hk. apply list_elem_of_In, in_flat_map. exists o. rewrite <- !list_elem_of_In. split; [done|].
  unfold gatewaysForLinkObject. rewrite Hk. by left.
Qed.

Lemma responder_requested l o owner :
  o ∈ l -> ob_Controller o = Some owner -> isGatewayOwner (Some owner) = true ->
  (ob_Namespace o, ow_Name owner) ∈ flat_map (fun o => (gatewaysForResponderObject o ∅).2) l.
Proof.
  intros Ho Hc Hg. apply list_elem_of_In, in_flat_map. exists o. rewrite <- !list_elem_of_In. split; [done|].
  unfold gatewaysForResponderObject. rewrite Hc, Hg. by left.
Qed.

(** Exactly which events mark a tracker, and that a marked Gateway is enqueued. *)
Lemma deliver_exact e t :
  tr_link (deliver L gateways e t).1 =
    match cached L e with
    | Some e => if fires isLinkObject link_table e then link_marks (involved e) (tr_link t) else tr_link t
    | None => tr_link t
    end /\
  tr_responder (deliver L gateways e t).1 =
    match cached L e with
    | Some e => if fires isResponderObject responder_table e then responder_marks (involved e) (tr_responder t) else tr_responder t
    | None => tr_responder t
    end /\
  forall e' o, cached L e = Some e' -> o ∈ involved e' ->
    (fires isLinkObject link_table e' = true -> forall key, linkObjectGateway o = Some key -> key ∈ (deliver L gateways e t).2) /\
    (fires isResponderObject responder_table e' = true -> forall owner, ob_Controller o = Some owner ->
       isGatewayOwner (Some owner) = true -> (ob_Namespace o, ow_Name owner) ∈ (deliver L gateways e t).2).
Proof.
  unfold deliver. destruct (cached L e) as [e'|]; [|done]. destruct (dispatch_setup e' t) as [r0 ->].
  unfold responderObjectEvents, linkObjectEvents, EnqueueRequestsFromMapFunc. rewrite mapped_spec, mapped_responder.
  destruct (fires isResponderObject _ e') eqn:Er; rewrite mapped_link; destruct (fires isLinkObject _ e') eqn:El;
    (split_and!; [done|done|]; intros e1 o [= <-] Ho; split; intros Hf; try congruence).
  - intros key Hk. cbn [snd]. rewrite !elem_of_app. right. right. exact (link_requested _ _ _ Ho Hk).
  - intros owner Hc Hg. cbn [snd]. rewrite !elem_of_app. right. left. exact (responder_requested _ _ _ Ho Hc Hg).
  - intros owner Hc Hg. cbn [snd]. rewrite !elem_of_app. right. left. exact (responder_requested _ _ _ Ho Hc Hg).
  - intros key Hk. cbn [snd]. rewrite !elem_of_app. right. right. exact (link_requested _ _ _ Ho Hk).
Qed.

(** ** Proofs: what is noticed *)
Definition is_dirty (d : dirtyTracker) (key : request) : Prop := (dirty_take d key).2 = true.

Lemma mark_dirty d k key : k = key \/ is_dirty d key -> is_dirty (dirty_mark d k) key.
Proof.
  unfold is_dirty, dirty_take, dirty_mark, dirtyTracker in *. cbn. rewrite lookup_insert. case_decide; naive_solver.
Qed.

Lemma link_marks_dirty l d key :
  is_dirty d key \/ (exists o, o ∈ l /\ linkObjectGateway o = Some key) -> is_dirty (link_marks l d) key.
Proof.
  unfold link_marks. revert d. induction l as [|o l IH]; intros d H; cbn [foldl].
  { destruct H as [?|(o & Ho & _)]; [done|]. by apply elem_of_nil in Ho. }
  apply IH. destruct H as [Hd|(o' & [->|Ho]%elem_of_cons & Hk)]; [left|left|right; by exists o'].
  - unfold gatewaysForLinkObject. destruct (linkObjectGateway o); [apply mark_dirty; by right|done].
  - unfold gatewaysForLinkObject. rewrite Hk. apply mark_dirty. by left.
Qed.

Lemma responder_marks_dirty l d o owner :
  o ∈ l -> ob_Controller o = Some owner -> isGatewayOwner (Some owner) = true ->
  is_dirty (responder_marks l d) (ob_Namespace o, ow_Name owner).
Proof.
  intros Ho Hc Hg. unfold responder_marks.
  assert (Hkeep : forall l d, is_dirty d (ob_Namespace o, ow_Name owner) ->
    is_dirty (foldl (fun d o => (gatewaysForResponderObject o d).1) d l) (ob_Namespace o, ow_Name owner)).
  { clear l d Ho. induction l as [|x l IH]; intros d Hd; [done|]. apply IH. unfold gatewaysForResponderObject.
    destruct (ob_Controller x) as [w|]; [|done]. destruct (isGatewayOwner (Some w)); [apply mark_dirty; by right|done]. }
  revert d. induction l as [|x l IH]; intros d; [by apply elem_of_nil in Ho|]. cbn [foldl].
  apply elem_of_cons in Ho as [<-|Ho]; [|by apply IH]. apply Hkeep. unfold gatewaysForResponderObject. rewrite Hc, Hg.
  apply mark_dirty. by left.
Qed.

(** No event unmarks a Gateway. *)
Lemma deliver_keeps_dirty e t key : is_dirty (tr_link t) key -> is_dirty (tr_link (deliver L gateways e t).1) key.
Proof.
  intros Hd. rewrite (proj1 (deliver_exact e t)). destruct (cached L e); [|done].
  destruct (fires _ _ _); [apply link_marks_dirty; by left|done].
Qed.

(** An edit of more than a filtered object's status or owner. *)
Definition drifts (old new : object) (g : bool) : bool :=
  g || negb (bool_decide (ob_Labels new = ob_Labels old)) || negb (bool_decide (ob_Annotations new = ob_Annotations old)).

Lemma changed_update old new g : changed (Updated old new g) = drifts old new g.
Proof. unfold changed. by rewrite generation_spec, label_spec, annotation_spec. Qed.

(** The edits of a link object that the watches report. *)
Definition link_seen (old new : object) (g : bool) : bool :=
  bool_decide (ob_Kind new ∈ cacheOptions) ||
  isLinkObject new && (negb (default true (kind_entry link_table (ob_Kind new))) || drifts old new g).

Lemma selector_link o : LinkCacheSelector (ob_Labels o) = true -> isLinkObject o = true.
Proof.
  unfold LinkCacheSelector, isLinkObject, is_component, map_get. intros H%bool_decide_eq_true. rewrite H. cbn.
  by rewrite bool_decide_true.
Qed.

Lemma link_edit_noticed old new g t key :
  ob_Kind new = ob_Kind old -> is_Some (kind_entry link_table (ob_Kind new)) ->
  LinkCacheSelector (ob_Labels old) = true -> linkObjectGateway old = Some key -> link_seen old new g = true ->
  is_dirty (tr_link (deliver L gateways (Updated old new g) t).1) key /\ key ∈ (deliver L gateways (Updated old new g) t).2.
Proof.
  intros Hk Hin Hsel Hkey Hseen. destruct (deliver_exact (Updated old new g) t) as (Hl & _ & Hr).
  assert (H : exists e', cached L (Updated old new g) = Some e' /\ old ∈ involved e' /\ fires isLinkObject link_table e' = true).
  { unfold cached, event_kind. cbn [subject]. unfold link_seen in Hseen. destruct (bool_decide (ob_Kind new ∈ cacheOptions)) eqn:Ec.
    - rewrite selected_spec. cbn [selected]. rewrite Hsel.
      assert (Hw : kind_entry link_table (ob_Kind new) = Some false).
      { apply bool_decide_eq_true in Ec. unfold cacheOptions in Ec. rewrite !elem_of_cons, elem_of_nil in Ec.
        destruct_or! Ec; try done; rewrite Ec; reflexivity. }
      destruct (LinkCacheSelector (ob_Labels new)) eqn:Es; eexists; (split_and!; [reflexivity|by left|]);
        unfold fires, event_kind; cbn [subject]; rewrite <- ?Hk, Hw; cbn; by rewrite selector_link.
    - eexists. split_and!; [reflexivity|by left|]. unfold fires, event_kind. cbn [subject]. destruct Hin as [w Hw].
      rewrite Hw, changed_update in *. cbn [default orb] in Hseen. exact Hseen. }
  destruct H as (e' & He & Hold & Hf). split.
  - rewrite Hl, He, Hf. apply link_marks_dirty. right. by exists old.
  - exact (proj1 (Hr e' old He Hold) Hf key Hkey).
Qed.

Lemma responder_edit_noticed old new g t owner w :
  ob_Kind new = ob_Kind old -> kind_entry responder_table (ob_Kind new) = Some w ->
  ob_Controller old = Some owner -> isGatewayOwner (Some owner) = true ->
  isResponderObject new = true -> (w = true -> drifts old new g = true) ->
  is_dirty (tr_responder (deliver L gateways (Updated old new g) t).1) (ob_Namespace old, ow_Name owner) /\
  (ob_Namespace old, ow_Name owner) ∈ (deliver L gateways (Updated old new g) t).2.
Proof.
  intros Hk Hw Hc Hg Hres Hd. destruct (deliver_exact (Updated old new g) t) as (_ & Hr & Hq).
  assert (He : cached L (Updated old new g) = Some (Updated old new g)).
  { unfold cached, event_kind. cbn [subject]. rewrite bool_decide_false; [done|]. intros Hin. unfold cacheOptions in Hin.
    rewrite !elem_of_cons, elem_of_nil in Hin. destruct_or! Hin; try done; rewrite Hin in Hw; done. }
  assert (Hf : fires isResponderObject responder_table (Updated old new g) = true).
  { unfold fires, event_kind. cbn [subject]. rewrite Hw, Hres, changed_update. destruct w; [by rewrite Hd|done]. }
  split.
  - rewrite Hr, He, Hf. apply responder_marks_dirty; [by left|done|done].
  - exact (proj2 (Hq _ old He (list_elem_of_here _ _)) Hf owner Hc Hg).
Qed.

(** A watch of the event's kind that lets it through enqueues what its handler returns. *)
Lemma dispatch_in ws w e t key :
  w ∈ ws -> wa_kind w = event_kind e -> wa_predicate w e = true -> (forall t, key ∈ (wa_handler w e t).2) ->
  key ∈ (dispatch ws e t).2.
Proof.
  intros Hw Hk Hp Hh. revert t. induction ws as [|x ws IH]; intros t; [by apply elem_of_nil in Hw|]. cbn [dispatch].
  apply elem_of_cons in Hw as [<-|Hw].
  - rewrite bool_decide_true, Hp by done. cbn [andb]. specialize (Hh t). destruct (wa_handler w e t) as [t0 r0].
    destruct (dispatch ws e t0). cbn in *. apply elem_of_app. by left.
  - dest_if t0 r0. specialize (IH Hw t0). destruct (dispatch ws e t0). cbn in *. apply elem_of_app. by right.
Qed.

(** Any write to an owned object of these kinds, of its status alone too, enqueues its
    Gateway: a workload's readiness and the composite's addresses arrive this way. *)
Lemma owned_event_noticed e t o owner :
  event_kind e ∈ ["Deployment"; "DaemonSet"; "ConfigMap"; "Secret"; "Service"; "PodDisruptionBudget"; XGatewayGCPGVK] ->
  o ∈ involved e -> ob_Controller o = Some owner -> isGatewayOwner (Some owner) = true ->
  (ob_Namespace o, ow_Name owner) ∈ (deliver L gateways e t).2.
Proof.
  intros Hk Ho Hc Hg. rewrite !elem_of_cons, elem_of_nil in Hk. unfold deliver, cached. rewrite bool_decide_false.
  - apply (dispatch_in _ (Owns L (event_kind e) always)); [|done|done|intros ?; exact (owner_spec e o owner Ho Hc Hg)].
    unfold SetupWithManager. rewrite !elem_of_cons. destruct Hk as [->|[->|[->|[->|[->|[->|[->|[]]]]]]]]; tauto.
  - destruct Hk as [->|[->|[->|[->|[->|[->|[->|[]]]]]]]]; apply (bool_decide_unpack _); vm_compute; exact I.
Qed.
End TableProofs.

(** ** The library as documented *)
Definition sample_lib : event_lib :=
  mkEventLib (fun p e => p (subject e))
    (fun e => match e with Updated _ _ g => g | _ => true end)
    (fun e => match e with Updated old new _ => negb (bool_decide (ob_Labels new = ob_Labels old)) | _ => true end)
    (fun e => match e with Updated old new _ => negb (bool_decide (ob_Annotations new = ob_Annotations old)) | _ => true end)
    involved
    (fun e => flat_map (fun o => match ob_Controller o with
                                 | Some owner => if isGatewayOwner (Some owner) then [(ob_Namespace o, ow_Name owner)] else []
                                 | None => []
                                 end) (involved e))
    selected.

#[global] Instance sample_EventLib : EventLib sample_lib.
Proof.
  split; try done.
  - intros [o|old new g|o] H; try done. by destruct (H old new g).
  - intros e o owner Ho Hc Hg. apply list_elem_of_In, in_flat_map. exists o. rewrite <- !list_elem_of_In, Hc, Hg.
    split; [done|by left].
Qed.
