(* ===== verification/Ensure.v ===== *)
(** * Applying a Gateway's objects: applyObjectIfChanged and apply of
      internal/controller/gateway_controller.go, ensureLink of link.go and
      ensureGatewayResponder of responder.go

    Every object carries the hash of what was last applied, and a pass skips an object
    whose hash matches. That alone would never repair an object edited by someone else,
    so the watches mark a Gateway dirty and a dirty pass applies everything.
    [link_pass_settles] shows the two mechanisms together are as good as applying every
    object on every pass, for the edits the watches report and reads that are up to date:
    along any run of those, deletions, restarts and failing passes, a pass that returns
    without error leaves every link object as desired. [drift_noticed] shows which edits those are, and [owner_edit_unrepaired] one
    that is not. *)

From S2P Require Import Prelude GoStrings Identity Config Kube Forwards LinkConfig Status Effects LinkObjects Responder Watches Setup.

Definition linkHashAnnotation : string := "wgnet.dev/link-hash".
Definition responderHashAnnotation : string := "wgnet.dev/responder-hash".

(** The API server's objects and the operator's two dirty trackers. *)
Record astate := mkAState {
  as_objects : gmap object_key object;
  as_linkDirty : dirtyTracker;
  as_responderDirty : dirtyTracker
}.

Definition set_objects (m : gmap object_key object) (s : astate) : astate :=
  mkAState m (as_linkDirty s) (as_responderDirty s).
Definition set_linkDirty (d : dirtyTracker) (s : astate) : astate :=
  mkAState (as_objects s) d (as_responderDirty s).
Definition set_responderDirty (d : dirtyTracker) (s : astate) : astate :=
  mkAState (as_objects s) (as_linkDirty s) d.

Inductive acall := CGet (k : object_key) | CPatch (k : object_key) | CDelete (k : object_key).

Definition drop_annotation (k : string) (o : object) : object :=
  mkObject (ob_Kind o) (ob_Namespace o) (ob_Name o) (ob_Labels o) (delete k (ob_Annotations o))
    (ob_Controller o) (ob_Deleting o) (ob_Body o).

(** The controller reference SetControllerReference stamps. *)
Definition gateway_ref (gw : Gateway) : owner_ref :=
  mkOwnerRef GatewayAPIVersion "Gateway" (gw_Name gw) (gw_UID gw).

Definition is_err {A} (r : result string A) : bool := match r with Ok _ => false | Err _ => true end.

(** A failing computation's error with a prefix, as [fmt.Errorf("...: %w", err)]. *)
Definition st_wrap {S A} (prefix : string) (m : st S A) : st S A :=
  fun s => match m s with
           | (s', Err e) => (s', Err (prefix +:+ ": " +:+ e))
           | r => r
           end.

(** What one pass of ensureLink is given. *)
Record link_inputs := mkLinkInputs {
  li_gw : Gateway;
  li_address : string;
  li_backends : list forwardBackend;
  li_ident : option GatewayIdentity;
  li_gatewayPublicKey : string;
  li_fleetPeers : list Peer;
  li_healthPort : Z;
  li_responders : gmap string string;
  li_responderTarget : string
}.

Section Ensure.
(** Server-side apply with forced ownership: the stored object after [desired] is applied
    over the live one, if any. *)
Variable ssa : option object -> object -> object.
(** Hexadecimal SHA-256 of an object's JSON encoding; SHA-256 of a text, in hexadecimal
    and as the base32 of names; the JSON encoding of a runtime config. *)
Variable hash : object -> string.
Variables sha256 digest32 : string -> string.
Variable encode : RuntimeConfig -> string.
Variable cfg : OperatorConfig.

Definition objectHash (o : object) (gateAnnotation : string) : string := hash (drop_annotation gateAnnotation o).

(** The object as it is sent: its hash stamped, its owner referenced. *)
Definition stamped (owner : option Gateway) (gate : string) (o : object) : object :=
  let o := set_annotation gate (objectHash o gate) o in
  match owner with Some gw => set_controller (Some (gateway_ref gw)) o | None => o end.

Section Pass.
(** Which calls fail, and what the cached client shows; it may lag behind the server. *)
Variable fault : acall -> call_fault.
Variable seen : object_key -> option object.

(** The patch; the stored object is read back into the caller's. *)
Definition apply (desired : object) : st astate object :=
  fun s =>
    let o := ssa (as_objects s !! ob_key desired) desired in
    let s' := set_objects (<[ob_key desired := o]> (as_objects s)) s in
    match fault (CPatch (ob_key desired)) with
    | None => (s', Ok o)
    | Some (e, effect) => (if effect : bool then s' else s, Err e)
    end.

(** Whether it applied, what the cache showed, and what the server stored. *)
Definition applyObjectIfChanged (owner : option Gateway) (gateAnnotation : string) (desired : object)
    (force : bool) : st astate (bool * option object * object) :=
  let h := objectHash desired gateAnnotation in
  let desired' := stamped owner gateAnnotation desired in
  let! live := st_read (fault (CGet (ob_key desired))) (fun _ => seen (ob_key desired)) in
  match live with
  | Some l => if negb force && bool_decide (map_get "" (ob_Annotations l) gateAnnotation = h)
              then st_ret (false, live, desired')
              else let! o := apply desired' in st_ret (true, live, o)
  | None => let! o := apply desired' in st_ret (true, live, o)
  end.

Definition deleteIfPresent (k : object_key) : st astate unit :=
  st_write (fault (CDelete k)) (fun s => set_objects (delete k (as_objects s)) s).

(** Delete an object no longer wanted, if the cache shows it live. *)
Definition delete_leftover (k : object_key) : st astate unit :=
  let! found := st_read (fault (CGet k)) (fun _ => seen k) in
  match found with
  | None => st_ret tt
  | Some probe => if ob_Deleting probe then st_ret tt else deleteIfPresent k
  end.

(** ** The link *)
Fixpoint apply_each (gate : string) (force : bool) (l : list (option Gateway * object)) : st astate unit :=
  match l with
  | [] => st_ret tt
  | (owner, o) :: l => applyObjectIfChanged owner gate o force ;! apply_each gate force l
  end.

Definition pdb_key (gw : Gateway) (name : string) : object_key := ("PodDisruptionBudget", gw_Namespace gw, name).

(** The link's objects in the order they are applied. *)
Definition link_desired (i : link_inputs) : list (option Gateway * object) :=
  let gw := li_gw i in
  let own o := (Some gw, o) in
  let rc := buildLinkConfig gw (li_address i) (li_backends i) (li_ident i) (li_gatewayPublicKey i)
              (li_fleetPeers i) (li_healthPort i) (li_responders i) (li_responderTarget i) in
  [own (buildLinkServiceAccount gw); own (buildLinkRole gw); own (buildLinkRoleBinding gw);
   own (buildLinkConfigMap encode gw rc)] ++
  match li_ident i with
  | Some _ => [(None, buildLinkClusterRoleBinding digest32 gw); own (buildLinkDaemonSet gw cfg (li_ident i))]
  | None =>
      [own (buildLinkNetworkPolicy gw (li_backends i)); own (buildLinkDeployment gw cfg)] ++
      if 1 <? effectiveLinkReplicas gw then [own (buildLinkPodDisruptionBudget gw)] else []
  end.

Definition wants_budget (i : link_inputs) : bool :=
  match li_ident i with Some _ => true | None => 1 <? effectiveLinkReplicas (li_gw i) end.

Definition link_pass (i : link_inputs) (force : bool) : st astate unit :=
  apply_each linkHashAnnotation force (link_desired i) ;!
  if wants_budget i then st_ret tt
  else delete_leftover (pdb_key (li_gw i) (linkComponentName (li_gw i))).

Definition ensureLink (i : link_inputs) : st astate unit :=
  fun s =>
    let key := gw_key (li_gw i) in
    let '(d, force) := dirty_take (as_linkDirty s) key in
    let '(s1, r) := link_pass i force (set_linkDirty d s) in
    (if force && is_err r then set_linkDirty (dirty_mark (as_linkDirty s1) key) s1 else s1, r).

(** ** The responder *)
Definition deleteResponderLeftover (gw : Gateway) (kind : string) : st astate unit :=
  delete_leftover (kind, gw_Namespace gw, responderComponentName gw).

Definition clusterIP_of (o : object) : string :=
  match ob_path ["spec"; "clusterIP"] o with Some (YString ip) => ip | _ => "" end.

Definition responder_pass (gw : Gateway) (force : bool) : st astate string :=
  let ensure o := applyObjectIfChanged (Some gw) responderHashAnnotation o force in
  st_wrap "apply responder configmap" (ensure (buildResponderConfigMap gw)) ;!
  let! svc := st_wrap "apply responder service" (ensure (buildResponderService gw)) in
  let '(applied, liveSvc, desiredSvc) := svc in
  if gw_isLocal gw then
    st_wrap "apply responder daemonset" (ensure (buildResponderDaemonSet sha256 cfg gw)) ;!
    deleteResponderLeftover gw "Deployment" ;!
    deleteResponderLeftover gw "PodDisruptionBudget" ;!
    st_ret ""
  else
    st_wrap "apply responder deployment" (ensure (buildResponderDeployment sha256 cfg gw)) ;!
    deleteResponderLeftover gw "DaemonSet" ;!
    (if 1 <? effectiveResponderReplicas gw
     then st_wrap "apply responder poddisruptionbudget" (ensure (buildResponderPodDisruptionBudget gw)) ;! st_ret tt
     else deleteResponderLeftover gw "PodDisruptionBudget") ;!
    let clusterIP := if applied : bool then clusterIP_of desiredSvc
                     else default "" (clusterIP_of <$> liveSvc) in
    if bool_decide (clusterIP = "")
    then st_err ("get responder service: " +:+ gw_Namespace gw +:+ "/" +:+ responderComponentName gw +:+ " has no clusterIP")
    else st_ret clusterIP.

Definition ensureGatewayResponder (gw : Gateway) : st astate string :=
  fun s =>
    let '(d, force) := dirty_take (as_responderDirty s) (gw_key gw) in
    let '(s1, r) := responder_pass gw force (set_responderDirty d s) in
    (if force && is_err r then set_responderDirty (dirty_mark (as_responderDirty s1) (gw_key gw)) s1 else s1, r).
End Pass.
End Ensure.

(** ** The interface of the API server's apply *)

(** What an applied object promises of the stored one: it carries the desired labels and
    annotations, the desired controller if there is one, and a conforming body. *)
Record conforms (body_ok : list (string * yaml) -> list (string * yaml) -> Prop) (d live : object) : Prop := {
  cf_key : ob_key live = ob_key d;
  cf_labels : ob_Labels d ⊆ ob_Labels live;
  cf_annotations : ob_Annotations d ⊆ ob_Annotations live;
  cf_controller : ob_Controller d = None \/ ob_Controller live = ob_Controller d;
  cf_body : body_ok (ob_Body d) (ob_Body live)
}.

(** Documented behaviour of server-side apply with forced ownership; fields it does not
    name, a pending deletion and a foreign controller stay. *)
Class ServerSideApply (body_ok : list (string * yaml) -> list (string * yaml) -> Prop)
    (ssa : option object -> object -> object) : Prop := {
  ssa_conforms live d :
    (forall o, live = Some o -> ob_key o = ob_key d) -> conforms body_ok d (ssa live d);
  ssa_controller live d :
    ob_Controller d = None -> ob_Controller (ssa live d) = (live ≫= ob_Controller)
}.

Section Settles.
Context (body_ok : list (string * yaml) -> list (string * yaml) -> Prop).
Context (ssa : option object -> object -> object) `{!ServerSideApply body_ok ssa}.
Context (hash : object -> string) (digest32 : string -> string) (encode : RuntimeConfig -> string).
Context (cfg : OperatorConfig).

Abbreviation gate := linkHashAnnotation.
Abbreviation desired := (link_desired digest32 encode cfg).
Abbreviation sent := (fun x : option Gateway * object => stamped hash x.1 gate x.2).
Abbreviation dkey := (fun x : option Gateway * object => ob_key x.2).

Lemma stamped_key owner g o : ob_key (stamped hash owner g o) = ob_key o.
Proof. by destruct owner. Qed.

Lemma stamped_hash owner g o :
  ob_Annotations (stamped hash owner g o) !! g = Some (objectHash hash o g).
Proof. destruct owner; cbn; by rewrite lookup_insert_eq. Qed.

(** The objects are keyed by their own names. *)
Definition keyed (s : astate) : Prop := forall k o, as_objects s !! k = Some o -> ob_key o = k.

Lemma ssa_sent s owner g d :
  keyed s -> conforms body_ok (stamped hash owner g d)
    (ssa (as_objects s !! ob_key (stamped hash owner g d)) (stamped hash owner g d)).
Proof. intros Hk. apply ssa_conforms. intros o Ho. exact (Hk _ _ Ho). Qed.

Section OnePass.
Context (fault : acall -> call_fault) (seen : object_key -> option object).

Definition put (k : object_key) (d : object) (s : astate) : astate :=
  set_objects (<[k := ssa (as_objects s !! k) d]> (as_objects s)) s.

Lemma apply_ok d s s' o : apply ssa fault d s = (s', Ok o) -> s' = put (ob_key d) d s.
Proof. unfold apply. destruct (fault _) as [[e []]|]; intros [= <- _]; done. Qed.

Lemma apply_any d s s' r : apply ssa fault d s = (s', r) -> s' = s \/ s' = put (ob_key d) d s.
Proof. unfold apply. destruct (fault _) as [[e []]|]; intros [= <- _]; auto. Qed.

(** A call of the gate that returns: the object was applied, or it was skipped because
    the cache showed its hash. *)
Lemma applyObjectIfChanged_ok owner g d force s s' r :
  applyObjectIfChanged ssa hash fault seen owner g d force s = (s', Ok r) ->
  s' = put (ob_key d) (stamped hash owner g d) s \/
  (force = false /\ s' = s /\
   exists l, seen (ob_key d) = Some l /\ map_get "" (ob_Annotations l) g = objectHash hash d g).
Proof.
  unfold applyObjectIfChanged.
  intros (s1 & live & (Hf & -> & ->)%st_read_ok & H1)%st_bind_ok.
  destruct (seen (ob_key d)) as [l|] eqn:El; [destruct (negb force && bool_decide _) eqn:Eg|].
  - apply andb_true_iff in Eg as [Hn%negb_true_iff Hh%bool_decide_eq_true].
    injection H1 as <- _. right. eauto.
  - apply st_bind_ok in H1 as (s2 & o & H2%apply_ok & [= <- _]). rewrite stamped_key in H2. auto.
  - apply st_bind_ok in H1 as (s2 & o & H2%apply_ok & [= <- _]). rewrite stamped_key in H2. auto.
Qed.

Lemma applyObjectIfChanged_any owner g d force s s' r :
  applyObjectIfChanged ssa hash fault seen owner g d force s = (s', r) ->
  s' = s \/ s' = put (ob_key d) (stamped hash owner g d) s.
Proof.
  assert (Happ : forall l b s s' r, (let! o := apply ssa fault (stamped hash owner g d) in st_ret (b : bool, l : option object, o)) s = (s', r) ->
    s' = s \/ s' = put (ob_key d) (stamped hash owner g d) s).
  { intros l b s0 s0' r0. unfold st_bind. destruct (apply _ _ _ _) as [s2 [o|e]] eqn:E2;
      apply apply_any in E2; rewrite stamped_key in E2; intros [= <- _]; done. }
  unfold applyObjectIfChanged, st_bind at 1, st_read. destruct (fault _) as [[]|]; [intros [= <- _]; auto|].
  destruct (seen (ob_key d)); [destruct (_ && _); [intros [= <- _]; auto|]|]; apply Happ.
Qed.

(** Each pair is either applied or skipped on its hash, and nothing else changes. *)
Lemma apply_each_ok l force s s' a :
  NoDup (dkey <$> l) ->
  apply_each ssa hash fault seen gate force l s = (s', Ok a) ->
  as_linkDirty s' = as_linkDirty s /\
  (forall k, k ∉ (dkey <$> l) -> as_objects s' !! k = as_objects s !! k) /\
  (forall x, x ∈ l ->
     as_objects s' !! dkey x = Some (ssa (as_objects s !! dkey x) (sent x)) \/
     (force = false /\ as_objects s' !! dkey x = as_objects s !! dkey x /\
      exists o, seen (dkey x) = Some o /\ map_get "" (ob_Annotations o) gate = objectHash hash x.2 gate)).
Proof.
  revert s. induction l as [|[owner d] l IH]; intros s Hnd; cbn [apply_each].
  { intros [= <- _]. split_and!; [done..|]. intros x Hx. by apply not_elem_of_nil in Hx. }
  rewrite fmap_cons, NoDup_cons in Hnd. destruct Hnd as [Hnot Hnd].
  intros (s1 & r & H1 & H2)%st_bind_ok.
  destruct (IH s1 Hnd H2) as (Hdirty & Hframe & Hall).
  apply applyObjectIfChanged_ok in H1.
  assert (Hout : forall k, k <> ob_key d -> as_objects s1 !! k = as_objects s !! k).
  { intros k Hk. destruct H1 as [-> | (_ & -> & _)]; [|done]. cbn. by rewrite lookup_insert_ne by congruence. }
  split_and!.
  - rewrite Hdirty. by destruct H1 as [-> | (_ & -> & _)].
  - intros k Hk. rewrite fmap_cons, not_elem_of_cons in Hk. destruct Hk as [Hk1 Hk2].
    rewrite Hframe by done. by apply Hout.
  - intros x [-> | Hx]%elem_of_cons.
    + cbn [fst snd]. rewrite (Hframe (ob_key d) Hnot). destruct H1 as [-> | (Hff & -> & Hs)]; [left|by right].
      cbn. by rewrite lookup_insert_eq.
    + assert (Hne : dkey x <> ob_key d).
      { intros E. apply Hnot. change (ob_key d ∈ dkey <$> l). rewrite <- E. by apply (list_elem_of_fmap_2 dkey). }
      rewrite <- (Hout _ Hne). exact (Hall x Hx).
Qed.

(** A cluster-scoped object has no controller: no namespaced object can own it. *)
Definition wf (s : astate) : Prop :=
  forall k o, as_objects s !! k = Some o ->
    ob_key o = k /\ (ob_Kind o = "ClusterRoleBinding" -> ob_Controller o = None).

Lemma wf_keyed s : wf s -> keyed s.
Proof. intros Hw k o Ho. exact (proj1 (Hw k o Ho)). Qed.

(** Every object is owned by the Gateway, but for the cluster-scoped binding. *)
Lemma desired_owner i x :
  x ∈ desired i ->
  (x.1 = Some (li_gw i) /\ ob_Namespace x.2 = gw_Namespace (li_gw i) /\ ob_Kind x.2 <> "ClusterRoleBinding") \/
  x = (None, buildLinkClusterRoleBinding digest32 (li_gw i)).
Proof.
  unfold link_desired. rewrite elem_of_app, !elem_of_cons, elem_of_nil.
  intros [Hx | Hx]; [left; by destruct_or!; subst x|].
  destruct (li_ident i); [|destruct (1 <? _)]; cbn in Hx; rewrite ?elem_of_cons, ?elem_of_nil in Hx;
    destruct_or!; subst x; by auto.
Qed.

(** What a pass, whatever fails, can do to the objects. *)
Definition evolves (i : link_inputs) (s s' : astate) : Prop :=
  as_linkDirty s' = as_linkDirty s /\
  (wf s -> wf s' /\ forall k o', as_objects s' !! k = Some o' ->
     as_objects s !! k = Some o' \/ exists x, x ∈ desired i /\ dkey x = k /\ conforms body_ok (sent x) o').

#[local] Instance evolves_preorder i : PreOrder (evolves i).
Proof.
  split.
  - intros s. split; [done|]. intros Hw. split; [done|]. auto.
  - intros s1 s2 s3 [Hd1 H1] [Hd2 H2]. split; [congruence|]. intros Hw.
    destruct (H1 Hw) as [Hw2 Ho2]. destruct (H2 Hw2) as [Hw3 Ho3]. split; [done|].
    intros k o [Ho|Ho]%Ho3; [exact (Ho2 _ _ Ho)|by right].
Qed.

Lemma evolves_put i x s : x ∈ desired i -> evolves i s (put (dkey x) (sent x) s).
Proof.
  intros Hx. split; [done|]. intros Hw.
  assert (Hc : conforms body_ok (sent x) (ssa (as_objects s !! dkey x) (sent x))).
  { pose proof (ssa_sent s x.1 gate x.2 (wf_keyed _ Hw)) as Hs. by rewrite stamped_key in Hs. }
  split.
  - intros k o. cbn. rewrite lookup_insert_Some. intros [[<- <-]|[_ Ho]]; [|exact (Hw _ _ Ho)].
    pose proof (cf_key _ _ _ Hc) as Hkey. rewrite stamped_key in Hkey. split; [done|]. intros Hkind.
    assert (Hk2 : ob_Kind x.2 = "ClusterRoleBinding").
    { rewrite <- Hkind. injection Hkey as -> _ _. done. }
    destruct (desired_owner i x Hx) as [(_ & _ & Hno)|Ex]; [by destruct Hno|].
    rewrite ssa_controller by (by rewrite Ex).
    destruct (as_objects s !! ob_key x.2) as [o|] eqn:E; [|done]. cbn. apply (Hw _ _ E).
    destruct (Hw _ _ E) as [Hko _]. injection Hko as -> _ _. done.
  - intros k o'. cbn. rewrite lookup_insert_Some. intros [[<- <-]|[_ Ho]]; [|by left]. right. by exists x.
Qed.

Lemma evolves_delete i k s : evolves i s (set_objects (delete k (as_objects s)) s).
Proof.
  split; [done|]. intros Hw. split; intros k' o'; cbn; rewrite lookup_delete_Some; intros [_ Ho];
    [exact (Hw _ _ Ho)|by left].
Qed.

Lemma apply_each_evolves i force l :
  (forall x, x ∈ l -> x ∈ desired i) -> st_keeps (evolves i) (apply_each ssa hash fault seen gate force l).
Proof.
  induction l as [|[owner d] l IH]; intros Hl; cbn [apply_each]; [apply keeps_ret; apply _|].
  apply (keeps_bind (evolves i)); [|intros _; apply IH; intros; apply Hl; by right].
  intros s s' r [-> | ->]%applyObjectIfChanged_any; [reflexivity|].
  apply (evolves_put i (owner, d)), Hl. by left.
Qed.

Lemma link_pass_evolves i force : st_keeps (evolves i) (link_pass ssa hash digest32 encode cfg fault seen i force).
Proof.
  apply (keeps_bind (evolves i)); [by apply apply_each_evolves|]. intros _.
  destruct (wants_budget i); [apply keeps_ret; apply _|].
  apply (keeps_bind (evolves i)); [apply keeps_read; apply _|]. intros [probe|]; [|apply keeps_ret; apply _].
  destruct (ob_Deleting probe); [apply keeps_ret; apply _|]. apply keeps_write; [apply _|].
  intros s. apply evolves_delete.
Qed.

Definition budget_key (i : link_inputs) : object_key := pdb_key (li_gw i) (linkComponentName (li_gw i)).

Lemma budget_visible i m : cache_view m (budget_key i) = m !! budget_key i.
Proof. apply cache_view_other. apply (bool_decide_unpack _). vm_compute. exact I. Qed.

Lemma desired_nodup i : NoDup (dkey <$> desired i).
Proof.
  apply (NoDup_fmap_1 (fun k : object_key => k.1.1)). rewrite <- list_fmap_compose.
  unfold link_desired. destruct (li_ident i); [|destruct (1 <? _)]; cbn;
    rewrite !NoDup_cons, !elem_of_cons, !elem_of_nil; (split_and!; [naive_solver..|constructor]).
Qed.

Lemma desired_no_budget i : wants_budget i = false -> budget_key i ∉ (dkey <$> desired i).
Proof.
  unfold wants_budget, link_desired. destruct (li_ident i); [done|]. intros ->. cbn.
  rewrite !elem_of_cons, elem_of_nil. unfold budget_key, pdb_key, ob_key. cbn. naive_solver.
Qed.

Lemma link_pass_ok i force s s' a :
  link_pass ssa hash digest32 encode cfg fault seen i force s = (s', Ok a) ->
  (forall x, x ∈ desired i ->
     as_objects s' !! dkey x = Some (ssa (as_objects s !! dkey x) (sent x)) \/
     (force = false /\ as_objects s' !! dkey x = as_objects s !! dkey x /\
      exists o, seen (dkey x) = Some o /\ map_get "" (ob_Annotations o) gate = objectHash hash x.2 gate)) /\
  (wants_budget i = false -> forall o, as_objects s' !! budget_key i = Some o ->
     as_objects s !! budget_key i = Some o /\ forall p, seen (budget_key i) = Some p -> ob_Deleting p = true).
Proof.
  unfold link_pass. intros (s1 & [] & H1 & H2)%st_bind_ok.
  destruct (apply_each_ok _ _ _ _ _ (desired_nodup i) H1) as (_ & Hframe & Hall).
  destruct (wants_budget i) eqn:Ew; [injection H2 as <- _; by split|].
  pose proof (desired_no_budget i Ew) as Hno.
  unfold delete_leftover in H2. apply st_bind_ok in H2 as (s2 & found & (_ & -> & ->)%st_read_ok & H2).
  change (pdb_key (li_gw i) (linkComponentName (li_gw i))) with (budget_key i) in H2.
  assert (Hcase : s' = s1 /\ (forall p, seen (budget_key i) = Some p -> ob_Deleting p = true) \/
                  s' = set_objects (delete (budget_key i) (as_objects s1)) s1).
  { destruct (seen (budget_key i)) as [p|]; [|injection H2 as <- _; naive_solver].
    destruct (ob_Deleting p) eqn:Ep; [injection H2 as <- _; naive_solver|].
    apply st_write_ok in H2 as [_ ->]. by right. }
  destruct Hcase as [[-> Hp] | ->]; split; [done| |..].
  - intros _ o Ho. by rewrite Hframe in Ho by done.
  - intros x Hx. cbn. rewrite lookup_delete_ne; [by apply Hall|].
    intros E. apply Hno. rewrite E. by apply (list_elem_of_fmap_2 dkey).
  - intros _ o. cbn. by rewrite lookup_delete_eq.
Qed.
End OnePass.

(** ** Runs *)

(** The inputs one Gateway's passes are given over time: the Gateway keeps its identity
    and its traffic policy, all else may change. *)
Record same_gateway (gw0 : Gateway) (used : link_inputs -> Prop) : Prop := {
  sg_named : gw_Name gw0 <> "" /\ gw_Namespace gw0 <> "";
  sg_id i : used i -> gw_Name (li_gw i) = gw_Name gw0 /\ gw_Namespace (li_gw i) = gw_Namespace gw0 /\
                      gw_UID (li_gw i) = gw_UID gw0;
  sg_mode i j : used i -> used j -> li_ident i = None <-> li_ident j = None
}.

(** No two versions of one object that those passes build have the same hash. *)
Definition hash_distinct (used : link_inputs -> Prop) : Prop :=
  forall i j x y, used i -> used j -> x ∈ desired i -> y ∈ desired j -> dkey x = dkey y ->
    objectHash hash x.2 gate = objectHash hash y.2 gate -> x.2 = y.2.

(** A state after an event went through the watches. *)
Definition notify (L : event_lib) (gateways : result string (list Gateway)) (e : kube_event) (s : astate) : astate :=
  let t := (deliver L gateways e (mkTrackers (as_linkDirty s) (as_responderDirty s))).1 in
  mkAState (as_objects s) (tr_link t) (tr_responder t).

(** What happens to the link objects of [gw0]: passes, whose calls may fail and whose
    cached reads are up to date; edits by someone else that the watches report; writes of
    fields the operator does not apply; removals; an operator restart; and work on other
    Gateways. *)
Inductive link_step (L : event_lib) (gw0 : Gateway) (used : link_inputs -> Prop) : astate -> astate -> Prop :=
| ls_pass i fault s s' r :
    used i ->
    ensureLink ssa hash digest32 encode cfg fault (cache_view (as_objects s)) i s = (s', r) ->
    link_step L gw0 used s s'
| ls_edit k o o' generation gateways s :
    as_objects s !! k = Some o -> ob_key o' = k -> link_seen o o' generation = true ->
    (ob_Kind o' = "ClusterRoleBinding" -> ob_Controller o' = None) ->
    (ob_Deleting o = true -> ob_Deleting o' = true) ->
    link_step L gw0 used s (notify L gateways (Updated o o' generation) (set_objects (<[k := o']> (as_objects s)) s))
| ls_foreign k o o' s :
    as_objects s !! k = Some o -> ob_key o' = k -> ob_Controller o' = ob_Controller o ->
    (ob_Deleting o = true -> ob_Deleting o' = true) ->
    (forall d, conforms body_ok d o -> conforms body_ok d o') ->
    link_step L gw0 used s (set_objects (<[k := o']> (as_objects s)) s)
| ls_remove k s : link_step L gw0 used s (set_objects (delete k (as_objects s)) s)
| ls_restart s : link_step L gw0 used s (set_linkDirty ∅ s)
| ls_other d s :
    (dirty_take d (gw_key gw0)).2 = (dirty_take (as_linkDirty s) (gw_key gw0)).2 -> link_step L gw0 used s (set_linkDirty d s).

(** The Gateway will be forced. *)
Definition dirty (gw0 : Gateway) (s : astate) : Prop := (dirty_take (as_linkDirty s) (gw_key gw0)).2 = true.

(** An object of the Gateway is being deleted or is what some pass applied last. *)
Definition settled (used : link_inputs -> Prop) (k : object_key) (o : object) : Prop :=
  ob_Deleting o = true \/
  exists i x, used i /\ x ∈ desired i /\ dkey x = k /\ conforms body_ok (sent x) o.

Record link_ok (gw0 : Gateway) (used : link_inputs -> Prop) (s : astate) : Prop := {
  lo_wf : wf s;
  lo_keys k o : as_objects s !! k = Some o -> exists i x, used i /\ x ∈ desired i /\ dkey x = k;
  lo_clean : dirty gw0 s \/ forall k o, as_objects s !! k = Some o -> settled used k o
}.

Section Run.
Context (L : event_lib) `{!EventLib L} (gw0 : Gateway) (used : link_inputs -> Prop) (Hsame : same_gateway gw0 used).

Lemma gateway_ref_owner gw : isGatewayOwner (Some (gateway_ref gw)) = true.
Proof. reflexivity. Qed.

(** An event on a settled object reaches its Gateway. *)
Lemma settled_owner i x o :
  used i -> x ∈ desired i -> conforms body_ok (sent x) o ->
  (ob_Kind o = "ClusterRoleBinding" -> ob_Controller o = None) ->
  linkObjectGateway o = Some (gw_key gw0).
Proof.
  intros Hu Hx Hc Hcl. destruct (sg_id _ _ Hsame _ Hu) as (En & Ens & Eu).
  destruct (sg_named _ _ Hsame) as [Hn Hns].
  assert (Hkey : gw_key gw0 = (gw_Namespace (li_gw i), gw_Name (li_gw i))) by (unfold gw_key; congruence).
  pose proof (cf_key _ _ _ Hc) as Hk. rewrite stamped_key in Hk.
  destruct (desired_owner i x Hx) as [(Ho & Hnsx & _) | ->].
  - destruct (cf_controller _ _ _ Hc) as [Hno|Hctl]; rewrite Ho in *; [done|]. cbn in Hctl.
    unfold linkObjectGateway. rewrite Hctl, gateway_ref_owner. cbn [ow_Name gateway_ref].
    injection Hk as _ Hns' _. by rewrite Hkey, Hns', Hnsx.
  - injection Hk as Hkind _ _. unfold linkObjectGateway. rewrite (Hcl Hkind).
    assert (Hlab : forall l v, ob_Labels (buildLinkClusterRoleBinding digest32 (li_gw i)) !! l = Some v ->
                   map_get "" (ob_Labels o) l = v).
    { intros l v Hl. unfold map_get. by rewrite (lookup_weaken _ _ _ _ Hl (cf_labels _ _ _ Hc)). }
    rewrite (Hlab ownerNamespaceLabel (gw_Namespace (li_gw i))) by (cbn; by rewrite lookup_insert_eq).
    rewrite (Hlab ownerNameLabel (gw_Name (li_gw i)))
      by (cbn; rewrite lookup_insert_ne by done; by rewrite lookup_insert_eq).
    rewrite !bool_decide_false by congruence. cbn. by rewrite Hkey.
Qed.

(** The keys of a pass's objects, by the Gateway's identity and mode. *)
Lemma desired_keys i :
  used i ->
  (dkey <$> desired i) =
  let own kind := (kind, gw_Namespace gw0, linkComponentName gw0) in
  [own "ServiceAccount"; own "Role"; own "RoleBinding"; own "ConfigMap"] ++
  match li_ident i with
  | Some _ => [("ClusterRoleBinding", "", linkClusterRoleBindingName digest32 gw0); own "DaemonSet"]
  | None => [own "NetworkPolicy"; own "Deployment"] ++
            if 1 <? effectiveLinkReplicas (li_gw i) then [own "PodDisruptionBudget"] else []
  end.
Proof.
  intros Hu. destruct (sg_id _ _ Hsame _ Hu) as (En & Ens & _).
  unfold link_desired. destruct (li_ident i); [|destruct (1 <? _)];
    cbn; unfold ob_key; cbn; unfold linkClusterRoleBindingName, linkComponentName; by rewrite En, Ens.
Qed.

(** Every object ever applied is applied again or, the budget, removed. *)
Lemma keys_cover i j y :
  used i -> used j -> y ∈ desired j ->
  dkey y ∈ (dkey <$> desired i) \/ (wants_budget i = false /\ dkey y = budget_key i).
Proof.
  intros Hi Hj Hy. apply (list_elem_of_fmap_2 dkey) in Hy.
  pose proof (sg_mode _ _ Hsame _ _ Hi Hj) as Hmode. revert Hy.
  rewrite (desired_keys i Hi), (desired_keys j Hj). unfold wants_budget, budget_key, pdb_key.
  destruct (sg_id _ _ Hsame _ Hi) as (En & Ens & _). assert (Hc : linkComponentName (li_gw i) = linkComponentName gw0) by (unfold linkComponentName; by rewrite En).
  rewrite Hc, Ens. generalize (ob_key y.2) as k. intros k.
  destruct (li_ident i), (li_ident j); [auto|naive_solver|naive_solver|].
  destruct (1 <? effectiveLinkReplicas (li_gw i)), (1 <? effectiveLinkReplicas (li_gw j)); cbn;
    rewrite !elem_of_cons, !elem_of_nil; tauto.
Qed.

(** A pass, opened: the flag is taken, the objects are walked, and a forced pass that
    fails sets the flag again. *)
Lemma ensureLink_inv fault seen i s s' r :
  ensureLink ssa hash digest32 encode cfg fault seen i s = (s', r) -> used i ->
  exists force s1,
    (dirty gw0 s <-> force = true) /\
    link_pass ssa hash digest32 encode cfg fault seen i force
      (set_linkDirty (dirty_take (as_linkDirty s) (gw_key gw0)).1 s) = (s1, r) /\
    as_objects s' = as_objects s1 /\ (force = true -> is_err r = true -> dirty gw0 s').
Proof.
  intros H Hu. destruct (sg_id _ _ Hsame _ Hu) as (En & Ens & _).
  assert (Hkey : gw_key (li_gw i) = gw_key gw0) by (unfold gw_key; by rewrite En, Ens).
  unfold ensureLink in H. rewrite Hkey in H.
  destruct (dirty_take (as_linkDirty s) (gw_key gw0)) as [d force] eqn:Et.
  destruct (link_pass _ _ _ _ _ _ _ i force (set_linkDirty d s)) as [s1 r1] eqn:Ep.
  injection H as <- <-. exists force, s1. cbn [fst]. split_and!; [|done| |].
  - unfold dirty. by rewrite Et.
  - by destruct (force && is_err r1).
  - intros -> ->. cbn. unfold dirty, dirty_take, dirty_mark, dirtyTracker. cbn. by rewrite lookup_insert_eq.
Qed.

Lemma wf_dirty d s : wf s -> wf (set_linkDirty d s).
Proof. done. Qed.

Lemma pass_link_ok i fault s s' r :
  used i -> link_ok gw0 used s ->
  ensureLink ssa hash digest32 encode cfg fault (cache_view (as_objects s)) i s = (s', r) ->
  link_ok gw0 used s'.
Proof.
  intros Hu [Hw Hkeys Hclean] H.
  destruct (ensureLink_inv _ _ _ _ _ _ H Hu) as (force & s1 & Hdirty & Hp & Ho & Hmark).
  destruct (link_pass_evolves _ _ i force _ _ _ Hp) as [_ Hev]. destruct (Hev (wf_dirty _ _ Hw)) as [Hw1 Hold].
  cbn in Hold. split.
  - unfold wf. rewrite Ho. exact Hw1.
  - intros k o. rewrite Ho. intros [E|(x & Hx & Hk & _)]%Hold; [exact (Hkeys _ _ E)|eauto].
  - destruct force.
    + destruct r as [a|e]; [right|by left; apply Hmark]. intros k o. rewrite Ho. intros Hk.
      destruct (link_pass_ok _ _ _ _ _ _ _ Hp) as [Happ Hbud]. cbn in Happ, Hbud.
      assert (Hkk : exists j y, used j /\ y ∈ desired j /\ dkey y = k).
      { destruct (Hold _ _ Hk) as [E|(x & Hx & Hkx & _)]; [exact (Hkeys _ _ E)|eauto]. }
      destruct Hkk as (j & y & Hj & Hy & <-).
      destruct (keys_cover i j y Hu Hj Hy) as [Hin|[Hw0 Hb]].
      * apply list_elem_of_fmap in Hin as (x & Ek & Hx). cbn in Ek. right. exists i, x.
        rewrite Ek in *. split_and!; [done..|].
        destruct (Happ x Hx) as [E|(Hf & _)]; [|done]. rewrite E in Hk. injection Hk as <-.
        pose proof (ssa_sent s x.1 gate x.2 (wf_keyed _ Hw)) as Hs. by rewrite stamped_key in Hs.
      * rewrite Hb in *. left. destruct (Hbud Hw0 _ Hk) as [E Hd]. exact (Hd _ (eq_trans (budget_visible _ _) E)).
    + right. destruct Hclean as [Hd|Hcl]; [apply Hdirty in Hd; done|].
      intros k o. rewrite Ho. intros [E|(x & Hx & Hk & Hc)]%Hold; [exact (Hcl _ _ E)|]. right. by exists i, x.
Qed.

Lemma desired_label i x :
  x ∈ desired i -> ob_Labels x.2 !! "app.kubernetes.io/component" = Some componentLink /\ is_Some (kind_entry link_table (ob_Kind x.2)).
Proof.
  unfold link_desired. rewrite elem_of_app, !elem_of_cons, elem_of_nil. intros [Hx | Hx]; [|destruct (li_ident i);
    [|destruct (1 <? _)]; cbn in Hx; rewrite ?elem_of_cons, ?elem_of_nil in Hx];
    destruct_or!; subst x; (split; [cbn; by simplify_map_eq|by eexists]).
Qed.

(** An edit the watches report marks the Gateway of a settled object and enqueues it. *)
Lemma edit_noticed i x o o' g gateways t :
  used i -> x ∈ desired i -> conforms body_ok (sent x) o -> (ob_Kind o = "ClusterRoleBinding" -> ob_Controller o = None) ->
  ob_Kind o' = ob_Kind o -> link_seen o o' g = true ->
  is_dirty (tr_link (deliver L gateways (Updated o o' g) t).1) (gw_key gw0) /\
  gw_key gw0 ∈ (deliver L gateways (Updated o o' g) t).2.
Proof.
  intros Hu Hx Hc Hcl Hk Hseen. destruct (desired_label i x Hx) as [Hl Hin].
  pose proof (cf_key _ _ _ Hc) as Hkey. rewrite stamped_key in Hkey. injection Hkey as Hkind _ _.
  refine (link_edit_noticed L gateways o o' g t (gw_key gw0) Hk _ _ (settled_owner i x o Hu Hx Hc Hcl) Hseen).
  - by rewrite Hk, Hkind.
  - apply bool_decide_eq_true. apply (lookup_weaken (ob_Labels (sent x))); [by destruct x as [[] ?]|apply (cf_labels _ _ _ Hc)].
Qed.

Lemma step_link_ok s s' : link_step L gw0 used s s' -> link_ok gw0 used s -> link_ok gw0 used s'.
Proof.
  intros [i fault s0 s1 r Hu H | k o o' g gateways s0 Ho Hk' Hseen Hcl Hdel | k o o' s0 Ho Hk' Hctl Hdel Hcf | k s0 | s0 | d s0 Hd] Hok;
    [exact (pass_link_ok _ _ _ _ _ Hu Hok H)|destruct Hok as [Hw Hkeys Hclean]..].
  - split.
    + intros k1 o1. cbn. rewrite lookup_insert_Some. intros [[<- <-]|[_ E]]; [done|exact (Hw _ _ E)].
    + intros k1 o1. cbn. rewrite lookup_insert_Some. intros [[<- _]|[_ E]]; [exact (Hkeys _ _ Ho)|exact (Hkeys _ _ E)].
    + destruct Hclean as [Hd|Hcl0]; [left; exact (deliver_keeps_dirty L gateways _ (mkTrackers _ _) _ Hd)|].
      destruct (Hcl0 _ _ Ho) as [Hdel0|(i & x & Hu & Hx & _ & Hc)].
      * right. intros k1 o1. cbn. rewrite lookup_insert_Some.
        intros [[<- <-]|[_ E]]; [left; by apply Hdel|exact (Hcl0 _ _ E)].
      * left. destruct (Hw _ _ Ho) as [Hko Hco]. refine (proj1 (edit_noticed i x o o' g gateways _ Hu Hx Hc Hco _ Hseen)).
        rewrite <- Hko in Hk'. by injection Hk' as ? _ _.
  - split.
    + intros k1 o1. cbn. rewrite lookup_insert_Some. intros [[<- <-]|[_ E]]; [|exact (Hw _ _ E)].
      split; [done|]. intros Hkind. rewrite Hctl. apply (Hw _ _ Ho).
      destruct (Hw _ _ Ho) as [Hko _]. rewrite <- Hko in Hk'. injection Hk' as E _ _. congruence.
    + intros k1 o1. cbn. rewrite lookup_insert_Some.
      intros [[<- _]|[_ E]]; [exact (Hkeys _ _ Ho)|exact (Hkeys _ _ E)].
    + destruct Hclean as [Hd|Hcl0]; [by left|right].
      intros k1 o1. cbn. rewrite lookup_insert_Some. intros [[<- <-]|[_ E]]; [|exact (Hcl0 _ _ E)].
      destruct (Hcl0 _ _ Ho) as [Hdel0|(i & x & Hu & Hx & Hkx & Hc)]; [left; by apply Hdel|].
      right. exists i, x. split_and!; [done..|by apply Hcf].
  - split; [| |destruct Hclean as [Hd|Hcl0]; [by left|right]];
      intros k1 o1; cbn; rewrite lookup_delete_Some; intros [_ E]; [exact (Hw _ _ E)|exact (Hkeys _ _ E)|exact (Hcl0 _ _ E)].
  - split; [done..|]. by left.
  - split; [done..|]. destruct Hclean as [Hdd|Hcl0]; [left|by right].
    unfold dirty in *. cbn [as_linkDirty set_linkDirty]. by rewrite Hd.
Qed.

Lemma reachable_link_ok rd s :
  rtc (link_step L gw0 used) (mkAState ∅ ∅ rd) s -> link_ok gw0 used s.
Proof.
  revert s. apply (rtc_ind_r (R := link_step L gw0 used) (fun s => link_ok gw0 used s)).
  - split; [by intros k o|by intros k o|by left].
  - intros y z _ Hstep IH. exact (step_link_ok _ _ Hstep IH).
Qed.

(** One object built with one hash: what was applied for it then is what is sent now. *)
Lemma same_hash_conforms i j x y o :
  hash_distinct used -> used i -> used j -> x ∈ desired i -> y ∈ desired j -> dkey y = dkey x ->
  conforms body_ok (sent y) o -> map_get "" (ob_Annotations o) gate = objectHash hash x.2 gate ->
  conforms body_ok (sent x) o.
Proof.
  intros Hdist Hi Hj Hx Hy Hk Hc Hh.
  assert (Hhy : map_get "" (ob_Annotations o) gate = objectHash hash y.2 gate).
  { unfold map_get. by rewrite (lookup_weaken _ _ _ _ (stamped_hash y.1 gate y.2) (cf_annotations _ _ _ Hc)). }
  assert (E : x.2 = y.2) by (apply (Hdist i j x y); try done; congruence).
  destruct (sg_id _ _ Hsame _ Hi) as (En & Ens & Eu), (sg_id _ _ Hsame _ Hj) as (En' & Ens' & Eu').
  assert (Es : sent x = sent y); [|by rewrite Es].
  destruct (desired_owner i x Hx) as [(Hox & _ & Hkx)| ->], (desired_owner j y Hy) as [(Hoy & _ & Hky)| ->].
  - rewrite E, Hox, Hoy. cbn. unfold gateway_ref. by rewrite En, En', Eu, Eu'.
  - by rewrite E in Hkx.
  - by rewrite <- E in Hky.
  - by rewrite E.
Qed.
End Run.
End Settles.

(** C13: The hash gate and the dirty flag together lose no change the watches report. Take
    a run of a Gateway's link objects made of passes with changing inputs whose reads are
    up to date and whose calls may fail, edits by others that the watches' predicates let
    through (so that they mark the Gateway dirty) or that leave what the operator applied
    in place, removals, operator restarts and work on other Gateways. An edit that breaks
    an applied field unseen, such as one of the owner references alone, is not among
    these, and is not repaired ([owner_edit_unrepaired]). If then a pass of ensureLink
    with up-to-date reads returns without error, every object it builds is stored as built (or is
    still being deleted), whether this pass applied it or skipped it on its hash, and a
    disruption budget no longer wanted is gone or being deleted. *)
Theorem link_pass_settles body_ok ssa `{!ServerSideApply body_ok ssa} hash digest32 encode cfg L `{!EventLib L} gw0 used rd s i fault s' :
  same_gateway gw0 used -> hash_distinct hash digest32 encode cfg used ->
  rtc (link_step body_ok ssa hash digest32 encode cfg L gw0 used) (mkAState ∅ ∅ rd) s -> used i ->
  ensureLink ssa hash digest32 encode cfg fault (cache_view (as_objects s)) i s = (s', Ok tt) ->
  (forall owner d, (owner, d) ∈ link_desired digest32 encode cfg i ->
     exists o, as_objects s' !! ob_key d = Some o /\
       (conforms body_ok (stamped hash owner linkHashAnnotation d) o \/ ob_Deleting o = true)) /\
  (wants_budget i = false -> forall o, as_objects s' !! budget_key i = Some o -> ob_Deleting o = true).
Proof.
  intros Hsame Hdist Hr Hu H.
  destruct (reachable_link_ok _ _ _ _ _ _ _ _ _ Hsame _ _ Hr) as [Hw Hkeys Hclean].
  destruct (ensureLink_inv _ _ _ _ _ _ _ Hsame _ _ _ _ _ _ H Hu) as (force & s1 & Hdirty & Hp & Ho & _).
  destruct (link_pass_ok _ _ _ _ _ _ _ _ _ _ _ _ Hp) as [Happ Hbud]. cbn in Happ, Hbud.
  rewrite Ho. split; [|intros Hw0 o Hk; destruct (Hbud Hw0 _ Hk) as [E Hd]; exact (Hd _ (eq_trans (budget_visible _ _) E))].
  intros owner d Hx. destruct (Happ _ Hx) as [E|(-> & E & o & Hseen & Hh)]; cbn in *.
  - eexists. split; [exact E|]. left.
    pose proof (ssa_sent body_ok ssa hash s owner linkHashAnnotation d (wf_keyed _ Hw)) as Hs.
    by rewrite stamped_key in Hs.
  - apply cache_view_some in Hseen. exists o. split; [by rewrite E|]. destruct Hclean as [Hd|Hcl]; [by apply Hdirty in Hd|].
    destruct (Hcl _ _ Hseen) as [Hdel|(j & y & Hj & Hy & Hky & Hc)]; [by right|left].
    exact (same_hash_conforms body_ok hash digest32 encode cfg _ _ Hsame i j (owner, d) y o Hdist Hu Hj Hx Hy Hky Hc Hh).
Qed.

(** ** The responder's pass *)

(** What a responder is made of, and the kinds it no longer wants. *)
Definition responder_desired (sha256 : string -> string) (cfg : OperatorConfig) (gw : Gateway) : list object :=
  [buildResponderConfigMap gw; buildResponderService gw] ++
  if gw_isLocal gw then [buildResponderDaemonSet sha256 cfg gw]
  else buildResponderDeployment sha256 cfg gw ::
       (if 1 <? effectiveResponderReplicas gw then [buildResponderPodDisruptionBudget gw] else []).

Definition responder_leftovers (gw : Gateway) : list string :=
  if gw_isLocal gw then ["Deployment"; "PodDisruptionBudget"]
  else "DaemonSet" :: (if 1 <? effectiveResponderReplicas gw then [] else ["PodDisruptionBudget"]).

Lemma st_wrap_ok {S A} p (m : st S A) s s' a : st_wrap p m s = (s', Ok a) -> m s = (s', Ok a).
Proof. unfold st_wrap. by destruct (m s) as [? []]. Qed.

Section ResponderPass.
Context (body_ok : list (string * yaml) -> list (string * yaml) -> Prop).
Context (ssa : option object -> object -> object) `{!ServerSideApply body_ok ssa}.
Context (hash : object -> string) (sha256 : string -> string) (cfg : OperatorConfig).
Context (fault : acall -> call_fault) (seen : object_key -> option object) (gw : Gateway).

Abbreviation sent := (stamped hash (Some gw) responderHashAnnotation).

(** A forced call applies, and returns what the server stored. *)
Lemma forced_ok p d s s' r :
  st_wrap p (applyObjectIfChanged ssa hash fault seen (Some gw) responderHashAnnotation d true) s = (s', Ok r) ->
  s' = put ssa (ob_key d) (sent d) s /\ exists live, r = (true, live, ssa (as_objects s !! ob_key d) (sent d)).
Proof.
  intros H%st_wrap_ok. unfold applyObjectIfChanged in H.
  apply st_bind_ok in H as (s1 & live & (_ & -> & _)%st_read_ok & H).
  assert (Happ : (let! o := apply ssa fault (sent d) in st_ret (true, live, o)) s = (s', Ok r)).
  { by destruct live. }
  apply st_bind_ok in Happ as (s2 & o & H2 & [= <- <-]).
  unfold apply in H2. destruct (fault _) as [[]|]; [done|]. injection H2 as <- <-. eauto.
Qed.

Lemma leftover_ok k s s' a :
  delete_leftover fault seen k s = (s', Ok a) ->
  (s' = s /\ forall o, seen k = Some o -> ob_Deleting o = true) \/ s' = set_objects (delete k (as_objects s)) s.
Proof.
  intros (s1 & found & (_ & -> & ->)%st_read_ok & H)%st_bind_ok.
  destruct (seen k) as [o|]; [|injection H as <- _; left; split; [done|by intros]].
  destruct (ob_Deleting o) eqn:Ed; [|apply st_write_ok in H as [_ ->]; by right].
  injection H as <- _. left. split; [done|]. by intros ? [= <-].
Qed.

(** What a walk over distinct keys leaves: applied objects, and leftovers gone. *)
Record walked (s s' : astate) (applied : list object) (gone : list object_key) : Prop := {
  wk_frame k : k ∉ (ob_key <$> applied) -> k ∉ gone -> as_objects s' !! k = as_objects s !! k;
  wk_applied d : d ∈ applied -> as_objects s' !! ob_key d = Some (ssa (as_objects s !! ob_key d) (sent d));
  wk_gone k o : k ∈ gone -> as_objects s' !! k = Some o ->
    as_objects s !! k = Some o /\ forall o', seen k = Some o' -> ob_Deleting o' = true
}.

Lemma walked_nil s : walked s s [] [].
Proof. by split; intros ? **; set_solver. Qed.

Lemma walked_put s s' applied gone d s'' :
  walked s s' applied gone -> ob_key d ∉ (ob_key <$> applied) -> ob_key d ∉ gone ->
  s'' = put ssa (ob_key d) (sent d) s' -> walked s s'' (applied ++ [d]) gone.
Proof.
  intros [Hf Ha Hg] Hn1 Hn2 ->. split; cbn.
  - intros k. rewrite fmap_app, not_elem_of_app. cbn. rewrite list_elem_of_singleton. intros [Hk1 Hk2] Hk3.
    rewrite lookup_insert_ne by congruence. by apply Hf.
  - intros d'. rewrite elem_of_app, list_elem_of_singleton. intros [Hd | ->].
    + rewrite lookup_insert_ne; [by apply Ha|]. intros E. apply Hn1. rewrite E. by apply (list_elem_of_fmap_2 ob_key).
    + by rewrite lookup_insert_eq, Hf.
  - intros k o Hk. rewrite lookup_insert_ne by (intros <-; done). by apply Hg.
Qed.

Lemma walked_delete s s' applied gone k s'' :
  walked s s' applied gone -> k ∉ (ob_key <$> applied) -> k ∉ gone ->
  (s'' = s' /\ forall o, seen k = Some o -> ob_Deleting o = true) \/
  s'' = set_objects (delete k (as_objects s')) s' -> walked s s'' applied (gone ++ [k]).
Proof.
  intros [Hf Ha Hg] Hn1 Hn2 Hcase.
  assert (Hother : forall k', k' <> k -> as_objects s'' !! k' = as_objects s' !! k').
  { intros k' Hk'. destruct Hcase as [[-> _] | ->]; [done|]. cbn. by rewrite lookup_delete_ne by congruence. }
  split.
  - intros k' Hk1. rewrite not_elem_of_app, list_elem_of_singleton. intros [Hk2 Hk3]. rewrite Hother by done. by apply Hf.
  - intros d Hd. rewrite Hother; [by apply Ha|]. intros E. apply Hn1. rewrite <- E. by apply (list_elem_of_fmap_2 ob_key).
  - intros k' o. rewrite elem_of_app, list_elem_of_singleton. intros [Hk' | ->] Ho.
    + rewrite Hother in Ho by (intros ->; done). by apply Hg.
    + destruct Hcase as [[-> Hd] | ->]; [|cbn in Ho; by rewrite lookup_delete_eq in Ho]. split; [|done].
      by rewrite <- Hf.
Qed.

Abbreviation own := (fun kind : string => (kind, gw_Namespace gw, responderComponentName gw)).

(** The keys differ in their kind. *)
Lemma responder_key_ne (k : object_key) (l : list object) :
  k.1.1 ∉ (ob_Kind <$> l) -> k ∉ (ob_key <$> l).
Proof.
  intros Hk Hin. apply Hk. apply list_elem_of_fmap in Hin as (o & -> & Ho). by apply (list_elem_of_fmap_2 ob_Kind).
Qed.

Lemma responder_walked s s' ip :
  responder_pass ssa hash sha256 cfg fault seen gw true s = (s', Ok ip) ->
  walked s s' (responder_desired sha256 cfg gw) (own <$> responder_leftovers gw) /\
  (if gw_isLocal gw then ip = ""
   else ip <> "" /\ ip = clusterIP_of (ssa (as_objects s !! own "Service") (sent (buildResponderService gw)))).
Proof.
  unfold responder_pass, responder_desired, responder_leftovers.
  intros (s1 & r1 & [E1 _]%forced_ok & H1)%st_bind_ok.
  apply st_bind_ok in H1 as (s2 & [[applied live] stored] & [E2 (live' & Er)]%forced_ok & H2).
  injection Er as -> -> Est.
  assert (W2 : walked s s2 [buildResponderConfigMap gw; buildResponderService gw] []).
  { apply (walked_put s s1 [buildResponderConfigMap gw]); [|apply responder_key_ne|apply not_elem_of_nil|done];
      [apply (walked_put s s []); [apply walked_nil|apply not_elem_of_nil|apply not_elem_of_nil|done]|].
    cbn. rewrite list_elem_of_singleton. done. }
  assert (Hst : stored = ssa (as_objects s !! own "Service") (sent (buildResponderService gw))).
  { rewrite Est, E1. cbn. by rewrite lookup_insert_ne by (unfold ob_key; cbn; congruence). }
  destruct (gw_isLocal gw).
  - apply st_bind_ok in H2 as (s3 & r3 & [E3 _]%forced_ok & H3).
    apply st_bind_ok in H3 as (s4 & r4 & H4%leftover_ok & H5).
    apply st_bind_ok in H5 as (s5 & r5 & H5%leftover_ok & [= -> <-]). split; [|done].
    apply (walked_put _ _ _ _ _ _ W2) in E3; [|apply responder_key_ne; cbn; set_solver|apply not_elem_of_nil].
    apply (walked_delete _ _ _ _ _ _ E3) in H4; [|apply responder_key_ne; cbn; set_solver|apply not_elem_of_nil].
    apply (walked_delete _ _ _ _ _ _ H4) in H5; [done|apply responder_key_ne; cbn; set_solver|].
    cbn. rewrite list_elem_of_singleton. congruence.
  - apply st_bind_ok in H2 as (s3 & r3 & [E3 _]%forced_ok & H3).
    apply st_bind_ok in H3 as (s4 & r4 & H4%leftover_ok & H5).
    apply st_bind_ok in H5 as (s5 & r5 & H5 & H6).
    apply (walked_put _ _ _ _ _ _ W2) in E3; [|apply responder_key_ne; cbn; set_solver|apply not_elem_of_nil].
    apply (walked_delete _ _ _ _ _ _ E3) in H4; [|apply responder_key_ne; cbn; set_solver|apply not_elem_of_nil].
    assert (Hip : s' = s5 /\ ip <> "" /\ ip = clusterIP_of stored).
    { case_bool_decide; [done|]. by injection H6 as <- <-. }
    destruct Hip as (-> & Hne & ->). split; [|by rewrite <- Hst].
    destruct (1 <? effectiveResponderReplicas gw).
    + apply st_bind_ok in H5 as (s6 & r6 & [E6 _]%forced_ok & [= <- _]).
      apply (walked_put _ _ _ _ _ _ H4) in E6; [done|apply responder_key_ne; cbn; set_solver|].
      cbn. rewrite list_elem_of_singleton. unfold ob_key. cbn. congruence.
    + apply leftover_ok in H5.
      apply (walked_delete _ _ _ _ _ _ H4) in H5; [done|apply responder_key_ne; cbn; set_solver|].
      cbn. rewrite list_elem_of_singleton. congruence.
Qed.
End ResponderPass.

(** A forced pass of ensureGatewayResponder that returns without error has applied
    every object of the responder's mode, removed the other mode's workload and a budget
    no longer wanted (or they are being deleted), and returns the address the API server
    assigned to the Service, never an empty one in Cluster mode and none in Local mode.
    A forced pass that fails is forced again next time. *)
Theorem responder_pass_applies body_ok ssa `{!ServerSideApply body_ok ssa} hash sha256 cfg fault gw s s' r :
  keyed s -> (dirty_take (as_responderDirty s) (gw_key gw)).2 = true ->
  ensureGatewayResponder ssa hash sha256 cfg fault (fun k => as_objects s !! k) gw s = (s', r) ->
  match r with
  | Err _ => (dirty_take (as_responderDirty s') (gw_key gw)).2 = true
  | Ok ip =>
      (forall d, d ∈ responder_desired sha256 cfg gw ->
         exists o, as_objects s' !! ob_key d = Some o /\
           conforms body_ok (stamped hash (Some gw) responderHashAnnotation d) o) /\
      (forall kind o, kind ∈ responder_leftovers gw ->
         as_objects s' !! (kind, gw_Namespace gw, responderComponentName gw) = Some o -> ob_Deleting o = true) /\
      if gw_isLocal gw then ip = ""
      else ip <> "" /\ exists o, as_objects s' !! ob_key (buildResponderService gw) = Some o /\ clusterIP_of o = ip
  end.
Proof.
  intros Hk Hd H. unfold ensureGatewayResponder in H.
  destruct (dirty_take _ _) as [d force] eqn:Et. cbn in Hd. subst force.
  destruct (responder_pass _ _ _ _ _ _ _ _ _) as [s1 r1] eqn:Ep. injection H as <- <-.
  destruct r1 as [ip|e]; cbn [is_err andb].
  2: { cbn. unfold dirty_take, dirty_mark, dirtyTracker. cbn. by rewrite lookup_insert_eq. }
  destruct (responder_walked _ _ _ _ _ _ _ _ _ _ _ Ep) as [[_ Ha Hg] Hip]. split_and!.
  - intros x Hx. eexists. split; [exact (Ha x Hx)|]. apply ssa_conforms. intros o Ho.
    rewrite stamped_key. exact (Hk _ _ Ho).
  - intros kind o Hkind Ho.
    destruct (Hg _ _ (list_elem_of_fmap_2 (fun kind => (kind, _, _)) _ _ Hkind) Ho) as [E Hdel]. exact (Hdel _ E).
  - destruct (gw_isLocal gw); [done|]. destruct Hip as [Hne ->]. split; [done|].
    eexists. split; [apply (Ha (buildResponderService gw))|done]. set_solver.
Qed.

(** ** A run *)
Definition toy_ssa (live : option object) (d : object) : object :=
  mkObject (ob_Kind d) (ob_Namespace d) (ob_Name d)
    (ob_Labels d ∪ default ∅ (ob_Labels <$> live)) (ob_Annotations d ∪ default ∅ (ob_Annotations <$> live))
    (match ob_Controller d with Some r => Some r | None => live ≫= ob_Controller end)
    (default false (ob_Deleting <$> live)) (ob_Body d).

#[global] Instance toy_apply : ServerSideApply eq toy_ssa.
Proof.
  split.
  - intros live d Hk. split; cbn; [done|apply map_union_subseteq_l..| |done].
    destruct (ob_Controller d); auto.
  - intros live d Hd. cbn. by rewrite Hd.
Qed.

(** A hash that tells apart the versions of the sample's Deployment. *)
Definition toy_hash (o : object) : string :=
  ob_Kind o +:+ match ob_path ["spec"; "replicas"] o with Some (YInt z) => Itoa z | _ => "" end.

Definition sample_replicas (n : Z) : Gateway :=
  mkGateway "edge" "apps" ∅ 0 "" "" "" 0 0 "" 0 0 false [] 0 "u1" 3 "p1" "us-central1" 2 n ∅ "" "" 0 (YMap [])
    sample_cloud [].
Definition sample_link (n : Z) : link_inputs := mkLinkInputs (sample_replicas n) "203.0.113.7" [] None "key" [] 27000 ∅ "10.0.0.9".
Definition sample_oc : OperatorConfig :=
  mkOperatorConfig "link:1" "IfNotPresent" "" true 30 "net" "default" "gw" "" "" 30 600 "nginx:1".
Definition sample_used (i : link_inputs) : Prop := i = sample_link 1 \/ i = sample_link 2.

Definition toy_ensure (fault : acall -> call_fault) (n : Z) (s : astate) : astate * result string unit :=
  ensureLink toy_ssa toy_hash id (fun _ => "{}") sample_oc fault (cache_view (as_objects s)) (sample_link n) s.
Definition no_fault (c : acall) : call_fault := None.
(** The Deployment's patch times out. *)
Definition deployment_fails (c : acall) : call_fault :=
  match c with
  | CPatch (kind, _, _) => if bool_decide (kind = "Deployment") then Some ("timeout", false) else None
  | _ => None
  end.

Definition role_key : object_key := ob_key (buildLinkRole (sample_replicas 1)).
(** Someone empties the Role. *)
Definition emptied (o : object) : object :=
  mkObject (ob_Kind o) (ob_Namespace o) (ob_Name o) (ob_Labels o) (ob_Annotations o) (ob_Controller o) (ob_Deleting o) [].
Definition empty_role (s : astate) : astate :=
  match as_objects s !! role_key with
  | Some o => notify sample_lib (Ok []) (Updated o (emptied o) false) (set_objects (<[role_key := emptied o]> (as_objects s)) s)
  | None => s
  end.

Definition sample_start : astate := mkAState ∅ ∅ ∅.
Definition sample_failed : astate := (toy_ensure deployment_fails 1 sample_start).1.
Definition sample_applied : astate := (toy_ensure no_fault 1 sample_failed).1.
Definition sample_drifted : astate := empty_role sample_applied.

Lemma sample_same : same_gateway (sample_replicas 1) sample_used.
Proof. split; [done| |]; [by intros i [-> | ->]|by intros i j [-> | ->] [-> | ->]]. Qed.

Lemma sample_distinct : hash_distinct toy_hash id (fun _ => "{}") sample_oc sample_used.
Proof.
  intros i j [o x] [o' y] Hi Hj Hx Hy. cbn [snd].
  assert (Hx' : x ∈ snd <$> link_desired id (fun _ => "{}") sample_oc i) by (by apply (list_elem_of_fmap_2 snd) in Hx).
  assert (Hy' : y ∈ snd <$> link_desired id (fun _ => "{}") sample_oc j) by (by apply (list_elem_of_fmap_2 snd) in Hy).
  clear Hx Hy. revert Hx' Hy'.
  destruct Hi as [-> | ->], Hj as [-> | ->]; cbn; rewrite !elem_of_cons, !elem_of_nil;
    intros Hx Hy; destruct_or!; subst; cbn; intros Hk Hh; first [done|by injection Hk|by vm_compute in Hh].
Qed.

Lemma sample_role_live :
  match as_objects sample_applied !! role_key with
  | Some o => bool_decide (ob_key o = role_key) && negb (ob_Deleting o) && link_seen o (emptied o) false
  | None => false
  end = true.
Proof. vm_compute. reflexivity. Qed.

Lemma sample_link_run : rtc (link_step eq toy_ssa toy_hash id (fun _ => "{}") sample_oc sample_lib (sample_replicas 1) sample_used)
  (mkAState ∅ ∅ ∅) sample_drifted.
Proof.
  eapply rtc_l; [apply (ls_pass _ _ _ _ _ _ _ _ _ (sample_link 1) deployment_fails _ sample_failed (Err "timeout")); [by left|apply outcome_eq; vm_compute; reflexivity]|].
  eapply rtc_l; [apply (ls_pass _ _ _ _ _ _ _ _ _ (sample_link 1) no_fault _ sample_applied (Ok tt)); [by left|apply outcome_eq; vm_compute; reflexivity]|].
  apply rtc_once. unfold sample_drifted, empty_role.
  pose proof sample_role_live as Hc.
  destruct (as_objects sample_applied !! role_key) as [o|] eqn:E; [|done].
  apply andb_true_iff in Hc as [Hc Hl]. apply andb_true_iff in Hc as [Hk%bool_decide_eq_true Hd].
  apply ls_edit; [exact E|done|done| |by destruct (ob_Deleting o)].
  intros Hkind. injection Hk as Hk _ _. cbn in Hkind. congruence.
Qed.

Lemma link_pass_settles_witness :
  let s' := (toy_ensure no_fault 2 sample_drifted).1 in
  as_objects sample_drifted !! role_key <> as_objects sample_applied !! role_key /\
  exists o, as_objects s' !! role_key = Some o /\
    (conforms eq (stamped toy_hash (Some (sample_replicas 2)) linkHashAnnotation (buildLinkRole (sample_replicas 2))) o \/
     ob_Deleting o = true).
Proof.
  intros s'. split; [by vm_compute|].
  apply (proj1 (link_pass_settles eq toy_ssa toy_hash id (fun _ => "{}") sample_oc sample_lib (sample_replicas 1) sample_used ∅
    sample_drifted (sample_link 2) no_fault s' sample_same sample_distinct sample_link_run (or_intror eq_refl)
    ltac:(apply outcome_eq; vm_compute; reflexivity)) (Some (sample_replicas 2)) (buildLinkRole (sample_replicas 2))).
  unfold link_desired. cbn. rewrite !elem_of_cons. auto.
Defined.

(** The server assigns the Service's address. *)
Definition assigning_ssa (live : option object) (d : object) : object :=
  let o := toy_ssa live d in
  if bool_decide (ob_Kind d = "Service")
  then mkObject (ob_Kind o) (ob_Namespace o) (ob_Name o) (ob_Labels o) (ob_Annotations o) (ob_Controller o)
         (ob_Deleting o) (("spec", YMap [("clusterIP", YString "10.0.0.9")]) :: ob_Body o)
  else o.

#[global] Instance assigning_apply : ServerSideApply (fun d b => exists extra, b = extra ++ d) assigning_ssa.
Proof.
  split.
  - intros live d Hk. destruct (ssa_conforms (ssa := toy_ssa) live d Hk) as [H1 H2 H3 H4 _].
    unfold assigning_ssa. case_bool_decide; split; cbn in *; try done; [by eexists [_]|by exists []].
  - intros live d Hd. unfold assigning_ssa. case_bool_decide; cbn; by rewrite Hd.
Qed.

Lemma responder_pass_applies_witness :
  let gw := sample_replicas 1 in
  let out := ensureGatewayResponder assigning_ssa toy_hash id sample_oc no_fault (fun k => as_objects sample_start !! k)
               gw sample_start in
  out.2 = Ok "10.0.0.9" /\
  exists o, as_objects out.1 !! ob_key (buildResponderDeployment id sample_oc gw) = Some o /\
    conforms (fun d b => exists extra, b = extra ++ d)
      (stamped toy_hash (Some gw) responderHashAnnotation (buildResponderDeployment id sample_oc gw)) o.
Proof.
  intros gw out. split; [vm_compute; reflexivity|].
  apply (proj1 (responder_pass_applies (fun d b => exists extra, b = extra ++ d) assigning_ssa toy_hash id sample_oc
    no_fault gw sample_start out.1 (Ok "10.0.0.9") ltac:(by intros k o) eq_refl
    ltac:(apply outcome_eq; vm_compute; reflexivity))).
  apply elem_of_app. right. apply list_elem_of_here.
Defined.

(** ** Edits and the watches *)

Lemma responder_desired_kinds sha256 cfg gw d :
  d ∈ responder_desired sha256 cfg gw ->
  is_Some (kind_entry responder_table (ob_Kind d)) /\ ob_Namespace d = gw_Namespace gw.
Proof.
  unfold responder_desired. rewrite elem_of_app, !elem_of_cons, elem_of_nil. intros [Hd|Hd];
    [|destruct (gw_isLocal gw); [|destruct (1 <? _)]; rewrite ?elem_of_cons, ?elem_of_nil in Hd];
    destruct_or!; subst d; (split; [by eexists|done]).
Qed.

(** C16: Whatever the operator applied for a Gateway leads back to it. An edit by someone
    else of a stored link object that the watches' predicates let through (of any field for
    the kinds cached by label, else one that leaves the object recognisable and, for a
    workload, touches more than its status) marks the Gateway's link dirty and enqueues
    the Gateway; the same holds of the responder's objects; and any write to an owned
    workload or composite, of its status alone too, enqueues its Gateway. *)
Theorem drift_noticed L `{!EventLib L} body_ok hash sha256 digest32 encode cfg gateways t gw :
  gw_Name gw <> "" -> gw_Namespace gw <> "" ->
  (forall i owner d o o' g, li_gw i = gw -> (owner, d) ∈ link_desired digest32 encode cfg i ->
     conforms body_ok (stamped hash owner linkHashAnnotation d) o ->
     (ob_Kind o = "ClusterRoleBinding" -> ob_Controller o = None) -> ob_Kind o' = ob_Kind o ->
     link_seen o o' g = true ->
     is_dirty (tr_link (deliver L gateways (Updated o o' g) t).1) (gw_key gw) /\
     gw_key gw ∈ (deliver L gateways (Updated o o' g) t).2) /\
  (forall d o o' g, d ∈ responder_desired sha256 cfg gw ->
     conforms body_ok (stamped hash (Some gw) responderHashAnnotation d) o -> ob_Kind o' = ob_Kind o ->
     isResponderObject o' = true -> (kind_entry responder_table (ob_Kind o) = Some true -> drifts o o' g = true) ->
     is_dirty (tr_responder (deliver L gateways (Updated o o' g) t).1) (gw_key gw) /\
     gw_key gw ∈ (deliver L gateways (Updated o o' g) t).2) /\
  (forall e o, event_kind e ∈ ["Deployment"; "DaemonSet"; XGatewayGCPGVK] -> o ∈ involved e ->
     ob_Controller o = Some (gateway_ref gw) -> ob_Namespace o = gw_Namespace gw ->
     gw_key gw ∈ (deliver L gateways e t).2).
Proof.
  intros Hn Hns. split_and!.
  - intros i owner d o o' g Hi Hx Hc Hcl Hk Hseen.
    refine (edit_noticed body_ok hash digest32 encode cfg L gw (fun j => j = i) _ i (owner, d) o o' g gateways t eq_refl Hx Hc Hcl Hk Hseen).
    split; [done|by intros j ->; rewrite Hi|by intros j1 j2 -> ->].
  - intros d o o' g Hd Hc Hk Hres Hdr. destruct (responder_desired_kinds _ _ _ _ Hd) as [[w Hw] Hnd].
    pose proof (cf_key _ _ _ Hc) as Hkey. rewrite stamped_key in Hkey. injection Hkey as Hkind Hnso _.
    assert (Hctl : ob_Controller o = Some (gateway_ref gw)) by (by destruct (cf_controller _ _ _ Hc) as [?|?]).
    unfold gw_key. rewrite <- Hnd, <- Hnso.
    apply (responder_edit_noticed L gateways o o' g t (gateway_ref gw) w); [done|by rewrite Hk, Hkind|done..|].
    intros ->. apply Hdr. by rewrite Hkind.
  - intros e o Hk Ho Hc Hnso. unfold gw_key. rewrite <- Hnso.
    apply (owned_event_noticed L gateways e t o (gateway_ref gw)); [|done..].
    rewrite !elem_of_cons, elem_of_nil in *. tauto.
Qed.

Lemma drift_noticed_witness :
  let gw := sample_replicas 1 in
  let o := stamped toy_hash (Some gw) linkHashAnnotation (buildLinkRole gw) in
  let t := mkTrackers (dirty_take ∅ (gw_key gw)).1 ∅ in
  (dirty_take (tr_link t) (gw_key gw)).2 = false /\
  is_dirty (tr_link (deliver sample_lib (Ok []) (Updated o (emptied o) false) t).1) (gw_key gw) /\
  gw_key gw ∈ (deliver sample_lib (Ok []) (Updated o (emptied o) false) t).2.
Proof.
  intros gw o t. split; [vm_compute; reflexivity|].
  assert (Hin : (Some gw, buildLinkRole gw) ∈ link_desired id (fun _ => "{}") sample_oc (sample_link 1)).
  { unfold link_desired. rewrite elem_of_app, !elem_of_cons. auto. }
  refine (proj1 (drift_noticed sample_lib eq toy_hash id id (fun _ => "{}") sample_oc (Ok []) t gw ltac:(done) ltac:(done))
    (sample_link 1) (Some gw) (buildLinkRole gw) o (emptied o) false eq_refl Hin _ _ eq_refl _).
  - split; [reflexivity|reflexivity|reflexivity|by right|reflexivity].
  - intros Hk. by vm_compute in Hk.
  - vm_compute. reflexivity.
Defined.

(** An edit of a link workload that changes neither its spec nor its labels or
    annotations, as one of its owner references does, marks nothing. *)
Lemma owner_edit_unseen L `{!EventLib L} gateways old new t :
  kind_entry link_table (ob_Kind new) = Some true ->
  ob_Labels new = ob_Labels old -> ob_Annotations new = ob_Annotations old ->
  tr_link (deliver L gateways (Updated old new false) t).1 = tr_link t.
Proof.
  intros Hk Hl Ha. rewrite (proj1 (deliver_exact L gateways _ t)).
  assert (Hc : cached L (Updated old new false) = Some (Updated old new false)).
  { unfold cached, event_kind. cbn [subject]. rewrite bool_decide_false; [done|]. unfold cacheOptions.
    rewrite !elem_of_cons, elem_of_nil. intros Hin. destruct Hin as [E|[E|[E|[E|[]]]]]; by rewrite E in Hk. }
  rewrite Hc. unfold fires, event_kind. cbn [subject]. rewrite Hk, (changed_update L). unfold drifts.
  rewrite Hl, Ha, !bool_decide_true by done. by rewrite andb_false_r.
Qed.

(** The Deployment loses its owner, and the next pass, which succeeds, leaves it without. *)
Definition deployment_key : object_key := ob_key (buildLinkDeployment (sample_replicas 1) sample_oc).
Definition disowned (s : astate) : astate :=
  match as_objects s !! deployment_key with
  | Some o => notify sample_lib (Ok []) (Updated o (set_controller None o) false)
                (set_objects (<[deployment_key := set_controller None o]> (as_objects s)) s)
  | None => s
  end.

Lemma owner_edit_unrepaired :
  let out := toy_ensure no_fault 1 (disowned sample_applied) in
  out.2 = Ok tt /\ (as_objects sample_applied !! deployment_key ≫= ob_Controller) = Some (gateway_ref (sample_replicas 1)) /\
  ob_Controller <$> (as_objects out.1 !! deployment_key) = Some None.
Proof. vm_compute. split_and!; reflexivity. Qed.
