(* ===== verification/Workloads.v ===== *)
(** * What the operator's objects are made of

    The builders of [LinkObjects] and [Responder] return field trees, and nothing in them
    forces one field to agree with another. [applied_objects_typed] types the objects a
    pass applies: a workload selects the pods of its own template and only its pods' ports
    and volumes are named in it, and every name by which one object refers to another is
    the name of an object the operator applies beside it. *)

From S2P Require Import Prelude GoStrings Identity Config Kube Forwards LinkConfig Status LinkObjects Responder Watches Ensure.

(** ** Reading a tree *)
Definition yitems (v : option yaml) : list yaml := match v with Some (YList l) => l | _ => [] end.
Definition ytext (v : option yaml) : option string := match v with Some (YString s) => Some s | _ => None end.
(** The names of a list's items. *)
Definition item_names (v : option yaml) : list string := omap (fun x => ytext (ypath ["name"] x)) (yitems v).

Definition template (o : object) : option yaml := ob_path ["spec"; "template"] o.
Definition containers (spec : yaml) : list yaml := yitems (ypath ["initContainers"] spec) ++ yitems (ypath ["containers"] spec).

(** ** Types *)
Definition port_number (z : Z) : Prop := 0 < z <= 65535.

(** A probe's port is a number, or names a port of its container. *)
Definition probe_typed (container : yaml) : Prop :=
  match ypath ["readinessProbe"; "httpGet"; "port"] container with
  | None => True
  | Some (YInt z) => port_number z
  | Some (YString n) => n ∈ item_names (ypath ["ports"] container)
  | Some _ => False
  end.

Definition ports_typed (container : yaml) : Prop :=
  Forall (fun p => exists z, ypath ["containerPort"] p = Some (YInt z) /\ port_number z) (yitems (ypath ["ports"] container)).

Record pod_typed (spec : yaml) : Prop := {
  pt_containers : item_names (ypath ["containers"] spec) <> [];
  pt_names : NoDup (omap (fun c => ytext (ypath ["name"] c)) (containers spec));
  pt_volumes : NoDup (item_names (ypath ["volumes"] spec));
  pt_mounts : Forall (fun c => Forall (fun n => n ∈ item_names (ypath ["volumes"] spec)) (item_names (ypath ["volumeMounts"] c)))
                (containers spec);
  pt_ports : Forall (fun c => probe_typed c /\ ports_typed c) (containers spec)
}.

(** A workload selects its own template's pods. *)
Record workload_typed (o : object) : Prop := {
  wt_selector : ob_path ["spec"; "selector"; "matchLabels"] o = ob_path ["spec"; "template"; "metadata"; "labels"] o;
  wt_labels : is_Some (ob_path ["spec"; "selector"; "matchLabels"] o);
  wt_pod : exists spec, ob_path ["spec"; "template"; "spec"] o = Some spec /\ pod_typed spec
}.

(** What an object refers to by name: the kind and the name. *)
Definition named (kind : string) (v : option yaml) : list (string * string) := (fun n => (kind, n)) <$> option_list (ytext v).
Definition references (o : object) : list (string * string) :=
  let spec := default (YMap []) (ob_path ["spec"; "template"; "spec"] o) in
  named "ServiceAccount" (ypath ["serviceAccountName"] spec) ++
  flat_map (fun v => named "ConfigMap" (ypath ["configMap"; "name"] v) ++ named "Secret" (ypath ["secret"; "secretName"] v))
    (yitems (ypath ["volumes"] spec)) ++
  match ytext (ob_path ["roleRef"; "kind"] o) with
  | Some "Role" => named "Role" (ob_path ["roleRef"; "name"] o)
  | _ => []
  end ++
  flat_map (fun v => named "ServiceAccount" (ypath ["name"] v)) (yitems (ob_path ["subjects"] o)).

Definition is_workload (o : object) : bool := bool_decide (ob_Kind o ∈ ["Deployment"; "DaemonSet"]).

Record object_typed (around : list (string * string)) (o : object) : Prop := {
  ot_workload : is_workload o = true -> workload_typed o;
  ot_references : Forall (fun r => r ∈ around) (references o)
}.

(** A selector beside a workload: a disruption budget's, a policy's or a Service's. *)
Definition selects (o : object) : option yaml :=
  if bool_decide (ob_Kind o = "PodDisruptionBudget") then ob_path ["spec"; "selector"; "matchLabels"] o
  else if bool_decide (ob_Kind o = "NetworkPolicy") then ob_path ["spec"; "podSelector"; "matchLabels"] o
  else if bool_decide (ob_Kind o = "Service") then ob_path ["spec"; "selector"] o
  else None.

(** Selectors beside workloads pick pods of one of them. *)
Definition selectors_hit (os : list object) : Prop :=
  Forall (fun o => forall sel, selects o = Some sel ->
    Exists (fun w => is_workload w = true /\ ob_path ["spec"; "template"; "metadata"; "labels"] w = Some sel) os) os.

(** The Service's target port is a named port of the pods it selects. *)
Definition service_targets (o w : object) : Prop :=
  Forall (fun p => exists n, ypath ["targetPort"] p = Some (YString n) /\
    Exists (fun c => n ∈ item_names (ypath ["ports"] c)) (containers (default (YMap []) (ob_path ["spec"; "template"; "spec"] w))))
    (yitems (ob_path ["spec"; "ports"] o)).

Definition kind_name (o : object) : string * string := (ob_Kind o, ob_Name o).

(** ** Proofs *)
Section Typed.
Context (digest32 sha256 : string -> string) (encode : RuntimeConfig -> string) (cfg : OperatorConfig).

(** A fact about the names in a tree, which no symbolic field touches. *)
Ltac names := apply (bool_decide_unpack _); vm_compute; exact I.
(** The ports of a container: a number bounded by [H], or a name. *)
Ltac port_of H := unfold probe_typed, ports_typed; cbn;
  first [exact I | exact H | names | (apply Forall_cons; split; [eexists; split; [reflexivity|exact H]|constructor]) | constructor].

Lemma link_pod_typed gw ident :
  (forall i, ident = Some i -> port_number (wrap32 (gi_HealthPort i))) -> port_number (wrap32 (effectiveHealthPort gw)) ->
  pod_typed (linkPodSpec gw cfg ident).
Proof.
  intros Hi Hp. unfold linkPodSpec, y_node_selector.
  destruct ident as [i|], (decide (gw_NodeSelector gw = ∅)); split; try names.
  1, 2: specialize (Hi i eq_refl); apply Forall_cons_2; [split; port_of Hi|constructor].
  all: repeat (apply Forall_cons_2; [split; port_of Hp|]); constructor.
Qed.

Lemma responder_pod_typed gw extra :
  port_number (effectiveResponderPort gw) -> extra = y_node_selector gw \/ extra = [("affinity", anti_affinity (responderSelectorLabels gw))] ->
  exists spec, ypath ["spec"] (responderPodTemplate sha256 cfg gw extra) = Some spec /\ pod_typed spec.
Proof.
  intros Hp Hx. eexists. split; [reflexivity|].
  destruct Hx as [-> | ->]; unfold y_node_selector; [destruct (decide (gw_NodeSelector gw = ∅))|]; split; try names.
  all: apply Forall_cons_2; [split; port_of Hp|constructor].
Qed.

(** Objects that are no workloads have only their references to type. *)
Lemma plain_typed around o : is_workload o = false -> Forall (fun r => r ∈ around) (references o) -> object_typed around o.
Proof. intros Hw Hr. split; [by rewrite Hw|done]. Qed.

Lemma link_workload_typed gw ident o :
  (forall i, ident = Some i -> port_number (wrap32 (gi_HealthPort i))) -> port_number (wrap32 (effectiveHealthPort gw)) ->
  o = buildLinkDaemonSet gw cfg ident \/ o = buildLinkDeployment gw cfg /\ ident = None -> workload_typed o.
Proof.
  intros Hi Hp [-> | [-> ->]]; split; try reflexivity; try (eexists; reflexivity);
    eexists; (split; [reflexivity|by apply link_pod_typed]).
Qed.

Lemma responder_workload_typed gw o :
  port_number (effectiveResponderPort gw) ->
  o = buildResponderDaemonSet sha256 cfg gw \/ o = buildResponderDeployment sha256 cfg gw -> workload_typed o.
Proof.
  intros Hp [-> | ->]; split; try reflexivity; try (eexists; reflexivity).
  - apply (responder_pod_typed gw (y_node_selector gw) Hp). by left.
  - apply (responder_pod_typed gw _ Hp). by right.
Qed.

(** *** References *)
Lemma link_references gw ident rc :
  let name := linkComponentName gw in
  let pod := [("ServiceAccount", name); ("ConfigMap", name); ("Secret", linkSecretName gw)] in
  references (buildLinkServiceAccount gw) = [] /\ references (buildLinkRole gw) = [] /\
  references (buildLinkRoleBinding gw) = [("Role", name); ("ServiceAccount", name)] /\
  references (buildLinkConfigMap encode gw rc) = [] /\
  references (buildLinkClusterRoleBinding digest32 gw) = [("ServiceAccount", name)] /\
  references (buildLinkDaemonSet gw cfg ident) = pod /\ references (buildLinkDeployment gw cfg) = pod.
Proof.
  cbv zeta. split_and!; try reflexivity; unfold references; cbn; unfold linkPodSpec, y_node_selector;
    destruct (decide (gw_NodeSelector gw = ∅)); try destruct ident; reflexivity.
Qed.

Lemma responder_references gw :
  let pod := [("ConfigMap", responderComponentName gw)] in
  references (buildResponderDaemonSet sha256 cfg gw) = pod /\ references (buildResponderDeployment sha256 cfg gw) = pod.
Proof.
  cbv zeta. split; [|reflexivity]. unfold references. cbn. unfold y_node_selector.
  by destruct (decide (gw_NodeSelector gw = ∅)).
Qed.
End Typed.

Ltac member := repeat first [by left | right].
(** References given by [H], each found around. *)
Ltac refer H := rewrite H; repeat (apply Forall_cons; split; [member|]); constructor.

(** The link's objects and the responder's, each typed among themselves. *)
Lemma link_objects_typed digest32 encode cfg i :
  let os := snd <$> link_desired digest32 encode cfg i in
  (forall x, li_ident i = Some x -> port_number (wrap32 (gi_HealthPort x))) ->
  port_number (wrap32 (effectiveHealthPort (li_gw i))) ->
  Forall (object_typed (("Secret", linkSecretName (li_gw i)) :: (kind_name <$> os))) os.
Proof.
  intros os Hi Hp. subst os. unfold link_desired. set (rc := buildLinkConfig _ _ _ _ _ _ _ _ _).
  destruct (link_references digest32 encode cfg (li_gw i) (li_ident i) rc) as (R1 & R2 & R3 & R4 & R5 & R6 & R7).
  cbn [app fmap list_fmap snd].
  apply Forall_cons. split; [apply plain_typed; [reflexivity|]; refer R1|].
  apply Forall_cons. split; [apply plain_typed; [reflexivity|]; refer R2|].
  apply Forall_cons. split; [apply plain_typed; [reflexivity|]; refer R3|].
  apply Forall_cons. split; [apply plain_typed; [reflexivity|]; refer R4|].
  destruct (li_ident i) as [x|] eqn:Ei; cbn [app fmap list_fmap snd].
  - apply Forall_cons. split; [apply plain_typed; [reflexivity|]; refer R5|]. apply Forall_cons. split; [|constructor].
    split; [intros _; apply (link_workload_typed cfg (li_gw i) (Some x)); auto|refer R6].
  - apply Forall_cons. split; [apply plain_typed; [reflexivity|constructor]|].
    apply Forall_cons. split; [split; [intros _; apply (link_workload_typed cfg (li_gw i) None); auto|refer R7]|].
    destruct (1 <? _); [|constructor]. apply Forall_cons. split; [apply plain_typed; [reflexivity|constructor]|constructor].
Qed.

Lemma responder_objects_typed sha256 cfg gw :
  let rs := responder_desired sha256 cfg gw in
  port_number (effectiveResponderPort gw) -> Forall (object_typed (kind_name <$> rs)) rs.
Proof.
  intros rs Hp. subst rs. unfold responder_desired. destruct (responder_references sha256 cfg gw) as [R1 R2].
  apply Forall_app. split.
  - repeat (apply Forall_cons; split); [apply plain_typed; [reflexivity|constructor]..|constructor].
  - destruct (gw_isLocal gw).
    + apply Forall_cons. split; [|constructor].
      split; [intros _; apply (responder_workload_typed sha256 cfg gw); auto|refer R1].
    + apply Forall_cons. split; [split; [intros _; apply (responder_workload_typed sha256 cfg gw); auto|refer R2]|].
      destruct (1 <? _); [|constructor]. apply Forall_cons. split; [apply plain_typed; [reflexivity|constructor]|constructor].
Qed.

(** Objects that select [labels], or nothing, among workloads whose pods carry them. *)
Lemma selectors_among labels os w :
  w ∈ os -> is_workload w = true -> ob_path ["spec"; "template"; "metadata"; "labels"] w = Some labels ->
  Forall (fun o => selects o = None \/ selects o = Some labels) os -> selectors_hit os.
Proof.
  intros Hw Hk Hl Hall. apply (Forall_impl _ _ _ Hall). intros o [->| ->] sel; [done|]. intros [= <-].
  apply Exists_exists. by exists w.
Qed.

Lemma link_selectors digest32 encode cfg i : selectors_hit (snd <$> link_desired digest32 encode cfg i).
Proof.
  unfold link_desired. destruct (li_ident i) as [x|].
  - apply (selectors_among (ylabels (linkSelectorLabels (li_gw i))) _ (buildLinkDaemonSet (li_gw i) cfg (Some x)));
      [member|reflexivity..|]. repeat (apply Forall_cons; split; [by first [left; reflexivity|right; reflexivity]|]). constructor.
  - apply (selectors_among (ylabels (linkSelectorLabels (li_gw i))) _ (buildLinkDeployment (li_gw i) cfg));
      [member|reflexivity..|]. destruct (1 <? _);
      (repeat (apply Forall_cons; split; [by first [left; reflexivity|right; reflexivity]|]); constructor).
Qed.

Lemma responder_selectors sha256 cfg gw : selectors_hit (responder_desired sha256 cfg gw).
Proof.
  unfold responder_desired. destruct (gw_isLocal gw).
  - apply (selectors_among (ylabels (responderSelectorLabels gw)) _ (buildResponderDaemonSet sha256 cfg gw));
      [member|reflexivity..|]. repeat (apply Forall_cons; split; [by first [left; reflexivity|right; reflexivity]|]). constructor.
  - apply (selectors_among (ylabels (responderSelectorLabels gw)) _ (buildResponderDeployment sha256 cfg gw));
      [member|reflexivity..|]. destruct (1 <? _);
      (repeat (apply Forall_cons; split; [by first [left; reflexivity|right; reflexivity]|]); constructor).
Qed.

Lemma responder_service sha256 cfg gw o w :
  o ∈ responder_desired sha256 cfg gw -> w ∈ responder_desired sha256 cfg gw -> ob_Kind o = "Service" -> is_workload w = true ->
  service_targets o w.
Proof.
  assert (Ho : forall o, o ∈ responder_desired sha256 cfg gw -> ob_Kind o = "Service" -> o = buildResponderService gw).
  { clear o. intros o. unfold responder_desired. rewrite elem_of_app, !elem_of_cons, elem_of_nil.
    intros [Hx|Hx] Hk; [|destruct (gw_isLocal gw); [|destruct (1 <? _)]; rewrite ?elem_of_cons, ?elem_of_nil in Hx];
      destruct_or!; subst o; done. }
  intros Hin Hw Hk Hwl. rewrite (Ho o Hin Hk). unfold service_targets. cbn [yitems ob_path ypath].
  apply Forall_cons. split; [|constructor]. exists "http". split; [reflexivity|].
  unfold responder_desired in Hw. rewrite elem_of_app, !elem_of_cons, elem_of_nil in Hw.
  destruct Hw as [Hx|Hx]; [|destruct (gw_isLocal gw); [|destruct (1 <? _)]; rewrite ?elem_of_cons, ?elem_of_nil in Hx];
    destruct_or!; subst w; try done; try (apply Exists_cons_hd; by left).
  unfold buildResponderDaemonSet, y_node_selector. destruct (decide (gw_NodeSelector gw = ∅)); apply Exists_cons_hd; by left.
Qed.

(** C18: The objects a pass applies are typed, for every Gateway whose ports are port
    numbers. Each workload selects exactly the labels of its own pod template; in its pods
    containers and volumes have distinct names, every mount names a volume, every named
    probe port is a port of its container and every port number is one. Every account,
    role, ConfigMap and Secret an object names is applied beside it, every selector of a
    budget, policy or Service is that of a workload beside it, and the responder's Service
    targets a port its pods name. *)
Theorem applied_objects_typed digest32 sha256 encode cfg i :
  let gw := li_gw i in
  let os := snd <$> link_desired digest32 encode cfg i in
  let rs := responder_desired sha256 cfg gw in
  (forall x, li_ident i = Some x -> port_number (wrap32 (gi_HealthPort x))) ->
  port_number (wrap32 (effectiveHealthPort gw)) -> port_number (effectiveResponderPort gw) ->
  (Forall (object_typed (("Secret", linkSecretName gw) :: (kind_name <$> os))) os /\ selectors_hit os) /\
  (Forall (object_typed (kind_name <$> rs)) rs /\ selectors_hit rs) /\
  (forall o w, o ∈ rs -> w ∈ rs -> ob_Kind o = "Service" -> is_workload w = true -> service_targets o w).
Proof.
  intros gw os rs Hi Hp Hr. split_and!.
  - by apply link_objects_typed.
  - apply link_selectors.
  - by apply responder_objects_typed.
  - apply responder_selectors.
  - apply responder_service.
Qed.

Lemma applied_objects_typed_witness :
  workload_typed (buildLinkDeployment (sample_replicas 2) sample_oc) /\
  selectors_hit (snd <$> link_desired id (fun _ => "{}") sample_oc (sample_link 2)).
Proof.
  destruct (applied_objects_typed id id (fun _ => "{}") sample_oc (sample_link 2)) as [[H1 H2] _]; [done|by vm_compute..|].
  split; [|exact H2]. rewrite Forall_forall in H1. refine (ot_workload _ _ (H1 (buildLinkDeployment (sample_replicas 2) sample_oc) _) eq_refl). member.
Defined.
