(* ===== verification/Secrets.v ===== *)
(** * The WireGuard key Secrets: buildBundleSecret, buildLinkSecret, ensureSecrets,
      readGatewayKeys and readLinkPeerPublicKey of internal/controller/link.go

    One pass makes two key pairs and splits them over two Secrets: the VM's private key
    and the link's public key in the bundle, the link's private key and the VM's public
    key in the link's Secret. Nothing ties the two writes together, so a failure between
    them leaves one. [keys_agree] shows that a pass that returns still leaves the two
    halves of the same pairs, as long as no one removes the bundle under a live link
    Secret and no pass reads the cache before it shows the Secrets an earlier pass wrote.
    [lost_bundle_splits_keys] and [stale_read_splits_keys] show what happens otherwise. *)

From S2P Require Import Prelude GoStrings Identity Render Kube Forwards Status Effects LinkObjects Records Watches Ensure.

Definition buildBundleSecret (gw : Gateway) (gatewayPriv linkPub : string) : object :=
  new_object "Secret" (gw_Namespace gw) (bundleSecretName gw) (commonLabels gw "bundle")
    [("type", YString "Opaque");
     ("data", YMap [(BundleKey, YString (gatewayPriv +:+ nl +:+ linkPub +:+ nl))])].

Definition buildLinkSecret (gw : Gateway) (linkPriv gatewayPub : string) : object :=
  new_object "Secret" (gw_Namespace gw) (linkSecretName gw) (commonLabels gw componentLink)
    [("type", YString "Opaque");
     ("data", YMap [(LinkPrivateKey, YString linkPriv); (LinkPeerPublicKey, YString gatewayPub)])].

Definition secret_object_key (gw : Gateway) (name : string) : object_key := ("Secret", gw_Namespace gw, name).
Definition bundle_key (gw : Gateway) : object_key := secret_object_key gw (bundleSecretName gw).
Definition link_key (gw : Gateway) : object_key := secret_object_key gw (linkSecretName gw).

(** A data entry of a Secret, empty when it has none. *)
Definition secret_data (o : object) (k : string) : string :=
  match ob_path ["data"; k] o with Some (YString v) => v | _ => "" end.

(** [before, after, _ := strings.Cut(s, "\n")] *)
Definition cut_line (s : string) : string * string := default (s, "") (Cut "010"%char s).

Section Secrets.
Variable ssa : option object -> object -> object.
Variable fault : acall -> call_fault.
Variable seen : object_key -> option object.
Variable gw : Gateway.

Definition objectExists (k : object_key) : st astate bool :=
  let! o := st_read (fault (CGet k)) (fun _ => seen k) in st_ret (bool_decide (is_Some o)).

(** The outcome of one call of the key generator. *)
Definition generated (what : string) (r : result string (string * string)) : st astate (string * string) :=
  match r with Ok p => st_ret p | Err e => st_err ("generate " +:+ what +:+ " keypair: " +:+ e) end.

Definition write_secret (o : object) : st astate object :=
  apply ssa fault (set_controller (Some (gateway_ref gw)) o).

(** [gen1] and [gen2] are the outcomes of the pass's two calls of the generator. *)
Definition ensureSecrets (gen1 gen2 : result string (string * string)) : st astate unit :=
  let! bundleExists := objectExists (bundle_key gw) in
  let! linkExists := objectExists (link_key gw) in
  if bundleExists && linkExists then st_ret tt
  else
    let! gateway := generated "gateway" gen1 in
    let! lnk := generated "link" gen2 in
    st_wrap "write bundle secret" (write_secret (buildBundleSecret gw gateway.1 lnk.2)) ;!
    st_wrap "write link secret" (write_secret (buildLinkSecret gw lnk.1 gateway.2)) ;!
    st_ret tt.

Definition readGatewayKeys : result string (string * string) :=
  match fault (CGet (bundle_key gw)) with
  | Some (e, _) => Err ("get bundle secret: " +:+ e)
  | None =>
      match seen (bundle_key gw) with
      | None => Err "get bundle secret: not found"
      | Some secret =>
          let '(gatewayPrivateKey, rest) := cut_line (secret_data secret BundleKey) in
          let linkPublicKey := (cut_line rest).1 in
          if bool_decide (gatewayPrivateKey = "") || bool_decide (linkPublicKey = "")
          then Err "bundle secret carries no gateway key pair"
          else Ok (gatewayPrivateKey, linkPublicKey)
      end
  end.

Definition readLinkPeerPublicKey : result string string :=
  match fault (CGet (link_key gw)) with
  | Some (e, _) => Err ("get link secret for peer public key: " +:+ e)
  | None =>
      match seen (link_key gw) with
      | None => Err "get link secret for peer public key: not found"
      | Some secret => Ok (secret_data secret LinkPeerPublicKey)
      end
  end.
End Secrets.

(** ** Proofs *)

(** An applied text field is stored as applied. *)
Class KeepsText (body_ok : list (string * yaml) -> list (string * yaml) -> Prop) : Prop :=
  keeps_text d b path v : body_ok d b -> ypath path (YMap d) = Some (YString v) -> ypath path (YMap b) = Some (YString v).

(** A key pair as the generator makes it: the public key is the private key's, and both
    are non-empty texts of one line. *)
Definition good_pair (derive : string -> option string) (p : string * string) : Prop :=
  derive p.1 = Some p.2 /\ p.1 <> "" /\ p.2 <> "" /\ "010"%char ∉ chars p.1 /\ "010"%char ∉ chars p.2.

(** The two Secrets hold the halves of two key pairs. *)
Definition paired (derive : string -> option string) (b l : object) : Prop :=
  exists g k, good_pair derive g /\ good_pair derive k /\
    secret_data b BundleKey = g.1 +:+ nl +:+ k.2 +:+ nl /\
    secret_data l LinkPrivateKey = k.1 /\ secret_data l LinkPeerPublicKey = g.2.

Lemma cut_line_app a b : "010"%char ∉ chars a -> cut_line (a +:+ nl +:+ b) = (a, b).
Proof. intros Ha. unfold cut_line. change (nl +:+ b) with (String "010"%char b). by rewrite (Cut_app "010"%char a b Ha). Qed.

(** The bundle's text reads back as the two keys written into it. *)
Lemma bundle_reads_back fault seen gw b priv pub :
  fault (CGet (bundle_key gw)) = None -> seen (bundle_key gw) = Some b ->
  secret_data b BundleKey = priv +:+ nl +:+ pub +:+ nl ->
  priv <> "" -> pub <> "" -> "010"%char ∉ chars priv -> "010"%char ∉ chars pub ->
  readGatewayKeys fault seen gw = Ok (priv, pub).
Proof.
  intros Hf Hb Ht H1 H2 H3 H4. unfold readGatewayKeys. rewrite Hf, Hb, Ht, cut_line_app by done.
  assert (E : pub +:+ nl = pub +:+ nl +:+ "") by reflexivity.
  rewrite E, cut_line_app by done. cbn [fst]. by rewrite !bool_decide_false.
Qed.

Section Run.
Context (body_ok : list (string * yaml) -> list (string * yaml) -> Prop) `{!KeepsText body_ok}.
Context (ssa : option object -> object -> object) `{!ServerSideApply body_ok ssa}.
Context (derive : string -> option string) (gw : Gateway).

(** What a pass reads of the two Secrets: once the link Secret is stored, both are shown.
    The reads are the cached client's; a removal may reach them late, a write may not. *)
Definition secrets_shown (seen : object_key -> option object) (s : astate) : Prop :=
  is_Some (as_objects s !! link_key gw) -> is_Some (seen (link_key gw)) /\ is_Some (seen (bundle_key gw)).

(** Passes whose reads show the Secrets and whose calls may fail; the link Secret may be
    removed at any time, the bundle only when there is no link Secret; other objects may
    change. *)
Inductive secret_step : astate -> astate -> Prop :=
| ss_pass fault seen gen1 gen2 s s' r :
    (forall p, gen1 = Ok p \/ gen2 = Ok p -> good_pair derive p) -> secrets_shown seen s ->
    ensureSecrets ssa fault seen gw gen1 gen2 s = (s', r) -> secret_step s s'
| ss_remove_link s : secret_step s (set_objects (delete (link_key gw) (as_objects s)) s)
| ss_remove_bundle s :
    as_objects s !! link_key gw = None -> secret_step s (set_objects (delete (bundle_key gw) (as_objects s)) s)
| ss_other s s' :
    (forall k, k = link_key gw \/ k = bundle_key gw -> as_objects s' !! k = as_objects s !! k) -> secret_step s s'.

Record secrets_ok (s : astate) : Prop := {
  so_keyed k o : k = link_key gw \/ k = bundle_key gw -> as_objects s !! k = Some o -> ob_key o = k;
  so_paired l : as_objects s !! link_key gw = Some l ->
    exists b, as_objects s !! bundle_key gw = Some b /\ paired derive b l
}.

Lemma keys_ne : bundle_key gw <> link_key gw.
Proof.
  unfold bundle_key, link_key, secret_object_key, bundleSecretName, linkSecretName.
  intros [= E%string_app_inj_l]. done.
Qed.

(** One write: nothing, or the object stored under its key with its data. *)
Lemma write_secret_any fault o s s' r :
  ob_key o = link_key gw \/ ob_key o = bundle_key gw -> secrets_ok s ->
  write_secret ssa fault gw o s = (s', r) ->
  (s' = s /\ is_err r = true) \/
  (exists live, s' = set_objects (<[ob_key o := live]> (as_objects s)) s /\ ob_key live = ob_key o /\
   forall k v, ob_path ["data"; k] o = Some (YString v) -> secret_data live k = v).
Proof.
  intros Hk Hok H. unfold write_secret, apply in H. change (ob_key (set_controller _ o)) with (ob_key o) in H.
  set (d := set_controller (Some (gateway_ref gw)) o) in *.
  assert (Hc : conforms body_ok d (ssa (as_objects s !! ob_key o) d)).
  { apply ssa_conforms. intros o' Ho'. change (ob_key d) with (ob_key o). by apply (so_keyed _ Hok). }
  assert (Hput : exists live, set_objects (<[ob_key o := ssa (as_objects s !! ob_key o) d]> (as_objects s)) s =
      set_objects (<[ob_key o := live]> (as_objects s)) s /\ ob_key live = ob_key o /\
      forall k v, ob_path ["data"; k] o = Some (YString v) -> secret_data live k = v).
  { eexists. split_and!; [done|exact (cf_key _ _ _ Hc)|]. intros k v Hv. unfold secret_data, ob_path.
    by rewrite (keeps_text _ _ _ _ (cf_body _ _ _ Hc) Hv). }
  destruct (fault _) as [[e []]|]; injection H as <- <-; auto.
Qed.

Lemma generated_any {what r s s' out} :
  generated what r s = (s', out) -> s' = s /\ forall p, out = Ok p -> r = Ok p.
Proof. destruct r; intros [= <- <-]; split; [done| |done|done]. by intros p [= ->]. Qed.

Lemma objectExists_any fault seen k s s' r :
  objectExists fault seen k s = (s', r) -> s' = s /\ forall b, r = Ok b -> b = bool_decide (is_Some (seen k)).
Proof.
  unfold objectExists, st_bind, st_read. destruct (fault _) as [[]|]; intros [= <- <-]; split; try done.
  by intros b [= <-].
Qed.

(** Storing the bundle when there is no link Secret, and then the link Secret of the
    same pairs, keeps the Secrets paired. *)
Lemma bundle_stored s live :
  secrets_ok s -> as_objects s !! link_key gw = None -> ob_key live = bundle_key gw ->
  secrets_ok (set_objects (<[bundle_key gw := live]> (as_objects s)) s).
Proof.
  intros Hok Hl Hk. split; cbn.
  - intros k o Hko. rewrite lookup_insert_Some. intros [[<- <-]|[_ Ho]]; [done|exact (so_keyed _ Hok _ _ Hko Ho)].
  - intros l. rewrite lookup_insert_ne by apply keys_ne. by rewrite Hl.
Qed.

Lemma link_stored s b live :
  secrets_ok s -> as_objects s !! bundle_key gw = Some b -> ob_key live = link_key gw -> paired derive b live ->
  secrets_ok (set_objects (<[link_key gw := live]> (as_objects s)) s).
Proof.
  intros Hok Hb Hk Hp. split; cbn.
  - intros k o Hko. rewrite lookup_insert_Some. intros [[<- <-]|[_ Ho]]; [done|exact (so_keyed _ Hok _ _ Hko Ho)].
  - intros l. rewrite lookup_insert_eq. intros [= <-]. exists b.
    rewrite lookup_insert_ne by (intros E; by apply keys_ne). done.
Qed.

(** The two writes, from two good pairs, stopping at the first failure. *)
Lemma write_both_ok fault g k s s' r :
  good_pair derive g -> good_pair derive k -> secrets_ok s -> as_objects s !! link_key gw = None ->
  (st_wrap "write bundle secret" (write_secret ssa fault gw (buildBundleSecret gw g.1 k.2)) ;!
   st_wrap "write link secret" (write_secret ssa fault gw (buildLinkSecret gw k.1 g.2)) ;! st_ret tt) s = (s', r) ->
  secrets_ok s' /\
  (r = Ok tt -> exists b l, as_objects s' !! bundle_key gw = Some b /\ as_objects s' !! link_key gw = Some l).
Proof.
  intros Hg Hk Hok Hnol H. unfold st_bind at 1, st_wrap at 1 in H.
  destruct (write_secret ssa fault gw (buildBundleSecret gw g.1 k.2) s) as [s3 r3] eqn:E3.
  assert (Hkey3 : ob_key (buildBundleSecret gw g.1 k.2) = bundle_key gw) by reflexivity.
  destruct (write_secret_any _ _ _ _ _ (or_intror Hkey3) Hok E3) as [[-> He]|(b & -> & Hkb & Hdb)].
  { destruct r3; [done|]. by injection H as <- <-. }
  rewrite Hkey3 in *. pose proof (bundle_stored s b Hok Hnol Hkb) as Hok3.
  set (s4 := set_objects (<[bundle_key gw := b]> (as_objects s)) s) in *.
  destruct r3 as [o3|e]; [|by injection H as <- <-].
  assert (Hb4 : as_objects s4 !! bundle_key gw = Some b) by (cbn; by rewrite lookup_insert_eq).
  unfold st_bind at 1, st_wrap at 1 in H.
  destruct (write_secret ssa fault gw (buildLinkSecret gw k.1 g.2) s4) as [s5 r5] eqn:E5.
  assert (Hkey5 : ob_key (buildLinkSecret gw k.1 g.2) = link_key gw) by reflexivity.
  destruct (write_secret_any _ _ _ _ _ (or_introl Hkey5) Hok3 E5) as [[-> He]|(l & -> & Hkl & Hdl)].
  { destruct r5; [done|]. by injection H as <- <-. }
  rewrite Hkey5 in *. assert (Hp : paired derive b l).
  { exists g, k. split_and!; [done..| | |]; [by apply Hdb|by apply Hdl|by apply Hdl]. }
  pose proof (link_stored s4 b l Hok3 Hb4 Hkl Hp) as Hok5.
  destruct r5 as [o5|e]; injection H as <- <-; (split; [exact Hok5|]); [|done].
  intros _. exists b, l. cbn [as_objects set_objects]. rewrite lookup_insert_eq.
  rewrite lookup_insert_ne by (intros E; by apply keys_ne). done.
Qed.

(** A pass leaves both Secrets as they were or runs both writes, and a pass that saw no
    link Secret where none is stored leaves both. *)
Lemma ensureSecrets_ok fault seen gen1 gen2 s s' r :
  (forall p, gen1 = Ok p \/ gen2 = Ok p -> good_pair derive p) -> secrets_shown seen s -> secrets_ok s ->
  ensureSecrets ssa fault seen gw gen1 gen2 s = (s', r) ->
  secrets_ok s' /\
  (r = Ok tt -> (is_Some (seen (link_key gw)) -> is_Some (as_objects s !! link_key gw)) ->
   exists b l, as_objects s' !! bundle_key gw = Some b /\ as_objects s' !! link_key gw = Some l).
Proof.
  intros Hgen Hshown Hok H. unfold ensureSecrets in H.
  unfold st_bind at 1 in H. destruct (objectExists _ _ (bundle_key gw) s) as [s1 r1] eqn:E1.
  apply objectExists_any in E1 as [-> Hb]. destruct r1 as [be|e]; [|by injection H as <- <-].
  unfold st_bind at 1 in H. destruct (objectExists _ _ (link_key gw) s) as [s2 r2] eqn:E2.
  apply objectExists_any in E2 as [-> Hl]. destruct r2 as [le|e]; [|by injection H as <- <-].
  specialize (Hb _ eq_refl). specialize (Hl _ eq_refl). subst be le.
  destruct (bool_decide (is_Some (seen (bundle_key gw))) && bool_decide (is_Some (seen (link_key gw)))) eqn:Eb.
  { injection H as <- <-. split; [done|]. intros _ Hst. bool_prop.
    destruct (Hst ltac:(done)) as [l El]. destruct (so_paired _ Hok _ El) as (b & Hb & _). eauto. }
  assert (Hnol : as_objects s !! link_key gw = None).
  { destruct (as_objects s !! link_key gw) eqn:El; [|done]. exfalso.
    destruct (Hshown ltac:(by rewrite El)) as [H1 H2].
    by rewrite !bool_decide_true in Eb. }
  unfold st_bind at 1 in H. destruct (generated "gateway" gen1 s) as [s1 r1] eqn:E1.
  apply generated_any in E1 as [-> Hg1]. destruct r1 as [g|e]; [|by injection H as <- <-].
  unfold st_bind at 1 in H. destruct (generated "link" gen2 s) as [s2 r2] eqn:E2.
  apply generated_any in E2 as [-> Hg2]. destruct r2 as [k|e]; [|by injection H as <- <-].
  destruct (write_both_ok _ g k _ _ _ (Hgen _ (or_introl (Hg1 _ eq_refl))) (Hgen _ (or_intror (Hg2 _ eq_refl)))
    Hok Hnol H) as [? ?]. by split; auto.
Qed.

Lemma secrets_step_ok s s' : secret_step s s' -> secrets_ok s -> secrets_ok s'.
Proof.
  intros [fault seen gen1 gen2 s0 s1 r Hgen Hsh H|s0|s0 Hl|s0 s1 Heq] Hok.
  - by apply (ensureSecrets_ok _ _ _ _ _ _ _ Hgen Hsh Hok) in H as [? _].
  - split; cbn.
    + intros k o Hk. rewrite lookup_delete_Some. intros [_ Ho]. exact (so_keyed _ Hok _ _ Hk Ho).
    + intros l. by rewrite lookup_delete_eq.
  - split; cbn.
    + intros k o Hk. rewrite lookup_delete_Some. intros [_ Ho]. exact (so_keyed _ Hok _ _ Hk Ho).
    + intros l. rewrite lookup_delete_ne by apply keys_ne. by rewrite Hl.
  - split.
    + intros k o Hk. rewrite Heq by done. by apply (so_keyed _ Hok).
    + intros l. rewrite !Heq by auto. apply (so_paired _ Hok).
Qed.

Lemma secrets_reachable s0 s :
  as_objects s0 !! link_key gw = None -> as_objects s0 !! bundle_key gw = None ->
  rtc secret_step s0 s -> secrets_ok s.
Proof.
  intros Hl Hb Hr. revert s Hr. apply (rtc_ind_r (R := secret_step) secrets_ok).
  - split; [intros k o [-> | ->]; [by rewrite Hl|by rewrite Hb]|intros l; by rewrite Hl].
  - intros y z _ Hs IH. exact (secrets_step_ok _ _ Hs IH).
Qed.
End Run.

(** C14: The two ends of the tunnel do not disagree on their keys, as long as no one
    removes the bundle under a live link Secret and every pass's reads show the two
    Secrets once the link Secret is stored. Start without key Secrets; let passes run and
    fail anywhere, even at a write that took effect, and let the link Secret be removed,
    with that removal reaching the reads late. Whenever a pass of ensureSecrets whose
    read of the link Secret is up to date returns without error, the bundle reads back
    as a gateway private key and a link public key, the link Secret holds the other two,
    and each private key belongs to the public key the opposite end is given. *)
Theorem keys_agree body_ok `{!KeepsText body_ok} ssa `{!ServerSideApply body_ok ssa} derive gw s0 s fault seen gen1 gen2 s' :
  as_objects s0 !! link_key gw = None -> as_objects s0 !! bundle_key gw = None ->
  rtc (secret_step ssa derive gw) s0 s ->
  (forall p, gen1 = Ok p \/ gen2 = Ok p -> good_pair derive p) ->
  secrets_shown gw seen s -> (is_Some (seen (link_key gw)) -> is_Some (as_objects s !! link_key gw)) ->
  ensureSecrets ssa fault seen gw gen1 gen2 s = (s', Ok tt) ->
  exists gatewayPriv linkPub gatewayPub l,
    readGatewayKeys (fun _ => None) (fun k => as_objects s' !! k) gw = Ok (gatewayPriv, linkPub) /\
    readLinkPeerPublicKey (fun _ => None) (fun k => as_objects s' !! k) gw = Ok gatewayPub /\
    as_objects s' !! link_key gw = Some l /\
    derive gatewayPriv = Some gatewayPub /\ derive (secret_data l LinkPrivateKey) = Some linkPub.
Proof.
  intros Hl Hb Hr Hgen Hsh Hst H. pose proof (secrets_reachable _ _ _ _ _ _ Hl Hb Hr) as Hok.
  destruct (ensureSecrets_ok _ _ _ _ _ _ _ _ _ _ _ Hgen Hsh Hok H) as [Hok' Hboth].
  destruct (Hboth eq_refl Hst) as (b & l & Hb' & Hl'). destruct (so_paired _ _ _ Hok' _ Hl') as (b' & Eb & g & k & Hp).
  rewrite Hb' in Eb. injection Eb as <-. destruct Hp as ((Hg & Hg1 & Hg2 & Hg3 & Hg4) & (Hk & Hk1 & Hk2 & Hk3 & Hk4) & Ht & Hpr & Hpp).
  exists g.1, k.2, g.2, l. split_and!; [|unfold readLinkPeerPublicKey; by rewrite Hl', Hpp|done|done|by rewrite Hpr].
  by apply (bundle_reads_back _ _ _ b).
Qed.

(** ** Runs *)
#[global] Instance keeps_text_eq : KeepsText eq.
Proof. by intros d b path v ->. Qed.

Definition toy_derive (priv : string) : option string := Some ("pub-" +:+ priv).
Definition toy_gen (n : Z) : result string (string * string) := Ok ("k" +:+ Itoa n, "pub-k" +:+ Itoa n).
Definition toy_secrets (fault : acall -> call_fault) (n : Z) (s : astate) : astate * result string unit :=
  ensureSecrets toy_ssa fault (fun k => as_objects s !! k) (sample_replicas 1) (toy_gen n) (toy_gen (n + 1)) s.

(** The link Secret's write is refused. *)
Definition link_write_fails (c : acall) : call_fault :=
  match c with CPatch (_, _, name) => if bool_decide (name = "edge-link") then Some ("refused", false) else None | _ => None end.

Definition secrets_half : astate := (toy_secrets link_write_fails 1 sample_start).1.

Lemma toy_gen_good : forall n p, 1 <= n <= 4 -> toy_gen n = Ok p -> good_pair toy_derive p.
Proof.
  intros n p Hn [= <-]. assert (Hc : n = 1 \/ n = 2 \/ n = 3 \/ n = 4) by lia.
  destruct_or!; subst n; unfold good_pair; cbn [fst snd]; split_and!; try done;
    by apply (bool_decide_unpack _); vm_compute.
Qed.

Lemma keys_agree_witness :
  let out := toy_secrets no_fault 3 secrets_half in
  as_objects secrets_half !! bundle_key (sample_replicas 1) <> None /\
  exists gatewayPriv linkPub gatewayPub l,
    readGatewayKeys (fun _ => None) (fun k => as_objects out.1 !! k) (sample_replicas 1) = Ok (gatewayPriv, linkPub) /\
    readLinkPeerPublicKey (fun _ => None) (fun k => as_objects out.1 !! k) (sample_replicas 1) = Ok gatewayPub /\
    as_objects out.1 !! link_key (sample_replicas 1) = Some l /\
    toy_derive gatewayPriv = Some gatewayPub /\ toy_derive (secret_data l LinkPrivateKey) = Some linkPub.
Proof.
  intros out. split; [by vm_compute|].
  apply (keys_agree eq toy_ssa toy_derive (sample_replicas 1) sample_start secrets_half no_fault
    (fun k => as_objects secrets_half !! k) (toy_gen 3) (toy_gen 4) out.1);
    [done|done| | | | |].
  - apply rtc_once. apply (ss_pass _ _ _ link_write_fails (fun k => as_objects sample_start !! k) (toy_gen 1) (toy_gen 2) _ _ (Err "write link secret: refused")).
    + intros p [H|H]; [apply (toy_gen_good 1)|apply (toy_gen_good 2)]; done.
    + intros [l Hl]. by vm_compute in Hl.
    + apply outcome_eq. vm_compute. reflexivity.
  - intros p [H|H]; [apply (toy_gen_good 3)|apply (toy_gen_good 4)]; done.
  - intros [l Hl]. by vm_compute in Hl.
  - done.
  - apply outcome_eq. vm_compute. reflexivity.
Defined.

(** The bundle is removed under a live link Secret; the next pass rewrites it but fails
    to rewrite the link Secret. The pass after that finds both and returns without
    error: the gateway's private key and the peer key the link holds are now of
    different pairs, and every later pass leaves them so. *)
Lemma lost_bundle_splits_keys :
  let gw := sample_replicas 1 in
  let both := (toy_secrets no_fault 1 sample_start).1 in
  let lost := set_objects (delete (bundle_key gw) (as_objects both)) both in
  let half := (toy_secrets link_write_fails 3 lost).1 in
  toy_secrets no_fault 5 half = (half, Ok tt) /\
  readGatewayKeys (fun _ => None) (fun k => as_objects half !! k) gw = Ok ("k3", "pub-k4") /\
  readLinkPeerPublicKey (fun _ => None) (fun k => as_objects half !! k) gw = Ok "pub-k1" /\
  toy_derive "k3" = Some "pub-k3".
Proof. vm_compute. done. Qed.

(** A pass that runs before the cache shows the Secrets makes new pairs; when its link
    Secret's write fails, the same split follows, and every later pass leaves it so. *)
Lemma stale_read_splits_keys :
  let gw := sample_replicas 1 in
  let both := (toy_secrets no_fault 1 sample_start).1 in
  let half := (ensureSecrets toy_ssa link_write_fails (fun _ => None) gw (toy_gen 3) (toy_gen 4) both).1 in
  toy_secrets no_fault 5 half = (half, Ok tt) /\
  readGatewayKeys (fun _ => None) (fun k => as_objects half !! k) gw = Ok ("k3", "pub-k4") /\
  readLinkPeerPublicKey (fun _ => None) (fun k => as_objects half !! k) gw = Ok "pub-k1" /\
  toy_derive "k3" = Some "pub-k3".
Proof. vm_compute. done. Qed.
