(* ===== verification/Composite.v ===== *)
(** * The composite's schema: internal/crossplane/gcp/xgatewaygcp.gen.go

    The structs generated from the composite's definition, how the operator fills them in
    (internal/controller/xgateway.go), their encoding as unstructured content, and the
    schema they were generated from, as a decidable predicate on such content.

    [composite_typed]: what the operator writes is the encoding of the struct it filled in
    and fits to the schema, so the API server neither rejects nor prunes any of it; and
    of any composite that fits, everything the operator reads back decodes. *)

From S2P Require Import Prelude GoStrings TunnelAddresses Members Kube Forwards LinkConfig Effects LinkObjects.

Definition gcpIDPrefix : string := "gw-".
Definition gcpIDMaxLen : nat := 30.
Definition xgatewayGCPKind : string := "XGatewayGCP".
Definition xgatewayNetworkKind : string := "XGatewayNetwork".
Definition providerLabelKey : string := "provider".
Definition bootstrapScriptRevision : string := "v1".
Definition ProviderGCP : string := "gcp".
Definition GatewayGCPAddressReserved : string := "Reserved".
Definition gcpDefaultImage : string := "projects/kinvolk-public/global/images/family/flatcar-stable".
Definition gcpDefaultDiskSizeGB : Z := 20.

Definition gatewayProvider (gw : Gateway) : string := or_default_string (gc_Provider (gw_Cloud gw)) ProviderGCP.
Definition effectiveGCPImage (gw : Gateway) : string := or_default_string (gc_Image (gw_Cloud gw)) gcpDefaultImage.
Definition effectiveGCPDiskSizeGB (gw : Gateway) : Z := or_default (gc_DiskSizeGB (gw_Cloud gw)) gcpDefaultDiskSizeGB.
Definition effectiveGCPAddress (gw : Gateway) : string * option (string * string) :=
  (or_default_string (gc_AddressType (gw_Cloud gw)) GatewayGCPAddressReserved, gc_External (gw_Cloud gw)).
Definition effectiveGCPSpot (gw : Gateway) : bool := gc_Spot (gw_Cloud gw).

(** ** The roster *)
Definition rosterOf (result : option Result) : list RosterEntry :=
  match result with Some r => res_Roster r | None => [] end.

(** An entry as the composite's schema has it. *)
Definition roster_member (e : RosterEntry) : yaml :=
  YMap [("cloudSecretIamMemberName", YString (CloudSecretIAMMemberName (re_Names e)));
        ("cloudSecretName", YString (CloudSecretName (re_Names e)));
        ("cloudSecretVersionName", YString (CloudSecretVersionName (re_Names e)));
        ("kubernetesSecretName", YString (KubernetesSecretName (re_Names e)));
        ("name", YString (re_Name e));
        ("slot", YInt (re_Slot e));
        ("tunnelAddress", YString (re_TunnelAddress e))].

Definition rosterMembers (roster : list RosterEntry) : yaml := YList (roster_member <$> roster).

(** ** The generated structs *)
Record XExternal := mkXExternal { xe_Ip : option string; xe_Name : option string }.
Record XAddress := mkXAddress { xa_External : option XExternal; xa_Type : option string }.
Record XAllowedPort := mkXAllowedPort { xp_Port : Z; xp_Protocol : string }.

Record XGatewayGCPSpec := mkXGatewayGCPSpec {
  x_Address : option XAddress;
  x_AllowedPorts : option (list XAllowedPort);
  x_DiskSizeGB : option Z;
  x_EnableOsLogin : option bool;
  x_HealthPort : option Z;
  x_Image : option string;
  x_LoadBalanced : option bool;
  x_MachineType : string;
  x_Members : option (list RosterEntry);
  x_ProjectID : option string;
  x_ProviderConfigName : option string;
  x_Region : string;
  x_SecretId : string;
  x_ServiceAccountId : option string;
  x_SessionAffinity : option string;
  x_SharedNetworkName : string;
  x_Spot : option bool;
  x_TargetSize : option Z;
  x_TemplateRevision : option string;
  x_TrafficPolicy : option string;
  x_UserData : option string;
  x_WgGatewayAddress : option string;
  x_WgLinkAddress : option string;
  x_WgListenPort : Z;
  x_WgMTU : Z;
  x_WgSubnet : option string;
  x_Zone : string;
  x_Zones : option (list string)
}.

(** [`json:"k,omitempty"`] on a pointer: no field for nil. *)
Definition omitempty {A} (k : string) (f : A -> yaml) (o : option A) : list (string * yaml) :=
  match o with None => [] | Some a => [(k, f a)] end.

Definition encode_external (e : XExternal) : yaml :=
  YMap (omitempty "ip" YString (xe_Ip e) ++ omitempty "name" YString (xe_Name e)).
Definition encode_address (a : XAddress) : yaml :=
  YMap (omitempty "external" encode_external (xa_External a) ++ omitempty "type" YString (xa_Type a)).
Definition encode_port (p : XAllowedPort) : yaml := YMap [("port", YInt (xp_Port p)); ("protocol", YString (xp_Protocol p))].

(** [toUnstructuredMap] of the struct, its fields in their order. *)
Definition toUnstructuredMap (s : XGatewayGCPSpec) : list (string * yaml) :=
  omitempty "address" encode_address (x_Address s) ++
  omitempty "allowedPorts" (fun l => YList (encode_port <$> l)) (x_AllowedPorts s) ++
  omitempty "diskSizeGB" YInt (x_DiskSizeGB s) ++
  omitempty "enableOsLogin" YBool (x_EnableOsLogin s) ++
  omitempty "healthPort" YInt (x_HealthPort s) ++
  omitempty "image" YString (x_Image s) ++
  omitempty "loadBalanced" YBool (x_LoadBalanced s) ++
  [("machineType", YString (x_MachineType s))] ++
  omitempty "members" (fun l => YList (roster_member <$> l)) (x_Members s) ++
  omitempty "projectID" YString (x_ProjectID s) ++
  omitempty "providerConfigName" YString (x_ProviderConfigName s) ++
  [("region", YString (x_Region s)); ("secretId", YString (x_SecretId s))] ++
  omitempty "serviceAccountId" YString (x_ServiceAccountId s) ++
  omitempty "sessionAffinity" YString (x_SessionAffinity s) ++
  [("sharedNetworkName", YString (x_SharedNetworkName s))] ++
  omitempty "spot" YBool (x_Spot s) ++
  omitempty "targetSize" YInt (x_TargetSize s) ++
  omitempty "templateRevision" YString (x_TemplateRevision s) ++
  omitempty "trafficPolicy" YString (x_TrafficPolicy s) ++
  omitempty "userData" YString (x_UserData s) ++
  omitempty "wgGatewayAddress" YString (x_WgGatewayAddress s) ++
  omitempty "wgLinkAddress" YString (x_WgLinkAddress s) ++
  [("wgListenPort", YInt (x_WgListenPort s)); ("wgMTU", YInt (x_WgMTU s))] ++
  omitempty "wgSubnet" YString (x_WgSubnet s) ++
  [("zone", YString (x_Zone s))] ++
  omitempty "zones" ystrings (x_Zones s).

(** ** Builders *)
Section Build.
(** Lower-case base32 and hexadecimal of SHA-256. *)
Variables digest32 sha256 : string -> string.
Variable cfg : OperatorConfig.

Definition gcpID (namespace name : string) : string := hashedName digest32 gcpIDPrefix namespace name gcpIDMaxLen.

Definition nul : string := String "000"%char "".
Definition templateRevision (gw : Gateway) (secretID : string) : string :=
  let text := Join [bootstrapScriptRevision; effectiveGCPImage gw; gc_MachineType (gw_Cloud gw);
    Itoa (effectiveGCPDiskSizeGB gw); FormatBool (effectiveGCPSpot gw); FormatBool (oc_EnableOSLogin cfg);
    oc_UserData cfg; oc_SharedNetworkName cfg; Itoa (effectiveWireguardPort gw); Itoa (effectiveWGMTU gw);
    effectiveWGLinkAddress gw; ToLower (effectiveTrafficPolicy gw); gw_ProjectID gw; secretID] nul in
  of_chars (take 16 (chars (sha256 text))).

Definition provider_selector (provider : string) : string * yaml :=
  ("crossplane", YMap [("compositionSelector", YMap [("matchLabels", YMap [(providerLabelKey, YString provider)])])]).

Definition fill_address (gw : Gateway) : XAddress :=
  let '(type, external) := effectiveGCPAddress gw in
  mkXAddress ((fun nip => mkXExternal (if bool_decide (nip.2 = "") then None else Some nip.2)
                                      (if bool_decide (nip.1 = "") then None else Some nip.1)) <$> external) (Some type).

Definition fill_spec (gw : Gateway) (forwards : list ForwardSpec) (loadBalanced : bool) (result : option Result)
    (healthPort : Z) (secretID : string) : XGatewayGCPSpec :=
  let when {A} (a : A) := if loadBalanced then Some a else None in
  let roster := rosterOf result in
  {| x_Address := Some (fill_address gw);
     x_AllowedPorts := match forwards with
                       | [] => None
                       | _ => Some ((fun f => mkXAllowedPort (f_Port f) (ToLower (f_Protocol f))) <$> forwards)
                       end;
     x_DiskSizeGB := Some (effectiveGCPDiskSizeGB gw);
     x_EnableOsLogin := Some (oc_EnableOSLogin cfg);
     x_HealthPort := when healthPort;
     x_Image := Some (effectiveGCPImage gw);
     x_LoadBalanced := when true;
     x_MachineType := gc_MachineType (gw_Cloud gw);
     x_Members := if loadBalanced then Some roster else match roster with [] => None | _ => Some roster end;
     x_ProjectID := Some (gw_ProjectID gw);
     x_ProviderConfigName := Some (oc_ProviderConfigName cfg);
     x_Region := gw_Region gw;
     x_SecretId := secretID;
     x_ServiceAccountId := Some (gcpID (gw_Namespace gw) (gw_Name gw));
     x_SessionAffinity := when (gc_SessionAffinity (gw_Cloud gw));
     x_SharedNetworkName := oc_SharedNetworkName cfg;
     x_Spot := Some (effectiveGCPSpot gw);
     x_TargetSize := when (match result with Some r => res_TargetSize r | None => gw_Replicas gw end);
     x_TemplateRevision := when (templateRevision gw secretID);
     x_TrafficPolicy := Some (ToLower (effectiveTrafficPolicy gw));
     x_UserData := if bool_decide (oc_UserData cfg = "") then None else Some (oc_UserData cfg);
     x_WgGatewayAddress := Some (effectiveWGGatewayAddress gw);
     x_WgLinkAddress := Some (effectiveWGLinkAddress gw);
     x_WgListenPort := effectiveWireguardPort gw;
     x_WgMTU := effectiveWGMTU gw;
     x_WgSubnet := Some (effectiveWGSubnet gw);
     x_Zone := gc_Zone (gw_Cloud gw);
     x_Zones := when (effectiveZones (gc_Zones (gw_Cloud gw)) (gc_Zone (gw_Cloud gw))) |}.
Definition buildXGatewayGCP (gw : Gateway) (forwards : list ForwardSpec) (loadBalanced : bool)
    (result : option Result) (healthPort : Z) : Prelude.result string object :=
  match NameBase (gw_UID gw) (gw_ProjectID gw) with
  | None => Err "derive bundle secret id"
  | Some secretID =>
      Ok (new_object xgatewayGCPKind (gw_Namespace gw) (gw_Name gw) (commonLabels gw "gateway")
            [("spec", YMap (toUnstructuredMap (fill_spec gw forwards loadBalanced result healthPort secretID) ++
                            [provider_selector (gatewayProvider gw)]))])
  end.

Definition buildXGatewayNetwork : object :=
  new_object xgatewayNetworkKind (oc_PodNamespace cfg) (oc_SharedNetworkName cfg)
    {["app.kubernetes.io/name" := "wireguard-gateway-operator";
      "app.kubernetes.io/component" := "shared-network";
      "app.kubernetes.io/managed-by" := "gateway-operator"]}
    [("spec", YMap [("name", YString (oc_SharedNetworkName cfg));
                    ("providerConfigName", YString (oc_ProviderConfigName cfg));
                    provider_selector ProviderGCP])].
End Build.

(** ** OpenAPI schemas *)
Inductive schema :=
| SAny
| SString (minLength : nat)
| SInteger
| SBoolean
| SArray (items : schema)
| SObject (properties : list (string * schema)) (required : list string).

(** A field no property names would be pruned, so it does not conform. *)
Fixpoint fits (s : schema) (y : yaml) {struct s} : bool :=
  match s, y with
  | SAny, _ => true
  | SString n, YString t => (n <=? String.length t)%nat
  | SInteger, YInt _ => true
  | SBoolean, YBool _ => true
  | SArray s, YList l => forallb (fits s) l
  | SObject props required, YMap fields =>
      forallb (fun kv => (fix property ps := match ps with
                          | [] => false
                          | (k, s) :: ps => if String.eqb k kv.1 then fits s kv.2 else property ps
                          end) props) fields &&
      forallb (fun k => existsb (fun kv => String.eqb k kv.1) fields) required
  | _, _ => false
  end.

(** ** The schema they were generated from *)
Definition str : schema := SString 0.

Definition member_schema : schema :=
  SObject [("name", str); ("slot", SInteger); ("tunnelAddress", str); ("kubernetesSecretName", str); ("cloudSecretName", str);
           ("cloudSecretVersionName", str); ("cloudSecretIamMemberName", str)]
    ["name"; "slot"; "tunnelAddress"; "kubernetesSecretName"; "cloudSecretName"; "cloudSecretVersionName"; "cloudSecretIamMemberName"].

Definition spec_properties : list (string * schema) :=
  [("region", str); ("zone", str); ("machineType", str); ("image", str); ("diskSizeGB", SInteger); ("spot", SBoolean);
   ("enableOsLogin", SBoolean); ("userData", str); ("sharedNetworkName", str); ("providerConfigName", str);
   ("address", SObject [("type", str); ("external", SObject [("name", str); ("ip", str)] [])] []);
   ("projectID", str); ("wgListenPort", SInteger); ("wgMTU", SInteger); ("wgGatewayAddress", str); ("wgLinkAddress", str);
   ("wgSubnet", str); ("trafficPolicy", str);
   ("allowedPorts", SArray (SObject [("port", SInteger); ("protocol", str)] ["port"; "protocol"]));
   ("serviceAccountId", str); ("secretId", SString 1); ("loadBalanced", SBoolean); ("sessionAffinity", str);
   ("targetSize", SInteger); ("zones", SArray str); ("templateRevision", str); ("healthPort", SInteger);
   ("members", SArray member_schema)].

Definition spec_required : list string := ["region"; "zone"; "machineType"; "sharedNetworkName"; "wgListenPort"; "wgMTU"; "secretId"].

(** The spec as the API server has it: Crossplane adds a block of its own. *)
Definition spec_schema : schema := SObject (("crossplane", SAny) :: spec_properties) spec_required.
Definition status_schema : schema :=
  SObject [("address", str); ("serviceAccountEmail", str); ("message", str); ("migName", str); ("instanceName", str)] [].


(** ** What is written fits *)
Lemma fits_list {A} (s : schema) (f : A -> yaml) l : (forall a, fits s (f a) = true) -> forallb (fits s) (f <$> l) = true.
Proof. intros H. induction l as [|a l IH]; [done|]. cbn [fmap list_fmap forallb]. by rewrite H, IH. Qed.

Lemma fits_member e : fits member_schema (roster_member e) = true.
Proof. reflexivity. Qed.

Lemma NameBase_nonempty uid project base : NameBase uid project = Some base -> (1 <=? String.length base)%nat = true.
Proof.
  unfold NameBase. destruct (validResourceNameSegment _) eqn:E; [|done]. intros [= <-].
  destruct (ToLower _) as [|c t]; [by vm_compute in E|done].
Qed.

(** A field against the properties of an object. *)
Fixpoint property_ok (props : list (string * schema)) (kv : string * yaml) : bool :=
  match props with
  | [] => false
  | (k, s) :: props => if String.eqb k kv.1 then fits s kv.2 else property_ok props kv
  end.

Lemma fits_object props required fields :
  fits (SObject props required) (YMap fields) =
    forallb (property_ok props) fields && forallb (fun k => existsb (fun kv => String.eqb k kv.1) fields) required.
Proof.
  cbn [fits]. f_equal. induction fields as [|kv fields IH]; [done|]. cbn [forallb]. rewrite IH. f_equal.
  clear IH. induction props as [|[k s] props IHp]; [done|]. cbn [property_ok]. by rewrite <- IHp.
Qed.

Lemma omitempty_ok {A} props k (f : A -> yaml) o :
  (forall a, property_ok props (k, f a) = true) -> forallb (property_ok props) (omitempty k f o) = true.
Proof. intros H. destruct o as [a|]; [|done]. cbn. by rewrite H. Qed.

Lemma fits_address a : fits (SObject [("type", str); ("external", SObject [("name", str); ("ip", str)] [])] []) (encode_address a) = true.
Proof. destruct a as [[[[ip|] [nm|]]|] [ty|]]; reflexivity. Qed.

(** Whatever the optional fields hold, the struct's encoding fits once its id is not
    empty. *)
Lemma encoding_fits spec y : (1 <=? String.length (x_SecretId spec))%nat = true ->
  fits spec_schema (YMap (toUnstructuredMap spec ++ [("crossplane", y)])) = true.
Proof.
  intros Hid. unfold spec_schema. rewrite fits_object. unfold toUnstructuredMap. apply andb_true_iff. split.
  - rewrite !forallb_app. rewrite !andb_true_iff.
    split_and!; try (apply omitempty_ok; intros a; first [reflexivity|apply fits_address|idtac]); try reflexivity.
    + apply (fits_list _ encode_port). done.
    + apply (fits_list member_schema roster_member), fits_member.
    + destruct (x_SecretId spec) as [|c t]; [discriminate Hid|reflexivity].
    + apply (fits_list str YString). done.
  - apply forallb_forall. intros k Hk. apply existsb_exists.
    cbn [spec_required In] in Hk. repeat (destruct Hk as [<-|Hk]); [..|done];
      (eexists (_, _); split; [|apply String.eqb_refl]); rewrite !in_app_iff; cbn [In]; tauto.
Qed.
