(* ===== verification/XGateway.v ===== *)
(** * The Crossplane composites and DNS: internal/controller/xgateway.go and dns.go,
      with the roster helpers of members.go

    The operator renders a Gateway's cloud resources into one composite and reads its
    own earlier rendering back from it: the roster and the target size of the fleet live
    nowhere else. The lemmas on [fleet_at] show that each operation that keeps what it
    read writes the roster and the size back; [outage_keeps_fleet] of Controller.v
    composes them over whole passes. [composite_typed] holds the rendering to its schema. *)

From S2P Require Import Prelude GoStrings Identity TunnelAddresses Members Kube Forwards LinkConfig Status Effects LinkObjects Composite Records Watches Ensure Secrets.

Definition dnsEndpointKind : string := "DNSEndpoint".
Definition cloudflareProxiedAnnotation : string := "external-dns.alpha.kubernetes.io/cloudflare-proxied".

(** Decoding an applied entry: a missing field is the zero value, a field of another
    type an error. *)
Definition field_string (name : string) (fields : list (string * yaml)) : result string string :=
  match yfield name fields with
  | Some (YString s) => Ok s
  | None => Ok ""
  | Some _ => Err ("cannot unmarshal " +:+ name)
  end.
Definition field_int (name : string) (fields : list (string * yaml)) : result string Z :=
  match yfield name fields with
  | Some (YInt z) => Ok z
  | None => Ok 0
  | Some _ => Err ("cannot unmarshal " +:+ name)
  end.

Definition applied_member (y : yaml) : result string RosterEntry :=
  match y with
  | YMap f =>
      iam <-! field_string "cloudSecretIamMemberName" f ;;
      cloud <-! field_string "cloudSecretName" f ;;
      version <-! field_string "cloudSecretVersionName" f ;;
      kube <-! field_string "kubernetesSecretName" f ;;
      name <-! field_string "name" f ;;
      slot <-! field_int "slot" f ;;
      address <-! field_string "tunnelAddress" f ;;
      Ok (mkRosterEntry name slot address (mkManagedResourceNames kube cloud version iam))
  | _ => Err "cannot unmarshal member"
  end.

Fixpoint applied_members (l : list yaml) : result string (list RosterEntry) :=
  match l with
  | [] => Ok []
  | y :: l => e <-! applied_member y ;; es <-! applied_members l ;; Ok (e :: es)
  end.

Definition buildDNSEndpoint (gw : Gateway) (address : string) : option object :=
  match gw_DNSHostnames gw with
  | [] => None
  | hosts =>
      if bool_decide (address = "") then None
      else Some (set_annotation cloudflareProxiedAnnotation "false"
             (new_object dnsEndpointKind (gw_Namespace gw) (gw_Name gw) (commonLabels gw "dns")
               [("spec", YMap [("endpoints", YList ((fun host =>
                   YMap [("dnsName", YString host); ("recordType", YString "A"); ("targets", ystrings [address])])
                 <$> hosts))])]))
  end.

(** ** Reading the composite *)

(** apimachinery's Nested helpers: absent along the path is no value, a step through
    something that is not a map an error. *)
Fixpoint nested (path : list string) (v : yaml) : result string (option yaml) :=
  match path with
  | [] => Ok (Some v)
  | k :: path => match v with
                 | YMap fields => match yfield k fields with None => Ok None | Some w => nested path w end
                 | _ => Err "not a map"
                 end
  end.
Definition ob_nested (path : list string) (o : object) : result string (option yaml) := nested path (YMap (ob_Body o)).

Definition NestedString (path : list string) (o : object) : result string string :=
  v <-! ob_nested path o ;;
  match v with None => Ok "" | Some (YString s) => Ok s | Some _ => Err "not a string" end.
Definition NestedInt64 (path : list string) (o : object) : result string (option Z) :=
  v <-! ob_nested path o ;;
  match v with None => Ok None | Some (YInt z) => Ok (Some z) | Some _ => Err "not an int64" end.
Definition NestedSlice (path : list string) (o : object) : result string (option (list yaml)) :=
  v <-! ob_nested path o ;;
  match v with None => Ok None | Some (YList l) => Ok (Some l) | Some _ => Err "not a list" end.

Record compositeStatus := mkCompositeStatus {
  cs_Address : string;
  cs_ServiceAccountEmail : string;
  cs_Message : string;
  cs_MIGName : string;
  cs_InstanceName : string
}.


Definition xg_key (gw : Gateway) : object_key := (xgatewayGCPKind, gw_Namespace gw, gw_Name gw).

Section Ops.
Variable ssa : option object -> object -> object.
Variables digest32 sha256 : string -> string.
(** Decoding of the link's runtime config. *)
Variable decode : string -> result string Config.RuntimeConfig.
Variable cfg : OperatorConfig.
Variable fault : acall -> call_fault.
Variable seen : object_key -> option object.
Variable gw : Gateway.

Definition get_object (k : object_key) : st astate (option object) := st_read (fault (CGet k)) (fun _ => seen k).

Definition xgatewayGCPExists : st astate bool := objectExists fault seen (xg_key gw).

Definition readXGatewayGCPStatus : st astate compositeStatus :=
  let! xg := get_object (xg_key gw) in
  match xg with
  | None => st_ret (mkCompositeStatus "" "" "" "" "")
  | Some o => st_lift (
      address <-! NestedString ["status"; "address"] o ;;
      email <-! NestedString ["status"; "serviceAccountEmail"] o ;;
      message <-! NestedString ["status"; "message"] o ;;
      mig <-! NestedString ["status"; "migName"] o ;;
      instance <-! NestedString ["status"; "instanceName"] o ;;
      Ok (mkCompositeStatus address email message mig instance))
  end.

Definition readXGatewayGCPTargetSize : st astate Z :=
  let! xg := get_object (xg_key gw) in
  match xg with
  | None => st_ret 0
  | Some o => let! v := st_lift (NestedInt64 ["spec"; "targetSize"] o) in
              st_ret (match v with None => 0 | Some z => wrap32 z end)
  end.

Definition passRoster (result : Result) : st astate (list RosterEntry) :=
  if negb (res_Unusable result) then st_ret (res_Roster result)
  else
    let! xg := get_object (xg_key gw) in
    match xg with
    | None => st_ret []
    | Some o => let! raw := st_lift (NestedSlice ["spec"; "members"] o) in
                match raw with
                | None => st_ret []
                | Some l => st_lift (applied_members l)
                end
    end.

(** ** Writing *)
Definition with_roster (r : Result) (roster : list RosterEntry) : Result :=
  mkResult (res_Members r) (res_TargetSize r) (res_Peers r) roster (res_Unusable r).

(** A patch of an object [gw] controls. *)
Definition apply_owned (o : object) : st astate unit :=
  apply ssa fault (set_controller (Some (gateway_ref gw)) o) ;! st_ret tt.

Definition ensureXGatewayGCP (forwards : list ForwardSpec) (loadBalanced : bool) (result : option Result)
    (healthPort : Z) : st astate unit :=
  let! pass := match result with
               | None => st_ret None
               | Some r => let! roster := passRoster r in st_ret (Some (with_roster r roster))
               end in
  let! desired := st_lift (buildXGatewayGCP digest32 sha256 cfg gw forwards loadBalanced pass healthPort) in
  apply_owned desired.

Definition unusable_result (targetSize : Z) : Result := mkResult [] targetSize [] [] true.

Definition applyOverCapacityXGatewayGCP (forwards : list ForwardSpec) (healthPort : Z) : st astate unit :=
  let! exists_ := xgatewayGCPExists in
  if exists_ : bool then
    let! targetSize := readXGatewayGCPTargetSize in
    ensureXGatewayGCP forwards true (Some (unusable_result targetSize)) healthPort
  else st_ret tt.

Definition dependencyWaitResult : st astate (option Result) :=
  let! exists_ := xgatewayGCPExists in
  if exists_ : bool then
    let! targetSize := readXGatewayGCPTargetSize in st_ret (Some (unusable_result targetSize))
  else st_ret None.

Definition ensureXGatewayNetwork : st astate unit := apply ssa fault (buildXGatewayNetwork cfg) ;! st_ret tt.

Definition ensureDNSEndpoint (address : string) : st astate unit :=
  match buildDNSEndpoint gw address with
  | None => st_ret tt
  | Some desired => apply_owned desired
  end.

Definition appliedLinkPeers : st astate (list Config.Peer) :=
  let! cm := get_object ("ConfigMap", gw_Namespace gw, linkComponentName gw) in
  match cm with
  | None => st_ret []
  | Some o =>
      let text := match ob_path ["data"; linkConfigKey] o with Some (YString t) => t | _ => "" end in
      let! rc := st_lift (decode text) in
      st_ret (Config.Peers (Config.rc_WireGuard rc))
  end.
End Ops.

(** ** Proofs *)

(** An applied field that is not itself a map is stored as applied; a custom resource's
    list without a list type is replaced as a whole. *)
Class KeepsLeaf (body_ok : list (string * yaml) -> list (string * yaml) -> Prop) : Prop :=
  keeps_leaf d b path v : body_ok d b -> ypath path (YMap d) = Some v ->
    match v with YMap _ => False | _ => True end -> ypath path (YMap b) = Some v.

Lemma yfield_app k l1 l2 : yfield k (l1 ++ l2) = match yfield k l1 with Some v => Some v | None => yfield k l2 end.
Proof. induction l1 as [|[k' v] l1 IH]; [done|]. cbn. by case_decide. Qed.

Lemma nested_ypath path v w : ypath path v = Some w -> nested path v = Ok (Some w).
Proof.
  revert v. induction path as [|k path IH]; intros v; cbn; [by intros [= ->]|].
  destruct v; try done. destruct (yfield k fields) as [u|]; cbn; [apply IH|done].
Qed.

(** The roster a composite carries decodes to itself. *)
Lemma applied_members_roster roster : applied_members (roster_member <$> roster) = Ok roster.
Proof.
  induction roster as [|[name slot addr [kube cloud version iam]] roster IH]; [done|].
  cbn [fmap list_fmap applied_members]. by rewrite IH.
Qed.

(** A composite that carries this roster and this target size; the stored one does, and
    a read shows one that does. *)
Definition carries (roster : list RosterEntry) (size : Z) (o : object) : Prop :=
  ob_path ["spec"; "members"] o = Some (rosterMembers roster) /\
  ob_path ["spec"; "targetSize"] o = Some (YInt size).
Definition fleet_at (gw : Gateway) (roster : list RosterEntry) (size : Z) (s : astate) : Prop :=
  exists o, as_objects s !! xg_key gw = Some o /\ ob_key o = xg_key gw /\ carries roster size o.
Definition fleet_shown (gw : Gateway) (roster : list RosterEntry) (size : Z) (seen : object_key -> option object) : Prop :=
  exists o, seen (xg_key gw) = Some o /\ carries roster size o.

Lemma spec_path kind ns name labels fields k :
  ob_path ["spec"; k] (new_object kind ns name labels [("spec", YMap fields)]) = yfield k fields.
Proof.
  unfold ob_path. cbn [new_object ob_Body ypath yfield]. rewrite decide_True by done. cbn [mbind option_bind ypath].
  by destruct (yfield k fields).
Qed.

Lemma built_fleet digest32 sha256 cfg gw forwards r hp o :
  buildXGatewayGCP digest32 sha256 cfg gw forwards true (Some r) hp = Ok o ->
  ob_key o = xg_key gw /\
  ob_path ["spec"; "members"] o = Some (rosterMembers (res_Roster r)) /\
  ob_path ["spec"; "targetSize"] o = Some (YInt (res_TargetSize r)).
Proof.
  unfold buildXGatewayGCP. destruct (NameBase _ _) as [id|]; [|done]. intros [= <-].
  assert (Hf : forall k v, (k, v) = ("members", rosterMembers (res_Roster r)) \/ (k, v) = ("targetSize", YInt (res_TargetSize r)) ->
    yfield k (toUnstructuredMap (fill_spec digest32 sha256 cfg gw forwards true (Some r) hp id) ++
              [provider_selector (gatewayProvider gw)]) = Some v).
  { intros k v [[= -> ->]|[= -> ->]]; unfold toUnstructuredMap, fill_spec; cbn [x_AllowedPorts x_UserData];
      destruct forwards, (bool_decide (oc_UserData cfg = "")); reflexivity. }
  split; [done|]. rewrite !spec_path. split; [exact (Hf _ _ (or_introl eq_refl))|exact (Hf _ _ (or_intror eq_refl))].
Qed.

Section Fleet.
Context (body_ok : list (string * yaml) -> list (string * yaml) -> Prop) `{!KeepsLeaf body_ok}.
Context (ssa : option object -> object -> object) `{!ServerSideApply body_ok ssa}.
Context (digest32 sha256 : string -> string) (cfg : OperatorConfig).

Definition keyed_at (k : object_key) (s : astate) : Prop :=
  forall o, as_objects s !! k = Some o -> ob_key o = k.

Lemma fleet_keyed gw roster size s : fleet_at gw roster size s -> keyed_at (xg_key gw) s.
Proof. intros (o & Ho & Hk & _) o' Ho'. congruence. Qed.

(** A write of a composite with this fleet does nothing or stores the fleet. *)
Lemma write_fleet fault gw o roster size s s' r :
  keyed_at (xg_key gw) s -> ob_key o = xg_key gw ->
  ob_path ["spec"; "members"] o = Some (rosterMembers roster) ->
  ob_path ["spec"; "targetSize"] o = Some (YInt size) ->
  apply_owned ssa fault gw o s = (s', r) ->
  (s' = s /\ is_err r = true) \/ fleet_at gw roster size s'.
Proof.
  intros Hk Hko Hm Ht H. set (d := set_controller (Some (gateway_ref gw)) o).
  assert (Hc : conforms body_ok d (ssa (as_objects s !! xg_key gw) d)).
  { apply ssa_conforms. intros o' Ho'. change (ob_key d) with (ob_key o). rewrite Hko. by apply Hk. }
  assert (Hput : fleet_at gw roster size (set_objects (<[xg_key gw := ssa (as_objects s !! xg_key gw) d]> (as_objects s)) s)).
  { eexists. split; [cbn; by rewrite lookup_insert_eq|]. split_and!.
    - rewrite (cf_key _ _ _ Hc). exact Hko.
    - split; [exact (keeps_leaf _ _ _ _ (cf_body _ _ _ Hc) Hm I)|].
      exact (keeps_leaf _ _ _ _ (cf_body _ _ _ Hc) Ht I). }
  revert H. unfold apply_owned, st_bind, apply. change (ob_key (set_controller _ o)) with (ob_key o). rewrite Hko.
  destruct (fault _) as [[e []]|]; intros [= <- <-]; auto.
Qed.

(** A usable result is written as it is. *)
Lemma usable_stored fault seen gw forwards hp r s s' :
  keyed s -> res_Unusable r = false ->
  ensureXGatewayGCP ssa digest32 sha256 cfg fault seen gw forwards true (Some r) hp s = (s', Ok tt) ->
  fleet_at gw (res_Roster r) (res_TargetSize r) s'.
Proof.
  intros Hk Hu H. unfold ensureXGatewayGCP, passRoster in H. rewrite Hu in H. cbn [negb] in H.
  apply st_bind_ok in H as (s1 & p & [= -> <-] & H). apply st_bind_ok in H as (s2 & o & [= <- Eb] & H).
  destruct (built_fleet _ _ _ _ _ _ _ _ Eb) as (Hko & Hm & Ht).
  destruct (write_fleet _ _ _ _ _ _ _ _ (fun o Ho => Hk _ o Ho) Hko Hm Ht H) as [[_ ?]|?]; done.
Qed.

(** Reading back the shown roster and size. *)
Lemma passRoster_fleet fault seen gw roster size n s s' r :
  fleet_shown gw roster size seen -> passRoster fault seen gw (unusable_result n) s = (s', r) ->
  s' = s /\ (r = Ok roster \/ is_err r = true).
Proof.
  intros (o & Ho & Hm & _). unfold passRoster, get_object, st_bind, st_read. cbn [res_Unusable unusable_result negb].
  destruct (fault _) as [[e ?]|]; [intros [= <- <-]; auto|]. rewrite Ho. unfold st_lift, NestedSlice, ob_nested.
  rewrite (nested_ypath _ _ _ Hm). cbn. rewrite applied_members_roster. intros [= <- <-]. auto.
Qed.

Lemma targetSize_fleet fault seen gw roster size s s' r :
  fleet_shown gw roster size seen -> - 2 ^ 31 <= size < 2 ^ 31 ->
  readXGatewayGCPTargetSize fault seen gw s = (s', r) -> s' = s /\ (r = Ok size \/ is_err r = true).
Proof.
  intros (o & Ho & _ & Ht) Hsize. unfold readXGatewayGCPTargetSize, get_object, st_bind, st_read.
  destruct (fault _) as [[e ?]|]; [intros [= <- <-]; auto|]. rewrite Ho. unfold st_lift, NestedInt64, ob_nested.
  rewrite (nested_ypath _ _ _ Ht). cbn. intros [= <- <-]. split; [done|]. left. by rewrite wrap32_id.
Qed.

Lemma exists_fleet fault seen gw roster size s s' r :
  fleet_shown gw roster size seen -> xgatewayGCPExists fault seen gw s = (s', r) ->
  s' = s /\ (r = Ok true \/ is_err r = true).
Proof.
  intros (o & Ho & _). unfold xgatewayGCPExists, objectExists, st_bind, st_read.
  destruct (fault _) as [[e ?]|]; [intros [= <- <-]; auto|]. rewrite Ho. intros [= <- <-]. auto.
Qed.

(** A group not named yet: the result keeps the shown size. *)
Lemma dependencyWait_fleet fault seen gw roster size s s' r :
  fleet_shown gw roster size seen -> - 2 ^ 31 <= size < 2 ^ 31 ->
  dependencyWaitResult fault seen gw s = (s', Ok r) -> r = Some (unusable_result size).
Proof.
  intros Hsh Hsize. unfold dependencyWaitResult, st_bind.
  destruct (xgatewayGCPExists _ _ _ s) as [s1 r1] eqn:E1.
  destruct (exists_fleet _ _ _ _ _ _ _ _ Hsh E1) as [-> [-> | He]]; [|by destruct r1].
  destruct (readXGatewayGCPTargetSize _ _ _ s) as [s2 r2] eqn:E2.
  destruct (targetSize_fleet _ _ _ _ _ _ _ _ Hsh Hsize E2) as [-> [-> | He]]; [|by destruct r2].
  by intros [= _ <-].
Qed.

(** A write that keeps the roster it read, at this size: whatever fails, the fleet stays. *)
Lemma ensure_keeps_fleet fault seen gw roster size forwards hp s s' r :
  fleet_shown gw roster size seen -> fleet_at gw roster size s ->
  ensureXGatewayGCP ssa digest32 sha256 cfg fault seen gw forwards true (Some (unusable_result size)) hp s = (s', r) ->
  fleet_at gw roster size s'.
Proof.
  intros Hsh Hf. unfold ensureXGatewayGCP, st_bind.
  destruct (passRoster _ _ _ _ s) as [s1 r1] eqn:E1.
  destruct (passRoster_fleet _ _ _ _ _ _ _ _ _ Hsh E1) as [-> [-> | He]]; [|destruct r1; [done|by intros [= <- _]]].
  cbn [st_ret]. unfold st_lift.
  destruct (buildXGatewayGCP _ _ _ _ _ _ _ _) as [o|e] eqn:Eb; [|by intros [= <- _]].
  destruct (built_fleet _ _ _ _ _ _ _ _ Eb) as (Hk & Hm & Ht). intros H.
  destruct (write_fleet _ _ _ _ _ _ _ _ (fleet_keyed _ _ _ _ Hf) Hk Hm Ht H) as [[-> _]|?]; done.
Qed.

(** More members asked for than the subnet holds. *)
Lemma over_capacity_fleet fault seen gw roster size forwards hp s s' r :
  fleet_shown gw roster size seen -> - 2 ^ 31 <= size < 2 ^ 31 -> fleet_at gw roster size s ->
  applyOverCapacityXGatewayGCP ssa digest32 sha256 cfg fault seen gw forwards hp s = (s', r) ->
  fleet_at gw roster size s'.
Proof.
  intros Hsh Hsize Hf. unfold applyOverCapacityXGatewayGCP, st_bind.
  destruct (xgatewayGCPExists _ _ _ s) as [s1 r1] eqn:E1.
  destruct (exists_fleet _ _ _ _ _ _ _ _ Hsh E1) as [-> [-> | He]]; [|destruct r1; [done|by intros [= <- _]]].
  destruct (readXGatewayGCPTargetSize _ _ _ s) as [s2 r2] eqn:E2.
  destruct (targetSize_fleet _ _ _ _ _ _ _ _ Hsh Hsize E2) as [-> [-> | He]]; [|destruct r2; [done|by intros [= <- _]]].
  by apply ensure_keeps_fleet.
Qed.
End Fleet.

(** ** A composite with a fleet *)
#[global] Instance keeps_leaf_eq : KeepsLeaf eq.
Proof. by intros d b path v ->. Qed.

Definition sample_entry : RosterEntry :=
  mkRosterEntry "gw-1" 0 "10.99.0.1" (mkManagedResourceNames "k-gw-1" "c-gw-1" "v-gw-1" "i-gw-1").
Definition sample_fleet : Result := mkResult [] 2 [] [sample_entry] false.
Definition sample_applied_xg : astate :=
  (ensureXGatewayGCP toy_ssa id id sample_oc no_fault (fun k => as_objects sample_start !! k) (sample_gw "" 0 [])
     [] true (Some sample_fleet) 27000 sample_start).1.
(** ** The composite against its schema *)

(** Nothing stored conflicts with the schema. *)
Definition well_typed (o : object) : Prop :=
  (forall v, ob_path ["spec"] o = Some v -> fits spec_schema v = true) /\
  (forall v, ob_path ["status"] o = Some v -> fits status_schema v = true).

(** The schema of a property. *)
Fixpoint property (k : string) (props : list (string * schema)) : option schema :=
  match props with
  | [] => None
  | (k', s) :: props => if String.eqb k' k then Some s else property k props
  end.

Lemma property_ok_schema props k v s : property_ok props (k, v) = true -> property k props = Some s -> fits s v = true.
Proof.
  induction props as [|[k' s'] props IH]; [done|]. cbn [property property_ok fst snd].
  destruct (k' =? k)%string; [by intros ? [= <-]|exact IH].
Qed.

Lemma yfield_ok props fields k v : forallb (property_ok props) fields = true -> yfield k fields = Some v -> property_ok props (k, v) = true.
Proof.
  induction fields as [|[k' v'] fields IH]; [done|]. cbn [forallb yfield]. intros [H1 H2]%andb_true_iff.
  destruct (decide (k' = k)) as [->|]; [by intros [= ->]|by apply IH].
Qed.

Lemma fits_field props required fields k v s :
  fits (SObject props required) (YMap fields) = true -> yfield k fields = Some v -> property k props = Some s -> fits s v = true.
Proof.
  rewrite fits_object. intros [H _]%andb_true_iff Hv Hs. exact (property_ok_schema _ _ _ _ (yfield_ok _ _ _ _ H Hv) Hs).
Qed.

Lemma fits_map props required v : fits (SObject props required) v = true -> exists fields, v = YMap fields.
Proof. destruct v; try done. eauto. Qed.

(** A nested field of a well_typed block is absent or fits. *)
Lemma nested_fits top k props required s o :
  (forall v, ob_path [top] o = Some v -> fits (SObject props required) v = true) -> property k props = Some s ->
  ob_nested [top; k] o = Ok None \/ exists v, ob_nested [top; k] o = Ok (Some v) /\ fits s v = true.
Proof.
  intros H Hs. unfold ob_nested, ob_path in *. cbn [ypath nested] in *. destruct (yfield top (ob_Body o)) as [v|]; [|by left].
  specialize (H v eq_refl). destruct (fits_map _ _ _ H) as [fields ->].
  destruct (yfield k fields) as [w|] eqn:E; [right|by left]. exists w. split; [done|]. exact (fits_field _ _ _ _ _ _ H E Hs).
Qed.

Lemma status_string k o : well_typed o -> property k (("address", str) :: ("serviceAccountEmail", str) :: ("message", str) ::
    ("migName", str) :: ("instanceName", str) :: []) = Some str -> exists t, NestedString ["status"; k] o = Ok t.
Proof.
  intros [_ H] Hk. unfold NestedString. destruct (nested_fits "status" k _ _ str o H Hk) as [-> |(v & -> & Hv)]; [by eexists|].
  destruct v; try done. by eexists.
Qed.

Lemma member_field fields k s : fits member_schema (YMap fields) = true ->
  property k [("name", str); ("slot", SInteger); ("tunnelAddress", str); ("kubernetesSecretName", str); ("cloudSecretName", str);
    ("cloudSecretVersionName", str); ("cloudSecretIamMemberName", str)] = Some s ->
  match s with
  | SString _ => exists t, field_string k fields = Ok t
  | SInteger => exists z, field_int k fields = Ok z
  | _ => True
  end.
Proof.
  intros H Hs. unfold field_string, field_int. destruct (yfield k fields) as [v|] eqn:E.
  - pose proof (fits_field _ _ _ _ _ _ H E Hs) as Hv. destruct s; try done; destruct v; try done; by eexists.
  - destruct s; try done; by eexists.
Qed.

Lemma applied_members_fit l : forallb (fits member_schema) l = true -> exists es, applied_members l = Ok es.
Proof.
  induction l as [|y l IH]; [by eexists|]. cbn [forallb]. intros [Hy Hl]%andb_true_iff. destruct (IH Hl) as [es Hes].
  destruct (fits_map _ _ _ Hy) as [f ->]. cbn [applied_members applied_member].
  destruct (member_field f "cloudSecretIamMemberName" _ Hy eq_refl) as [? ->], (member_field f "cloudSecretName" _ Hy eq_refl) as [? ->],
    (member_field f "cloudSecretVersionName" _ Hy eq_refl) as [? ->], (member_field f "kubernetesSecretName" _ Hy eq_refl) as [? ->],
    (member_field f "name" _ Hy eq_refl) as [? ->], (member_field f "slot" _ Hy eq_refl) as [? ->],
    (member_field f "tunnelAddress" _ Hy eq_refl) as [? ->].
  cbn [res_bind]. rewrite Hes. by eexists.
Qed.

Lemma built_well_typed digest32 sha256 cfg gw forwards lb result hp o :
  buildXGatewayGCP digest32 sha256 cfg gw forwards lb result hp = Ok o -> well_typed o.
Proof.
  unfold buildXGatewayGCP. destruct (NameBase _ _) as [id|] eqn:E; [|done]. intros [= <-]. split; [|done].
  intros v [= <-]. apply (encoding_fits (fill_spec digest32 sha256 cfg gw forwards lb result hp id)). exact (NameBase_nonempty _ _ _ E).
Qed.

(** C19: The operator and the composite's schema agree. What it writes is the encoding of the
    struct generated from the schema, filled in from the Gateway, plus Crossplane's own
    block, and it fits the schema whatever the Gateway and the fleet are: no field is
    unknown, of another type, missing though required, or empty where it may not be. What it
    reads back of a composite that fits always decodes: its status, its target size and, in
    a pass without a usable view of the fleet, the roster. *)
Theorem composite_typed digest32 sha256 cfg fault seen gw (s : astate) :
  (forall forwards lb result hp o, buildXGatewayGCP digest32 sha256 cfg gw forwards lb result hp = Ok o ->
     well_typed o /\
     exists id, NameBase (gw_UID gw) (gw_ProjectID gw) = Some id /\
       ob_path ["spec"] o = Some (YMap (toUnstructuredMap (fill_spec digest32 sha256 cfg gw forwards lb result hp id) ++
                                        [provider_selector (gatewayProvider gw)]))) /\
  (fault (CGet (xg_key gw)) = None -> (forall o, seen (xg_key gw) = Some o -> well_typed o) ->
     (exists st, readXGatewayGCPStatus fault seen gw s = (s, Ok st)) /\
     (exists z, readXGatewayGCPTargetSize fault seen gw s = (s, Ok z)) /\
     forall r, exists roster, passRoster fault seen gw r s = (s, Ok roster)).
Proof.
  split.
  - intros forwards lb result hp o H. split; [exact (built_well_typed _ _ _ _ _ _ _ _ _ H)|].
    unfold buildXGatewayGCP in H. destruct (NameBase _ _) as [id|]; [|done]. exists id. injection H as <-. by split.
  - intros Hf Ht. unfold readXGatewayGCPStatus, readXGatewayGCPTargetSize, passRoster, get_object, st_bind, st_read. rewrite Hf.
    destruct (seen (xg_key gw)) as [o|].
    2: { split_and!; [by eexists..|]. intros r. destruct (negb _); by eexists. }
    specialize (Ht o eq_refl). split_and!.
    + destruct (status_string "address" o Ht eq_refl) as [? ->], (status_string "serviceAccountEmail" o Ht eq_refl) as [? ->],
        (status_string "message" o Ht eq_refl) as [? ->], (status_string "migName" o Ht eq_refl) as [? ->],
        (status_string "instanceName" o Ht eq_refl) as [? ->]. by eexists.
    + unfold NestedInt64, st_lift. destruct (nested_fits "spec" "targetSize" _ _ SInteger o (proj1 Ht) eq_refl) as [-> |(v & -> & Hv)];
        [by eexists|]. destruct v; try done. by eexists.
    + intros r. destruct (negb _); [by eexists|]. unfold NestedSlice, st_lift.
      destruct (nested_fits "spec" "members" _ _ (SArray member_schema) o (proj1 Ht) eq_refl) as [-> |(v & -> & Hv)]; [by eexists|].
      destruct v as [| | |l|]; try done. cbn [res_bind]. destruct (applied_members_fit l Hv) as [es ->]. by eexists.
Qed.

Lemma composite_typed_witness :
  exists o, buildXGatewayGCP id id sample_oc (sample_gw "" 0 []) [] true (Some sample_fleet) 27000 = Ok o /\ well_typed o /\
    exists st, readXGatewayGCPStatus no_fault (fun _ => Some o) (sample_gw "" 0 []) sample_start = (sample_start, Ok st).
Proof.
  destruct (buildXGatewayGCP id id sample_oc (sample_gw "" 0 []) [] true (Some sample_fleet) 27000) as [o|e] eqn:E;
    [|vm_compute in E; discriminate E].
  destruct (composite_typed id id sample_oc no_fault (fun _ => Some o) (sample_gw "" 0 []) sample_start) as [H1 H2].
  destruct (H1 _ _ _ _ _ E) as [Ht _]. exists o. split; [reflexivity|]. split; [exact Ht|].
  apply H2; [reflexivity|]. intros o' Eo. injection Eo as <-. exact Ht.
Defined.
