(* ===== verification/FleetPass.v ===== *)
(** * One membership pass of the controller: internal/controller/members.go and
      gcp_credentials.go

    A pass lists the fleet through the cloud API and hands what it saw, or that it saw
    nothing, to the membership reconciliation of internal/gcpmembers. The credentials'
    client is cached until their bytes change. [failed_discovery_harmless] shows that a
    pass whose credentials or listing fail touches no record, whatever else happens. *)

From S2P Require Import Prelude GoStrings TunnelAddresses Discovery Members Kube Forwards LinkConfig Status Effects Warnings Deletion LinkObjects Records Watches Ensure Secrets Composite XGateway.

(** ** Credentials *)
Definition parseCredentialsSecretRef (setting : string) : result string (string * string) :=
  if bool_decide (setting = "") then Ok ("", "")
  else
    let invalid := Err ("gcp credentials secret " +:+ quoted setting +:+ ": want <namespace>/<name>") in
    match Cut "/"%char setting with
    | None => invalid
    | Some (namespace, name) =>
        if bool_decide (namespace = "") || bool_decide (name = "") || bool_decide ("/"%char ∈ chars name)
        then invalid else Ok (namespace, name)
    end.

Section Credentials.
Context {Client : Type}.
(** SHA-256; the constructor of the discovery client; the uncached read of a Secret. *)
Variable hash : string -> string.
Variable newGCPDiscoveryClient : string -> result string Client.
Variable getSecret : string -> string -> result string (gmap string string).

Record gcpCredentialCache := mkGcpCredentialCache {
  gcc_lastHash : string;
  gcc_hasHash : bool;
  gcc_client : option Client
}.

(** The bytes the client is built from; none without a Secret. *)
Definition credential_bytes (namespace name key : string) : result string string :=
  if bool_decide (namespace = "") then Ok ""
  else
    let secretID := quoted (namespace +:+ "/" +:+ name) in
    match getSecret namespace name with
    | Err e => Err ("reading gcp credentials secret " +:+ secretID +:+ ": " +:+ e)
    | Ok data =>
        match data !! key with
        | Some raw => if bool_decide (raw = "")
                      then Err ("gcp credentials secret " +:+ secretID +:+ ": key " +:+ quoted key +:+ " is missing or empty")
                      else Ok raw
        | None => Err ("gcp credentials secret " +:+ secretID +:+ ": key " +:+ quoted key +:+ " is missing or empty")
        end
    end.

Definition clientFor (namespace name key : string) (c : gcpCredentialCache)
  : gcpCredentialCache * result string (option Client) :=
  match credential_bytes namespace name key with
  | Err e => (c, Err e)
  | Ok bytes =>
      if gcc_hasHash c && bool_decide (gcc_lastHash c = hash bytes) then (c, Ok (gcc_client c))
      else match newGCPDiscoveryClient bytes with
           | Err e => (c, Err ("building gcp discovery client from secret " +:+
                               quoted (namespace +:+ "/" +:+ name) +:+ ": " +:+ e))
           | Ok built => (mkGcpCredentialCache (hash bytes) true (Some built), Ok (Some built))
           end
  end.
End Credentials.
Arguments gcpCredentialCache : clear implicits.

(** ** The pass *)
Definition discoveryRecorded (records : list MemberRecord) : list Recorded :=
  (fun rec => mkRecorded (Name rec) (ExternalAddress rec) (InstanceID rec)) <$> records.

Definition gcpAddressRefreshDue (refreshed : gmap string Z) (key : string) (now interval : Z) : bool :=
  match refreshed !! key with
  | None => true
  | Some at_ => interval <=? time_sub now at_
  end.

Definition bundleInputs (gw : Gateway) (linkPublicKey : string) : BundleInputs :=
  mkBundleInputs (subnetPrefix (effectiveWGSubnet gw)) linkPublicKey (effectiveWGLinkAddress gw +:+ "/32").

Inductive fleet_error := FleetText (e : string) | FleetMember (e : member_error).

(** What the passes of one operator share: the record store's world, the time of the
    last detail refresh, the credential cache and the warning suppressions. *)
Record fleet_state (W Client : Type) := mkFleetState {
  fl_world : W;
  fl_refreshed : gmap string Z;
  fl_creds : gcpCredentialCache Client;
  fl_warned : warned
}.
Arguments mkFleetState {W Client}. Arguments fl_world {W Client}. Arguments fl_refreshed {W Client}.
Arguments fl_creds {W Client}. Arguments fl_warned {W Client}.

Section Pass.
Context {W Client : Type}.
(** NewKubernetesDeps for the Gateway. *)
Variable deps : Deps W.
Variable hash : string -> string.
Variable newGCPDiscoveryClient : string -> result string Client.
Variable getSecret : string -> string -> result string (gmap string string).
(** The discovery client's List for the Gateway's project, region and group. *)
Variable client_List : option Client -> string -> list Recorded -> list string -> result string Snapshot.
Variable cfg : OperatorConfig.
Variable recorder : bool.
(** The API objects the pass reads. *)
Variables (fault : acall -> call_fault) (seen : object_key -> option object) (api : astate).
Variables (gw : Gateway) (gid : gateway_id) (now : Z).

(** The records of the listed names that are found. *)
Fixpoint read_records (w : W) (names : list string) : result string (list MemberRecord) :=
  match names with
  | [] => Ok []
  | name :: names =>
      match GetRecord deps w name with
      | Err e => Err ("get member record " +:+ quoted name +:+ ": " +:+ e)
      | Ok found => rest <-! read_records w names ;;
                    Ok (match found with Some rec => rec :: rest | None => rest end)
      end
  end.

(** The outcome of discovery: the snapshot, or why there is none. *)
Definition discover (migName : string) (names : list string) (records : list MemberRecord) (credNamespace credName : string)
    (p : fleet_state W Client) : fleet_state W Client * result string Snapshot :=
  let key := gatewayRefreshKey gid in
  let refreshNames := if gcpAddressRefreshDue (fl_refreshed p) key now (oc_GCPAddressRefreshInterval cfg)
                      then names else [] in
  let '(creds, client) := clientFor hash newGCPDiscoveryClient getSecret credNamespace credName
                            (oc_GCPCredentialsKey cfg) (fl_creds p) in
  let p := mkFleetState (fl_world p) (fl_refreshed p) creds (fl_warned p) in
  match client with
  | Err e => (p, Err e)
  | Ok c => match client_List c migName (discoveryRecorded records) refreshNames with
            | Err e => (p, Err e)
            | Ok listed => (mkFleetState (fl_world p) (<[key := now]> (fl_refreshed p)) (fl_creds p) (fl_warned p), Ok listed)
            end
  end.

(** The rest of the pass, on discovery's outcome. *)
Definition reconcile_snapshot (eligible : list string) (seen_fleet : result string Snapshot) (p : fleet_state W Client)
  : fleet_state W Client * list event * result fleet_error (option Result * bool * string) :=
  match (readXGatewayGCPTargetSize fault seen gw api).2 with
  | Err e => (p, [], Err (FleetText e))
  | Ok lastTargetSize =>
      match readGatewayKeys fault seen gw with
      | Err e => (p, [], Err (FleetText e))
      | Ok (_, linkPublicKey) =>
          let snap := match seen_fleet with Ok s => Some s | Err _ => None end in
          let '(w, r) := Reconcile deps (gw_UID gw) (gw_ProjectID gw) snap (gw_Replicas gw)
            (capacity (effectiveWGSubnet gw)) eligible (effectiveWGGatewayAddress gw) lastTargetSize
            (bundleInputs gw linkPublicKey) (fl_world p) in
          let p := mkFleetState w (fl_refreshed p) (fl_creds p) (fl_warned p) in
          match r with
          | Err e => (p, [], Err (FleetMember e))
          | Ok res =>
              let message := match seen_fleet with Ok _ => "" | Err e => e end in
              let failed := match seen_fleet with Ok _ => false | Err _ => true end in
              let silent := res_Unusable res && bool_decide (message = "") in
              let '(warned, events) :=
                if res_Unusable res then (fl_warned p, [])
                else warnBlockedMemberCleanup recorder gid (blockedMemberCleanups (Some res)) (fl_warned p) in
              (mkFleetState (fl_world p) (fl_refreshed p) (fl_creds p) warned, events,
               Ok (Some res, failed || silent,
                   if silent then "gcp member discovery pass produced no usable snapshot" else message))
          end
      end
  end.

Definition reconcileMembers (migName : string) (eligible : list string) (p : fleet_state W Client)
  : fleet_state W Client * list event * result fleet_error (option Result * bool * string) :=
  if bool_decide (migName = "") then
    (p, [], match (dependencyWaitResult fault seen gw api).2 with
            | Ok waiting => Ok (waiting, false, "")
            | Err e => Err (FleetText e)
            end)
  else
    match ListRecordNames deps (fl_world p) with
    | Err e => (p, [], Err (FleetText ("list member records: " +:+ e)))
    | Ok names =>
        match read_records (fl_world p) names with
        | Err e => (p, [], Err (FleetText e))
        | Ok records =>
            match parseCredentialsSecretRef (oc_GCPCredentialsSecret cfg) with
            | Err e => (p, [], Err (FleetText e))
            | Ok (credNamespace, credName) =>
                let '(p, outcome) := discover migName names records credNamespace credName p in
                reconcile_snapshot eligible outcome p
            end
        end
    end.

(** The single-Instance branch. *)
Definition reconcileSingleMember (instanceName : string) (w : W) : W * result fleet_error (option Result) :=
  if bool_decide (instanceName = "") then (w, Ok (Some (mkResult [] 0 [] [] true)))
  else
    match readGatewayKeys fault seen gw with
    | Err e => (w, Err (FleetText e))
    | Ok (gatewayPrivateKey, linkPublicKey) =>
        match readLinkPeerPublicKey fault seen gw with
        | Err e => (w, Err (FleetText e))
        | Ok gatewayPublicKey =>
            let '(w, r) := ReconcileSingle deps (gw_UID gw) (gw_ProjectID gw) instanceName (effectiveWGGatewayAddress gw)
              gatewayPrivateKey gatewayPublicKey (bundleInputs gw linkPublicKey) w in
            (w, match r with Ok res => Ok (Some res) | Err e => Err (FleetMember e) end)
        end
    end.
End Pass.

(** ** Proofs *)

Lemma parseCredentialsSecretRef_spec setting ns name :
  parseCredentialsSecretRef setting = Ok (ns, name) <->
  (setting = "" /\ ns = "" /\ name = "") \/
  (setting = ns +:+ "/" +:+ name /\ ns <> "" /\ name <> "" /\ "/"%char ∉ chars ns /\ "/"%char ∉ chars name).
Proof.
  unfold parseCredentialsSecretRef. case_bool_decide as He.
  - subst. split; [intros [= <- <-]; by left|]. intros [(_ & -> & ->)|(Hs & Hn & _)]; [done|]. by destruct ns.
  - split.
    + destruct (Cut "/" setting) as [[a b]|] eqn:Ec; [|done]. destruct (_ || _) eqn:Eb; [done|]. intros [= <- <-].
      apply Cut_spec in Ec as [-> Ha]. right.
      apply orb_false_iff in Eb as [Eb Hb%bool_decide_eq_false].
      apply orb_false_iff in Eb as [Hna%bool_decide_eq_false Hnb%bool_decide_eq_false]. by split_and!.
    + intros [(-> & _)|(-> & Hn & Hm & Hcn & Hcm)]; [done|].
      change ("/" +:+ name) with (String "/"%char name). rewrite Cut_app by done.
      by rewrite !bool_decide_false by done.
Qed.

(** The cached client is the one built from the bytes its hash stands for. *)
Definition cache_sound {Client} (hash : string -> string) (build : string -> result string Client)
    (c : gcpCredentialCache Client) : Prop :=
  gcc_hasHash c = true -> exists bytes client, gcc_lastHash c = hash bytes /\ build bytes = Ok client /\ gcc_client c = Some client.

(** A rotated key is picked up, and a client is never handed out for other bytes than
    the Secret holds. *)
Lemma clientFor_current {Client} hash build getSecret ns name key (c c' : gcpCredentialCache Client) r :
  (forall a b, hash a = hash b -> a = b) -> cache_sound hash build c ->
  clientFor hash build getSecret ns name key c = (c', r) ->
  cache_sound hash build c' /\
  forall client, r = Ok client ->
    exists bytes built, credential_bytes getSecret ns name key = Ok bytes /\ build bytes = Ok built /\ client = Some built.
Proof.
  intros Hinj Hc. unfold clientFor. destruct (credential_bytes _ _ _ _) as [bytes|e]; [|by intros [= <- <-]].
  destruct (gcc_hasHash c && _) eqn:Eh.
  - apply andb_true_iff in Eh as [Hh He%bool_decide_eq_true]. intros [= <- <-]. split; [done|]. intros client [= <-].
    destruct (Hc Hh) as (b & cl & Hb & Hbuild & Hcl). rewrite He in Hb. apply Hinj in Hb as ->. eauto.
  - destruct (build bytes) as [built|e] eqn:Ebuild; [|by intros [= <- <-]]. intros [= <- <-]. split.
    + intros _. exists bytes, built. done.
    + intros client [= <-]. eauto.
Qed.

Section Proofs.
Context {W Client : Type} (deps : Deps W) (hash : string -> string) (build : string -> result string Client).
Context (getSecret : string -> string -> result string (gmap string string)).
Context (client_List : option Client -> string -> list Recorded -> list string -> result string Snapshot).
Context (cfg : OperatorConfig) (recorder : bool) (fault : acall -> call_fault) (seen : object_key -> option object).
Context (api : astate) (gw : Gateway) (gid : gateway_id).

Abbreviation discover_at := (discover hash build getSecret client_List cfg gid).

Lemma discover_failed now mig names records ns name (p p' : fleet_state W Client) e :
  discover_at now mig names records ns name p = (p', Err e) ->
  fl_world p' = fl_world p /\ fl_refreshed p' = fl_refreshed p /\ fl_warned p' = fl_warned p.
Proof.
  unfold discover. destruct (clientFor _ _ _ _ _ _ _) as [creds [c|e0]]; [|by intros [= <- _]].
  destruct (client_List _ _ _ _); [done|]. by intros [= <- _].
Qed.

(** Without a snapshot the rest of the pass changes nothing and reports a failure. *)
Lemma reconcile_without_snapshot eligible e (p p' : fleet_state W Client) ev out :
  reconcile_snapshot deps recorder fault seen api gw gid eligible (Err e) p = (p', ev, out) ->
  p' = p /\ ev = [] /\
  forall r failed message, out = Ok (r, failed, message) ->
    (exists n, r = Some (unusable_result n)) /\ failed = true /\ message <> "".
Proof.
  unfold reconcile_snapshot. destruct (readXGatewayGCPTargetSize _ _ _ _) as [s1 [n|e1]]; cbn [snd]; [|by intros [= <- <- <-]].
  destruct (readGatewayKeys _ _ _) as [[priv pub]|e2]; [|by intros [= <- <- <-]].
  cbn [Reconcile]. unfold m_ret. cbn [res_Unusable]. intros [= <- <- <-]. destruct p as [w rf cr wn].
  split; [done|]. split; [done|]. intros r failed message [= <- <- <-].
  split; [by exists n|]. split; [done|]. by case_bool_decide.
Qed.

(** Without a snapshot the target size is the one read from the composite. *)
Lemma without_snapshot_size eligible e roster size (p p' : fleet_state W Client) ev r failed message :
  fleet_shown gw roster size seen -> - 2 ^ 31 <= size < 2 ^ 31 ->
  reconcile_snapshot deps recorder fault seen api gw gid eligible (Err e) p = (p', ev, Ok (r, failed, message)) ->
  r = Some (unusable_result size).
Proof.
  intros Hsh Hsize. unfold reconcile_snapshot. destruct (readXGatewayGCPTargetSize _ _ _ _) as [s1 x] eqn:E.
  destruct (targetSize_fleet _ _ _ _ _ _ _ _ Hsh Hsize E) as [_ [-> | He]]; [|by destruct x]. cbn [snd].
  destruct (readGatewayKeys _ _ _) as [[priv pub]|e2]; [|done].
  cbn [Reconcile]. unfold m_ret. cbn [res_Unusable]. by intros [= _ _ <- _ _].
Qed.

(** Discovery cannot answer: there is no client, or its listing fails. *)
Definition discovery_fails (now : Z) (mig : string) : Prop :=
  forall names records ns name (p : fleet_state W Client), is_err (discover_at now mig names records ns name p).2 = true.

(** A pass that cannot see the fleet keeps the size the composite shows. *)
Lemma blind_membership now mig eligible roster size (p p' : fleet_state W Client) ev r failed message :
  fleet_shown gw roster size seen -> - 2 ^ 31 <= size < 2 ^ 31 -> mig = "" \/ discovery_fails now mig ->
  reconcileMembers deps hash build getSecret client_List cfg recorder fault seen api gw gid now mig eligible p =
    (p', ev, Ok (r, failed, message)) ->
  r = Some (unusable_result size).
Proof.
  intros Hsh Hsize Hb. unfold reconcileMembers. case_bool_decide as Hm.
  { intros [= _ _ H]. destruct (dependencyWaitResult fault seen gw api) as [s1 [w|e]] eqn:E; [|done].
    cbn in H. injection H as <- _ _. exact (dependencyWait_fleet _ _ _ _ _ _ _ _ Hsh Hsize E). }
  destruct Hb as [?|Hb]; [done|].
  destruct (ListRecordNames deps (fl_world p)) as [names|e]; [|done].
  destruct (read_records deps (fl_world p) names) as [records|e]; [|done].
  destruct (parseCredentialsSecretRef _) as [[ns name]|e]; [|done].
  specialize (Hb names records ns name p). destruct (discover _ _ _ _ _ _ _ _ _ _ _ _ p) as [p1 [listed|e]]; [done|].
  exact (without_snapshot_size _ _ _ _ _ _ _ _ _ _ Hsh Hsize).
Qed.
End Proofs.

(** C39: A pass that cannot see the fleet cannot hurt it. Either the cloud API answered a
    complete listing in this pass, or the pass changed no member record, did not move
    the refresh clock, emitted and forgot no warning; then, if it returns, its result
    publishes no membership, and when the group is named it reports the failure with a
    message, never silence. *)
Theorem failed_discovery_harmless {W Client} (deps : Deps W) hash (build : string -> result string Client) getSecret
    client_List cfg recorder fault seen api gw gid now mig eligible (p p' : fleet_state W Client) ev out :
  reconcileMembers deps hash build getSecret client_List cfg recorder fault seen api gw gid now mig eligible p =
    (p', ev, out) ->
  (exists names records ns name p1 listed,
     discover hash build getSecret client_List cfg gid now mig names records ns name p = (p1, Ok listed)) \/
  (fl_world p' = fl_world p /\ fl_refreshed p' = fl_refreshed p /\ fl_warned p' = fl_warned p /\ ev = [] /\
   forall r failed message, out = Ok (r, failed, message) ->
     (r = None \/ exists n, r = Some (unusable_result n)) /\ (mig <> "" -> failed = true /\ message <> "")).
Proof.
  unfold reconcileMembers. case_bool_decide as Hm.
  { intros [= <- <- <-]. right. split_and!; [done..|]. intros r failed message.
    destruct (dependencyWaitResult fault seen gw api) as [s1 [w|e]] eqn:Ew; cbn; [|done]. intros [= <- <- <-].
    split; [|done]. unfold dependencyWaitResult, st_bind in Ew.
    destruct (xgatewayGCPExists _ _ _ _) as [? [[]|]]; [|injection Ew as _ <-; by left|done].
    destruct (readXGatewayGCPTargetSize _ _ _ _) as [? [n|]]; [injection Ew as _ <-|done]. right. by exists n. }
  destruct (ListRecordNames deps (fl_world p)) as [names|e]; [|intros [= <- <- <-]; by right].
  destruct (read_records deps (fl_world p) names) as [records|e]; [|intros [= <- <- <-]; by right].
  destruct (parseCredentialsSecretRef _) as [[ns name]|e]; [|intros [= <- <- <-]; by right].
  destruct (discover _ _ _ _ _ _ _ _ names records ns name p) as [p1 [listed|e]] eqn:Ed.
  { intros _. left. by exists names, records, ns, name, p1, listed. }
  intros H. right. apply reconcile_without_snapshot in H as (-> & -> & Hout).
  destruct (discover_failed _ _ _ _ _ _ _ _ _ _ _ _ _ _ _ Ed) as (Hw & Hr & Hwarn). split_and!; [done..|].
  intros r failed message E. destruct (Hout _ _ _ E) as (Hr' & Hf & Hmsg). auto.
Qed.

(** ** A failing listing *)
Definition sample_fleet_state : fleet_state mem unit :=
  mkFleetState (sample_mem 0) {["apps/edge" := 100]} (mkGcpCredentialCache "" false None) ∅.
Definition sample_api : astate := (toy_secrets no_fault 1 sample_start).1.
Definition sample_creds_cfg : OperatorConfig :=
  mkOperatorConfig "link:1" "IfNotPresent" "" true 30 "net" "default" "gw" "crossplane-system/gcp-creds" "credentials.json" 30 600 "nginx:1".
Definition sample_getSecret (ns name : string) : result string (gmap string string) := Ok {["credentials.json" := "{}"]}.

Lemma failed_discovery_harmless_witness :
  let run := reconcileMembers (mem_deps "u1") id (fun _ => Ok tt) sample_getSecret (fun _ _ _ _ => Err "503") sample_creds_cfg
               true no_fault (fun k => as_objects sample_api !! k) sample_api (sample_replicas 1) sample_gid 700 "mig" [] in
  let out := run sample_fleet_state in
  out.2 = Ok (Some (unusable_result 0), true, "503") /\
  ((exists names records ns name p1 listed,
      discover id (fun _ => Ok tt) sample_getSecret (fun _ _ _ _ => Err "503") sample_creds_cfg sample_gid 700 "mig"
        names records ns name sample_fleet_state = (p1, Ok listed)) \/
   (fl_world out.1.1 = fl_world sample_fleet_state /\ fl_refreshed out.1.1 = fl_refreshed sample_fleet_state /\
    fl_warned out.1.1 = fl_warned sample_fleet_state /\ out.1.2 = [] /\
    forall r failed message, out.2 = Ok (r, failed, message) ->
      (r = None \/ exists n, r = Some (unusable_result n)) /\ ("mig" <> "" -> failed = true /\ message <> ""))).
Proof.
  intros run out. split; [vm_compute; reflexivity|].
  apply (failed_discovery_harmless (mem_deps "u1") id (fun _ => Ok tt) sample_getSecret (fun _ _ _ _ => Err "503")
    sample_creds_cfg true no_fault (fun k => as_objects sample_api !! k) sample_api (sample_replicas 1) sample_gid 700 "mig" []).
  by destruct out as [[? ?] ?] eqn:E.
Defined.

(** The periodic refresh starves: a successful pass stores its time whether or not it
    refreshed, so once passes succeed more often than the interval no later pass ever
    re-reads a recorded member's address, however long ago the last refresh was. *)
Fixpoint passes (interval : Z) (key : string) (refreshed : gmap string Z) (times : list Z) : list bool :=
  match times with
  | [] => []
  | now :: times => gcpAddressRefreshDue refreshed key now interval :: passes interval key (<[key := now]> refreshed) times
  end.

Lemma discover_stores_time {W Client} hash (build : string -> result string Client) getSecret client_List cfg gid now mig
    names records ns name (p p' : fleet_state W Client) listed :
  discover hash build getSecret client_List cfg gid now mig names records ns name p = (p', Ok listed) ->
  fl_refreshed p' = <[gatewayRefreshKey gid := now]> (fl_refreshed p).
Proof.
  unfold discover. destruct (clientFor _ _ _ _ _ _ _) as [creds [c|e0]]; [|done].
  destruct (client_List _ _ _ _); [|done]. by intros [= <- _].
Qed.

Lemma refresh_starves interval key refreshed last times :
  refreshed !! key = Some last ->
  (forall i t u, (last :: times) !! i = Some t -> (last :: times) !! S i = Some u -> time_sub u t < interval) ->
  passes interval key refreshed times = replicate (length times) false.
Proof.
  revert refreshed last. induction times as [|now times IH]; intros refreshed last Hl Hgap; [done|].
  cbn [passes length replicate]. f_equal.
  - unfold gcpAddressRefreshDue. rewrite Hl. apply Z.leb_gt. exact (Hgap 0%nat last now eq_refl eq_refl).
  - apply (IH _ now); [apply lookup_insert_eq|]. intros i t u Ht Hu. exact (Hgap (S i) t u Ht Hu).
Qed.
