(* ===== verification/Controller.v ===== *)
(** * One pass of the Gateway controller: Reconcile, mirrorStatusWithForwards and
      recordFailure of internal/controller/gateway_controller.go

    The pass composes the parts of the other files: classification, the link id, the
    key Secrets, the shared network, the membership pass, the composite, the responder,
    the link, DNS and the status. [never_provisions_invalid] shows what the pass's
    comment promises of a Gateway none of whose forwards is valid, [outage_keeps_fleet]
    that passes without a view of the fleet keep its roster and size, [ready_is_earned]
    what a Ready condition stands for, [fault_reaches_gateway] that a fault on the link's
    Lease becomes the Gateway's, and [teardown_complete] what a deleted Gateway's pass
    removes, in which order, and when it lets go. *)

From S2P Require Import Prelude GoStrings Identity Config Endpoints Apply Fault Readiness Reload TunnelAddresses Discovery Members Kube Forwards LinkConfig Status Effects Warnings Deletion LinkObjects Records Responder Watches Ensure Secrets Composite XGateway FleetPass.

Definition reasonReconcileFailed : string := "ReconcileFailed".
Definition tunnelReadyPollInterval : Z := 3 * second.

(** ** The status *)
Record gw_status := mkGwStatus {
  gs_Generation : Z;
  gs_Address : string;
  gs_ServiceAccountEmail : string;
  gs_ActiveNode : string;
  gs_Members : list MemberStatus;
  gs_Conditions : list Condition
}.

#[global] Instance MemberState_eq_dec : EqDecision MemberState.
Proof. solve_decision. Defined.
#[global] Instance MemberStatus_eq_dec : EqDecision MemberStatus.
Proof. solve_decision. Defined.

(** How one attempt of a status write ends: its read fails, its write loses a conflict
    to another writer, its write fails otherwise, or it succeeds. *)
Inductive attempt :=
| ReadFails (e : string)
| Conflicts (theirs : gw_status -> gw_status)
| WriteFails (e : string) (effect : bool)
| Succeeds.

(** [retry.RetryOnConflict(retry.DefaultRetry, ...)]: five attempts, each on a fresh read;
    [update] is the new status, or nothing when no write is needed, [wrap] what the
    writer puts around a write's error. *)
Fixpoint retry_update (wrap : string -> string) (outcomes : list attempt) (update : gw_status -> option gw_status) (cur : gw_status)
  : gw_status * result string unit :=
  match outcomes with
  | [] => (cur, Err (wrap "conflict"))
  | ReadFails e :: _ => (cur, Err ("get gateway for status update: " +:+ e))
  | o :: outcomes =>
      match update cur with
      | None => (cur, Ok tt)
      | Some new =>
          match o with
          | Succeeds => (new, Ok tt)
          | WriteFails e effect => (if effect : bool then new else cur, Err (wrap e))
          | Conflicts theirs => retry_update wrap outcomes update (theirs cur)
          | ReadFails e => (cur, Err e)
          end
      end
  end.

Definition retryOnConflict (wrap : string -> string) (outcomes : list attempt) (update : gw_status -> option gw_status)
    (cur : gw_status) : gw_status * result string unit := retry_update wrap (take 5 outcomes) update cur.

Section Status.
(** apimachinery's SetStatusCondition: the new list and whether it changed. *)
Variable SetStatusCondition : list Condition -> Condition -> list Condition * bool.

(** What one pass wants the status to be. *)
Record mirrored := mkMirrored {
  mi_address : string;
  mi_saEmail : string;
  mi_ls : linkStatus;
  mi_signals : readySignals;
  mi_result : option Result;
  mi_responder : option responderMissingStatus
}.

Definition ready_condition (signals : readySignals) (generation : Z) : Condition :=
  let '(reason, message, ready) := readyPrecedence signals in
  mkCondition conditionReady ready reason message generation.

(** The body of one attempt: the new status, or nothing when it shows all of it. *)
Definition mirror_update (gw : Gateway) (m : mirrored) (fresh : gw_status) : option gw_status :=
  let members := match mi_result m with
                 | Some r => if negb (res_Unusable r) then res_Members r else gs_Members fresh
                 | None => gs_Members fresh
                 end in
  let membersChanged := negb (bool_decide (gs_Members fresh = members)) in
  let '(conds, conditionChanged) :=
    SetStatusCondition (gs_Conditions fresh) (ready_condition (mi_signals m) (gs_Generation fresh)) in
  let '(conds, responderChanged) :=
    match mi_responder m with
    | None => (conds, false)
    | Some r => let '(status, reason, message) := responder_condition r gw in
                SetStatusCondition conds
                  (mkCondition conditionResponderMissing status reason message (gs_Generation fresh))
    end in
  if bool_decide (gs_Address fresh = mi_address m) && bool_decide (gs_ServiceAccountEmail fresh = mi_saEmail m) &&
     bool_decide (gs_ActiveNode fresh = ls_Node (mi_ls m)) && negb conditionChanged && negb membersChanged &&
     negb responderChanged
  then None
  else Some (mkGwStatus (gs_Generation fresh) (mi_address m) (mi_saEmail m) (ls_Node (mi_ls m)) members conds).

Definition failure_update (message : string) (fresh : gw_status) : option gw_status :=
  Some (mkGwStatus (gs_Generation fresh) (gs_Address fresh) (gs_ServiceAccountEmail fresh) (gs_ActiveNode fresh)
          (gs_Members fresh)
          (SetStatusCondition (gs_Conditions fresh)
             (mkCondition conditionReady false reasonReconcileFailed message (gs_Generation fresh))).1).
End Status.

(** ** The pass *)

(** The API objects with the dirty trackers, the membership state with the warnings, the
    Gateway's status and finalizers, and the events emitted. *)
Record rstate (W Client : Type) := mkRState {
  rs_api : astate;
  rs_fleet : fleet_state W Client;
  rs_status : gw_status;
  rs_finalizers : list string;
  rs_events : list event
}.
Arguments mkRState {W Client}. Arguments rs_api {W Client}. Arguments rs_fleet {W Client}.
Arguments rs_status {W Client}. Arguments rs_finalizers {W Client}. Arguments rs_events {W Client}.

Inductive id_error := NoFreeLinkID | LinkIDFailed (e : string).

Definition set_LinkID (id : Z) (gw : Gateway) : Gateway :=
  mkGateway (gw_Name gw) (gw_Namespace gw) (gw_Annotations gw) (gw_ListenPort gw) (gw_Subnet gw) (gw_GatewayAddress gw)
    (gw_LinkAddress gw) (gw_Keepalive gw) (gw_MTU gw) (gw_TrafficPolicy gw) (gw_HealthPort gw) (gw_ResponderPort gw)
    (gw_LoadBalancer gw) (gw_Forwards gw) id (gw_UID gw) (gw_Generation gw) (gw_ProjectID gw) (gw_Region gw)
    (gw_Replicas gw) (gw_LinkReplicas gw) (gw_NodeSelector gw) (gw_ReconcileInterval gw) (gw_ResponderImage gw)
    (gw_ResponderReplicas gw) (gw_ResponderResources gw) (gw_Cloud gw) (gw_DNSHostnames gw).

(** Everything one pass learns from outside: the clock, the reads and how calls end.
    [pe_seen n] is what the cached client shows at the pass's [n]th operation; the last
    three are for a deletion: how its calls end, which Gateways are being deleted, and
    the link's pods. *)
Record pass_env (W Client : Type) := mkPassEnv {
  pe_recorder : bool;
  pe_now : Z;
  pe_fault : acall -> call_fault;
  pe_seen : nat -> object_key -> option object;
  pe_mirror : list attempt;
  pe_failure : list attempt;
  pe_finalizer : call_fault;
  pe_getNamespace : string -> lookup_result (gmap string string);
  pe_getService : string -> string -> lookup_result ServiceObj;
  pe_linkID : result id_error Z;
  pe_lease : lookup_result lease_obj;
  pe_getPod : string -> lookup_result Pod;
  pe_responderPods : result string (list k8sPod);
  pe_linkPods : result string (list k8sPod);
  pe_gen1 : result string (string * string);
  pe_gen2 : result string (string * string);
  pe_getSecret : string -> string -> result string (gmap string string);
  pe_client_List : option Client -> string -> list Recorded -> list string -> result string Snapshot;
  pe_delete : dcall -> call_fault;
  pe_gateways : list bool;
  pe_teardownPods : list linkPod
}.
Arguments pe_recorder {W Client}. Arguments pe_now {W Client}. Arguments pe_fault {W Client}. Arguments pe_seen {W Client}.
Arguments pe_mirror {W Client}. Arguments pe_failure {W Client}. Arguments pe_finalizer {W Client}.
Arguments pe_getNamespace {W Client}. Arguments pe_getService {W Client}. Arguments pe_linkID {W Client}.
Arguments pe_lease {W Client}. Arguments pe_getPod {W Client}. Arguments pe_responderPods {W Client}.
Arguments pe_linkPods {W Client}. Arguments pe_gen1 {W Client}. Arguments pe_gen2 {W Client}.
Arguments pe_getSecret {W Client}. Arguments pe_client_List {W Client}. Arguments pe_delete {W Client}.
Arguments pe_gateways {W Client}. Arguments pe_teardownPods {W Client}.

Definition gid_of (gw : Gateway) : gateway_id := mkGatewayId (gw_Namespace gw) (gw_Name gw) (gw_UID gw).

(** The Cluster-mode backends whose targetPort is named, as the warning shows them. *)
Definition target_string (t : TargetPort) : string := match t with TargetInt v => Itoa v | TargetName n => n end.
Definition unresolved_backends (getService : string -> string -> lookup_result ServiceObj) (gw : Gateway)
    (valid : list forwardBackend) : list unresolvedBackend :=
  (fun b => let f := fb_Forward b in
            let ns := effectiveForwardNamespace f gw in
            let target := match getService ns (f_Service f) with
                          | Found svc => match servicePortFor svc (effectiveServicePort f) (f_Protocol f) with
                                         | Some sp => target_string (sp_TargetPort sp) | None => "" end
                          | _ => ""
                          end in
            mkUnresolvedBackend (f_Service f) ns target (f_Protocol f)) <$> unresolved gw valid.

(** The reason of an invalid tunnel address plan. *)
Definition tunnel_reason (e : tunnel_error) : string :=
  match e with
  | BadSubnet subnet => "spec.wireguard.subnet " +:+ quoted subnet +:+ " is not a valid CIDR"
  | BadGateway a => "spec.wireguard.gatewayAddress " +:+ quoted a +:+ " is not a valid address"
  | BadLink a => "spec.wireguard.linkAddress " +:+ quoted a +:+ " is not a valid address"
  | SameAddress a => "spec.wireguard.gatewayAddress and spec.wireguard.linkAddress must be distinct, both are " +:+ quoted a
  | GatewayNotUsable a subnet =>
      "spec.wireguard.gatewayAddress " +:+ quoted a +:+ " is not a usable host of spec.wireguard.subnet " +:+ quoted subnet
  | LinkNotUsable a subnet =>
      "spec.wireguard.linkAddress " +:+ quoted a +:+ " is not a usable host of spec.wireguard.subnet " +:+ quoted subnet
  end.

Definition forwardSpecs (backends : list forwardBackend) : list ForwardSpec := fb_Forward <$> backends.

Section Reconcile.
Context {W Client : Type}.
Variable ssa : option object -> object -> object.
Variable hash : object -> string.
Variables sha256 digest32 credHash : string -> string.
Variable encode : RuntimeConfig -> string.
Variable decode : string -> result string RuntimeConfig.
Variable newGCPDiscoveryClient : string -> result string Client.
(** NewKubernetesDeps, by Gateway. *)
Variable deps : Gateway -> Deps W.
Variable SetStatusCondition : list Condition -> Condition -> list Condition * bool.
Variable member_error_text : member_error -> string.
Variable cfg : OperatorConfig.
Variable env : pass_env W Client.

Abbreviation R := (st (rstate W Client)).

Definition set_api (a : astate) (s : rstate W Client) : rstate W Client :=
  mkRState a (rs_fleet s) (rs_status s) (rs_finalizers s) (rs_events s).
Definition set_fleet (f : fleet_state W Client) (s : rstate W Client) : rstate W Client :=
  mkRState (rs_api s) f (rs_status s) (rs_finalizers s) (rs_events s).
Definition set_status (c : gw_status) (s : rstate W Client) : rstate W Client :=
  mkRState (rs_api s) (rs_fleet s) c (rs_finalizers s) (rs_events s).
Definition add_events (ev : list event) (s : rstate W Client) : rstate W Client :=
  mkRState (rs_api s) (rs_fleet s) (rs_status s) (rs_finalizers s) (rs_events s ++ ev).
Definition set_finalizers (l : list string) (s : rstate W Client) : rstate W Client :=
  mkRState (rs_api s) (rs_fleet s) (rs_status s) l (rs_events s).

Definition on_api {A} (m : st astate A) : R A :=
  fun s => let '(a, r) := m (rs_api s) in (set_api a s, r).

(** A warning helper on the shared suppression map. *)
Definition warn (f : warned -> warned * list event) : R unit :=
  fun s => let fl := rs_fleet s in
           let '(w, ev) := f (fl_warned fl) in
           (add_events ev (set_fleet (mkFleetState (fl_world fl) (fl_refreshed fl) (fl_creds fl) w) s), Ok tt).

Definition recordFailure (op cause : string) (s : rstate W Client) : rstate W Client * string * result string unit :=
  let wrapped := op +:+ ": " +:+ cause in
  let s := if pe_recorder env then add_events [mkEvent reasonReconcileFailed wrapped] s else s in
  let '(c, r) := retryOnConflict id (pe_failure env) (failure_update SetStatusCondition wrapped) (rs_status s) in
  (set_status c s, wrapped, r).

Definition fail (op cause : string) : R Z :=
  fun s => let '(s, wrapped, r) := recordFailure op cause s in
           (s, Err (match r with
                    | Ok _ => wrapped
                    | Err e => wrapped +:+ "; additionally failed to update status: " +:+ e
                    end)).

Definition failReported (op cause : string) : R Z :=
  fun s => let '(s, wrapped, r) := recordFailure op cause s in
           (s, match r with
               | Ok _ => Ok (oc_RequeueInterval cfg)
               | Err e => Err (wrapped +:+ "; additionally failed to update status: " +:+ e)
               end).

(** A step whose error is recorded on the Gateway. *)
Definition try_ {A} (op : string) (m : R A) (k : A -> R Z) : R Z :=
  fun s => match m s with
           | (s, Ok a) => k a s
           | (s, Err e) => fail op e s
           end.

Definition mirrorStatusWithForwards (gw : Gateway) (m : mirrored) : R unit :=
  fun s => let '(c, r) := retryOnConflict (String.app "update gateway status: ") (pe_mirror env) (mirror_update SetStatusCondition gw m) (rs_status s) in
           (set_status c s, match r with Ok _ => Ok tt | Err e => Err ("mirror status: " +:+ e) end).

Definition read_link : R linkStatus := st_lift (linkStatusOf (pe_lease env) (pe_getPod env)).

(** ** From the Secrets on: the pass that provisions *)
Definition fleet_text (e : fleet_error) : string := match e with FleetText t => t | FleetMember e => member_error_text e end.

(** The membership branch: the result, and whether and why discovery failed. *)
Definition members_step (gw : Gateway) (eligible : list string) (observed : compositeStatus) : R (option Result * bool * string) :=
  fun s =>
    if gw_LoadBalancer gw then
      let '(p, ev, r) := reconcileMembers (deps gw) credHash newGCPDiscoveryClient (pe_getSecret env) (pe_client_List env)
        cfg (pe_recorder env) (pe_fault env) (pe_seen env 3) (rs_api s) gw (gid_of gw) (pe_now env)
        (cs_MIGName observed) eligible (rs_fleet s) in
      (add_events ev (set_fleet p s), match r with Ok x => Ok x | Err e => Err (fleet_text e) end)
    else
      let fl := rs_fleet s in
      let '(w, r) := reconcileSingleMember (deps gw) (pe_fault env) (pe_seen env 3) gw (cs_InstanceName observed) (fl_world fl) in
      (set_fleet (mkFleetState w (fl_refreshed fl) (fl_creds fl) (fl_warned fl)) s,
       match r with Ok x => Ok (x, false, "") | Err e => Err (fleet_text e) end).

Definition peers_step (gw : Gateway) (result : option Result) : R (list Config.Peer) :=
  if negb (gw_LoadBalancer gw) then st_ret []
  else match result with
       | Some r => if negb (res_Unusable r)
                   then st_ret (fleetLinkPeers gw (fillPeerListenPort (res_Peers r) (effectiveWireguardPort gw)))
                   else on_api (appliedLinkPeers decode (pe_fault env) (pe_seen env 5) gw)
       | None => on_api (appliedLinkPeers decode (pe_fault env) (pe_seen env 5) gw)
       end.

Definition requeue (loadBalanced : bool) (invalid : list invalid_reason) (ls : linkStatus) : Z :=
  if ls_PodReady ls && negb (ls_Active ls) then tunnelReadyPollInterval
  else if anyTransientReason invalid then validationRequeueAfter
  else steadyRequeue (oc_GCPDiscoveryInterval cfg) (oc_RequeueInterval cfg) loadBalanced.

Definition final_signals (gw : Gateway) (invalid : list invalid_reason) (ls : linkStatus) (observed : compositeStatus)
    (discoveryFailed : bool) (discoveryMessage : string) (fleetPeers : list Config.Peer) : readySignals :=
  let ready := negb (bool_decide (cs_Address observed = "")) && ls_Active ls in
  mkReadySignals false "" (firstInvalidForward invalid) (ls_FaultReason ls) (ls_FaultMessage ls) (gw_LoadBalancer gw)
    false "" discoveryFailed discoveryMessage (Z.of_nat (length fleetPeers)) (gw_LoadBalancer gw && negb (ls_Active ls))
    (if ready then cs_Address observed else "") (cs_Message observed).

(** From the responder on: what serves the provisioned Gateway. *)
Definition serve (gw : Gateway) (valid : list forwardBackend) (invalid : list invalid_reason) (observed : compositeStatus)
    (membership : option Result * bool * string) (fleetPeers : list Config.Peer) (gatewayPublicKey : string) : R Z :=
  let '(result, discoveryFailed, discoveryMessage) := membership in
  let address := cs_Address observed in
  try_ "ensure responder" (on_api (ensureGatewayResponder ssa hash sha256 cfg (pe_fault env) (pe_seen env 7) gw))
    (fun responderClusterIP =>
  try_ "list responder pods" (st_lift (pe_responderPods env)) (fun pods =>
  let responders := responderPods pods in
  try_ "list link pods" (if gw_isLocal gw then st_lift (pe_linkPods env) else st_ret []) (fun linkPods =>
  let responderMissing := if gw_isLocal gw then responderMissingNodes linkPods responders else [] in
  let status := mkResponderMissingStatus (gw_isLocal gw) responderMissing (negb (bool_decide (responders = ∅))) in
  warn (warnResponderMissing (pe_recorder env) (gid_of gw) gw (Some status)) ;!
  try_ "ensure link" (on_api (ensureLink ssa hash digest32 encode cfg (pe_fault env) (pe_seen env 8)
      (mkLinkInputs gw address valid (linkIdentityOf gw) gatewayPublicKey fleetPeers (effectiveHealthPort gw) responders
         responderClusterIP))) (fun _ =>
  try_ "ensure dns endpoint" (on_api (ensureDNSEndpoint ssa (pe_fault env) gw address)) (fun _ =>
  try_ "read link activity" read_link (fun ls =>
  mirrorStatusWithForwards gw (mkMirrored address (cs_ServiceAccountEmail observed) ls
    (final_signals gw invalid ls observed discoveryFailed discoveryMessage fleetPeers)
    (if gw_LoadBalancer gw then result else None) (Some status)) ;!
  st_ret (requeue (gw_LoadBalancer gw) invalid ls))))))).

Definition provision (gw : Gateway) (eligible : list string) (valid : list forwardBackend) (invalid : list invalid_reason)
    (observed : compositeStatus) : R Z :=
  let fault := pe_fault env in
  try_ "ensure key secrets" (on_api (ensureSecrets ssa fault (pe_seen env 2) gw (pe_gen1 env) (pe_gen2 env))) (fun _ =>
  try_ "ensure shared network" (on_api (ensureXGatewayNetwork ssa cfg fault)) (fun _ =>
  try_ (if gw_LoadBalancer gw then "reconcile gcp members" else "reconcile single instance member")
    (members_step gw eligible observed) (fun membership =>
  try_ "ensure xgatewaygcp" (on_api (ensureXGatewayGCP ssa digest32 sha256 cfg fault (pe_seen env 4) gw (forwardSpecs valid)
      (gw_LoadBalancer gw) membership.1.1 (effectiveHealthPort gw))) (fun _ =>
  try_ "read applied link peers" (peers_step gw membership.1.1) (fun fleetPeers =>
  try_ "read link peer public key"
    (if gw_LoadBalancer gw then st_ret "" else st_lift (readLinkPeerPublicKey fault (pe_seen env 6) gw)) (fun publicKey =>
  serve gw valid invalid observed membership fleetPeers publicKey)))))).

Definition capacity_message (gw : Gateway) (limit : Z) : string :=
  "spec.gcp.replicas " +:+ Itoa (gw_Replicas gw) +:+ " exceeds capacity " +:+ Itoa limit +:+ " of spec.wireguard.subnet".

Definition over_capacity (gw : Gateway) (limit : Z) (valid : list forwardBackend) (invalid : list invalid_reason)
    (observed : compositeStatus) : R Z :=
  let message := capacity_message gw limit in
  warn (warnInsufficientTunnelAddresses (pe_recorder env) (gid_of gw) message) ;!
  try_ "ensure xgatewaygcp" (on_api (applyOverCapacityXGatewayGCP ssa digest32 sha256 cfg (pe_fault env) (pe_seen env 2) gw
      (forwardSpecs valid) (effectiveHealthPort gw))) (fun _ =>
  try_ "read link activity" read_link (fun ls =>
  mirrorStatusWithForwards gw (mkMirrored (cs_Address observed) (cs_ServiceAccountEmail observed) ls
    (mkReadySignals false "" (firstInvalidForward invalid) (ls_FaultReason ls) (ls_FaultMessage ls) true true message
       false "" 0 false "" (cs_Message observed)) None None) ;!
  st_ret (steadyRequeue (oc_GCPDiscoveryInterval cfg) (oc_RequeueInterval cfg) (gw_LoadBalancer gw)))).

(** No forward is valid and nothing was ever provisioned. *)
Definition unprovisioned (gw : Gateway) (invalid : list invalid_reason) : R Z :=
  try_ "read link activity" read_link (fun ls =>
  mirrorStatusWithForwards gw (mkMirrored "" "" ls
    (mkReadySignals false "" (firstInvalidForward invalid) "" "" false false "" false "" 0 false "" "") None None) ;!
  st_ret (if anyTransientReason invalid then validationRequeueAfter else 0)).

(** The link id, allocated by the steps of LinkID.v; Cluster Gateways have none. *)
Definition id_step (gw : Gateway) (k : Gateway -> R Z) : R Z :=
  if negb (gw_isLocal gw) then k gw
  else match pe_linkID env with
       | Ok id => k (set_LinkID id gw)
       | Err NoFreeLinkID => failReported "allocate link id" "no free link id"
       | Err (LinkIDFailed e) => fail "allocate link id" e
       end.

Definition reconcile_valid (gw : Gateway) (eligible : list string) : R Z :=
  try_ "classify forwards" (st_lift (classifyForwards (pe_getNamespace env) (pe_getService env) gw)) (fun cl =>
  warn (warnUnresolvedBackendPorts (pe_recorder env) (gid_of gw) (unresolved_backends (pe_getService env) gw cl.1)) ;!
  try_ "check xgatewaygcp existence" (on_api (xgatewayGCPExists (pe_fault env) (pe_seen env 0) gw)) (fun provisioned =>
  id_step gw (fun gw =>
  let '(valid, invalid, rejected) := rejectReservedHealthPort gw cl.1 cl.2 in
  warn (warnReservedHealthPort (pe_recorder env) (gid_of gw) rejected) ;!
  match valid, provisioned with
  | [], false => unprovisioned gw invalid
  | _, _ =>
      try_ "read xgatewaygcp status" (on_api (readXGatewayGCPStatus (pe_fault env) (pe_seen env 1) gw)) (fun observed =>
      let limit := capacity (effectiveWGSubnet gw) in
      if gw_LoadBalancer gw && (limit <? gw_Replicas gw) then over_capacity gw limit valid invalid observed
      else warn (fun w => (clear_capacity_warning (gid_of gw) w, [])) ;! provision gw eligible valid invalid observed)
  end))).

(** ** Deletion: the computation of [Deletion] on the pass's state *)
Definition child_key (kind : string) (gw : Gateway) : object_key := (kind, gw_Namespace gw, linkComponentName gw).
Definition crb_key (gw : Gateway) : object_key := ("ClusterRoleBinding", "", linkClusterRoleBindingName digest32 gw).
Definition network_key : object_key := (xgatewayNetworkKind, oc_PodNamespace cfg, oc_SharedNetworkName cfg).

Definition deletion_view (gw : Gateway) (s : rstate W Client) : dstate :=
  let m := as_objects (rs_api s) in
  let present k := bool_decide (is_Some (m !! k)) in
  mkDState (rs_finalizers s) (gs_Conditions (rs_status s)) (ob_Deleting <$> m !! xg_key gw) (ob_Deleting <$> m !! network_key)
    (pe_gateways env) (present (child_key "Deployment" gw)) (present (child_key "DaemonSet" gw)) (pe_teardownPods env)
    (present (child_key "Lease" gw)) (present (crb_key gw)) (fl_warned (rs_fleet s)) (fl_refreshed (rs_fleet s)).

Definition mark_deleting (o : object) : object :=
  mkObject (ob_Kind o) (ob_Namespace o) (ob_Name o) (ob_Labels o) (ob_Annotations o) (ob_Controller o) true (ob_Body o).

(** Objects the deletion marked or dropped. *)
Definition put_mark (mark : option bool) (k : object_key) (m : gmap object_key object) : gmap object_key object :=
  match mark, m !! k with
  | Some true, Some o => <[k := mark_deleting o]> m
  | _, _ => m
  end.
Definition put_drop (present : bool) (k : object_key) (m : gmap object_key object) : gmap object_key object :=
  if present then m else delete k m.

Definition deletion_put (gw : Gateway) (d : dstate) (s : rstate W Client) : rstate W Client :=
  let a := rs_api s in
  let c := rs_status s in
  let fl := rs_fleet s in
  let m := put_drop (ds_deployment d) (child_key "Deployment" gw) (put_drop (ds_daemonset d) (child_key "DaemonSet" gw)
             (put_drop (ds_lease d) (child_key "Lease" gw) (put_drop (ds_crb d) (crb_key gw)
                (put_mark (ds_composite d) (xg_key gw) (put_mark (ds_network d) network_key (as_objects a)))))) in
  mkRState (set_objects m a) (mkFleetState (fl_world fl) (ds_refreshed d) (fl_creds fl) (ds_warned d))
    (mkGwStatus (gs_Generation c) (gs_Address c) (gs_ServiceAccountEmail c) (gs_ActiveNode c) (gs_Members c) (ds_conditions d))
    (ds_finalizers d) (rs_events s).

Definition delete_step (gw : Gateway) : R Z :=
  fun s =>
    let '(d, r) := reconcileDelete (pe_delete env) SetStatusCondition (pe_now env) (gid_of gw) (gw_isLocal gw)
                     (gs_Generation (rs_status s)) (ob_Deleting <$> pe_seen env 0 (xg_key gw)) (deletion_view gw s) in
    (deletion_put gw d s, r).

Definition forget_dirty (gw_key : string * string) (s : rstate W Client) : rstate W Client :=
  let a := rs_api s in
  set_api (mkAState (as_objects a) (dirty_forget (as_linkDirty a) gw_key) (dirty_forget (as_responderDirty a) gw_key)) s.

(** The pass, on the Gateway as read: whether it is being deleted comes with it. *)
Definition gateway_Reconcile (key : string * string) (read : lookup_result (Gateway * bool)) : R Z :=
  fun s =>
  match read with
  | NotFound => (forget_dirty key s, Ok 0)
  | LookupError e => (s, Err e)
  | Found (gw, true) => delete_step gw (forget_dirty key s)
  | Found (gw, false) =>
      if negb (bool_decide (gatewayFinalizer ∈ rs_finalizers s)) then
        (st_wrap "add finalizer" (st_write (pe_finalizer env) (fun s => set_finalizers (rs_finalizers s ++ [gatewayFinalizer]) s)) ;!
         st_ret second) s
      else
        match tunnelAddresses (effectiveWGSubnet gw) (effectiveWGGatewayAddress gw) (effectiveWGLinkAddress gw) with
        | Err reason =>
            (warn (warnInvalidTunnelAddresses (pe_recorder env) (gid_of gw) (tunnel_reason reason)) ;!
             mirrorStatusWithForwards gw (mkMirrored "" "" linkStatus_zero
               (mkReadySignals true (tunnel_reason reason) None "" "" false false "" false "" 0 false "" "") None None) ;!
             st_ret validationRequeueAfter) s
        | Ok eligible =>
            (warn (fun w => (clear_tunnel_warning (gid_of gw) w, [])) ;! reconcile_valid gw eligible) s
        end
  end.
End Reconcile.

(** The Gateway with its link id, and the forwards a pass accepts for it. *)
Definition allocated {W Client} (env : pass_env W Client) (gw : Gateway) : Gateway :=
  if negb (gw_isLocal gw) then gw
  else match pe_linkID env with Ok id => set_LinkID id gw | Err _ => gw end.

Definition classified {W Client} (env : pass_env W Client) (gw : Gateway) : list forwardBackend * list invalid_reason :=
  match classifyForwards (pe_getNamespace env) (pe_getService env) gw with
  | Ok cl => (rejectReservedHealthPort (allocated env gw) cl.1 cl.2).1
  | Err _ => ([], [])
  end.
Definition valid_forwards {W Client} (env : pass_env W Client) (gw : Gateway) : list forwardBackend := (classified env gw).1.

(** ** Proofs: what a pass does to the API objects *)

Lemma wrap_keeps {S A} (Q : S -> S -> Prop) p (m : st S A) : st_keeps Q m -> st_keeps Q (st_wrap p m).
Proof.
  intros Hm s s' r. unfold st_wrap. destruct (m s) as [s1 [a|e]] eqn:E; intros [= <- <-]; exact (Hm _ _ _ E).
Qed.

Lemma lift_keeps {S A} (Q : S -> S -> Prop) `{!PreOrder Q} (r : result string A) : st_keeps Q (st_lift r).
Proof. intros s s' x [= <- _]. reflexivity. Qed.

(** Walk a computation, keeping [Q] at every call; what the hints do not know is left. *)
Ltac keeps Q :=
  lazymatch goal with
  | |- st_keeps _ (st_bind _ _) => apply (keeps_bind Q); [keeps Q|intros ?; keeps Q]
  | |- st_keeps _ (st_ret _) => apply keeps_ret; apply _
  | |- st_keeps _ (st_err _) => apply keeps_err; apply _
  | |- st_keeps _ (st_read _ _) => apply keeps_read; apply _
  | |- st_keeps _ (st_lift _) => apply lift_keeps; apply _
  | |- st_keeps _ (st_wrap _ _) => apply wrap_keeps; keeps Q
  | |- st_keeps _ (let _ := _ in _) => cbv zeta; keeps Q
  | |- st_keeps _ (match ?x with _ => _ end) => destruct x; keeps Q
  | |- _ => try assumption; try solve [auto with effects]
  end.

(** What holds across a write of any object but the composite. *)
Class Frame (Q : astate -> astate -> Prop) : Prop := {
  frame_preorder :: PreOrder Q;
  frame_put ssa k d s : k.1.1 <> xgatewayGCPKind -> Q s (put ssa k d s);
  frame_delete k s : k.1.1 <> xgatewayGCPKind -> Q s (set_objects (delete k (as_objects s)) s);
  frame_flags s s' : as_objects s' = as_objects s -> Q s s'
}.

Section Frame.
Context (Q : astate -> astate -> Prop) `{!Frame Q}.

Lemma apply_keeps ssa fault d : ob_Kind d <> xgatewayGCPKind -> st_keeps Q (apply ssa fault d).
Proof. intros Hk s s' r [-> | ->]%apply_any; [reflexivity|by apply frame_put]. Qed.

Lemma gate_keeps ssa hash fault seen owner g d force :
  ob_Kind d <> xgatewayGCPKind -> st_keeps Q (applyObjectIfChanged ssa hash fault seen owner g d force).
Proof. intros Hk s s' r [-> | ->]%applyObjectIfChanged_any; [reflexivity|by apply frame_put]. Qed.

Lemma leftover_keeps fault seen k : k.1.1 <> xgatewayGCPKind -> st_keeps Q (delete_leftover fault seen k).
Proof.
  intros Hne. unfold delete_leftover. keeps Q. apply keeps_write; [apply _|]. intros s. by apply frame_delete.
Qed.

(** A pass that takes a dirty mark and gives it back when it fails. *)
Lemma taken_keeps s s0 s1 (b : bool) s2 :
  as_objects s0 = as_objects s -> Q s0 s1 -> as_objects s2 = as_objects s1 -> Q s (if b then s2 else s1).
Proof.
  intros H0 H1 H2. transitivity s0; [by apply frame_flags|]. transitivity s1; [done|].
  destruct b; [by apply frame_flags|reflexivity].
Qed.

Lemma secrets_keep ssa fault seen gw gen1 gen2 : st_keeps Q (ensureSecrets ssa fault seen gw gen1 gen2).
Proof. unfold ensureSecrets, objectExists, generated, write_secret. keeps Q; by apply apply_keeps. Qed.

Lemma network_keeps ssa cfg fault : st_keeps Q (ensureXGatewayNetwork ssa cfg fault).
Proof. unfold ensureXGatewayNetwork. keeps Q. by apply apply_keeps. Qed.

Lemma dns_keeps ssa fault gw address : st_keeps Q (ensureDNSEndpoint ssa fault gw address).
Proof.
  unfold ensureDNSEndpoint. destruct (buildDNSEndpoint gw address) as [o|] eqn:E; [|keeps Q].
  assert (Hk : ob_Kind o <> xgatewayGCPKind).
  { revert E. unfold buildDNSEndpoint. destruct (gw_DNSHostnames gw); [done|]. case_match; [done|]. by intros [= <-]. }
  unfold apply_owned. keeps Q. by apply apply_keeps.
Qed.

Lemma link_kinds d32 enc cfg i x : x ∈ link_desired d32 enc cfg i -> ob_Kind x.2 <> xgatewayGCPKind.
Proof.
  unfold link_desired. destruct (li_ident i); [|destruct (1 <? _)]; cbn [app]; rewrite !elem_of_cons, elem_of_nil;
    intros; destruct_or?; by subst.
Qed.

Lemma apply_each_keeps ssa hash fault seen g force l :
  (forall x, x ∈ l -> ob_Kind x.2 <> xgatewayGCPKind) -> st_keeps Q (apply_each ssa hash fault seen g force l).
Proof.
  induction l as [|[owner o] l IH]; intros Hl; cbn [apply_each]; [keeps Q|].
  apply (keeps_bind Q); [apply gate_keeps, (Hl (owner, o)); by left|]. intros _. apply IH. intros x Hx. apply Hl. by right.
Qed.

Lemma link_keeps ssa hash d32 enc cfg fault seen i : st_keeps Q (ensureLink ssa hash d32 enc cfg fault seen i).
Proof.
  intros s s' r. unfold ensureLink. destruct (dirty_take _ _) as [d force].
  destruct (link_pass _ _ _ _ _ _ _ _ _ _) as [s1 r1] eqn:E. intros [= <- _].
  apply (taken_keeps s (set_linkDirty d s)); [done| |done]. refine ((_ : st_keeps Q _) _ _ _ E).
  unfold link_pass. apply (keeps_bind Q); [apply apply_each_keeps, link_kinds|]. intros _.
  keeps Q. by apply leftover_keeps.
Qed.

Lemma responder_keeps ssa hash sha cfg fault seen gw : st_keeps Q (ensureGatewayResponder ssa hash sha cfg fault seen gw).
Proof.
  intros s s' r. unfold ensureGatewayResponder. destruct (dirty_take _ _) as [d force].
  destruct (responder_pass _ _ _ _ _ _ _ _ _) as [s1 r1] eqn:E. intros [= <- _].
  apply (taken_keeps s (set_responderDirty d s)); [done| |done]. refine ((_ : st_keeps Q _) _ _ _ E).
  unfold responder_pass, deleteResponderLeftover. keeps Q; first [by apply gate_keeps|by apply leftover_keeps].
Qed.
End Frame.

(** The composite stays present: no operation of a live pass removes it. *)
Section Present.
Context (k : object_key).
Definition stays (s s' : astate) : Prop := is_Some (as_objects s !! k) -> is_Some (as_objects s' !! k).

#[global] Instance stays_preorder : PreOrder stays.
Proof. split; [by intros s|]. intros s1 s2 s3 H1 H2 H. by apply H2, H1. Qed.

Lemma put_stays ssa k' d s : stays s (put ssa k' d s).
Proof.
  intros H. cbn. destruct (decide (k' = k)) as [->|Hne]; [rewrite lookup_insert_eq; eauto|].
  by rewrite lookup_insert_ne by congruence.
Qed.

Lemma stays_frame : k.1.1 = xgatewayGCPKind -> Frame stays.
Proof.
  intros Hk. split; [apply _|intros; apply put_stays| |].
  - intros k' s Hne H. cbn. rewrite lookup_delete_ne; [done|]. by intros ->.
  - intros s s' E H. by rewrite E.
Qed.

Lemma apply_stays ssa fault d : st_keeps stays (apply ssa fault d).
Proof. intros s s' r [-> | ->]%apply_any; [reflexivity|apply put_stays]. Qed.
#[local] Hint Resolve apply_stays : effects.

Lemma composite_stays ssa d32 sha cfg fault seen gw fwds lb r hp :
  st_keeps stays (ensureXGatewayGCP ssa d32 sha cfg fault seen gw fwds lb r hp).
Proof. unfold ensureXGatewayGCP, passRoster, get_object, apply_owned. keeps stays. Qed.

Lemma over_capacity_stays ssa d32 sha cfg fault seen gw fwds hp :
  st_keeps stays (applyOverCapacityXGatewayGCP ssa d32 sha cfg fault seen gw fwds hp).
Proof.
  unfold applyOverCapacityXGatewayGCP, xgatewayGCPExists, objectExists, readXGatewayGCPTargetSize, get_object.
  keeps stays. apply composite_stays.
Qed.
End Present.

(** The composite keeps its roster and target size. *)
Definition fleet_stays (gw : Gateway) (roster : list RosterEntry) (size : Z) (s s' : astate) : Prop :=
  fleet_at gw roster size s -> fleet_at gw roster size s'.

#[global] Instance fleet_stays_frame gw roster size : Frame (fleet_stays gw roster size).
Proof.
  split.
  - split; [by intros s|]. intros s1 s2 s3 H1 H2 H. by apply H2, H1.
  - intros ssa k d s Hne (o & Ho & H). exists o. split; [|done]. cbn. rewrite lookup_insert_ne; [done|]. by intros ->.
  - intros k s Hne (o & Ho & H). exists o. split; [|done]. cbn. rewrite lookup_delete_ne; [done|]. by intros ->.
  - intros s s' E (o & Ho & H). exists o. by rewrite E.
Qed.

Section PassProofs.
Context {W Client : Type}.
Context (ssa : option object -> object -> object) (hash : object -> string) (sha256 digest32 credHash : string -> string).
Context (encode : RuntimeConfig -> string) (decode : string -> result string RuntimeConfig).
Context (newClient : string -> result string Client) (deps : Gateway -> Deps W).
Context (SSC : list Condition -> Condition -> list Condition * bool) (member_error_text : member_error -> string).
Context (cfg : OperatorConfig) (env : pass_env W Client).

Abbreviation fail_ := (fail (W := W) SSC env).
Abbreviation try := (try_ (W := W) SSC env).

(** A relation on the API objects, on the whole state. *)
Definition on_rs (Q : astate -> astate -> Prop) (s s' : rstate W Client) : Prop := Q (rs_api s) (rs_api s').

#[local] Instance on_rs_preorder Q `{!PreOrder Q} : PreOrder (on_rs Q).
Proof. split; [intros s; unfold on_rs; reflexivity|]. intros s1 s2 s3 H1 H2. unfold on_rs in *. by transitivity (rs_api s2). Qed.

Section Lift.
Context (Q : astate -> astate -> Prop) `{!PreOrder Q}.

Lemma same_api (s s' : rstate W Client) : rs_api s' = rs_api s -> on_rs Q s s'.
Proof. unfold on_rs. intros ->. reflexivity. Qed.

Lemma keeps_fail op e : st_keeps (on_rs Q) (fail_ op e).
Proof.
  intros s s' r. unfold fail, recordFailure. destruct (pe_recorder env), (retryOnConflict _ _ _ _) as [c x];
    intros [= <- _]; by apply same_api.
Qed.

Lemma keeps_failReported op e : st_keeps (on_rs Q) (failReported (W := W) SSC cfg env op e).
Proof.
  intros s s' r. unfold failReported, recordFailure. destruct (pe_recorder env), (retryOnConflict _ _ _ _) as [c x];
    intros [= <- _]; by apply same_api.
Qed.

Lemma keeps_warn f : st_keeps (on_rs Q) (warn (W := W) (Client := Client) f).
Proof. intros s s' r. unfold warn. destruct (f _) as [w ev]. intros [= <- _]. by apply same_api. Qed.

Lemma keeps_mirror gw m : st_keeps (on_rs Q) (mirrorStatusWithForwards (W := W) SSC env gw m).
Proof.
  intros s s' r. unfold mirrorStatusWithForwards. destruct (retryOnConflict _ _ _ _) as [c x]. intros [= <- _]. by apply same_api.
Qed.

Lemma keeps_on_api {A} (m : st astate A) : st_keeps Q m -> st_keeps (on_rs Q) (on_api (W := W) (Client := Client) m).
Proof.
  intros Hm s s' r. unfold on_api. destruct (m (rs_api s)) as [a x] eqn:E. intros [= <- _]. exact (Hm _ _ _ E).
Qed.

Lemma keeps_try {A} op (m : st (rstate W Client) A) k :
  st_keeps (on_rs Q) m -> (forall a, (exists s s', m s = (s', Ok a)) -> st_keeps (on_rs Q) (k a)) ->
  st_keeps (on_rs Q) (try op m k).
Proof.
  intros Hm Hk s s' r. unfold try_. destruct (m s) as [s1 [a|e]] eqn:E; intros H.
  - transitivity s1; [exact (Hm _ _ _ E)|]. exact (Hk a (ex_intro _ s (ex_intro _ s1 E)) _ _ _ H).
  - transitivity s1; [exact (Hm _ _ _ E)|]. exact (keeps_fail _ _ _ _ _ H).
Qed.

Lemma keeps_id gw k :
  st_keeps (on_rs Q) (k (allocated env gw)) ->
  st_keeps (on_rs Q) (id_step (W := W) SSC cfg env gw k).
Proof.
  unfold id_step, allocated. destruct (negb _); [done|].
  destruct (pe_linkID env) as [id|[|e]]; intros Hk; [done|apply keeps_failReported|apply keeps_fail].
Qed.

Lemma keeps_members gw eligible observed :
  st_keeps (on_rs Q) (members_step credHash newClient deps member_error_text cfg env gw eligible observed).
Proof.
  intros s s' r. unfold members_step. destruct (gw_LoadBalancer gw).
  - destruct (reconcileMembers _ _ _ _ _ _ _ _ _ _ _ _ _ _ _ _) as [[p ev] x]. intros [= <- _]. by apply same_api.
  - destruct (reconcileSingleMember _ _ _ _ _ _) as [w x]. intros [= <- _]. by apply same_api.
Qed.
End Lift.

Abbreviation same_objects := (fun s s' : astate => as_objects s' = as_objects s).
#[local] Instance same_objects_preorder : PreOrder same_objects.
Proof. split; [by intros s|]. intros s1 s2 s3 H1 H2. congruence. Qed.

Lemma read_link_keeps Q `{!PreOrder Q} : st_keeps (on_rs Q) (read_link env).
Proof. apply lift_keeps, _. Qed.

Lemma exists_keeps Q `{!PreOrder Q} seen gw : st_keeps Q (xgatewayGCPExists (pe_fault env) seen gw).
Proof. unfold xgatewayGCPExists, objectExists. keeps Q. Qed.

(** Nothing is written for a Gateway that is not provisioned. *)
Lemma unprovisioned_keeps Q `{!PreOrder Q} gw invalid : st_keeps (on_rs Q) (unprovisioned (W := W) SSC env gw invalid).
Proof.
  apply keeps_try; [apply _|apply read_link_keeps, _|]. intros ls _.
  apply (keeps_bind (on_rs Q)); [apply keeps_mirror, _|]. intros _. apply keeps_ret, _.
Qed.

Abbreviation serve_ := (serve ssa hash sha256 digest32 encode SSC cfg env).
Abbreviation provision_ := (provision ssa hash sha256 digest32 credHash encode decode newClient deps SSC member_error_text cfg env).
Abbreviation valid_ := (reconcile_valid ssa hash sha256 digest32 credHash encode decode newClient deps SSC member_error_text cfg env).
Abbreviation pass := (gateway_Reconcile ssa hash sha256 digest32 credHash encode decode newClient deps SSC member_error_text
  cfg env).

Abbreviation composite_ gw := (fun lb r fwds hp =>
  ensureXGatewayGCP ssa digest32 sha256 cfg (pe_fault env) (pe_seen env 4) gw fwds lb r hp).
Abbreviation over_ gw := (fun fwds hp =>
  applyOverCapacityXGatewayGCP ssa digest32 sha256 cfg (pe_fault env) (pe_seen env 2) gw fwds hp).
Abbreviation members_ := (members_step credHash newClient deps member_error_text cfg env).

(** What the two writes of the composite keep, the whole pass keeps. *)
Section PassKeeps.
Context (Q : astate -> astate -> Prop) `{!Frame Q}.

Lemma serve_keeps gw valid invalid observed membership peers key :
  st_keeps (on_rs Q) (serve_ gw valid invalid observed membership peers key).
Proof.
  destruct membership as [[result df] dm]. unfold serve.
  apply keeps_try; [apply _|apply keeps_on_api, responder_keeps, _|]. intros ip _.
  apply keeps_try; [apply _|apply lift_keeps, _|]. intros pods _.
  apply keeps_try; [apply _|destruct (gw_isLocal gw); [apply lift_keeps, _|apply keeps_ret, _]|]. intros lpods _.
  apply (keeps_bind (on_rs Q)); [apply keeps_warn, _|]. intros _.
  apply keeps_try; [apply _|apply keeps_on_api, link_keeps, _|]. intros _ _.
  apply keeps_try; [apply _|apply keeps_on_api, dns_keeps, _|]. intros _ _.
  apply keeps_try; [apply _|apply read_link_keeps, _|]. intros ls _.
  apply (keeps_bind (on_rs Q)); [apply keeps_mirror, _|]. intros _. apply keeps_ret, _.
Qed.

Lemma provision_keeps gw eligible valid invalid observed :
  (forall membership fwds hp, (exists s s', members_ gw eligible observed s = (s', Ok membership)) ->
     st_keeps Q (composite_ gw (gw_LoadBalancer gw) membership.1.1 fwds hp)) ->
  st_keeps (on_rs Q) (provision_ gw eligible valid invalid observed).
Proof.
  intros Hc. unfold provision. apply keeps_try; [apply _|apply keeps_on_api, secrets_keep, _|]. intros _ _.
  apply keeps_try; [apply _|apply keeps_on_api, network_keeps, _|].
  intros _ _. apply keeps_try; [apply _|apply keeps_members, _|]. intros membership Hm.
  apply keeps_try; [apply _|apply keeps_on_api, (Hc _ _ _ Hm)|]. intros _ _.
  apply keeps_try; [apply _| |intros peers _].
  { unfold peers_step, appliedLinkPeers, get_object. destruct (negb _); [apply keeps_ret, _|].
    destruct (membership.1.1) as [r|]; [destruct (negb _); [apply keeps_ret, _|]|]; apply keeps_on_api; keeps Q. }
  apply keeps_try; [apply _|destruct (gw_LoadBalancer gw); [apply keeps_ret, _|apply lift_keeps, _]|]. intros key _.
  apply serve_keeps.
Qed.

Lemma pass_keeps key gw (gw' := allocated env gw) :
  (forall fwds hp, st_keeps Q (over_ gw' fwds hp)) ->
  (forall eligible observed membership fwds hp,
     gw_LoadBalancer gw' && (capacity (effectiveWGSubnet gw') <? gw_Replicas gw') = false ->
     (exists a a', readXGatewayGCPStatus (pe_fault env) (pe_seen env 1) gw' a = (a', Ok observed)) ->
     (exists s s', members_ gw' eligible observed s = (s', Ok membership)) ->
     st_keeps Q (composite_ gw' (gw_LoadBalancer gw') membership.1.1 fwds hp)) ->
  st_keeps (on_rs Q) (pass key (Found (gw, false))).
Proof.
  intros Hover Hcomp s s' r. unfold gateway_Reconcile. destruct (negb _).
  { refine ((_ : st_keeps (on_rs Q) _) s s' r). apply (keeps_bind (on_rs Q)); [|intros _; apply keeps_ret, _].
    apply wrap_keeps, keeps_write; [apply _|]. intros s0. by apply same_api; [apply _|]. }
  destruct (tunnelAddresses _ _ _) as [eligible|reason].
  2: { refine ((_ : st_keeps (on_rs Q) _) s s' r). apply (keeps_bind (on_rs Q)); [apply keeps_warn, _|]. intros _.
       apply (keeps_bind (on_rs Q)); [apply keeps_mirror, _|]. intros _. apply keeps_ret, _. }
  refine ((_ : st_keeps (on_rs Q) _) s s' r). apply (keeps_bind (on_rs Q)); [apply keeps_warn, _|]. intros _.
  unfold reconcile_valid. apply keeps_try; [apply _|apply lift_keeps, _|]. intros cl _.
  apply (keeps_bind (on_rs Q)); [apply keeps_warn, _|]. intros _.
  apply keeps_try; [apply _|apply keeps_on_api, exists_keeps, _|]. intros provisioned _.
  apply keeps_id; [apply _|]. fold gw'. destruct (rejectReservedHealthPort gw' cl.1 cl.2) as [[valid invalid] rejected].
  apply (keeps_bind (on_rs Q)); [apply keeps_warn, _|]. intros _.
  assert (Hrest : st_keeps (on_rs Q) (try "read xgatewaygcp status"
    (on_api (readXGatewayGCPStatus (pe_fault env) (pe_seen env 1) gw')) (fun observed =>
      let limit := capacity (effectiveWGSubnet gw') in
      if gw_LoadBalancer gw' && (limit <? gw_Replicas gw')
      then over_capacity ssa sha256 digest32 SSC cfg env gw' limit valid invalid observed
      else warn (fun w => (clear_capacity_warning (gid_of gw') w, [])) ;! provision_ gw' eligible valid invalid observed))).
  { apply keeps_try; [apply _|apply keeps_on_api; unfold readXGatewayGCPStatus, get_object; keeps Q|].
    intros observed (s1 & s2 & Hobs). cbv zeta. destruct (gw_LoadBalancer gw' && _) eqn:Ecap.
    - unfold over_capacity. apply (keeps_bind (on_rs Q)); [apply keeps_warn, _|]. intros _.
      apply keeps_try; [apply _|apply keeps_on_api, Hover|]. intros _ _.
      apply keeps_try; [apply _|apply read_link_keeps, _|]. intros ls _.
      apply (keeps_bind (on_rs Q)); [apply keeps_mirror, _|]. intros _. apply keeps_ret, _.
    - apply (keeps_bind (on_rs Q)); [apply keeps_warn, _|]. intros _. apply provision_keeps.
      intros membership fwds hp. apply (Hcomp eligible observed); [done|].
      unfold on_api in Hobs. destruct (readXGatewayGCPStatus _ _ _ _) as [a x] eqn:Er. injection Hobs as _ ->. eauto. }
  destruct valid; [destruct provisioned|]; [exact Hrest|apply unprovisioned_keeps, _|exact Hrest].
Qed.
End PassKeeps.

Lemma pass_stays k key gw : k.1.1 = xgatewayGCPKind -> st_keeps (on_rs (stays k)) (pass key (Found (gw, false))).
Proof.
  intros Hk. apply pass_keeps; [by apply stays_frame|intros; apply over_capacity_stays|intros; apply composite_stays].
Qed.

(** A pass over a Gateway without a valid forward and without a composite. *)
Lemma pass_unprovisioned key gw :
  pe_seen env 0 (xg_key gw) = None -> valid_forwards env gw = [] ->
  st_keeps (on_rs same_objects) (pass key (Found (gw, false))).
Proof.
  intros Hseen Hval s s' r. unfold gateway_Reconcile. destruct (negb _).
  { refine ((_ : st_keeps (on_rs same_objects) _) s s' r). apply (keeps_bind (on_rs same_objects)); [|intros _; apply keeps_ret, _].
    apply wrap_keeps, keeps_write; [apply _|]. intros s0. by apply same_api; [apply _|]. }
  destruct (tunnelAddresses _ _ _) as [eligible|reason];
    (refine ((_ : st_keeps (on_rs same_objects) _) s s' r); apply (keeps_bind (on_rs same_objects)); [apply keeps_warn, _|]; intros _).
  2: { apply (keeps_bind (on_rs same_objects)); [apply keeps_mirror, _|]. intros _. apply keeps_ret, _. }
  unfold reconcile_valid. apply keeps_try; [apply _|apply lift_keeps, _|]. intros cl (s1 & s2 & [= _ Hcl]).
  apply (keeps_bind (on_rs same_objects)); [apply keeps_warn, _|]. intros _.
  apply keeps_try; [apply _|apply keeps_on_api, exists_keeps, _|]. intros provisioned (s3 & s4 & Hp).
  assert (provisioned = false) as ->.
  { unfold on_api, xgatewayGCPExists in Hp. destruct (objectExists _ _ _ _) as [a0 x] eqn:E. injection Hp as _ ->.
    apply objectExists_any in E as [_ Hb]. rewrite (Hb _ eq_refl), Hseen. by apply bool_decide_false; intros [? ?]. }
  apply keeps_id; [apply _|]. unfold valid_forwards, classified in Hval. rewrite Hcl in Hval.
  destruct (rejectReservedHealthPort (allocated env gw) cl.1 cl.2) as [[valid invalid] rejected]. cbn in Hval. subst valid.
  apply (keeps_bind (on_rs same_objects)); [apply keeps_warn, _|]. intros _. apply unprovisioned_keeps, _.
Qed.
End PassProofs.

(** ** Proofs: passes without a view of the fleet *)

Lemma allocated_spec {W Client} (env : pass_env W Client) gw (gw' := allocated env gw) :
  xg_key gw' = xg_key gw /\ gw_LoadBalancer gw' = gw_LoadBalancer gw /\ gw_Replicas gw' = gw_Replicas gw /\
  effectiveWGSubnet gw' = effectiveWGSubnet gw /\ gid_of gw' = gid_of gw.
Proof. subst gw'. unfold allocated. destruct (negb _); [done|]. by destruct (pe_linkID env). Qed.

Section Outage.
Context {W Client : Type}.
Context (ssa : option object -> object -> object) (hash : object -> string) (sha256 digest32 credHash : string -> string).
Context (encode : RuntimeConfig -> string) (decode : string -> result string RuntimeConfig).
Context (newClient : string -> result string Client) (deps : Gateway -> Deps W).
Context (SSC : list Condition -> Condition -> list Condition * bool) (member_error_text : member_error -> string).
Context (cfg : OperatorConfig).

(** Why a pass has no usable view of the fleet: the composite it reads names no instance
    group yet, the spec asks for more members than the subnet holds, or discovery fails. *)
Inductive no_view (env : pass_env W Client) (gw : Gateway) : Prop :=
| nv_waiting :
    (forall a a' observed, readXGatewayGCPStatus (pe_fault env) (pe_seen env 1) gw a = (a', Ok observed) ->
       cs_MIGName observed = "") -> no_view env gw
| nv_over_capacity : capacity (effectiveWGSubnet gw) < gw_Replicas gw -> no_view env gw
| nv_discovery :
    (forall mig, discovery_fails (W := W) credHash newClient (pe_getSecret env) (pe_client_List env) cfg (gid_of gw) (pe_now env) mig) ->
    no_view env gw.

(** The pass's reads of the composite's spec (at the capacity check, in the membership
    step and before the write) show the stored roster and target size. *)
Definition fleet_read (env : pass_env W Client) (gw : Gateway) (s : rstate W Client) : Prop :=
  forall n o, n ∈ [2; 3; 4]%nat -> as_objects (rs_api s) !! xg_key gw = Some o ->
    exists o', pe_seen env n (xg_key gw) = Some o' /\
      ob_path ["spec"; "members"] o' = ob_path ["spec"; "members"] o /\
      ob_path ["spec"; "targetSize"] o' = ob_path ["spec"; "targetSize"] o.

Abbreviation pass env := (gateway_Reconcile ssa hash sha256 digest32 credHash encode decode newClient deps SSC
  member_error_text cfg env).

(** Live passes without a view, under any failures and later versions of the spec, and
    anything else that leaves the composite's two fields alone: Crossplane's status
    writes, other Gateways' passes. *)
Inductive outage_step (gw0 : Gateway) : rstate W Client -> rstate W Client -> Prop :=
| os_pass env key gw s s' r :
    xg_key gw = xg_key gw0 -> gw_LoadBalancer gw = true -> no_view env gw -> fleet_read env gw s ->
    pass env key (Found (gw, false)) s = (s', r) -> outage_step gw0 s s'
| os_foreign s s' :
    (forall o, as_objects (rs_api s) !! xg_key gw0 = Some o ->
       exists o', as_objects (rs_api s') !! xg_key gw0 = Some o' /\ ob_key o' = ob_key o /\
         ob_path ["spec"; "members"] o' = ob_path ["spec"; "members"] o /\
         ob_path ["spec"; "targetSize"] o' = ob_path ["spec"; "targetSize"] o) ->
    outage_step gw0 s s'.

Context (body_ok : list (string * yaml) -> list (string * yaml) -> Prop) `{!KeepsLeaf body_ok} `{!ServerSideApply body_ok ssa}.

(** A membership step without a view keeps the size the composite shows. *)
Lemma no_view_membership env gw (gw' := allocated env gw) eligible observed a a' s s' membership roster size :
  gw_LoadBalancer gw = true -> no_view env gw' -> capacity (effectiveWGSubnet gw') <? gw_Replicas gw' = false ->
  fleet_shown gw' roster size (pe_seen env 3) -> - 2 ^ 31 <= size < 2 ^ 31 ->
  readXGatewayGCPStatus (pe_fault env) (pe_seen env 1) gw' a = (a', Ok observed) ->
  members_step credHash newClient deps member_error_text cfg env gw' eligible observed s = (s', Ok membership) ->
  membership.1.1 = Some (unusable_result size).
Proof.
  intros Hlb Hno Hcap Hsh Hsize Hobs. unfold members_step.
  destruct (allocated_spec env gw) as (_ & Hl & _). fold gw' in Hl. rewrite Hl, Hlb.
  destruct (reconcileMembers _ _ _ _ _ _ _ _ _ _ _ _ _ _ _ _) as [[p ev] [[[r failed] message]|e]] eqn:E; intros [= _ <-].
  cbn. eapply blind_membership in E; [exact E|exact Hsh|exact Hsize|].
  destruct Hno as [Hw|Hc|Hd]; [left; exact (Hw _ _ _ Hobs)|lia|right; apply Hd].
Qed.

Lemma outage_pass_keeps env key gw roster size s s' r :
  gw_LoadBalancer gw = true -> no_view env gw -> fleet_read env gw s -> - 2 ^ 31 <= size < 2 ^ 31 ->
  pass env key (Found (gw, false)) s = (s', r) ->
  fleet_at gw roster size (rs_api s) -> fleet_at gw roster size (rs_api s').
Proof.
  intros Hlb Hno Hread Hsize H Hf.
  assert (Hsh : forall n, n ∈ [2; 3; 4]%nat -> fleet_shown gw roster size (pe_seen env n)).
  { intros n Hn. destruct Hf as (o & Ho & _ & Hm & Ht). destruct (Hread n o Hn Ho) as (o' & Ho' & Em & Et).
    exists o'. split; [done|]. split; congruence. }
  destruct (allocated_spec env gw) as (Hk & Hl & Hr & Hs & Hg). set (gw' := allocated env gw) in *.
  assert (Hno' : no_view env gw').
  { destruct Hno as [Hw|Hc|Hd].
    - apply nv_waiting. intros a a' o. unfold readXGatewayGCPStatus. rewrite Hk. apply Hw.
    - apply nv_over_capacity. by rewrite Hs, Hr.
    - apply nv_discovery. by rewrite Hg. }
  unfold fleet_shown in Hsh. rewrite <- Hk in Hsh.
  assert (Hfleet : forall x, fleet_at gw roster size x = fleet_at gw' roster size x) by (intros x; unfold fleet_at; by rewrite Hk).
  rewrite Hfleet in *. revert Hf.
  refine (pass_keeps _ _ _ _ _ _ _ _ _ _ _ _ _ (fleet_stays gw' roster size) _ _ _ _ _ _ _ H); fold gw'.
  - intros fwds hp a a' x Ha Hf. refine (over_capacity_fleet body_ok ssa _ _ _ _ _ _ _ _ _ _ _ _ _ (Hsh 2%nat _) Hsize Hf Ha).
    set_solver.
  - intros eligible observed membership fwds hp Hcap (a & a' & Hobs) (s1 & s2 & Hm) b b' x.
    rewrite Hl, Hlb in Hcap. cbn in Hcap.
    assert (Hsh3 : fleet_shown gw' roster size (pe_seen env 3)) by (apply Hsh; set_solver).
    rewrite Hl, Hlb, (no_view_membership _ _ _ _ _ _ _ _ _ _ _ Hlb Hno' Hcap Hsh3 Hsize Hobs Hm). intros Hb Hf.
    refine (ensure_keeps_fleet body_ok ssa _ _ _ _ _ _ _ _ _ _ _ _ _ (Hsh 4%nat _) Hf Hb). set_solver.
Qed.
End Outage.

(** C15: An outage never shrinks the fleet. Once a usable pass has applied a load-balanced
    Gateway's composite, take any run of live controller passes over the Gateway that have
    no usable view of the fleet (no instance group name, more members asked for than the
    subnet holds, credentials or listing failing), whatever calls fail and however the
    rest of the spec changes; the passes' cached reads show the stored roster and target
    size. The stored composite keeps the roster and the target size of the usable pass:
    no member's key is withdrawn and no VM removed. *)
Theorem outage_keeps_fleet {W Client} body_ok `{!KeepsLeaf body_ok} ssa `{!ServerSideApply body_ok ssa} hash sha256 digest32
    credHash encode decode newClient (deps : Gateway -> Deps W) SSC member_error_text cfg fault seen gw forwards hp r a0
    (s1 s2 : rstate W Client) :
  keyed a0 -> res_Unusable r = false -> - 2 ^ 31 <= res_TargetSize r < 2 ^ 31 ->
  ensureXGatewayGCP ssa digest32 sha256 cfg fault seen gw forwards true (Some r) hp a0 = (rs_api s1, Ok tt) ->
  rtc (outage_step ssa hash sha256 digest32 credHash encode decode newClient deps SSC member_error_text cfg gw) s1 s2 ->
  exists o, as_objects (rs_api s2) !! xg_key gw = Some o /\
    ob_path ["spec"; "members"] o = Some (rosterMembers (res_Roster r)) /\
    ob_path ["spec"; "targetSize"] o = Some (YInt (res_TargetSize r)).
Proof.
  intros Hk Hu Hsize H Hr. apply (usable_stored body_ok) in H; [|done..].
  cut (fleet_at gw (res_Roster r) (res_TargetSize r) (rs_api s2)).
  { intros (o & Ho & _ & Hm & Ht). eauto. }
  induction Hr as [|s1 s s2 Hstep _ IH]; [done|]. apply IH. clear IH.
  destruct Hstep as [env key gw' s s' x Hkey Hlb Hno Hread Hp|s s' Hf].
  - unfold fleet_at in *. rewrite <- Hkey in *.
    exact (outage_pass_keeps _ _ _ _ _ _ _ _ _ _ _ _ body_ok _ _ _ _ _ _ _ _ Hlb Hno Hread Hsize Hp H).
  - destruct H as (o & Ho & Hko & Hm & Ht). destruct (Hf o Ho) as (o' & Ho' & Hko' & Hm' & Ht').
    exists o'. split; [done|]. split; [congruence|]. split; congruence.
Qed.

(** ** Proofs: what the Ready condition stands for *)

(** The condition of a type that [meta.FindStatusCondition] returns. *)
Definition condition_of (ty : string) (cs : list Condition) : option Condition :=
  find (fun c => bool_decide (cond_Type c = ty)) cs.

(** SetStatusCondition's contract: the condition of its type becomes the new one, those
    of other types stay, and no change reported means none made. *)
Class SetsCondition (SSC : list Condition -> Condition -> list Condition * bool) : Prop := {
  ssc_set cs c : condition_of (cond_Type c) (SSC cs c).1 = Some c;
  ssc_other cs c ty : ty <> cond_Type c -> condition_of ty (SSC cs c).1 = condition_of ty cs;
  ssc_same cs c : (SSC cs c).2 = false -> (SSC cs c).1 = cs
}.

Definition shows_ready (c : gw_status) (ready : bool) : Prop :=
  exists cond, condition_of conditionReady (gs_Conditions c) = Some cond /\ cond_Status cond = ready.

Lemma shows_ready_fun c a b : shows_ready c a -> shows_ready c b -> a = b.
Proof. intros (x & Hx & <-) (y & Hy & <-). congruence. Qed.

Lemma retry_update_ok wrap outcomes update cur c :
  retry_update wrap outcomes update cur = (c, Ok tt) ->
  exists cur0, update cur0 = Some c \/ (update cur0 = None /\ c = cur0).
Proof.
  revert cur. induction outcomes as [|o outcomes IH]; intros cur; cbn [retry_update]; [done|].
  destruct o; [done| | |]; (destruct (update cur) as [new|] eqn:E; [|intros [= <-]; eauto]); [apply IH|done|].
  intros [= <-]. eauto.
Qed.

(** An attempt that leaves the status alone leaves what it would have written. *)
Lemma mirror_update_condition SSC `{!SetsCondition SSC} gw m fresh c :
  mirror_update SSC gw m fresh = Some c \/ (mirror_update SSC gw m fresh = None /\ c = fresh) ->
  condition_of conditionReady (gs_Conditions c) = Some (ready_condition (mi_signals m) (gs_Generation fresh)) /\
  gs_Address c = mi_address m /\ gs_ActiveNode c = ls_Node (mi_ls m).
Proof.
  unfold mirror_update. set (cond := ready_condition _ _).
  assert (Hty : cond_Type cond = conditionReady) by (unfold cond, ready_condition; by destruct (readyPrecedence _) as [[? ?] ?]).
  pose proof (ssc_set (gs_Conditions fresh) cond) as Hset. pose proof (ssc_same (gs_Conditions fresh) cond) as Hsame.
  destruct (SSC _ cond) as [conds ch]. cbn [fst snd] in Hset, Hsame. rewrite Hty in Hset.
  set (p := match mi_responder m with None => _ | Some _ => _ end).
  assert (Hp : condition_of conditionReady p.1 = Some cond /\ (p.2 = false -> p.1 = conds)).
  { subst p. destruct (mi_responder m) as [r|]; [|done]. destruct (responder_condition r gw) as [[st' re] msg].
    split; [by rewrite ssc_other by done|apply ssc_same]. }
  destruct p as [conds' ch']. cbn [fst snd] in Hp. destruct Hp as [Hp Hp'].
  destruct (_ && _) eqn:Hall; (intros [[= <-]|[H ->]]; [|done]) || (intros [H|[H ->]]; [done|]).
  - rewrite !andb_true_iff, !bool_decide_eq_true, !negb_true_iff in Hall.
    destruct Hall as [[[[[Ha _] Hn] Hc] _] Hr]. rewrite (Hp' Hr), (Hsame Hc) in Hp. done.
  - done.
Qed.

Lemma mirror_update_shows SSC `{!SetsCondition SSC} gw m fresh c :
  mirror_update SSC gw m fresh = Some c \/ (mirror_update SSC gw m fresh = None /\ c = fresh) ->
  shows_ready c (readyPrecedence (mi_signals m)).2 /\ gs_Address c = mi_address m /\ gs_ActiveNode c = ls_Node (mi_ls m).
Proof.
  intros H. destruct (mirror_update_condition _ _ _ _ _ H) as (Hc & ? & ?). split; [|done]. eexists. split; [exact Hc|].
  unfold ready_condition. by destruct (readyPrecedence _) as [[? ?] ?].
Qed.

Lemma readyPrecedence_true s :
  (readyPrecedence s).2 = true ->
  InvalidTunnelAddresses s = false /\ InvalidForward s = None /\ LinkFaultReason s = "" /\
  LoadBalanced s && InsufficientCapacity s = false /\ Status.DiscoveryFailed s = false /\
  (LoadBalanced s = true -> PeerCount s <> 0) /\ ProvisionAddress s <> "".
Proof.
  unfold readyPrecedence. destruct (InvalidTunnelAddresses s); [done|]. destruct (InvalidForward s); [done|].
  case_bool_decide as Hf; [|done]. cbn [negb]. destruct (_ && _); [done|]. destruct (Status.DiscoveryFailed s); [done|].
  destruct (LoadBalanced s); cbn [andb].
  - destruct (Z.eqb_spec (PeerCount s) 0); [done|]. destruct (MembersNotReady s); [done|]. by case_bool_decide.
  - by case_bool_decide.
Qed.

Section Ready.
Context {W Client : Type}.
Context (ssa : option object -> object -> object) (hash : object -> string) (sha256 digest32 credHash : string -> string).
Context (encode : RuntimeConfig -> string) (decode : string -> result string RuntimeConfig).
Context (newClient : string -> result string Client) (deps : Gateway -> Deps W).
Context (SSC : list Condition -> Condition -> list Condition * bool) `{!SetsCondition SSC}.
Context (member_error_text : member_error -> string).
Context (cfg : OperatorConfig) (env : pass_env W Client).

(** What a Ready Gateway has: no invalid forward, the composite's address, a serving
    link without a fault, and for a fleet addresses for all its replicas. *)
Definition earned (gw : Gateway) (invalid : list invalid_reason) (c : gw_status) : Prop :=
  invalid = [] /\ gs_Address c <> "" /\
  (exists a a' observed, readXGatewayGCPStatus (pe_fault env) (pe_seen env 1) gw a = (a', Ok observed) /\
     gs_Address c = cs_Address observed) /\
  (exists ls, linkStatusOf (pe_lease env) (pe_getPod env) = Ok ls /\ ls_Active ls = true /\ ls_FaultReason ls = "" /\
     gs_ActiveNode c = ls_Node ls) /\
  (gw_LoadBalancer gw = true -> gw_Replicas gw <= capacity (effectiveWGSubnet gw)).

Lemma try_ok {A} op (m : st (rstate W Client) A) k s s' z :
  try_ SSC env op m k s = (s', Ok z) -> exists s1 a, m s = (s1, Ok a) /\ k a s1 = (s', Ok z).
Proof.
  unfold try_. destruct (m s) as [s1 [a|e]]; [by exists s1, a|]. unfold fail.
  by destruct (recordFailure _ _ _ _ _) as [[? ?] [?|?]].
Qed.

Lemma mirror_shows gw m (s s' : rstate W Client) z :
  mirrorStatusWithForwards SSC env gw m s = (s', Ok z) ->
  shows_ready (rs_status s') (readyPrecedence (mi_signals m)).2 /\
  gs_Address (rs_status s') = mi_address m /\ gs_ActiveNode (rs_status s') = ls_Node (mi_ls m).
Proof.
  unfold mirrorStatusWithForwards, retryOnConflict. destruct (retry_update _ _ _ _) as [c [[]|e]] eqn:E; [|done].
  intros [= <- _]. apply retry_update_ok in E as [cur0 Hc]. exact (mirror_update_shows SSC gw m cur0 c Hc).
Qed.

(** The Ready condition such a pass leaves is the one its signals give. *)
Definition shows_signals (c : gw_status) (sg : readySignals) : Prop :=
  exists generation, condition_of conditionReady (gs_Conditions c) = Some (ready_condition sg generation).

Lemma mirror_ret_signals gw m (d : Z) (s s' : rstate W Client) z :
  (mirrorStatusWithForwards SSC env gw m ;! st_ret d) s = (s', Ok z) -> shows_signals (rs_status s') (mi_signals m).
Proof.
  intros (s1 & [] & Hm & [= <- _])%st_bind_ok. revert Hm. unfold mirrorStatusWithForwards, retryOnConflict.
  destruct (retry_update _ _ _ _) as [c [[]|e]] eqn:E; [|done]. intros [= <-].
  apply retry_update_ok in E as [cur0 Hc]. apply mirror_update_condition in Hc as (Hc & _); [|done].
  by exists (gs_Generation cur0).
Qed.

(** What follows from the last step of a pass that mirrors and returns. *)
Lemma mirror_ret_shows gw m (d : Z) (s s' : rstate W Client) z :
  (mirrorStatusWithForwards SSC env gw m ;! st_ret d) s = (s', Ok z) -> shows_ready (rs_status s') true ->
  (readyPrecedence (mi_signals m)).2 = true /\ gs_Address (rs_status s') = mi_address m /\
  gs_ActiveNode (rs_status s') = ls_Node (mi_ls m).
Proof.
  intros (s1 & a & Hm & [= <- _])%st_bind_ok Hr. apply mirror_shows in Hm as (Hm & Ha & Hn).
  split; [exact (shows_ready_fun _ _ _ Hm Hr)|done].
Qed.

Lemma failReported_not_ready op e (s s' : rstate W Client) z :
  failReported SSC cfg env op e s = (s', Ok z) -> shows_ready (rs_status s') false.
Proof.
  unfold failReported, recordFailure, retryOnConflict.
  destruct (retry_update _ _ _ _) as [c [[]|e']] eqn:E; [|done].
  intros [= <- _]. apply retry_update_ok in E as [cur0 [Hc|[Hc _]]]; [|done]. injection Hc as <-.
  cbn [rs_status set_status]. set (cond := mkCondition conditionReady false _ _ _). exists cond.
  split; [exact (ssc_set (gs_Conditions cur0) cond)|done].
Qed.

Lemma serve_earned gw valid invalid observed membership peers key a a' (s s' : rstate W Client) z :
  readXGatewayGCPStatus (pe_fault env) (pe_seen env 1) gw a = (a', Ok observed) ->
  (gw_LoadBalancer gw = true -> gw_Replicas gw <= capacity (effectiveWGSubnet gw)) ->
  serve ssa hash sha256 digest32 encode SSC cfg env gw valid invalid observed membership peers key s = (s', Ok z) ->
  shows_ready (rs_status s') true -> earned gw invalid (rs_status s').
Proof.
  intros Hobs Hcap. destruct membership as [[result df] dm]. unfold serve.
  intros (s1 & ip & _ & (s2 & pods & _ & (s3 & lp & _ & (s4 & [] & _ & H)%st_bind_ok)%try_ok)%try_ok)%try_ok.
  apply try_ok in H as (s5 & [] & _ & H). apply try_ok in H as (s6 & [] & _ & H).
  apply try_ok in H as (s7 & ls & [= _ Hls] & H). intros Hr.
  apply mirror_ret_shows in H as (Ht & Ha & Hn); [|done]. cbn [mi_signals mi_address mi_ls] in *.
  apply readyPrecedence_true in Ht. unfold final_signals in Ht. cbn in Ht.
  destruct Ht as (_ & Hinv & Hfault & _ & _ & _ & Hp).
  destruct (bool_decide_reflect (cs_Address observed = "")) as [|Hne]; [done|]. cbn [negb andb] in Hp.
  destruct (ls_Active ls) eqn:Hact; [|done]. unfold earned. rewrite Ha.
  split; [by destruct invalid|]. split; [done|]. split; [by exists a, a', observed|]. split; [|done].
  by exists ls.
Qed.

Lemma provision_earned gw eligible valid invalid observed a a' (s s' : rstate W Client) z :
  readXGatewayGCPStatus (pe_fault env) (pe_seen env 1) gw a = (a', Ok observed) ->
  (gw_LoadBalancer gw = true -> gw_Replicas gw <= capacity (effectiveWGSubnet gw)) ->
  provision ssa hash sha256 digest32 credHash encode decode newClient deps SSC member_error_text cfg env
    gw eligible valid invalid observed s = (s', Ok z) ->
  shows_ready (rs_status s') true -> earned gw invalid (rs_status s').
Proof.
  intros Hobs Hcap. unfold provision.
  intros (s1 & ? & _ & (s2 & ? & _ & (s3 & ms & _ & (s4 & ? & _ & H)%try_ok)%try_ok)%try_ok)%try_ok.
  apply try_ok in H as (s5 & peers & _ & H). apply try_ok in H as (s6 & key & _ & H).
  exact (serve_earned _ _ _ _ _ _ _ _ _ _ _ _ Hobs Hcap H).
Qed.

Lemma over_capacity_not_ready gw limit valid invalid observed (s s' : rstate W Client) z :
  over_capacity ssa sha256 digest32 SSC cfg env gw limit valid invalid observed s = (s', Ok z) ->
  ~ shows_ready (rs_status s') true.
Proof.
  unfold over_capacity. intros (s1 & [] & _ & H)%st_bind_ok Hr. apply try_ok in H as (s2 & [] & _ & H).
  apply try_ok in H as (s3 & ls & _ & H). apply mirror_ret_shows in H as [Ht _]; [|done].
  by apply readyPrecedence_true in Ht as (_ & _ & _ & ? & _).
Qed.

Lemma unprovisioned_not_ready gw invalid (s s' : rstate W Client) z :
  unprovisioned SSC env gw invalid s = (s', Ok z) -> ~ shows_ready (rs_status s') true.
Proof.
  unfold unprovisioned. intros (s1 & ls & _ & H)%try_ok Hr. apply mirror_ret_shows in H as [Ht _]; [|done].
  by apply readyPrecedence_true in Ht as (_ & _ & _ & _ & _ & _ & ?).
Qed.

Lemma id_step_ok gw k (s s' : rstate W Client) z :
  id_step SSC cfg env gw k s = (s', Ok z) -> shows_ready (rs_status s') true -> k (allocated env gw) s = (s', Ok z).
Proof.
  unfold id_step, allocated. destruct (negb _); [done|]. destruct (pe_linkID env) as [id|[|e]]; [done| |].
  - intros H Hr. apply failReported_not_ready in H. by pose proof (shows_ready_fun _ _ _ H Hr).
  - unfold fail. by destruct (recordFailure _ _ _ _ _) as [[? ?] [?|?]].
Qed.

Lemma valid_earned gw eligible (s s' : rstate W Client) z :
  reconcile_valid ssa hash sha256 digest32 credHash encode decode newClient deps SSC member_error_text cfg env
    gw eligible s = (s', Ok z) ->
  shows_ready (rs_status s') true -> earned (allocated env gw) (classified env gw).2 (rs_status s').
Proof.
  unfold reconcile_valid. intros (s1 & cl & [= _ Hcl] & H)%try_ok Hr. apply st_bind_ok in H as (s2 & [] & _ & H).
  apply try_ok in H as (s3 & provisioned & _ & H). apply id_step_ok in H; [|done].
  unfold classified. rewrite Hcl. set (gw' := allocated env gw) in *.
  destruct (rejectReservedHealthPort gw' cl.1 cl.2) as [[valid invalid] rejected]. cbn [fst snd].
  apply st_bind_ok in H as (s4 & [] & _ & H).
  assert (Hrest : unprovisioned SSC env gw' invalid s4 = (s', Ok z) \/ try_ SSC env "read xgatewaygcp status"
    (on_api (readXGatewayGCPStatus (pe_fault env) (pe_seen env 1) gw')) (fun observed =>
      let limit := capacity (effectiveWGSubnet gw') in
      if gw_LoadBalancer gw' && (limit <? gw_Replicas gw')
      then over_capacity ssa sha256 digest32 SSC cfg env gw' limit valid invalid observed
      else warn (fun w => (clear_capacity_warning (gid_of gw') w, [])) ;!
           provision ssa hash sha256 digest32 credHash encode decode newClient deps SSC member_error_text cfg env
             gw' eligible valid invalid observed) s4 = (s', Ok z)) by (destruct valid, provisioned; by [right|left]).
  clear H. destruct Hrest as [H|(s5 & observed & Ho & H)%try_ok].
  { by apply unprovisioned_not_ready in H. }
  unfold on_api in Ho. destruct (readXGatewayGCPStatus _ _ _ _) as [a x] eqn:Ea. injection Ho as _ ->. cbv zeta in H.
  destruct (_ && _) eqn:Hcap; [by apply over_capacity_not_ready in H|].
  apply st_bind_ok in H as (s6 & [] & _ & H).
  refine (provision_earned _ _ _ _ _ _ _ _ _ _ Ea _ H Hr). intros Hlb. rewrite Hlb in Hcap. by apply Z.ltb_ge in Hcap.
Qed.

Lemma pass_earned key gw (s s' : rstate W Client) z :
  gateway_Reconcile ssa hash sha256 digest32 credHash encode decode newClient deps SSC member_error_text cfg env
    key (Found (gw, false)) s = (s', Ok z) ->
  gatewayFinalizer ∈ rs_finalizers s -> shows_ready (rs_status s') true ->
  earned (allocated env gw) (classified env gw).2 (rs_status s').
Proof.
  unfold gateway_Reconcile. intros H Hfin Hr. rewrite bool_decide_true in H by done. cbn [negb] in H.
  destruct (tunnelAddresses _ _ _) as [eligible|reason]; apply st_bind_ok in H as (s1 & [] & _ & H).
  - exact (valid_earned _ _ _ _ _ H Hr).
  - apply mirror_ret_shows in H as [Ht _]; [|done]. by apply readyPrecedence_true in Ht as (? & _).
Qed.
(** The signals of a pass: the tunnel addresses of the spec, or the forwards the pass
    rejected and the fault its reading of the Lease shows. *)
Definition pass_signals (gw : Gateway) (sg : readySignals) : Prop :=
  match tunnelAddresses (effectiveWGSubnet gw) (effectiveWGGatewayAddress gw) (effectiveWGLinkAddress gw) with
  | Err reason => InvalidTunnelAddresses sg = true /\ InvalidTunnelMessage sg = tunnel_reason reason
  | Ok _ =>
      InvalidTunnelAddresses sg = false /\ InvalidForward sg = firstInvalidForward (classified env gw).2 /\
      exists ls, linkStatusOf (pe_lease env) (pe_getPod env) = Ok ls /\
        LinkFaultReason sg = ls_FaultReason ls /\ LinkFaultMessage sg = ls_FaultMessage ls
  end.

Definition link_signals (invalid : list invalid_reason) (sg : readySignals) : Prop :=
  InvalidTunnelAddresses sg = false /\ InvalidForward sg = firstInvalidForward invalid /\
  exists ls, linkStatusOf (pe_lease env) (pe_getPod env) = Ok ls /\
    LinkFaultReason sg = ls_FaultReason ls /\ LinkFaultMessage sg = ls_FaultMessage ls.

Lemma serve_signals gw valid invalid observed membership peers key (s s' : rstate W Client) z :
  serve ssa hash sha256 digest32 encode SSC cfg env gw valid invalid observed membership peers key s = (s', Ok z) ->
  exists sg, link_signals invalid sg /\ shows_signals (rs_status s') sg.
Proof.
  destruct membership as [[result df] dm]. unfold serve.
  intros (s1 & ip & _ & (s2 & pods & _ & (s3 & lp & _ & (s4 & [] & _ & H)%st_bind_ok)%try_ok)%try_ok)%try_ok.
  apply try_ok in H as (s5 & [] & _ & H). apply try_ok in H as (s6 & [] & _ & H).
  apply try_ok in H as (s7 & ls & [= _ Hls] & H). apply mirror_ret_signals in H. cbn [mi_signals] in H.
  eexists. split; [|exact H]. split; [done|]. split; [done|]. by exists ls.
Qed.

Lemma provision_signals gw eligible valid invalid observed (s s' : rstate W Client) z :
  provision ssa hash sha256 digest32 credHash encode decode newClient deps SSC member_error_text cfg env
    gw eligible valid invalid observed s = (s', Ok z) ->
  exists sg, link_signals invalid sg /\ shows_signals (rs_status s') sg.
Proof.
  unfold provision.
  intros (s1 & ? & _ & (s2 & ? & _ & (s3 & ms & _ & (s4 & ? & _ & H)%try_ok)%try_ok)%try_ok)%try_ok.
  apply try_ok in H as (s5 & peers & _ & H). apply try_ok in H as (s6 & key & _ & H).
  exact (serve_signals _ _ _ _ _ _ _ _ _ _ H).
Qed.

Lemma over_capacity_signals gw limit valid invalid observed (s s' : rstate W Client) z :
  over_capacity ssa sha256 digest32 SSC cfg env gw limit valid invalid observed s = (s', Ok z) ->
  exists sg, link_signals invalid sg /\ shows_signals (rs_status s') sg.
Proof.
  unfold over_capacity. intros (s1 & [] & _ & H)%st_bind_ok. apply try_ok in H as (s2 & [] & _ & H).
  apply try_ok in H as (s3 & ls & [= _ Hls] & H). apply mirror_ret_signals in H. cbn [mi_signals] in H.
  eexists. split; [|exact H]. split; [done|]. split; [done|]. by exists ls.
Qed.

Lemma id_step_allocated gw k (s s' : rstate W Client) z :
  (gw_isLocal gw = true -> is_ok (pe_linkID env) = true) ->
  id_step SSC cfg env gw k s = (s', Ok z) -> k (allocated env gw) s = (s', Ok z).
Proof.
  unfold id_step, allocated. intros Hid. destruct (gw_isLocal gw); [|done]. specialize (Hid eq_refl).
  by destruct (pe_linkID env).
Qed.

Lemma valid_signals gw eligible (s s' : rstate W Client) z :
  (gw_isLocal gw = true -> is_ok (pe_linkID env) = true) -> valid_forwards env gw <> [] ->
  reconcile_valid ssa hash sha256 digest32 credHash encode decode newClient deps SSC member_error_text cfg env
    gw eligible s = (s', Ok z) ->
  exists sg, link_signals (classified env gw).2 sg /\ shows_signals (rs_status s') sg.
Proof.
  intros Hid Hne. unfold reconcile_valid. intros (s1 & cl & [= _ Hcl] & H)%try_ok.
  apply st_bind_ok in H as (s2 & [] & _ & H).
  apply try_ok in H as (s3 & provisioned & _ & H). apply id_step_allocated in H; [|done].
  revert Hne H. unfold valid_forwards, classified. rewrite Hcl. set (gw' := allocated env gw).
  destruct (rejectReservedHealthPort gw' cl.1 cl.2) as [[valid invalid] rejected]. cbn [fst snd].
  intros Hne (s4 & [] & _ & H)%st_bind_ok. destruct valid as [|b valid]; [done|].
  apply try_ok in H as (s5 & observed & _ & H). cbv zeta in H.
  destruct (_ && _); [exact (over_capacity_signals _ _ _ _ _ _ _ _ H)|].
  apply st_bind_ok in H as (s6 & [] & _ & H). exact (provision_signals _ _ _ _ _ _ _ _ H).
Qed.

Lemma pass_shows_signals key gw (s s' : rstate W Client) z :
  gateway_Reconcile ssa hash sha256 digest32 credHash encode decode newClient deps SSC member_error_text cfg env
    key (Found (gw, false)) s = (s', Ok z) ->
  gatewayFinalizer ∈ rs_finalizers s ->
  (gw_isLocal gw = true -> is_ok (pe_linkID env) = true) -> valid_forwards env gw <> [] ->
  exists sg, pass_signals gw sg /\ shows_signals (rs_status s') sg.
Proof.
  unfold gateway_Reconcile, pass_signals. intros H Hfin Hid Hne. rewrite bool_decide_true in H by done. cbn [negb] in H.
  destruct (tunnelAddresses _ _ _) as [eligible|reason]; apply st_bind_ok in H as (s1 & [] & _ & H).
  - exact (valid_signals _ _ _ _ _ Hid Hne H).
  - apply mirror_ret_signals in H. eexists. split; [|exact H]. done.
Qed.
End Ready.

(** Valid spec, no fault: the Ready reason is none of the link's faults. *)
Lemma no_fault_reason s :
  InvalidTunnelAddresses s = false -> InvalidForward s = None -> LinkFaultReason s = "" ->
  (readyPrecedence s).1.1 ∉ knownFaults.
Proof.
  intros Ht Hf Hl. unfold readyPrecedence. rewrite Ht, Hf, Hl. cbn [bool_decide negb].
  repeat (match goal with |- context [if ?b then _ else _] => destruct b end; cbn [fst]);
    apply (bool_decide_unpack _); vm_compute; exact I.
Qed.


(** C11: One pass over a live Gateway, whatever its calls answer, never provisions for a
    Gateway none of whose forwards is valid: when no composite is seen the pass
    creates, changes and removes none of the objects of a Gateway (composite, network,
    Secrets, workloads, DNS), writing at most the Gateway's own finalizer, link id and
    status; and once a composite exists no pass removes it, valid forwards or not. *)
Theorem never_provisions_invalid {W Client} ssa hash sha256 digest32 credHash encode decode newClient (deps : Gateway -> Deps W)
    SSC member_error_text cfg (env : pass_env W Client) key gw s s' r :
  gateway_Reconcile ssa hash sha256 digest32 credHash encode decode newClient deps SSC member_error_text cfg env
    key (Found (gw, false)) s = (s', r) ->
  (pe_seen env 0 (xg_key gw) = None -> valid_forwards env gw = [] -> as_objects (rs_api s') = as_objects (rs_api s)) /\
  (is_Some (as_objects (rs_api s) !! xg_key gw) -> is_Some (as_objects (rs_api s') !! xg_key gw)).
Proof.
  intros H. split.
  - intros Hseen Hval. exact (pass_unprovisioned _ _ _ _ _ _ _ _ _ _ _ _ _ _ _ Hseen Hval _ _ _ H).
  - exact (pass_stays _ _ _ _ _ _ _ _ _ _ _ _ _ (xg_key gw) _ _ eq_refl _ _ _ H).
Qed.

(** C12: A pass that ends normally shows the Gateway Ready only when none of its forwards
    is invalid, its status carries the non-empty address the composite was read with, the
    link named there holds the tunnel without a fault, and a fleet's replicas fit the
    tunnel subnet; whatever other writers did to the status between the attempts. *)
Theorem ready_is_earned {W Client} ssa hash sha256 digest32 credHash encode decode newClient (deps : Gateway -> Deps W)
    SSC `{!SetsCondition SSC} member_error_text cfg (env : pass_env W Client) key gw s s' z :
  gateway_Reconcile ssa hash sha256 digest32 credHash encode decode newClient deps SSC member_error_text cfg env
    key (Found (gw, false)) s = (s', Ok z) ->
  gatewayFinalizer ∈ rs_finalizers s -> shows_ready (rs_status s') true ->
  earned env (allocated env gw) (classified env gw).2 (rs_status s').
Proof. apply pass_earned, _. Qed.

(** ** Proofs: deletion *)

(** Marking what is marked already changes nothing. *)
Lemma put_mark_view m (k : object_key) : put_mark (ob_Deleting <$> m !! k) k m = m.
Proof.
  unfold put_mark. destruct (m !! k) as [o|] eqn:E; [|done]. cbn. destruct (ob_Deleting o) eqn:Ed; [|done].
  apply insert_id. rewrite E. f_equal. destruct o. cbn in *. by subst.
Qed.

Lemma put_drop_lookup b (k k' : object_key) m :
  put_drop b k m !! k' = if bool_decide (k = k') && negb b then None else m !! k'.
Proof.
  unfold put_drop. destruct b; cbn; [by rewrite andb_false_r|]. rewrite andb_true_r. case_bool_decide; subst.
  - by rewrite lookup_delete_eq.
  - by rewrite lookup_delete_ne.
Qed.

Section Teardown.
Context {W Client : Type} (digest32 : string -> string) (cfg : OperatorConfig) (env : pass_env W Client) (gw : Gateway).
Abbreviation view := (deletion_view (Client := Client) digest32 cfg env gw).
Abbreviation put_back := (deletion_put (W := W) (Client := Client) digest32 cfg gw).

(** The keys a release drops. *)
Definition teardown_keys : list object_key :=
  [child_key (if gw_isLocal gw then "DaemonSet" else "Deployment") gw; child_key "Lease" gw; crb_key digest32 gw].

(** A release, on the objects. *)
Lemma released_objects now s d :
  released now (gid_of gw) (gw_isLocal gw) (view s) d ->
  forall k, as_objects (rs_api (put_back d s)) !! k = if bool_decide (k ∈ teardown_keys) then None else as_objects (rs_api s) !! k.
Proof.
  intros [_ Hl Hc Hw _ [Hcm Hn] Ho] k. cbn [rs_api deletion_put as_objects set_objects].
  rewrite !put_drop_lookup. rewrite Hcm, Hn, Hl, Hc. cbn [ds_composite ds_network deletion_view]. rewrite !put_mark_view.
  assert (Hin : bool_decide (k ∈ teardown_keys) =
    bool_decide (child_key (if gw_isLocal gw then "DaemonSet" else "Deployment") gw = k) ||
    (bool_decide (child_key "Lease" gw = k) || bool_decide (crb_key digest32 gw = k))).
  { apply eq_bool_prop_intro. rewrite !Is_true_true, !orb_true_iff, !bool_decide_eq_true. unfold teardown_keys.
    rewrite !elem_of_cons, elem_of_nil. naive_solver. }
  rewrite Hin. unfold teardown_keys in *.
  destruct (gw_isLocal gw); cbn [ds_deployment ds_daemonset deletion_view] in Ho; rewrite Hw, Ho; cbn [negb]; rewrite !andb_true_r;
    repeat (case_bool_decide; cbn [andb orb]); try done;
    subst k; symmetry; by apply eq_None_not_Some.
Qed.

Lemma put_mark_present b m (k k' : object_key) : is_Some (m !! k') -> is_Some (put_mark b k m !! k').
Proof.
  intros H. unfold put_mark. destruct b as [[]|]; try done. destruct (m !! k); [|done].
  destruct (decide (k = k')) as [->|]; [rewrite lookup_insert_eq; eauto|by rewrite lookup_insert_ne].
Qed.

(** A pass that leaves the view's Lease leaves the object. *)
Lemma lease_present s d :
  ds_lease d = true -> is_Some (as_objects (rs_api s) !! child_key "Lease" gw) ->
  is_Some (as_objects (rs_api (put_back d s)) !! child_key "Lease" gw).
Proof.
  intros Hl Hs. cbn [rs_api deletion_put as_objects set_objects]. rewrite !put_drop_lookup, Hl, andb_false_r.
  rewrite !(bool_decide_false (_ = child_key "Lease" gw)) by (unfold child_key, crb_key; congruence). cbn [andb].
  by do 2 apply put_mark_present.
Qed.
End Teardown.

(** C10: A deleted Gateway's pass, on the cluster's objects. Whichever calls fail, the
    finalizer goes only when the composite is gone, another Gateway lives or the shared
    network is gone, and no link pod that could still write the Lease is left; the pass
    has then removed the link's workload, Lease and cluster role binding and no other
    object. No pass removes the Lease while a pod holds the teardown, failed calls or not.
    Every pass forgets the Gateway's dirty flags, and when all is drained and no call
    fails the pass releases the Gateway. *)
Theorem teardown_complete {W Client} ssa hash sha256 digest32 credHash encode decode newClient (deps : Gateway -> Deps W)
    SSC member_error_text cfg (env : pass_env W Client) key gw s s' r :
  gateway_Reconcile ssa hash sha256 digest32 credHash encode decode newClient deps SSC member_error_text cfg env
    key (Found (gw, true)) s = (s', r) ->
  gatewayFinalizer ∈ rs_finalizers s ->
  let objects (x : rstate W Client) := as_objects (rs_api x) in
  let lease := child_key "Lease" gw in
  let gone := Forall (fun p => pod_holding (pe_now env) p = false) (pe_teardownPods env) in
  let cloud := false ∈ pe_gateways env \/ objects s !! network_key cfg = None in
  (gatewayFinalizer ∉ rs_finalizers s' ->
     pe_seen env 0 (xg_key gw) = None /\ cloud /\ gone /\
     forall k, objects s' !! k = if bool_decide (k ∈ teardown_keys digest32 gw) then None else objects s !! k) /\
  (is_Some (objects s !! lease) -> objects s' !! lease = None -> gone) /\
  (as_linkDirty (rs_api s') !! key = None /\ as_responderDirty (rs_api s') !! key = None) /\
  ((forall c, pe_delete env c = None) -> pe_seen env 0 (xg_key gw) = None -> cloud -> gone ->
     r = Ok 0 /\ gatewayFinalizer ∉ rs_finalizers s').
Proof.
  intros H Hfin objects lease gone cloud. cbn [gateway_Reconcile] in H. unfold delete_step in H.
  set (s0 := forget_dirty key s) in H.
  destruct (reconcileDelete _ _ _ _ _ _ _ (deletion_view digest32 cfg env gw s0)) as [d r0] eqn:E. injection H as <- <-.
  assert (Hnet : ds_network (deletion_view digest32 cfg env gw s0) = None <-> objects s !! network_key cfg = None).
  { exact (fmap_None ob_Deleting (as_objects (rs_api s) !! network_key cfg)). }
  split_and!.
  - intros Hno. destruct (reconcileDelete_inv _ _ _ _ _ _ _ _ _ _ E) as [Hk|(Hseen & Hcloud & Hrel)].
    { unfold keeps_finalizers in Hk. cbn [rs_finalizers deletion_put] in Hno. by rewrite Hk in Hno. }
    split_and!; [by destruct (pe_seen env 0 (xg_key gw))|destruct Hcloud as [?|?%Hnet]; [by left|by right]|apply (rel_pods _ _ _ _ _ Hrel)|].
    exact (released_objects _ _ _ _ _ _ _ Hrel).
  - intros Hs Hgone. destruct (lease_after_pods _ _ _ _ _ _ _ _ _ _ E) as [Hl|Hp]; [|exact Hp]. exfalso.
    assert (Hd : ds_lease d = true) by (rewrite Hl; cbn; by apply bool_decide_eq_true).
    destruct (lease_present digest32 cfg gw s0 d Hd Hs) as [o Ho]. subst objects lease. cbn beta in Hgone. congruence.
  - cbn. unfold dirty_forget, dirtyTracker. apply lookup_delete_eq.
  - cbn. unfold dirty_forget, dirtyTracker. apply lookup_delete_eq.
  - intros Hf Hseen Hcloud Hpods. rewrite Hseen in E.
    pose proof (reconcileDelete_drained (pe_delete env) SSC (pe_now env) (gid_of gw) (gw_isLocal gw)
      (gs_Generation (rs_status s0)) (deletion_view digest32 cfg env gw s0) Hf Hfin) as Hd.
    cbn [fmap option_fmap option_map] in E. rewrite E in Hd. apply Hd; [|done]. destruct Hcloud as [?|?%Hnet]; [by left|by right].
Qed.

(** ** A sample pass *)
#[global] Instance sample_ssc_sets : SetsCondition sample_ssc.
Proof.
  split; unfold sample_ssc, condition_of; cbn.
  - intros cs c. by rewrite bool_decide_true by done.
  - intros cs c ty Hne. by rewrite bool_decide_false by congruence.
  - done.
Qed.

(** A Lease whose holder serves the tunnel. *)
Definition serving_lease : lease_obj := mkLeaseObj 7 (Some "p1") {[LeaseTunnelReadyAnnotation := "true"]}.

(** What the cached client shows: the key Secrets and a composite with an address. *)
Definition sample_seen (composite : bool) (n : nat) (k : object_key) : option object :=
  if bool_decide (k = xg_key (sample_gw "" 0 []))
  then if composite
       then Some (mkObject k.1.1 k.1.2 k.2 ∅ ∅ None false [("status", YMap [("address", YString "203.0.113.7")])]) else None
  else as_objects sample_api !! k.

Definition sample_pass_env (composite : bool) : pass_env mem unit :=
  mkPassEnv _ _ true 100 no_fault (sample_seen composite) [Conflicts id; Succeeds] [] None sample_getNS sample_getSvc
    (Ok 5) (Found serving_lease) (fun _ => Found sample_pod) (Ok []) (Ok []) (toy_gen 1) (toy_gen 2)
    (fun _ _ => Err "none") (fun _ _ _ _ => Err "none") (fun _ => None) [true] [].
Definition sample_forwards (service : string) : Gateway := sample_gw "" 0 [mkForwardSpec 80 "TCP" service "data" 0].
Definition sample_rstate : rstate mem unit :=
  mkRState sample_api sample_fleet_state (mkGwStatus 3 "" "" "" [] []) [gatewayFinalizer] [].
Definition sample_pass (composite : bool) (service : string) : rstate mem unit * result string Z :=
  gateway_Reconcile assigning_ssa toy_hash id id id (fun _ => "{}") (fun _ => Err "none") (fun _ => Ok tt)
    (fun _ => mem_deps "u1") sample_ssc (fun _ => "error") sample_oc (sample_pass_env composite)
    ("apps", "edge") (Found (sample_forwards service, false)) sample_rstate.

Lemma never_provisions_invalid_witness :
  valid_forwards (sample_pass_env false) (sample_forwards "gone") = [] /\
  as_objects (rs_api (sample_pass false "gone").1) = as_objects (rs_api sample_rstate).
Proof.
  assert (Hval : valid_forwards (sample_pass_env false) (sample_forwards "gone") = []) by (vm_compute; reflexivity).
  split; [exact Hval|].
  assert (H := outcome_eq (sample_pass false "gone") _ eq_refl).
  exact (proj1 (never_provisions_invalid _ _ _ _ _ _ _ _ _ _ _ _ _ _ _ _ _ _ H) eq_refl Hval).
Defined.

(** A pass that finds the link's fault on the Lease. *)
Definition faulty_env : pass_env mem unit :=
  mkPassEnv _ _ true 100 no_fault (sample_seen true) [Conflicts id; Succeeds] [] None sample_getNS sample_getSvc
    (Ok 5) (Found sample_fault_lease) (fun _ => Found sample_pod) (Ok []) (Ok []) (toy_gen 1) (toy_gen 2)
    (fun _ _ => Err "none") (fun _ _ _ _ => Err "none") (fun _ => None) [true] [].
Definition faulty_pass : rstate mem unit * result string Z :=
  gateway_Reconcile assigning_ssa toy_hash id id id (fun _ => "{}") (fun _ => Err "none") (fun _ => Ok tt)
    (fun _ => mem_deps "u1") sample_ssc (fun _ => "error") sample_oc faulty_env
    ("apps", "edge") (Found (sample_forwards "web", false)) sample_rstate.


Lemma ready_is_earned_witness :
  shows_ready (rs_status (sample_pass true "web").1) true /\
  earned (sample_pass_env true) (allocated (sample_pass_env true) (sample_forwards "web"))
    (classified (sample_pass_env true) (sample_forwards "web")).2 (rs_status (sample_pass true "web").1).
Proof.
  assert (Hr : shows_ready (rs_status (sample_pass true "web").1) true).
  { eexists. split; [vm_compute; reflexivity|reflexivity]. }
  split; [exact Hr|].
  assert (H : sample_pass true "web" = ((sample_pass true "web").1, Ok 30)) by (apply outcome_eq; vm_compute; reflexivity).
  exact (ready_is_earned _ _ _ _ _ _ _ _ _ _ _ _ _ _ _ _ _ _ H (list_elem_of_here _ _) Hr).
Defined.

(** Over capacity the pass still writes the composite it sees: the comment at the check
    says no composite is touched. *)
Definition sample_fleet_over : Gateway :=
  mkGateway "edge" "apps" ∅ 0 "" "" "" 0 0 "" 0 0 true [mkForwardSpec 80 "TCP" "web" "data" 0] 0 "u1" 3 "p1" "us-central1" 300 0 ∅
    "" "" 0 (YMap []) sample_cloud [].

Lemma over_capacity_touches_composite :
  let out := gateway_Reconcile assigning_ssa toy_hash id id id (fun _ => "{}") (fun _ => Err "none") (fun _ => Ok tt)
    (fun _ => mem_deps "u1") sample_ssc (fun _ => "error") sample_oc (sample_pass_env true)
    ("apps", "edge") (Found (sample_fleet_over, false)) sample_rstate in
  capacity (effectiveWGSubnet sample_fleet_over) < gw_Replicas sample_fleet_over /\ is_err out.2 = false /\
  as_objects (rs_api out.1) !! xg_key sample_fleet_over <> as_objects (rs_api sample_rstate) !! xg_key sample_fleet_over.
Proof. intros out. split; [by vm_compute|]. split; [by vm_compute|]. by vm_compute. Qed.

(** A fleet through two outages: the instance group is not named yet and the patch times
    out after taking effect; then it is named and the listing fails. *)
Definition sample_lb : Gateway :=
  mkGateway "edge" "apps" ∅ 0 "" "" "" 0 0 "" 0 0 true [mkForwardSpec 80 "TCP" "web" "data" 0] 0 "u1" 2 "p1" "us-central1" 1 0 ∅
    "" "" 0 (YMap []) sample_cloud [].
Definition patch_times_out (c : acall) : call_fault :=
  match c with CPatch k => if bool_decide (k = xg_key sample_lb) then Some ("timeout", true) else None | _ => None end.
Definition status_shown (status : list (string * yaml)) (a : astate) (k : object_key) : option object :=
  (fun o => mkObject (ob_Kind o) (ob_Namespace o) (ob_Name o) (ob_Labels o) (ob_Annotations o) (ob_Controller o)
              (ob_Deleting o) (ob_Body o ++ [("status", YMap status)])) <$> as_objects a !! k.
Definition outage_env (fault : acall -> call_fault) (status : list (string * yaml)) (a : astate) : pass_env mem unit :=
  mkPassEnv _ _ true 100 fault (fun _ => status_shown status a) [Succeeds] [Succeeds] None sample_getNS sample_getSvc
    (Ok 5) (Found serving_lease) (fun _ => Found sample_pod) (Ok []) (Ok []) (toy_gen 1) (toy_gen 2)
    (fun _ _ => Err "none") (fun _ _ _ _ => Err "503") (fun _ => None) [true] [].
Definition outage_run (fault : acall -> call_fault) (status : list (string * yaml)) (s : rstate mem unit)
  : rstate mem unit * result string Z :=
  gateway_Reconcile toy_ssa toy_hash id id id (fun _ => "{}") (fun _ => Err "none") (fun _ => Ok tt)
    (fun _ => mem_deps "u1") sample_ssc (fun _ => "error") sample_oc (outage_env fault status (rs_api s))
    ("apps", "edge") (Found (sample_lb, false)) s.
Definition fleet_applied : rstate mem unit :=
  mkRState (ensureXGatewayGCP toy_ssa id id sample_oc no_fault (fun k => as_objects sample_api !! k) sample_lb [] true
      (Some sample_fleet) 27000 sample_api).1
    sample_fleet_state (mkGwStatus 3 "" "" "" [] []) [gatewayFinalizer] [].

Lemma outage_env_reads fault status s : fleet_read (outage_env fault status (rs_api s)) sample_lb s.
Proof.
  intros n o _ Ho. cbn [outage_env pe_seen]. unfold status_shown. rewrite Ho. eexists. split; [reflexivity|].
  unfold ob_path. cbn [ob_Body ypath]. by rewrite !yfield_app; destruct (yfield "spec" (ob_Body o)).
Qed.

Lemma sample_api_keyed : keyed sample_api.
Proof.
  assert (H : map_Forall (fun k o => ob_key o = k) (as_objects sample_api)) by (apply (bool_decide_unpack _); vm_compute; exact I).
  exact H.
Qed.

Lemma outage_keeps_fleet_witness :
  let waiting := outage_run patch_times_out [] fleet_applied in
  let failing := outage_run no_fault [("migName", YString "mig")] waiting.1 in
  waiting.2 = Err "ensure xgatewaygcp: timeout" /\
  exists o, as_objects (rs_api failing.1) !! xg_key sample_lb = Some o /\
    ob_path ["spec"; "members"] o = Some (rosterMembers [sample_entry]) /\
    ob_path ["spec"; "targetSize"] o = Some (YInt 2).
Proof.
  intros waiting failing. split; [vm_compute; reflexivity|].
  apply (outage_keeps_fleet eq toy_ssa toy_hash id id id (fun _ => "{}") (fun _ => Err "none") (fun _ => Ok tt)
    (fun _ => mem_deps "u1") sample_ssc (fun _ => "error") sample_oc no_fault (fun k => as_objects sample_api !! k)
    sample_lb [] 27000 sample_fleet sample_api fleet_applied failing.1 sample_api_keyed eq_refl).
  - by cbn.
  - apply outcome_eq. vm_compute. reflexivity.
  - eapply rtc_l; [|apply rtc_once].
    + apply (os_pass _ _ _ _ _ _ _ _ _ _ _ _ _
        (outage_env patch_times_out [] (rs_api fleet_applied)) ("apps", "edge") sample_lb _ _ waiting.2 eq_refl eq_refl);
        [|apply outage_env_reads|apply surjective_pairing].
      apply nv_waiting. intros a a' observed. vm_compute. by intros [= _ <-].
    + apply (os_pass _ _ _ _ _ _ _ _ _ _ _ _ _
        (outage_env no_fault [("migName", YString "mig")] (rs_api waiting.1)) ("apps", "edge") sample_lb _ _ failing.2 eq_refl eq_refl);
        [|apply outage_env_reads|apply surjective_pairing].
      apply nv_discovery. intros mig names records ns name p. unfold discover. by destruct (clientFor _ _ _ _ _ _ _) as [c [x|e]].
Defined.

(** The reads matter: while the cache still shows the composite of an earlier usable pass,
    with no member and one VM, a pass whose listing fails writes that roster and size back
    over the two-member fleet. *)
Definition earlier_fleet : astate :=
  (ensureXGatewayGCP toy_ssa id id sample_oc no_fault (fun k => as_objects sample_api !! k) sample_lb [] true
    (Some (mkResult [] 1 [] [] false)) 27000 sample_api).1.

Lemma stale_read_shrinks_fleet :
  let out := gateway_Reconcile toy_ssa toy_hash id id id (fun _ => "{}") (fun _ => Err "none") (fun _ => Ok tt)
    (fun _ => mem_deps "u1") sample_ssc (fun _ => "error") sample_oc
    (outage_env no_fault [("migName", YString "mig")] earlier_fleet) ("apps", "edge") (Found (sample_lb, false)) fleet_applied in
  fleet_at sample_lb [sample_entry] 2 (rs_api fleet_applied) /\ fleet_at sample_lb [] 1 (rs_api out.1).
Proof. intros out. split; eexists; (split; [vm_compute; reflexivity|done]). Qed.

(** The last Gateway goes, its Lease still there. *)
Definition sample_lease_state : rstate mem unit :=
  mkRState (set_objects (<[child_key "Lease" (sample_forwards "web") := mkObject "Lease" "apps" "edge-link" ∅ ∅ None false []]>
    (as_objects sample_api)) sample_api) sample_fleet_state (mkGwStatus 3 "" "" "" [] []) [gatewayFinalizer] [].
Definition sample_delete : rstate mem unit * result string Z :=
  gateway_Reconcile assigning_ssa toy_hash id id id (fun _ => "{}") (fun _ => Err "none") (fun _ => Ok tt)
    (fun _ => mem_deps "u1") sample_ssc (fun _ => "error") sample_oc (sample_pass_env false)
    ("apps", "edge") (Found (sample_forwards "web", true)) sample_lease_state.

Lemma teardown_complete_witness :
  is_Some (as_objects (rs_api sample_lease_state) !! child_key "Lease" (sample_forwards "web")) /\
  sample_delete.2 = Ok 0 /\ gatewayFinalizer ∉ rs_finalizers sample_delete.1 /\
  as_objects (rs_api sample_delete.1) !! child_key "Lease" (sample_forwards "web") = None.
Proof.
  assert (H : sample_delete = (sample_delete.1, sample_delete.2)) by (by destruct sample_delete).
  pose proof (teardown_complete assigning_ssa toy_hash id id id (fun _ => "{}") (fun _ => Err "none") (fun _ => Ok tt)
    (fun _ => mem_deps "u1") sample_ssc (fun _ => "error") sample_oc (sample_pass_env false) ("apps", "edge")
    (sample_forwards "web") sample_lease_state sample_delete.1 sample_delete.2 H (list_elem_of_here _ _)) as (Hrel & _ & _ & Hok).
  destruct (Hok ltac:(done) eq_refl ltac:(right; vm_compute; reflexivity) ltac:(constructor)) as [Hr Hfin].
  split; [eexists; vm_compute; reflexivity|]. split; [exact Hr|]. split; [exact Hfin|].
  destruct (Hrel Hfin) as (_ & _ & _ & Hk). rewrite Hk. rewrite bool_decide_true; [reflexivity|].
  right. left.
Defined.
