(* ===== verification/Processes.v ===== *)
(** * The two programs: cmd/gateway-operator and cmd/gateway-link, with the configuration,
      logger and key helpers they start from (internal/config, internal/logger,
      internal/wg) and the discovery client's construction (gcpdiscovery/client.go)

    Start-up is a chain of calls that stops at the first error; the libraries' parts of it
    are parameters. [operator_starts] shows that the manager only ever runs with its
    watches registered, the cache scoped and the configured Lease namespace, and when the
    program exits with success. *)

From S2P Require Import Prelude GoStrings Effects LinkConfig LinkObjects Status Watches Setup.

(** ** Helpers *)

(** [processed]: what envconfig makes of the environment. *)
Definition Load {T} (processed : result string T) : result string T :=
  match processed with Ok c => Ok c | Err e => Err ("process config: " +:+ e) end.

Record LoggerConfig := mkLoggerConfig { lc_LogLevel : string; lc_ProdLogFormat : bool }.
(** A zap configuration: the preset, the time format and the level. *)
Record zap_config := mkZapConfig { zc_production : bool; zc_iso8601 : bool; zc_level : string }.

Definition debugLevel : string := "debug".

(** [parse]: the level a text names, if any; [build]: the encoder. *)
Definition New (parse : string -> option string) (build : zap_config -> result string unit) (c : LoggerConfig)
  : result string zap_config :=
  let level := default debugLevel (parse (ToLower (lc_LogLevel c))) in
  let cfg := mkZapConfig (lc_ProdLogFormat c) true level in
  match build cfg with Ok _ => Ok cfg | Err e => Err e end.

(** [generated]: a fresh private key; [public]: the key derived from one. *)
Definition GenerateKeypair (generated : result string string) (public : string -> string) : result string (string * string) :=
  match generated with
  | Err e => Err ("generate wireguard private key: " +:+ e)
  | Ok priv => Ok (priv, public priv)
  end.

(** The discovery client: its two API clients, both under the options given. *)
Section DiscoveryClient.
Context {Cred Igm Inst : Type}.
Variable NewCredentialsFromJSON : string -> result string Cred.
Variable NewRegionInstanceGroupManagersRESTClient : list Cred -> result string Igm.
Variable NewInstancesRESTClient : list Cred -> result string Inst.

Definition newClient (opts : list Cred) : result string (Igm * Inst) :=
  match NewRegionInstanceGroupManagersRESTClient opts with
  | Err e => Err ("building region instance group managers client: " +:+ e)
  | Ok igm => match NewInstancesRESTClient opts with
              | Err e => Err ("building instances client: " +:+ e)
              | Ok inst => Ok (igm, inst)
              end
  end.

Definition NewClient (credentialJSON : string) : result string (Igm * Inst) :=
  if negb (bool_decide (credentialJSON = "")) then
    match NewCredentialsFromJSON credentialJSON with
    | Err e => Err ("gcp credentials: " +:+ e)
    | Ok creds => newClient [creds]
    end
  else newClient [].

(** A given credential is used by both clients or refused; it is never dropped in favour
    of the ambient one. *)
Lemma NewClient_keeps_credential json igm inst :
  json <> "" -> NewClient json = Ok (igm, inst) ->
  exists c, NewCredentialsFromJSON json = Ok c /\ NewRegionInstanceGroupManagersRESTClient [c] = Ok igm /\
    NewInstancesRESTClient [c] = Ok inst.
Proof.
  intros Hj. unfold NewClient, newClient. rewrite bool_decide_false by done. cbn [negb].
  destruct (NewCredentialsFromJSON json) as [c|e]; [|done].
  destruct (NewRegionInstanceGroupManagersRESTClient [c]) as [g|e] eqn:Eg; [|done].
  destruct (NewInstancesRESTClient [c]) as [n|e] eqn:En; [|done]. intros [= <- <-]. by exists c.
Qed.
End DiscoveryClient.

(** ** The operator *)
Definition leaderElectionID : string := "gateway-operator-leader".

Record managerConfig := mkManagerConfig {
  LeaderElection : bool;
  MetricsBindAddress : string;
  HealthProbeBindAddress : string
}.

(** The manager's options; [mo_Cache] are the kinds cached by the link's label. *)
Record manager_options := mkManagerOptions {
  mo_MetricsBindAddress : string;
  mo_HealthProbeBindAddress : string;
  mo_LeaderElection : bool;
  mo_LeaderElectionID : string;
  mo_LeaderElectionNamespace : string;
  mo_Cache : list string
}.

(** The calls of start-up, in the order they are made. *)
Inductive start_call :=
| CallNewManager (o : manager_options)
| CallAddHealthzCheck
| CallAddReadyzCheck
| CallSetupWithManager (c : OperatorConfig)
| CallStart.

(** A call, recorded; its outcome is the environment's. *)
Definition start_st (A : Type) : Type := st (list start_call) A.

Section Operator.
Variable outcome : start_call -> option string.
Definition call (c : start_call) : start_st unit :=
  fun log => (log ++ [c], match outcome c with None => Ok tt | Some e => Err e end).

Definition operator_run (logCfg : result string LoggerConfig) (newLogger : LoggerConfig -> result string zap_config)
    (mgrCfg : result string managerConfig) (reconcilerCfg : result string OperatorConfig) : start_st unit :=
  let! lc := st_lift (Load logCfg) in
  let! log := st_lift (newLogger lc) in
  let! mgr := st_lift (Load mgrCfg) in
  let! cfg := st_lift (Load reconcilerCfg) in
  call (CallNewManager (mkManagerOptions (MetricsBindAddress mgr) (HealthProbeBindAddress mgr) (LeaderElection mgr)
          leaderElectionID (oc_PodNamespace cfg) cacheOptions)) ;!
  call CallAddHealthzCheck ;!
  call CallAddReadyzCheck ;!
  call (CallSetupWithManager cfg) ;!
  call CallStart.

(** The exit status. *)
Definition operator_main (r : result string unit) : Z := match r with Ok _ => 0 | Err _ => 1 end.

Lemma call_ok c l l' a : call c l = (l', Ok a) <-> outcome c = None /\ l' = l ++ [c].
Proof. unfold call. destruct (outcome c), a; naive_solver. Qed.

(** The manager runs only with its watches registered, its Lease in the configured
    namespace and the link kinds cached by label; the program succeeds exactly when every
    configuration loads and every call does. *)
Lemma operator_starts logCfg newLogger mgrCfg reconcilerCfg log r :
  operator_run logCfg newLogger mgrCfg reconcilerCfg [] = (log, r) -> CallStart ∈ log \/ operator_main r = 0 ->
  exists mgr cfg, mgrCfg = Ok mgr /\ reconcilerCfg = Ok cfg /\
    log = [CallNewManager (mkManagerOptions (MetricsBindAddress mgr) (HealthProbeBindAddress mgr) (LeaderElection mgr)
             leaderElectionID (oc_PodNamespace cfg) cacheOptions);
           CallAddHealthzCheck; CallAddReadyzCheck; CallSetupWithManager cfg; CallStart] /\
    (operator_main r = 0 <-> outcome CallStart = None).
Proof.
  unfold operator_run, st_bind, st_lift, Load, call. intros H Hs.
  destruct logCfg as [lc|]; [|injection H as <- <-; destruct Hs as [Hs|Hs]; [by apply elem_of_nil in Hs|done]].
  destruct (newLogger lc); [|injection H as <- <-; destruct Hs as [Hs|Hs]; [by apply elem_of_nil in Hs|done]].
  destruct mgrCfg as [mgr|]; [|injection H as <- <-; destruct Hs as [Hs|Hs]; [by apply elem_of_nil in Hs|done]].
  destruct reconcilerCfg as [cfg|]; [|injection H as <- <-; destruct Hs as [Hs|Hs]; [by apply elem_of_nil in Hs|done]].
  repeat match type of H with context [match outcome ?c with _ => _ end] => destruct (outcome c) eqn:? end;
    injection H as <- <-; try (exfalso; destruct Hs as [Hs|Hs]; [cbn in Hs; rewrite ?elem_of_cons, ?elem_of_nil in Hs; naive_solver|done]);
    exists mgr, cfg; split_and!; try done.
Qed.
End Operator.

(** ** The link *)
Definition link_main {C} (logCfg : result string LoggerConfig) (newLogger : LoggerConfig -> result string zap_config)
    (cfg : result string C) (Run : C -> result string unit) : Z :=
  match Load logCfg with
  | Err _ => 1
  | Ok lc => match newLogger lc with
             | Err _ => 1
             | Ok _ => match Load cfg with
                       | Err _ => 1
                       | Ok c => match Run c with Err _ => 1 | Ok _ => 0 end
                       end
             end
  end.

(** A level zap does not know logs at debug; it never keeps a program from starting. *)
Lemma bad_level_tolerated parse build c :
  parse (ToLower (lc_LogLevel c)) = None -> (forall z, build z = Ok tt) ->
  New parse build c = Ok (mkZapConfig (lc_ProdLogFormat c) true debugLevel).
Proof. intros Hp Hb. unfold New. by rewrite Hp, Hb. Qed.
