(* ===== verification/Store.v ===== *)
(** * A shared store with pointers, slices and maps

    What generated deep-copy code is about: values that share memory. A store maps
    locations to cells, a cell holds the elements of an array (one for [new], as many as
    asked for [make]) or a map. A type has a [Shape]: the locations a value of it reaches
    and what is read through it. Reading depends on nothing but what is reached
    ([shape_frame]), so two values that reach no common location cannot be told about
    each other's changes.

    [copied] says that a value is a deep copy of another; [DeepCopier] that a function
    makes deep copies. The copying patterns of the generated code, a slice, a map or a
    pointer of plain values, a slice copied element by element and a pointer to a struct,
    are proved to be deep copiers once and for all. *)

From S2P Require Import Prelude.

Record ptr (T : Type) := mkPtr { p_loc : positive; p_idx : nat }.
Record slice (T : Type) := mkSlice { sl_loc : positive; sl_off : nat; sl_len : nat; sl_cap : nat }.
Record gomap := mkGoMap { m_loc : positive }.
Arguments mkPtr {T}. Arguments p_loc {T}. Arguments p_idx {T}.
Arguments mkSlice {T}. Arguments sl_loc {T}. Arguments sl_off {T}. Arguments sl_len {T}. Arguments sl_cap {T}.

(** A store over cells [C]. *)
Abbreviation heap := (gmap positive).

(** The cells that hold arrays of [T], and the zero value of [T]. *)
Class Elem (C T : Type) := {
  emb : list T -> C;
  prj : C -> option (list T);
  zero : T;
  prj_emb xs : prj (emb xs) = Some xs
}.

Section Store.
Context {C : Type}.

(** ** Reading and writing *)
Section Access.
Context {T : Type} `{!Elem C T}.

Definition cells (h : heap C) (l : positive) : list T :=
  match h !! l with Some c => default [] (prj c) | None => [] end.
Definition elem (h : heap C) (l : positive) (i : nat) : T := default zero (cells h l !! i).
Definition deref (h : heap C) (p : ptr T) : T := elem h (p_loc p) (p_idx p).
Definition elems (h : heap C) (s : slice T) : list T := (fun i => elem h (sl_loc s) (sl_off s + i)) <$> seq 0 (sl_len s).

Definition alloc (h : heap C) (xs : list T) : heap C * positive :=
  let l := fresh (dom h) in (<[l := emb xs]> h, l).
Definition store (h : heap C) (l : positive) (i : nat) (x : T) : heap C := <[l := emb (<[i := x]> (cells h l))]> h.
End Access.

(** ** Shapes *)
Class Shape (T : Type) := {
  value : Type;
  reach : heap C -> T -> gset positive;
  read : heap C -> T -> value;
  shape_frame h h' x : (forall l, l ∈ reach h x -> h' !! l = h !! l) -> reach h' x = reach h x /\ read h' x = read h x
}.

(** A type without references. *)
Definition plain (T : Type) : Shape T.
Proof. refine {| value := T; reach := fun _ _ => ∅; read := fun _ x => x |}. done. Defined.

#[export] Program Instance prod_Shape {A B} `{!Shape A, !Shape B} : Shape (A * B) :=
  {| value := value (T := A) * value (T := B);
     reach h x := reach h x.1 ∪ reach h x.2;
     read h x := (read h x.1, read h x.2) |}.
Next Obligation.
  intros A B SA SB h h' [a b] H. cbn in *. destruct (shape_frame h h' a) as [-> ->]; [set_solver|].
  destruct (shape_frame h h' b) as [-> ->]; [set_solver|done].
Qed.

(** A struct read as the tuple of its fields. *)
Definition struct {T F} `{!Shape F} (fields : T -> F) : Shape T.
Proof.
  refine {| value := value (T := F); reach := fun h x => reach h (fields x); read := fun h x => read h (fields x) |}.
  intros h h' x. apply shape_frame.
Defined.

#[export] Program Instance ptr_Shape {T} `{!Elem C T, !Shape T} : Shape (option (ptr T)) :=
  {| value := option (value (T := T));
     reach h p := match p with Some p => {[p_loc p]} ∪ reach h (deref h p) | None => ∅ end;
     read h p := (fun p => read h (deref h p)) <$> p |}.
Next Obligation.
  intros T E S h h' [p|] H; [|done]. cbn in *.
  assert (Hd : deref h' p = deref h p) by (unfold deref, elem, cells; rewrite H; [done|set_solver]).
  rewrite Hd. destruct (shape_frame h h' (deref h p)) as [-> ->]; [set_solver|done].
Qed.

#[export] Program Instance slice_Shape {T} `{!Elem C T, !Shape T} : Shape (option (slice T)) :=
  {| value := option (list (value (T := T)));
     reach h s := match s with Some s => {[sl_loc s]} ∪ ⋃ (reach h <$> elems h s) | None => ∅ end;
     read h s := (fun s => read h <$> elems h s) <$> s |}.
Next Obligation.
  intros T E S h h' [s|] H; [|done]. cbn in *.
  assert (Hd : elems h' s = elems h s).
  { unfold elems. apply list_fmap_ext. intros i x _. unfold elem, cells. rewrite H; [done|set_solver]. }
  rewrite Hd. assert (Hx : forall x, x ∈ elems h s -> reach h' x = reach h x /\ read h' x = read h x).
  { intros x Hx. apply shape_frame. intros l Hl. apply H, elem_of_union_r, elem_of_union_list.
    exists (reach h x). split; [by apply list_elem_of_fmap_2|done]. }
  split; f_equal; [f_equal|]; apply list_fmap_ext; intros i x Hi%list_elem_of_lookup_2; by apply Hx.
Qed.

#[export] Program Instance map_Shape `{!Elem C (gmap string string)} : Shape (option gomap) :=
  {| value := option (gmap string string);
     reach h m := match m with Some m => {[m_loc m]} | None => ∅ end;
     read h m := (fun m => elem h (m_loc m) 0) <$> m |}.
Next Obligation. intros E h h' [m|] H; [|done]. cbn. unfold elem, cells. rewrite H; [done|set_solver]. Qed.

(** ** Deep copies *)
Section Copied.
Context {T : Type} `{!Shape T}.

(** Nothing dangles: what a value reaches is allocated. *)
Definition live (h : heap C) (x : T) : Prop := reach h x ⊆ dom h.

(** [y] in [h'] is a deep copy of [x] in [h]: nothing allocated changed, [y] reads as [x]
    and reaches only what was allocated since. *)
Definition copied (h : heap C) (x : T) (h' : heap C) (y : T) : Prop :=
  h ⊆ h' /\ read h' y = read h x /\ reach h' y ⊆ dom h' ∖ dom h.

Class DeepCopier (f : heap C -> T -> heap C * T) : Prop :=
  deep_copy h x : live h x -> copied h x (f h x).1 (f h x).2.

Lemma live_grow h h' x : live h x -> h ⊆ h' -> reach h' x = reach h x /\ read h' x = read h x.
Proof.
  intros Hl Hs. apply shape_frame. intros l Hr. apply Hl, elem_of_dom in Hr as [c Hc]. rewrite Hc. by apply (lookup_weaken h).
Qed.

(** Writing through the copy, and allocating, leaves the original as it was, and the
    other way round. *)
Lemma copied_isolated h x h' y :
  live h x -> copied h x h' y ->
  (forall h2, (forall l, l ∈ dom h' -> l ∉ reach h' y -> h2 !! l = h' !! l) -> read h2 x = read h x) /\
  (forall h2, (forall l, l ∈ dom h' -> l ∉ reach h' x -> h2 !! l = h' !! l) -> read h2 y = read h x).
Proof.
  intros Hl (Hs & Hr & Hy). destruct (live_grow _ _ _ Hl Hs) as [Hx1 Hx2].
  pose proof (subseteq_dom _ _ Hs) as Hd. split; intros h2 H2.
  - rewrite <- Hx2. apply shape_frame. intros l Hin. apply H2; [|intros Hy'%Hy]; rewrite Hx1 in Hin; apply Hl in Hin; set_solver.
  - rewrite <- Hr. apply shape_frame. intros l Hin. apply Hy in Hin as Hn.
    apply H2; [set_solver|]. rewrite Hx1. intros Hin'%Hl. set_solver.
Qed.
End Copied.

(** Fields are copied one after the other, each in the store the last one left. *)
Lemma copied_next {A B} `{!Shape A, !Shape B} (f : heap C -> B -> heap C * B) `{!DeepCopier f} h (a a' : A) (b b' : B) h1 h2 :
  f h1 b = (h2, b') -> live h b -> copied h a h1 a' -> copied h (a, b) h2 (a', b').
Proof.
  intros Ef Hl (Hs & Hr & Hy). destruct (live_grow h h1 b Hl Hs) as [Hb1 Hb]. pose proof (subseteq_dom _ _ Hs).
  pose proof (deep_copy h1 b) as Hc. rewrite Ef in Hc. destruct Hc as (Hs2 & Hr2 & Hy2).
  { unfold live in *. rewrite Hb1. set_solver. }
  cbn [fst snd] in *. assert (Ha : live h1 a') by (unfold live; set_solver).
  destruct (live_grow h1 h2 a' Ha Hs2) as [Ha1 Ha2]. pose proof (subseteq_dom _ _ Hs2).
  split; [exact (transitivity Hs Hs2)|]. cbn. rewrite Ha1, Ha2, Hr, Hr2, Hb. split; [done|set_solver].
Qed.

Lemma live_pair {A B} `{!Shape A, !Shape B} h (a : A) (b : B) : live h (a, b) <-> live h a /\ live h b.
Proof. unfold live. cbn. set_solver. Qed.

(** ** The patterns of the generated code *)
Lemma alloc_new {T} `{!Elem C T} h (xs : list T) h' l :
  alloc h xs = (h', l) -> l ∉ dom h /\ h ⊆ h' /\ h' !! l = Some (emb xs) /\ dom h' = {[l]} ∪ dom h.
Proof.
  intros [= <- <-]. pose proof (is_fresh (dom h)) as Hf.
  split; [done|]. split; [apply insert_subseteq; by apply not_elem_of_dom|]. by rewrite lookup_insert_eq, dom_insert_L.
Qed.

Lemma cells_at {T} `{!Elem C T} h l (xs : list T) : h !! l = Some (emb xs) -> cells h l = xs.
Proof. intros E. unfold cells. by rewrite E, prj_emb. Qed.

Lemma elem_grow {T} `{!Elem C T} h h' l i : l ∈ dom h -> h ⊆ h' -> elem (T := T) h' l i = elem h l i.
Proof.
  intros Hl Hs. apply elem_of_dom in Hl as [c Hc]. unfold elem, cells. by rewrite Hc, (lookup_weaken _ _ _ _ Hc Hs).
Qed.

Lemma elems_all {T} `{!Elem C T} h l (xs : list T) n c :
  h !! l = Some (emb xs) -> length xs = n -> elems h (mkSlice l 0 n c) = xs.
Proof.
  intros E <-. apply list_eq. intros i. unfold elems. rewrite list_lookup_fmap. cbn [sl_off sl_len sl_loc].
  destruct (decide (i < length xs)%nat) as [Hi|Hi].
  - rewrite lookup_seq_lt by done. cbn. unfold elem. rewrite (cells_at _ _ _ E).
    apply lookup_lt_is_Some_2 in Hi as [x Hx]. by rewrite Hx.
  - rewrite lookup_seq_ge by lia. symmetry. apply lookup_ge_None_2. lia.
Qed.

Section Patterns.
Context {T : Type} `{!Elem C T}.

(** [*out = make([]T, len( *in)); copy( *out, *in)], a nil slice staying nil. *)
Definition copy_slice (h : heap C) (s : option (slice T)) : heap C * option (slice T) :=
  match s with
  | None => (h, None)
  | Some s => let '(h, l) := alloc h (replicate (sl_len s) (zero (T := T))) in
              (<[l := emb (elems h s)]> h, Some (mkSlice l 0 (sl_len s) (sl_len s)))
  end.

(** [*out = new(T); **out = **in] *)
Definition copy_ptr (h : heap C) (p : option (ptr T)) : heap C * option (ptr T) :=
  match p with
  | None => (h, None)
  | Some p => let '(h, l) := alloc h [zero (T := T)] in (store h l 0 (deref h p), Some (mkPtr l 0))
  end.

(** [for i := range *in { ( *in)[i].DeepCopyInto(&( *out)[i]) }] *)
Fixpoint copy_loop (into : heap C -> T -> heap C * T) (l : positive) (s : slice T) (i n : nat) (h : heap C) : heap C :=
  match n with
  | O => h
  | S n => let '(h, y) := into h (elem h (sl_loc s) (sl_off s + i)) in copy_loop into l s (S i) n (store h l i y)
  end.
Definition copy_each (into : heap C -> T -> heap C * T) (h : heap C) (s : option (slice T)) : heap C * option (slice T) :=
  match s with
  | None => (h, None)
  | Some s => let '(h, l) := alloc h (replicate (sl_len s) (zero (T := T))) in
              (copy_loop into l s 0 (sl_len s) h, Some (mkSlice l 0 (sl_len s) (sl_len s)))
  end.

(** [DeepCopy]: [out := new(T); in.DeepCopyInto(out); return out] *)
Definition copy_new (into : heap C -> T -> heap C * T) (h : heap C) (p : option (ptr T)) : heap C * option (ptr T) :=
  match p with
  | None => (h, None)
  | Some p => let '(h, l) := alloc h [zero (T := T)] in
              let '(h, y) := into h (deref h p) in (store h l 0 y, Some (mkPtr l 0))
  end.

Context `{!Shape T} (into : heap C -> T -> heap C * T) `{!DeepCopier into}.

(** The loop, [i] elements done: the array holds copies of the first [i]. *)
Definition loop_inv (h0 : heap C) (l : positive) (s : slice T) (i : nat) (h : heap C) : Prop :=
  h0 ⊆ h /\ l ∉ dom h0 /\ exists ys, h !! l = Some (emb ys) /\ length ys = sl_len s /\
    forall j y, (j < i)%nat -> ys !! j = Some y ->
      reach h y ⊆ dom h ∖ ({[l]} ∪ dom h0) /\ read h y = read h0 (elem h0 (sl_loc s) (sl_off s + j)).

Lemma loop_step h0 l s i h h' y :
  live h0 (Some s) -> (i < sl_len s)%nat -> loop_inv h0 l s i h ->
  into h (elem h (sl_loc s) (sl_off s + i)) = (h', y) -> loop_inv h0 l s (S i) (store h' l i y).
Proof.
  intros Hl Hi (Hs & Hf & ys & Hys & Hlen & Hdone) Hinto. unfold live in Hl. cbn in Hl.
  assert (Hloc : sl_loc s ∈ dom h0) by set_solver.
  rewrite (elem_grow h0 h) in Hinto by done. set (x := elem h0 (sl_loc s) (sl_off s + i)) in *.
  assert (Hx : live h0 x).
  { intros k Hk. apply Hl, elem_of_union_r, elem_of_union_list. exists (reach h0 x). split; [|done].
    apply list_elem_of_fmap_2. unfold elems. apply list_elem_of_fmap. exists i. split; [done|]. apply elem_of_seq. lia. }
  destruct (live_grow h0 h x Hx Hs) as [Hx1 Hx2]. pose proof (subseteq_dom _ _ Hs) as Hd0.
  assert (Hx' : live h x) by (unfold live in *; rewrite Hx1; set_solver).
  pose proof (deep_copy h x Hx') as Hc. rewrite Hinto in Hc. destruct Hc as (Hs' & Hr & Hy). cbn [fst snd] in *.
  pose proof (subseteq_dom _ _ Hs') as Hd. assert (Hld : l ∈ dom h) by (apply elem_of_dom; eauto).
  assert (Hsame : forall z, reach h' z ⊆ dom h' ∖ {[l]} -> reach (store h' l i y) z = reach h' z /\ read (store h' l i y) z = read h' z).
  { intros z Hz. apply shape_frame. intros k Hk. unfold store. apply lookup_insert_ne. intros ->. set_solver. }
  assert (Hdom : dom (store h' l i y) = dom h') by (unfold store; rewrite dom_insert_L; set_solver).
  split_and!; [|done|].
  - unfold store. apply map_subseteq_spec. intros k c Hk.
    rewrite lookup_insert_ne; [exact (lookup_weaken _ _ _ _ Hk (transitivity Hs Hs'))|].
    intros ->. apply Hf, elem_of_dom. eauto.
  - exists (<[i := y]> ys). split; [unfold store; rewrite lookup_insert_eq, (cells_at h' l ys); [done|by apply (lookup_weaken h)]|].
    split; [by rewrite length_insert|]. intros j z Hj Hz. rewrite Hdom. destruct (decide (j = i)) as [->|Hne].
    + rewrite list_lookup_insert_eq in Hz by lia. injection Hz as <-.
      destruct (Hsame y) as [-> ->]; [set_solver|]. split; [set_solver|]. rewrite Hr. exact Hx2.
    + rewrite list_lookup_insert_ne in Hz by congruence. destruct (Hdone j z) as [Hz1 Hz2]; [lia|done|].
      destruct (live_grow h h' z) as [Hg1 Hg2]; [unfold live; set_solver|done|].
      destruct (Hsame z) as [-> ->]; [set_solver|]. rewrite Hg1, Hg2. split; [set_solver|done].
Qed.

Lemma loop_run h0 l s n : forall i h,
  live h0 (Some s) -> (i + n = sl_len s)%nat -> loop_inv h0 l s i h ->
  loop_inv h0 l s (sl_len s) (copy_loop into l s i n h).
Proof.
  induction n as [|n IH]; intros i h Hl Hn Hinv; cbn [copy_loop].
  { by replace (sl_len s) with i by lia. }
  destruct (into h (elem h (sl_loc s) (sl_off s + i))) as [h1 y] eqn:E.
  apply IH; [done|lia|]. apply (loop_step h0 l s i h h1 y); [done|lia|done|done].
Qed.

#[export] Instance copy_each_ok : DeepCopier (copy_each into).
Proof.
  intros h [s|] Hl; cbn [copy_each]; [|by split_and!].
  destruct (alloc h (replicate (sl_len s) zero)) as [h1 l] eqn:E. apply alloc_new in E as (Hf & Hs & Hc & Hd).
  destruct (loop_run h l s (sl_len s) 0 h1 Hl eq_refl) as (Hs' & _ & ys & Hys & Hlen & Hdone).
  { split_and!; [done|done|]. exists (replicate (sl_len s) zero). split_and!; [done|by rewrite length_replicate|lia]. }
  set (h2 := copy_loop into l s 0 (sl_len s) h1) in *.
  pose proof (elems_all h2 l ys (sl_len s) (sl_len s) Hys Hlen) as He. split; [done|]. split.
  - change (Some (read h2 <$> elems h2 (mkSlice l 0 (sl_len s) (sl_len s))) = Some (read h <$> elems h s)).
    f_equal. rewrite He. apply list_eq. intros i. rewrite !list_lookup_fmap. unfold elems. rewrite list_lookup_fmap.
    destruct (ys !! i) as [y|] eqn:Ey.
    + assert (Hi : (i < sl_len s)%nat) by (rewrite <- Hlen; by apply lookup_lt_is_Some_1; eauto).
      rewrite lookup_seq_lt by done. cbn. f_equal. by apply (Hdone i y).
    + apply lookup_ge_None in Ey. rewrite lookup_seq_ge by lia. done.
  - change ({[l]} ∪ ⋃ (reach h2 <$> elems h2 (mkSlice l 0 (sl_len s) (sl_len s))) ⊆ dom h2 ∖ dom h).
    rewrite He. apply union_subseteq. split.
    + assert (l ∈ dom h2) by (apply elem_of_dom; eauto). set_solver.
    + intros k (X & HX & Hk)%elem_of_union_list. apply list_elem_of_fmap in HX as (y & -> & Hy).
      apply list_elem_of_lookup in Hy as [j Hj].
      assert (Hlt : (j < sl_len s)%nat) by (rewrite <- Hlen; by apply lookup_lt_is_Some_1; eauto).
      destruct (Hdone j y Hlt Hj) as [Hy _]. set_solver.
Qed.

#[export] Instance copy_new_ok : DeepCopier (copy_new into).
Proof.
  intros h [p|] Hl; cbn [copy_new]; [|by split_and!].
  destruct (alloc h [zero]) as [h1 l] eqn:E. apply alloc_new in E as (Hf & Hs & Hc & Hd). unfold live in Hl. cbn in Hl.
  assert (Hd1 : deref h1 p = deref h p) by (apply elem_grow; [set_solver|done]). rewrite Hd1.
  assert (Hx : live h (deref h p)) by (unfold live; set_solver). destruct (live_grow h h1 _ Hx Hs) as [Hx1 Hx2].
  pose proof (deep_copy h1 (deref h p)) as Hcp. destruct (into h1 (deref h p)) as [h2 y].
  destruct Hcp as (Hs2 & Hr & Hy); [unfold live in *; rewrite Hx1; set_solver|]. cbn [fst snd] in *.
  pose proof (subseteq_dom _ _ Hs2) as Hd2. assert (Hl2 : h2 !! l = Some (emb [zero])) by exact (lookup_weaken _ _ _ _ Hc Hs2).
  assert (Hsame : reach (store h2 l 0 y) y = reach h2 y /\ read (store h2 l 0 y) y = read h2 y).
  { apply shape_frame. intros k Hk. unfold store. apply lookup_insert_ne. intros ->. set_solver. }
  assert (Hy' : deref (store h2 l 0 y) (mkPtr l 0) = y).
  { unfold deref, elem. cbn [p_loc p_idx]. erewrite cells_at; [|unfold store; apply lookup_insert_eq].
    by rewrite (cells_at h2 l [zero]). }
  assert (Hdom : dom (store h2 l 0 y) = dom h2) by (unfold store; rewrite dom_insert_L; set_solver).
  split_and!.
  - unfold store. apply map_subseteq_spec. intros k c Hk.
    rewrite lookup_insert_ne; [exact (lookup_weaken _ _ _ _ Hk (transitivity Hs Hs2))|]. intros ->. apply Hf, elem_of_dom. eauto.
  - match goal with |- read ?h' _ = _ => change (Some (read h' (deref h' (mkPtr l 0))) = Some (read h (deref h p))) end.
    rewrite Hy'. destruct Hsame as [_ ->]. by rewrite Hr, Hx2.
  - match goal with |- reach ?h' _ ⊆ _ => change ({[l]} ∪ reach h' (deref h' (mkPtr l 0)) ⊆ dom h' ∖ dom h) end.
    rewrite Hy', Hdom. destruct Hsame as [-> _]. set_solver.
Qed.
End Patterns.

(** A type whose values reach nothing. *)
Class Plain (T : Type) `{!Shape T} : Prop := plain_reach h x : reach h x = ∅.

#[export] Instance prod_Plain {A B} `{!Shape A, !Shape B, !Plain A, !Plain B} : Plain (A * B).
Proof. intros h [a b]. cbn. rewrite !plain_reach. set_solver. Qed.

Section PlainPatterns.
Context {T : Type} `{!Shape T, !Plain T}.

Lemma plain_read h h' x : read h' x = read h x.
Proof. apply (shape_frame h h' x). intros l. rewrite plain_reach. set_solver. Qed.

(** [*out = *in] *)
Definition copy_plain (h : heap C) (x : T) : heap C * T := (h, x).
#[export] Instance copy_plain_ok : DeepCopier copy_plain.
Proof. intros h x _. split_and!; [done|done|]. cbn. rewrite plain_reach. set_solver. Qed.

Context `{!Elem C T}.

#[export] Instance copy_slice_ok : DeepCopier copy_slice.
Proof.
  intros h [s|] Hl; cbn [copy_slice]; [|by split_and!]. unfold live in Hl. cbn in Hl.
  destruct (alloc h (replicate (sl_len s) zero)) as [h1 l] eqn:E. apply alloc_new in E as (Hf & Hs & Hc & Hd). cbn [fst snd].
  assert (He : elems h1 s = elems h s).
  { unfold elems. apply list_fmap_ext. intros i x _. apply elem_grow; [set_solver|done]. }
  rewrite He. assert (Hn : elems (<[l := emb (elems h s)]> h1) (mkSlice l 0 (sl_len s) (sl_len s)) = elems h s).
  { apply elems_all; [apply lookup_insert_eq|]. unfold elems. by rewrite length_fmap, length_seq. }
  split_and!.
  - apply map_subseteq_spec. intros k c Hk. rewrite lookup_insert_ne; [by apply (lookup_weaken h)|].
    intros ->. apply Hf, elem_of_dom. eauto.
  - match goal with |- read ?h' _ = _ => change (Some (read h' <$> elems h' (mkSlice l 0 (sl_len s) (sl_len s))) = Some (read h <$> elems h s)) end.
    f_equal. rewrite Hn. apply list_fmap_ext. intros i x _. apply plain_read.
  - match goal with |- reach ?h' _ ⊆ _ => change ({[l]} ∪ ⋃ (reach h' <$> elems h' (mkSlice l 0 (sl_len s) (sl_len s))) ⊆ dom h' ∖ dom h) end.
    rewrite Hn, dom_insert_L.
    assert (Hu : ⋃ (reach (<[l := emb (elems h s)]> h1) <$> elems h s) = ∅).
    { apply elem_of_equiv_empty_L. intros k (X & (y & -> & _)%list_elem_of_fmap & Hk)%elem_of_union_list.
      rewrite plain_reach in Hk. set_solver. }
    rewrite Hu. set_solver.
Qed.

#[export] Instance copy_ptr_ok : DeepCopier copy_ptr.
Proof.
  intros h p Hl. assert (E : copy_ptr h p = copy_new copy_plain h p).
  { destruct p as [p|]; [|done]. cbn. by destruct (alloc h [zero]) as [h1 l]. }
  rewrite E. exact (copy_new_ok copy_plain h p Hl).
Qed.
End PlainPatterns.

(** [*out = make(map[string]string, len( *in)); for key, val := range *in { ( *out)[key] = val }] *)
Definition copy_map `{!Elem C (gmap string string)} (h : heap C) (m : option gomap) : heap C * option gomap :=
  match m with
  | None => (h, None)
  | Some m => let '(h, l) := alloc h [∅ : gmap string string] in
              (foldl (fun h kv => store h l 0 (<[kv.1 := kv.2]> (elem h l 0))) h
                 (map_to_list (elem (T := gmap string string) h (m_loc m) 0)), Some (mkGoMap l))
  end.

Section Maps.
Context `{!Elem C (gmap string string)}.

Lemma map_loop_run h l m kvs :
  h !! l = Some (emb [m]) ->
  foldl (fun h kv => store h l 0 (<[kv.1 := kv.2]> (elem h l 0))) h kvs =
    <[l := emb [foldl (fun m kv => <[kv.1 := kv.2]> m) m kvs]]> h.
Proof.
  revert h m. induction kvs as [|kv kvs IH]; intros h m E; cbn [foldl]; [by rewrite insert_id|].
  assert (Hs : store h l 0 (<[kv.1 := kv.2]> (elem (T := gmap string string) h l 0)) = <[l := emb [<[kv.1 := kv.2]> m]]> h).
  { unfold store, elem. by rewrite (cells_at h l [m]). }
  rewrite Hs, (IH _ (<[kv.1 := kv.2]> m)) by apply lookup_insert_eq. by rewrite insert_insert_eq.
Qed.

Lemma insert_all (m0 : gmap string string) kvs :
  NoDup kvs.*1 -> (forall k, k ∈ kvs.*1 -> m0 !! k = None) ->
  foldl (fun m kv => <[kv.1 := kv.2]> m) m0 kvs = list_to_map kvs ∪ m0.
Proof.
  revert m0. induction kvs as [|[k v] kvs IH]; intros m0 Hnd Hm; cbn [foldl]; [symmetry; apply (left_id_L ∅ (∪))|].
  cbn in Hnd. apply NoDup_cons in Hnd as [Hk Hnd]. rewrite IH; [|done|].
  - cbn [fst snd list_to_map foldr]. rewrite <- insert_union_l, insert_union_r; [done|].
    by apply not_elem_of_list_to_map.
  - intros k' Hk'. rewrite lookup_insert_ne; [apply Hm; set_solver|]. intros <-. by apply Hk.
Qed.

#[export] Instance copy_map_ok : DeepCopier copy_map.
Proof.
  intros h [m|] Hl; cbn [copy_map]; [|by split_and!]. unfold live in Hl. cbn in Hl.
  destruct (alloc h [∅ : gmap string string]) as [h1 l] eqn:E. apply alloc_new in E as (Hf & Hs & Hc & Hd). cbn [fst snd].
  set (src := elem (T := gmap string string) h1 (m_loc m) 0).
  rewrite (map_loop_run h1 l ∅ _ Hc), insert_all;
    [|apply NoDup_fst_map_to_list|intros k _; apply lookup_empty].
  rewrite list_to_map_to_list, (right_id_L ∅ (∪)).
  assert (Hsrc : src = elem h (m_loc m) 0) by (apply elem_grow; [set_solver|done]).
  split_and!.
  - apply map_subseteq_spec. intros k c Hk. rewrite lookup_insert_ne; [by apply (lookup_weaken h)|].
    intros ->. apply Hf, elem_of_dom. eauto.
  - cbn. f_equal. rewrite <- Hsrc. unfold elem at 1. erewrite cells_at; [|apply lookup_insert_eq]. done.
  - cbn. rewrite dom_insert_L. set_solver.
Qed.
End Maps.
End Store.
