(* ===== verification/ApiTypes.v ===== *)
(** * The API types and their deep copies: pkg/api/v1alpha1/gateway_types.go and
      zz_generated.deepcopy.go

    The Gateway and GatewayList of the API as the structs they are in memory, with
    pointers, slices and maps into a shared store ([Store]), and the generated DeepCopy
    functions, which every cache of the operator hands its objects out through. The
    structs of apimachinery and core/v1 they embed are parameters with deep copies of
    their own.

    [deepcopy_isolated]: a copy reads as the original, and nothing written through either
    can be seen through the other. *)

From S2P Require Import Prelude Store.

(** ** The types the API embeds *)
Class ApiMachinery := {
  TypeMeta : Type; zero_TypeMeta : TypeMeta;
  ObjectMeta : Type; zero_ObjectMeta : ObjectMeta;
  ListMeta : Type; zero_ListMeta : ListMeta;
  ResourceRequirements : Type; zero_Resources : ResourceRequirements;
  Condition : Type; zero_Condition : Condition;
  Foreign : Type
}.

Section Types.
Context {AM : ApiMachinery}.

Record Forward := mkForward {
  f_Port : Z;
  f_Protocol : string;
  f_Service : string;
  f_Namespace : string;
  f_TargetPort : Z
}.

Record GatewayGCPLoadBalancerSpec := mkLoadBalancerSpec { lb_SessionAffinity : string }.

Record GatewayGCPExternalAddress := mkExternalAddress { ea_Name : string; ea_IP : string }.

Record GatewayGCPAddressSpec := mkAddressSpec {
  ad_Type : string;
  ad_External : option (ptr GatewayGCPExternalAddress)
}.

Record GatewayGCPSpec := mkGCPSpec {
  g_ProjectID : string;
  g_Region : string;
  g_Zone : string;
  g_MachineType : string;
  g_Image : string;
  g_DiskSizeGB : Z;
  g_Address : GatewayGCPAddressSpec;
  g_Spot : bool;
  g_Replicas : Z;
  g_Zones : option (slice string);
  g_LoadBalancer : option (ptr GatewayGCPLoadBalancerSpec)
}.

Record GatewayWireguardSpec := mkWireguardSpec {
  w_ListenPort : Z;
  w_Subnet : string;
  w_GatewayAddress : string;
  w_LinkAddress : string;
  w_Keepalive : Z;
  w_MTU : Z;
  w_ReconcileInterval : string
}.

Record GatewayLinkSpec := mkLinkSpec {
  l_Replicas : Z;
  l_NodeSelector : option gomap;
  l_HealthPort : Z
}.

Record GatewayResponderSpec := mkResponderSpec {
  r_Image : string;
  r_Port : Z;
  r_Replicas : Z;
  r_Resources : ResourceRequirements
}.

Record GatewaySpec := mkSpec {
  s_GCP : GatewayGCPSpec;
  s_Wireguard : GatewayWireguardSpec;
  s_Link : GatewayLinkSpec;
  s_Provider : string;
  s_TrafficPolicy : string;
  s_Forwards : option (slice Forward);
  s_DNSHostnames : option (slice string);
  s_Responder : GatewayResponderSpec
}.

Record GatewayLinkStatus := mkLinkStatus { ls_ID : Z; ls_ActiveNode : string }.

Record GatewayGCPMemberStatus := mkMemberStatus {
  m_Name : string;
  m_Zone : string;
  m_Slot : Z;
  m_TunnelAddress : string;
  m_ExternalAddress : string;
  m_InstanceID : string;
  m_Revision : string;
  m_State : string;
  m_Message : string
}.

Record GatewayGCPStatus := mkGCPStatus { gs_Members : option (slice GatewayGCPMemberStatus) }.

Record GatewayStatus := mkStatus {
  st_Address : string;
  st_ServiceAccountEmail : string;
  st_Link : GatewayLinkStatus;
  st_GCP : GatewayGCPStatus;
  st_Conditions : option (slice Condition)
}.

Record Gateway := mkGateway {
  gw_TypeMeta : TypeMeta;
  gw_ObjectMeta : ObjectMeta;
  gw_Spec : GatewaySpec;
  gw_Status : GatewayStatus
}.

Record GatewayList := mkGatewayList {
  gl_TypeMeta : TypeMeta;
  gl_ListMeta : ListMeta;
  gl_Items : option (slice Gateway)
}.

(** ** The store's cells, and zero values *)
Inductive cell :=
| CString (xs : list string) | CMap (xs : list (gmap string string)) | CForward (xs : list Forward)
| CLoadBalancer (xs : list GatewayGCPLoadBalancerSpec) | CExternal (xs : list GatewayGCPExternalAddress)
| CAddress (xs : list GatewayGCPAddressSpec) | CGCPSpec (xs : list GatewayGCPSpec) | CWireguard (xs : list GatewayWireguardSpec)
| CLinkSpec (xs : list GatewayLinkSpec) | CResponder (xs : list GatewayResponderSpec) | CSpec (xs : list GatewaySpec)
| CLinkStatus (xs : list GatewayLinkStatus) | CMember (xs : list GatewayGCPMemberStatus) | CGCPStatus (xs : list GatewayGCPStatus)
| CCondition (xs : list Condition) | CStatus (xs : list GatewayStatus) | CGateway (xs : list Gateway) | CList (xs : list GatewayList)
| CForeign (x : Foreign).

Definition zero_Address : GatewayGCPAddressSpec := mkAddressSpec "" None.
Definition zero_GCPSpec : GatewayGCPSpec := mkGCPSpec "" "" "" "" "" 0 zero_Address false 0 None None.
Definition zero_Wireguard : GatewayWireguardSpec := mkWireguardSpec 0 "" "" "" 0 0 "".
Definition zero_LinkSpec : GatewayLinkSpec := mkLinkSpec 0 None 0.
Definition zero_Responder : GatewayResponderSpec := mkResponderSpec "" 0 0 zero_Resources.
Definition zero_Spec : GatewaySpec := mkSpec zero_GCPSpec zero_Wireguard zero_LinkSpec "" "" None None zero_Responder.
Definition zero_Status : GatewayStatus := mkStatus "" "" (mkLinkStatus 0 "") (mkGCPStatus None) None.
Definition zero_Gateway : Gateway := mkGateway zero_TypeMeta zero_ObjectMeta zero_Spec zero_Status.

(** An array of a type is a cell of its own kind. *)
Definition kind_of {T} (e : list T -> cell) (p : cell -> option (list T)) (z : T) (H : forall xs, p (e xs) = Some xs) : Elem cell T :=
  {| emb := e; prj := p; zero := z; prj_emb := H |}.
#[export] Instance String_Elem : Elem cell string :=
  kind_of CString (fun c => match c with CString xs => Some xs | _ => None end) "" (fun _ => eq_refl).
#[export] Instance Map_Elem : Elem cell (gmap string string) :=
  kind_of CMap (fun c => match c with CMap xs => Some xs | _ => None end) ∅ (fun _ => eq_refl).
#[export] Instance Forward_Elem : Elem cell Forward :=
  kind_of CForward (fun c => match c with CForward xs => Some xs | _ => None end) (mkForward 0 "" "" "" 0) (fun _ => eq_refl).
#[export] Instance LoadBalancer_Elem : Elem cell GatewayGCPLoadBalancerSpec :=
  kind_of CLoadBalancer (fun c => match c with CLoadBalancer xs => Some xs | _ => None end) (mkLoadBalancerSpec "") (fun _ => eq_refl).
#[export] Instance External_Elem : Elem cell GatewayGCPExternalAddress :=
  kind_of CExternal (fun c => match c with CExternal xs => Some xs | _ => None end) (mkExternalAddress "" "") (fun _ => eq_refl).
#[export] Instance Address_Elem : Elem cell GatewayGCPAddressSpec :=
  kind_of CAddress (fun c => match c with CAddress xs => Some xs | _ => None end) zero_Address (fun _ => eq_refl).
#[export] Instance GCPSpec_Elem : Elem cell GatewayGCPSpec :=
  kind_of CGCPSpec (fun c => match c with CGCPSpec xs => Some xs | _ => None end) zero_GCPSpec (fun _ => eq_refl).
#[export] Instance Wireguard_Elem : Elem cell GatewayWireguardSpec :=
  kind_of CWireguard (fun c => match c with CWireguard xs => Some xs | _ => None end) zero_Wireguard (fun _ => eq_refl).
#[export] Instance LinkSpec_Elem : Elem cell GatewayLinkSpec :=
  kind_of CLinkSpec (fun c => match c with CLinkSpec xs => Some xs | _ => None end) zero_LinkSpec (fun _ => eq_refl).
#[export] Instance Responder_Elem : Elem cell GatewayResponderSpec :=
  kind_of CResponder (fun c => match c with CResponder xs => Some xs | _ => None end) zero_Responder (fun _ => eq_refl).
#[export] Instance Spec_Elem : Elem cell GatewaySpec :=
  kind_of CSpec (fun c => match c with CSpec xs => Some xs | _ => None end) zero_Spec (fun _ => eq_refl).
#[export] Instance LinkStatus_Elem : Elem cell GatewayLinkStatus :=
  kind_of CLinkStatus (fun c => match c with CLinkStatus xs => Some xs | _ => None end) (mkLinkStatus 0 "") (fun _ => eq_refl).
#[export] Instance Member_Elem : Elem cell GatewayGCPMemberStatus :=
  kind_of CMember (fun c => match c with CMember xs => Some xs | _ => None end) (mkMemberStatus "" "" 0 "" "" "" "" "" "") (fun _ => eq_refl).
#[export] Instance GCPStatus_Elem : Elem cell GatewayGCPStatus :=
  kind_of CGCPStatus (fun c => match c with CGCPStatus xs => Some xs | _ => None end) (mkGCPStatus None) (fun _ => eq_refl).
#[export] Instance Condition_Elem : Elem cell Condition :=
  kind_of CCondition (fun c => match c with CCondition xs => Some xs | _ => None end) zero_Condition (fun _ => eq_refl).
#[export] Instance Status_Elem : Elem cell GatewayStatus :=
  kind_of CStatus (fun c => match c with CStatus xs => Some xs | _ => None end) zero_Status (fun _ => eq_refl).
#[export] Instance Gateway_Elem : Elem cell Gateway :=
  kind_of CGateway (fun c => match c with CGateway xs => Some xs | _ => None end) zero_Gateway (fun _ => eq_refl).
#[export] Instance List_Elem : Elem cell GatewayList :=
  kind_of CList (fun c => match c with CList xs => Some xs | _ => None end) (mkGatewayList zero_TypeMeta zero_ListMeta None) (fun _ => eq_refl).

(** ** Shapes *)
#[export] Instance string_Shape : Shape (C := cell) string := plain string.
#[export] Instance Forward_Shape : Shape (C := cell) Forward := plain Forward.
#[export] Instance LoadBalancer_Shape : Shape (C := cell) GatewayGCPLoadBalancerSpec := plain GatewayGCPLoadBalancerSpec.
#[export] Instance External_Shape : Shape (C := cell) GatewayGCPExternalAddress := plain GatewayGCPExternalAddress.
#[export] Instance Wireguard_Shape : Shape (C := cell) GatewayWireguardSpec := plain GatewayWireguardSpec.
#[export] Instance LinkStatus_Shape : Shape (C := cell) GatewayLinkStatus := plain GatewayLinkStatus.
#[export] Instance Member_Shape : Shape (C := cell) GatewayGCPMemberStatus := plain GatewayGCPMemberStatus.
#[export] Instance TypeMeta_Shape : Shape (C := cell) TypeMeta := plain TypeMeta.
End Types.

(** The embedded structs' own deep copies, as apimachinery documents [DeepCopyInto]. *)
Class ApiCopies `{AM : ApiMachinery} := {
  ObjectMeta_Shape :: Shape (C := cell) ObjectMeta;
  ListMeta_Shape :: Shape (C := cell) ListMeta;
  Resources_Shape :: Shape (C := cell) ResourceRequirements;
  Condition_Shape :: Shape (C := cell) Condition;
  ObjectMeta_DeepCopyInto : heap cell -> ObjectMeta -> heap cell * ObjectMeta;
  ListMeta_DeepCopyInto : heap cell -> ListMeta -> heap cell * ListMeta;
  Resources_DeepCopyInto : heap cell -> ResourceRequirements -> heap cell * ResourceRequirements;
  Condition_DeepCopyInto : heap cell -> Condition -> heap cell * Condition;
  ObjectMeta_copies :: DeepCopier ObjectMeta_DeepCopyInto;
  ListMeta_copies :: DeepCopier ListMeta_DeepCopyInto;
  Resources_copies :: DeepCopier Resources_DeepCopyInto;
  Condition_copies :: DeepCopier Condition_DeepCopyInto
}.

Section Copies.
Context `{AC : ApiCopies}.

#[export] Instance bool_Shape : Shape (C := cell) bool := plain bool.
#[export] Instance Z_Shape : Shape (C := cell) Z := plain Z.

(** The fields of a struct, those without references first. *)
Definition Address_fields (a : GatewayGCPAddressSpec) :=
  (ad_Type a, ad_External a).
Definition GCPSpec_fields (g : GatewayGCPSpec) :=
  (g_ProjectID g, g_Region g, g_Zone g, g_MachineType g, g_Image g, g_DiskSizeGB g, g_Spot g, g_Replicas g,
   g_Address g, g_Zones g, g_LoadBalancer g).
Definition LinkSpec_fields (l : GatewayLinkSpec) :=
  (l_Replicas l, l_HealthPort l, l_NodeSelector l).
Definition Responder_fields (r : GatewayResponderSpec) :=
  (r_Image r, r_Port r, r_Replicas r, r_Resources r).
Definition Spec_fields (s : GatewaySpec) :=
  (s_Provider s, s_TrafficPolicy s, s_Wireguard s, s_GCP s, s_Link s, s_Forwards s, s_DNSHostnames s, s_Responder s).
Definition GCPStatus_fields (s : GatewayGCPStatus) :=
  gs_Members s.
Definition Status_fields (s : GatewayStatus) :=
  (st_Address s, st_ServiceAccountEmail s, st_Link s, st_GCP s, st_Conditions s).
Definition Gateway_fields (g : Gateway) :=
  (gw_TypeMeta g, gw_ObjectMeta g, gw_Spec g, gw_Status g).
Definition List_fields (l : GatewayList) :=
  (gl_TypeMeta l, gl_ListMeta l, gl_Items l).

#[export] Instance Address_Shape : Shape (C := cell) GatewayGCPAddressSpec := struct Address_fields.
#[export] Instance GCPSpec_Shape : Shape (C := cell) GatewayGCPSpec := struct GCPSpec_fields.
#[export] Instance LinkSpec_Shape : Shape (C := cell) GatewayLinkSpec := struct LinkSpec_fields.
#[export] Instance Responder_Shape : Shape (C := cell) GatewayResponderSpec := struct Responder_fields.
#[export] Instance Spec_Shape : Shape (C := cell) GatewaySpec := struct Spec_fields.
#[export] Instance GCPStatus_Shape : Shape (C := cell) GatewayGCPStatus := struct GCPStatus_fields.
#[export] Instance Status_Shape : Shape (C := cell) GatewayStatus := struct Status_fields.
#[export] Instance Gateway_Shape : Shape (C := cell) Gateway := struct Gateway_fields.
#[export] Instance List_Shape : Shape (C := cell) GatewayList := struct List_fields.

#[export] Instance bool_Plain : Plain (C := cell) bool := fun _ _ => eq_refl.
#[export] Instance Z_Plain : Plain (C := cell) Z := fun _ _ => eq_refl.
#[export] Instance TypeMeta_Plain : Plain (C := cell) TypeMeta := fun _ _ => eq_refl.
#[export] Instance string_Plain : Plain (C := cell) string := fun _ _ => eq_refl.
#[export] Instance Forward_Plain : Plain (C := cell) Forward := fun _ _ => eq_refl.
#[export] Instance LoadBalancer_Plain : Plain (C := cell) GatewayGCPLoadBalancerSpec := fun _ _ => eq_refl.
#[export] Instance External_Plain : Plain (C := cell) GatewayGCPExternalAddress := fun _ _ => eq_refl.
#[export] Instance Wireguard_Plain : Plain (C := cell) GatewayWireguardSpec := fun _ _ => eq_refl.
#[export] Instance LinkStatus_Plain : Plain (C := cell) GatewayLinkStatus := fun _ _ => eq_refl.
#[export] Instance Member_Plain : Plain (C := cell) GatewayGCPMemberStatus := fun _ _ => eq_refl.

(** ** DeepCopyInto: the value written through [out] *)
Definition Forward_DeepCopyInto : heap cell -> Forward -> heap cell * Forward := copy_plain.
Definition ExternalAddress_DeepCopyInto : heap cell -> GatewayGCPExternalAddress -> heap cell * GatewayGCPExternalAddress := copy_plain.
Definition LoadBalancer_DeepCopyInto : heap cell -> GatewayGCPLoadBalancerSpec -> heap cell * GatewayGCPLoadBalancerSpec := copy_plain.
Definition MemberStatus_DeepCopyInto : heap cell -> GatewayGCPMemberStatus -> heap cell * GatewayGCPMemberStatus := copy_plain.
Definition LinkStatus_DeepCopyInto : heap cell -> GatewayLinkStatus -> heap cell * GatewayLinkStatus := copy_plain.
Definition Wireguard_DeepCopyInto : heap cell -> GatewayWireguardSpec -> heap cell * GatewayWireguardSpec := copy_plain.

Definition AddressSpec_DeepCopyInto (h : heap cell) (in_ : GatewayGCPAddressSpec) : heap cell * GatewayGCPAddressSpec :=
  let '(h, external) := copy_ptr h (ad_External in_) in
  (h, mkAddressSpec (ad_Type in_) external).

Definition GCPSpec_DeepCopyInto (h : heap cell) (in_ : GatewayGCPSpec) : heap cell * GatewayGCPSpec :=
  let '(h, address) := AddressSpec_DeepCopyInto h (g_Address in_) in
  let '(h, zones) := copy_slice h (g_Zones in_) in
  let '(h, loadBalancer) := copy_ptr h (g_LoadBalancer in_) in
  (h, mkGCPSpec (g_ProjectID in_) (g_Region in_) (g_Zone in_) (g_MachineType in_) (g_Image in_) (g_DiskSizeGB in_)
        address (g_Spot in_) (g_Replicas in_) zones loadBalancer).

Definition GCPStatus_DeepCopyInto (h : heap cell) (in_ : GatewayGCPStatus) : heap cell * GatewayGCPStatus :=
  let '(h, members) := copy_slice h (gs_Members in_) in (h, mkGCPStatus members).

Definition LinkSpec_DeepCopyInto (h : heap cell) (in_ : GatewayLinkSpec) : heap cell * GatewayLinkSpec :=
  let '(h, nodeSelector) := copy_map h (l_NodeSelector in_) in
  (h, mkLinkSpec (l_Replicas in_) nodeSelector (l_HealthPort in_)).

Definition ResponderSpec_DeepCopyInto (h : heap cell) (in_ : GatewayResponderSpec) : heap cell * GatewayResponderSpec :=
  let '(h, resources) := Resources_DeepCopyInto h (r_Resources in_) in
  (h, mkResponderSpec (r_Image in_) (r_Port in_) (r_Replicas in_) resources).

Definition Spec_DeepCopyInto (h : heap cell) (in_ : GatewaySpec) : heap cell * GatewaySpec :=
  let '(h, gcp) := GCPSpec_DeepCopyInto h (s_GCP in_) in
  let '(h, link) := LinkSpec_DeepCopyInto h (s_Link in_) in
  let '(h, forwards) := copy_slice h (s_Forwards in_) in
  let '(h, hostnames) := copy_slice h (s_DNSHostnames in_) in
  let '(h, responder) := ResponderSpec_DeepCopyInto h (s_Responder in_) in
  (h, mkSpec gcp (s_Wireguard in_) link (s_Provider in_) (s_TrafficPolicy in_) forwards hostnames responder).

Definition Status_DeepCopyInto (h : heap cell) (in_ : GatewayStatus) : heap cell * GatewayStatus :=
  let '(h, gcp) := GCPStatus_DeepCopyInto h (st_GCP in_) in
  let '(h, conditions) := copy_each Condition_DeepCopyInto h (st_Conditions in_) in
  (h, mkStatus (st_Address in_) (st_ServiceAccountEmail in_) (st_Link in_) gcp conditions).

Definition Gateway_DeepCopyInto (h : heap cell) (in_ : Gateway) : heap cell * Gateway :=
  let '(h, meta) := ObjectMeta_DeepCopyInto h (gw_ObjectMeta in_) in
  let '(h, spec) := Spec_DeepCopyInto h (gw_Spec in_) in
  let '(h, status) := Status_DeepCopyInto h (gw_Status in_) in
  (h, mkGateway (gw_TypeMeta in_) meta spec status).

Definition GatewayList_DeepCopyInto (h : heap cell) (in_ : GatewayList) : heap cell * GatewayList :=
  let '(h, meta) := ListMeta_DeepCopyInto h (gl_ListMeta in_) in
  let '(h, items) := copy_each Gateway_DeepCopyInto h (gl_Items in_) in
  (h, mkGatewayList (gl_TypeMeta in_) meta items).

(** ** DeepCopy, on pointers *)
Definition Forward_DeepCopy : heap cell -> option (ptr Forward) -> heap cell * option (ptr Forward) :=
  copy_new Forward_DeepCopyInto.
Definition LoadBalancer_DeepCopy : heap cell -> option (ptr GatewayGCPLoadBalancerSpec) -> heap cell * option (ptr GatewayGCPLoadBalancerSpec) :=
  copy_new LoadBalancer_DeepCopyInto.
Definition ExternalAddress_DeepCopy : heap cell -> option (ptr GatewayGCPExternalAddress) -> heap cell * option (ptr GatewayGCPExternalAddress) :=
  copy_new ExternalAddress_DeepCopyInto.
Definition AddressSpec_DeepCopy : heap cell -> option (ptr GatewayGCPAddressSpec) -> heap cell * option (ptr GatewayGCPAddressSpec) :=
  copy_new AddressSpec_DeepCopyInto.
Definition GCPSpec_DeepCopy : heap cell -> option (ptr GatewayGCPSpec) -> heap cell * option (ptr GatewayGCPSpec) :=
  copy_new GCPSpec_DeepCopyInto.
Definition Wireguard_DeepCopy : heap cell -> option (ptr GatewayWireguardSpec) -> heap cell * option (ptr GatewayWireguardSpec) :=
  copy_new Wireguard_DeepCopyInto.
Definition LinkSpec_DeepCopy : heap cell -> option (ptr GatewayLinkSpec) -> heap cell * option (ptr GatewayLinkSpec) :=
  copy_new LinkSpec_DeepCopyInto.
Definition ResponderSpec_DeepCopy : heap cell -> option (ptr GatewayResponderSpec) -> heap cell * option (ptr GatewayResponderSpec) :=
  copy_new ResponderSpec_DeepCopyInto.
Definition Spec_DeepCopy : heap cell -> option (ptr GatewaySpec) -> heap cell * option (ptr GatewaySpec) :=
  copy_new Spec_DeepCopyInto.
Definition LinkStatus_DeepCopy : heap cell -> option (ptr GatewayLinkStatus) -> heap cell * option (ptr GatewayLinkStatus) :=
  copy_new LinkStatus_DeepCopyInto.
Definition MemberStatus_DeepCopy : heap cell -> option (ptr GatewayGCPMemberStatus) -> heap cell * option (ptr GatewayGCPMemberStatus) :=
  copy_new MemberStatus_DeepCopyInto.
Definition GCPStatus_DeepCopy : heap cell -> option (ptr GatewayGCPStatus) -> heap cell * option (ptr GatewayGCPStatus) :=
  copy_new GCPStatus_DeepCopyInto.
Definition Status_DeepCopy : heap cell -> option (ptr GatewayStatus) -> heap cell * option (ptr GatewayStatus) :=
  copy_new Status_DeepCopyInto.
Definition Gateway_DeepCopy : heap cell -> option (ptr Gateway) -> heap cell * option (ptr Gateway) :=
  copy_new Gateway_DeepCopyInto.
Definition GatewayList_DeepCopy : heap cell -> option (ptr GatewayList) -> heap cell * option (ptr GatewayList) :=
  copy_new GatewayList_DeepCopyInto.

(** [runtime.Object]: a pointer to one of the two kinds, or nil. *)
Inductive object := ObjGateway (p : ptr Gateway) | ObjGatewayList (p : ptr GatewayList).

Definition Gateway_DeepCopyObject (h : heap cell) (in_ : option (ptr Gateway)) : heap cell * option object :=
  let '(h, c) := Gateway_DeepCopy h in_ in (h, ObjGateway <$> c).
Definition GatewayList_DeepCopyObject (h : heap cell) (in_ : option (ptr GatewayList)) : heap cell * option object :=
  let '(h, c) := GatewayList_DeepCopy h in_ in (h, ObjGatewayList <$> c).

(** ** Proofs *)

(** A struct is copied when its fields are, in the order of the code. *)
Ltac copy_fields fields :=
  let h := fresh "h" in let x := fresh "x" in let Hl := fresh "Hl" in
  intros h x Hl; change (live h (fields x)) in Hl; unfold fields in Hl; rewrite ?live_pair in Hl;
  repeat match goal with |- context [let '(_, _) := ?e in _] => let E := fresh "E" in destruct e as [? ?] eqn:E end;
  cbn [fst snd];
  match goal with |- copied ?h ?x ?h' ?y => change (copied h (fields x) h' (fields y)) end;
  unfold fields;
  cbn [ad_Type ad_External g_ProjectID g_Region g_Zone g_MachineType g_Image g_DiskSizeGB g_Address g_Spot g_Replicas g_Zones
    g_LoadBalancer l_Replicas l_NodeSelector l_HealthPort r_Image r_Port r_Replicas r_Resources s_GCP s_Wireguard s_Link
    s_Provider s_TrafficPolicy s_Forwards s_DNSHostnames s_Responder st_Address st_ServiceAccountEmail st_Link
    st_GCP st_Conditions gw_TypeMeta gw_ObjectMeta gw_Spec gw_Status gl_TypeMeta gl_ListMeta gl_Items];
  repeat match goal with E : _ = (?h', ?y) |- copied _ (_, _) ?h' (_, ?y) =>
    refine (copied_next _ _ _ _ _ _ _ _ E _ _); [tauto|] end;
  exact (copy_plain_ok _ _ (empty_subseteq _)).

#[export] Instance AddressSpec_copies : DeepCopier AddressSpec_DeepCopyInto.
Proof. unfold AddressSpec_DeepCopyInto. copy_fields Address_fields. Qed.

#[export] Instance GCPSpec_copies : DeepCopier GCPSpec_DeepCopyInto.
Proof. unfold GCPSpec_DeepCopyInto. copy_fields GCPSpec_fields. Qed.

#[export] Instance LinkSpec_copies : DeepCopier LinkSpec_DeepCopyInto.
Proof. unfold LinkSpec_DeepCopyInto. copy_fields LinkSpec_fields. Qed.

#[export] Instance ResponderSpec_copies : DeepCopier ResponderSpec_DeepCopyInto.
Proof. unfold ResponderSpec_DeepCopyInto. copy_fields Responder_fields. Qed.

#[export] Instance Spec_copies : DeepCopier Spec_DeepCopyInto.
Proof. unfold Spec_DeepCopyInto. copy_fields Spec_fields. Qed.

#[export] Instance GCPStatus_copies : DeepCopier GCPStatus_DeepCopyInto.
Proof.
  intros h x Hl. pose proof (deep_copy (f := copy_slice) h (gs_Members x) Hl) as Hc. unfold GCPStatus_DeepCopyInto.
  destruct (copy_slice h (gs_Members x)) as [h1 y]. exact Hc.
Qed.

#[export] Instance Status_copies : DeepCopier Status_DeepCopyInto.
Proof. unfold Status_DeepCopyInto. copy_fields Status_fields. Qed.

#[export] Instance Gateway_copies : DeepCopier Gateway_DeepCopyInto.
Proof. unfold Gateway_DeepCopyInto. copy_fields Gateway_fields. Qed.

#[export] Instance GatewayList_copies : DeepCopier GatewayList_DeepCopyInto.
Proof. unfold GatewayList_DeepCopyInto. copy_fields List_fields. Qed.

(** What is handed out for [x]: it reads as [x] and changes nothing allocated; whatever is
    then written through it, or allocated, does not show in [x], nor the other way round. *)
Definition isolated_copy {T} `{!Shape (C := cell) T} (h : heap cell) (x : T) (r : heap cell * T) : Prop :=
  h ⊆ r.1 /\ read r.1 r.2 = read h x /\
  (forall h2, (forall l, l ∈ dom r.1 -> l ∉ reach r.1 r.2 -> h2 !! l = r.1 !! l) -> read h2 x = read h x) /\
  (forall h2, (forall l, l ∈ dom r.1 -> l ∉ reach r.1 x -> h2 !! l = r.1 !! l) -> read h2 r.2 = read h x).

Lemma copier_isolates {T} `{!Shape (C := cell) T} f `{!DeepCopier (T := T) f} h x : live h x -> isolated_copy h x (f h x).
Proof.
  intros Hl. pose proof (deep_copy h x Hl) as Hc. destruct (copied_isolated _ _ _ _ Hl Hc) as [H1 H2].
  destruct Hc as (Hs & Hr & _). by split_and!.
Qed.
End Copies.

(** C20: The objects the operator's caches hand out are its own. The generated deep copy of a
    Gateway, and of a list of them, reads field by field as the original, nil pointers,
    slices and maps included, and shares no memory with it: no write through the copy, to a
    slice's element, a map's entry or a pointer's target, shows in the original, and none
    through the original in the copy. A nil pointer is copied to a nil interface. *)
Theorem deepcopy_isolated `{AC : ApiCopies} h (gw : option (ptr Gateway)) (gws : option (ptr GatewayList)) :
  (live h gw -> isolated_copy h gw (Gateway_DeepCopy h gw)) /\
  (live h gws -> isolated_copy h gws (GatewayList_DeepCopy h gws)) /\
  (Gateway_DeepCopyObject h gw).2 = ObjGateway <$> (Gateway_DeepCopy h gw).2 /\
  ((Gateway_DeepCopyObject h gw).2 = None <-> gw = None) /\
  ((GatewayList_DeepCopyObject h gws).2 = None <-> gws = None).
Proof.
  split; [exact (copier_isolates Gateway_DeepCopy h gw)|]. split; [exact (copier_isolates GatewayList_DeepCopy h gws)|].
  unfold Gateway_DeepCopyObject, GatewayList_DeepCopyObject, Gateway_DeepCopy, GatewayList_DeepCopy, copy_new.
  split_and!.
  - by destruct (match gw with Some _ => _ | None => _ end).
  - destruct gw as [p|]; [|done]. destruct (alloc _ _) as [h1 l]. by destruct (Gateway_DeepCopyInto _ _).
  - destruct gws as [p|]; [|done]. destruct (alloc _ _) as [h1 l]. by destruct (GatewayList_DeepCopyInto _ _).
Qed.

(** ** A sample: a Gateway with annotations, zones and forwards *)
#[local] Instance sample_api : ApiMachinery :=
  {| TypeMeta := string; zero_TypeMeta := ""; ObjectMeta := option gomap; zero_ObjectMeta := None; ListMeta := string; zero_ListMeta := "";
     ResourceRequirements := string; zero_Resources := ""; Condition := bool; zero_Condition := false; Foreign := unit |}.

Definition sample_map : Shape (C := cell) (option gomap) := map_Shape.
Definition sample_plain : Shape (C := cell) string := plain string.

#[local] Instance sample_copies : ApiCopies :=
  {| ObjectMeta_Shape := sample_map; ListMeta_Shape := sample_plain; Resources_Shape := sample_plain; Condition_Shape := bool_Shape;
     ObjectMeta_DeepCopyInto := copy_map; ListMeta_DeepCopyInto := fun h x => (h, x);
     Resources_DeepCopyInto := fun h x => (h, x); Condition_DeepCopyInto := fun h x => (h, x);
     ObjectMeta_copies := copy_map_ok; ListMeta_copies := copy_plain_ok (T := string); Resources_copies := copy_plain_ok (T := string);
     Condition_copies := copy_plain_ok (T := bool) |}.

Definition sample_gateway : Gateway :=
  mkGateway "Gateway" (Some (mkGoMap 1))
    (mkSpec (mkGCPSpec "p" "r" "r-a" "" "" 10 zero_Address false 2 (Some (mkSlice 2 1 2 2)) None) zero_Wireguard zero_LinkSpec "gcp" "Local"
       (Some (mkSlice 3 0 1 1)) None (mkResponderSpec "" 0 0 "res"))
    (mkStatus "" "" (mkLinkStatus 7 "n1") (mkGCPStatus None) None).
Definition sample_heap : heap cell :=
  <[1%positive := CMap [{["a" := "b"]}]]> (<[2%positive := CString ["w"; "x"; "y"]]>
    (<[3%positive := CForward [mkForward 80 "TCP" "web" "" 0]]> {[4%positive := CGateway [sample_gateway]]})).
Definition sample_ptr : option (ptr Gateway) := Some (mkPtr 4 0).

(** The zones of the copy, at location 7, are overwritten. *)
Definition sample_copy : heap cell * option (ptr Gateway) := Gateway_DeepCopy sample_heap sample_ptr.
Definition sample_write : heap cell := store sample_copy.1 7 0 ("changed" : string).

Lemma deepcopy_isolated_witness :
  elem sample_write 7 0 = "changed" /\ 7%positive ∈ reach sample_copy.1 sample_copy.2 /\
  read sample_write sample_ptr = read sample_heap sample_ptr.
Proof.
  assert (Hl : live sample_heap sample_ptr) by (unfold live; apply (bool_decide_unpack _); vm_compute; exact I).
  destruct (proj1 (deepcopy_isolated sample_heap sample_ptr None) Hl) as (_ & _ & H & _).
  assert (Hk : 7%positive ∈ reach sample_copy.1 sample_copy.2) by (apply (bool_decide_unpack _); vm_compute; exact I).
  split; [vm_compute; reflexivity|]. split; [exact Hk|]. apply H. intros l _ Hr.
  unfold sample_write, store. apply lookup_insert_ne. intros <-. by apply Hr.
Defined.
